(* ===== verification/_CoqProject ===== *)
-Q . S2P
Prelude.v
Conc.v
Text.v
Float.v
Sha256.v
Core.v
Table.v
Ulid.v
Store.v
Reconcile.v
Verify.v
Challenges.v
Netip.v
Ingest.v
Netflow.v
Traffic.v
Window.v
Regexp.v
Parse.v
Detect.v
Correlate.v
Notify.v
Hfs.v
Loglight.v
Sqlite.v
Pipeline.v
Shape.v
Sched.v
Stores.v
System.v
AiClient.v
License.v
Web.v
Api.v
Console.v
Main.v
Wiring.v
Tasks.v
Requests.v
Live.v
Boot.v
Readers.v
Goroutines.v
Health.v
Races.v
Attack.v
Delivery.v
