(* ===== verification/Prelude.v ===== *)
(** * Loglight: a verification library

    Loglight ([src/cmd/loglight/main.go]) watches logs and network flows. Readers
    ([src/logingest], [src/netflow]) turn lines and datagrams into events; the
    pipeline ([src/loglight/pipeline.go]) gives each event to the detectors
    ([src/detect]) and the kill-chain correlator ([src/correlate]), stores what
    they fire as detection records and open findings, and tells the dispatcher
    ([src/notify]): path A. The scheduler ([src/sched]) polls every source; the
    module's collector ([src/loglight/loglight.go]) reports the detections that are
    still active and the reconcile engine ([src/store/reconcile.go]) opens,
    refreshes and resolves findings: path B. Flows also feed the traffic graph
    ([src/traffic]). The dashboard ([src/web]) and the source console
    ([src/loglight/console.go]) read and triage findings and change sources, under
    the limits of a licence ([src/license]); an optional client ([src/internal/aiclient])
    has findings explained.

    ** Files

    Go itself: [Prelude.v] (machine integers, results, panics, the state-and-error
    monad [M], times in nanoseconds, map iteration, [sort.Slice]), [Text.v]
    (strings as bytes, UTF-8, trimming, formatting), [Float.v] (binary64),
    [Sha256.v], [Netip.v] (addresses), [Regexp.v] (a matcher and the program's
    expressions), [Table.v] (SQL tables, statements that may fail).

    Components, each with its state, operations and invariant:
    - [Core.v]: findings, targets, fingerprints (core/*.go).
    - [Ulid.v], [Store.v], [Reconcile.v]: ids, the store interface and the in-memory
      store, the reconcile engine (store/*.go). [StoreOps] is the interface of
      the code; [StoreSpec] is what an implementation promises; [StoreJSON] what
      it does with evidence. [TargetStoreSpec] is the same for saved targets.
    - [Verify.v], [Challenges.v]: ownership challenges (verify/*.go,
      store/verify_sqlite.go).
    - [Ingest.v], [Parse.v]: the ingest engine, the file tailer, syslog and vendor
      parsing, what each reader emits (logingest/*.go).
    - [Netflow.v], [Traffic.v]: NetFlow v5, v9, IPFIX and the flow graph.
    - [Window.v], [Detect.v], [Correlate.v]: windowed state, detectors, kill chains.
      [WindowSpec] and [DetectorSpec] are the interfaces the engine's theorems use.
    - [Notify.v], [Hfs.v]: dispatcher, channels, schema events.
    - [Loglight.v], [Pipeline.v], [Console.v]: records, sources, their store
      ([LogStoreSpec]), the collector, path A, the console.
    - [Sqlite.v]: the production stores over one database, as instances of the
      same interfaces; [Stores.v] compares them with the in-memory ones.
    - [Sched.v], [AiClient.v], [License.v], [Web.v], [Api.v].
    - [Main.v]: the callbacks and loops that [main] wires together.

    The whole: [Shape.v] (what is stored is well formed), [System.v] (both paths),
    [Wiring.v] (stores, scheduler, readers in step), [Live.v] (the program as a step
    relation on one [World]), [Boot.v] (its start, from the flags on, and its end), [Readers.v]
    (the [Run] methods of the sources), [Attack.v] (from failed logins to alerts).

    What happens at the same time: [Conc.v] is a goroutine as a sequence of calls
    ([prog]), pools of them, schedules, the proof rule for invariants ([sound]: rely
    and guarantee) and termination. [Tasks.v] writes a reconcile, a delivery and a
    triage request call by call, [Requests.v] the requests that save, remove, add and
    delete sources and targets; each, run alone, is the definition of its component.
    [Goroutines.v] lets scans, deliveries and triage run together on the [World],
    with the other requests as single steps, and the parts stay in step ([safe]);
    [Health.v] takes those requests apart as well, and what remains true is
    [healthy]. The class [WorldInv] is what the goroutines need of either, so that
    their proofs are the same. [Delivery.v] follows a delivery among them to its
    alert; [Races.v] holds the interleavings that no order of the whole operations
    explains. What a goroutine may rely on the others to do to the dispatcher is the
    class [Watch].

    ** Conventions

    Record fields carry the source's names with a prefix. A Go [error] is the
    [Err] of a [result]; an operation on a store or a server is a function from
    its state to its state and a result, so that errors in the middle keep what
    was done before. A panic is [Panic] of [outcome]. Times are [Z] nanoseconds,
    zero for the zero time, and [time_Sub] saturates as Go's does; wall-clock reads,
    random bytes, the order of map iteration ([MapRange]), the sort ([SortSlice])
    and I/O failures are arguments. [gmap] models Go maps. Widths are explicit:
    [int64], [uint16], bytes in range.

    ** What is shown

    - The program as a whole: [anything_interleaves] (every interleaving of
      everything), [interleaved_safe] (what the parts keep in step while the requests
      that change sources do not overlap; [live_safe] is the same for whole
      operations), [race_loses_no_alert], [boot_safe], [intrusion_is_reported],
      [detection_lifecycle], [restart_restores], [console_keeps_wired],
      [save_all_or_nothing], [stored_findings_ingestible].
    - What overlapping operations break: [triage_lost], [saves_pass_the_limit],
      [removal_leaves_reader], [overflow_loses_flow], [unlocked_detector_misses]; and
      what a single one does: [target_removal_orphans_source].
    - Reconciling: [Reconcile_refines_scan] gives the engine's contract as a
      specification of one scan; [absent_finding_resolves], [triage_is_kept];
      [sqlite_agrees_with_memstore] makes the two stores agree run by run;
      [interrupted_scan_loses_alerts] and [recurrence_reopens_triaged] pin down two
      behaviours that are not what the code means to do.
    - Detection: [slidingCounter_exact], [brute_force_threshold],
      [detections_respect_cooldown], [detector_state_bounded], [incidents_sound],
      [kill_chain_completes].
    - Input: [syslog_reader_sound], [parsed_events_ok], [december_line_is_future],
      [tail_lossless], [split_line_loses_prefix], [unreadable_rotation_panics], [ParseDatagram_safe],
      [flow_sets_terminates], [decodeData_roundtrip].
    - Output: [dispatcher_refines_buffer], [no_alert_lost],
      [syslog_one_frame_per_finding], [traffic_conserved], [snapshot_links].
    - Limits and secrets: [Activate_sound], [license_roundtrip], [set_license_safe],
      [targets_within_cap], [api_only_triages], [explain_is_gated],
      [SanitizeEvidence_clean], [Explain_attempts], [retry_backoff_isolated];
      [sweep_reaches_all]: no source is given up.

    ** Fuel and bounds

    [flow_sets] and the data-record loop of [Netflow.v] run on the length of the
    datagram, which [flow_sets_terminates] and [ParseDatagram_safe] show to be
    enough. The other loops with fuel are bounded by their input: [utf8_runes] and
    [find_all] by the length of the text, [parse_groups] and [zero_run] by the
    eight groups of an address, [human_scale] by the seven units below 2^70; what
    is proved of them holds of the value they return, for any fuel. The retries of
    [attempts] are the configured number. Everything else recurs on its data.

    ** Assumptions

    Named hypotheses, each with an instance in the witnesses: ids are fresh
    ([fresh_ids]: 80 random bits in a ULID), JSON encodes and reads back plain
    values ([JSONEncoder], [JSONRoundtrip], [LogCodec], [LicenseJSON], [AiJSON]),
    Ed25519 verifies what it signed, map iteration is a permutation, the sort
    sorts. Source and module names hold no NUL ([valid_source], [valid_module]): the
    in-memory stores join keys with it. The clock is UTC. SQL timestamps compare
    as their times.

    ** Not modelled

    Sockets and processes beyond what their reads and errors tell a reader, files
    beyond the tailer's view of one path, HTTP routing and static pages, the SQL
    driver, the parsing of flags, signals, hexward-core's schema and sinks, the text
    of the command line help. A call to one component is one step: the memory
    accesses inside it do not interleave. The stores, the scheduler, the dispatcher
    and the graph hold a lock for it; the detectors and the correlator hold none
    although several readers call them (a finding). What that can do is shown for the
    brute-force detector, whose accesses [Races.v] takes apart; the theorems on the
    program as a whole, and on the other detectors, take a delivery's call to the
    detectors as one step. The dashboard's
    requests that change neither a finding nor a target (the licence, the pages, the
    explanations) count as one step everywhere. *)
From Stdlib Require Export ZArith Ascii.
From stdpp Require Export numbers gmap strings pretty sorting fin_maps prelude list.

(** * Notation scope and automation shared by every file *)

Declare Scope go_scope.
Delimit Scope go_scope with go.
Create HintDb go.
Create Rewrite HintDb go.

(** * Machine integers *)

Definition MaxInt64 : Z := 9223372036854775807%Z.
Definition MinInt64 : Z := (-9223372036854775808)%Z.

(** Two's complement conversion to [int64]. *)
Definition int64 (z : Z) : Z := ((z + 2 ^ 63) mod 2 ^ 64 - 2 ^ 63)%Z.

(** Conversion to an unsigned integer of [w] bits. *)
Definition uintw (w z : Z) : Z := (z mod 2 ^ w)%Z.
Definition uint64 (z : Z) : Z := uintw 64 z.
Definition uint32 (z : Z) : Z := uintw 32 z.
Definition uint16 (z : Z) : Z := uintw 16 z.
Definition uint8 (z : Z) : Z := uintw 8 z.

Definition in_int64 (z : Z) : Prop := (MinInt64 <= z <= MaxInt64)%Z.

(** A byte sequence as the code's [[]byte]: integers, well formed when each is
    in range. *)
Definition is_byte (b : Z) : Prop := (0 <= b < 256)%Z.
Abbreviation bytes := (list Z).
Definition wf_bytes (b : bytes) : Prop := Forall is_byte b.

Section int_lemmas.
Local Open Scope Z_scope.

Lemma int64_range z : in_int64 (int64 z).
Proof.
  unfold in_int64, int64, MinInt64, MaxInt64.
  pose proof (Z.mod_pos_bound (z + 2 ^ 63) (2 ^ 64)). lia.
Qed.

Lemma int64_small z : in_int64 z → int64 z = z.
Proof.
  unfold in_int64, int64, MinInt64, MaxInt64. intros H.
  rewrite Z.mod_small; lia.
Qed.

Lemma uintw_range w z : 0 <= w → 0 <= uintw w z < 2 ^ w.
Proof. intros Hw. apply Z.mod_pos_bound. by apply Z.pow_pos_nonneg. Qed.

Lemma uint8_byte z : is_byte (uint8 z).
Proof. unfold is_byte, uint8. by apply (uintw_range 8). Qed.

Lemma uintw_small w z : 0 <= z < 2 ^ w → uintw w z = z.
Proof. apply Z.mod_small. Qed.
End int_lemmas.

#[export] Hint Resolve int64_range uint8_byte : go.

(** * Errors *)

(** A Go call that returns [(value, error)]. *)
Inductive result (E A : Type) : Type :=
| Ok (a : A)
| Err (e : E).
Arguments Ok {E A} a.
Arguments Err {E A} e.

Definition is_ok {E A} (r : result E A) : bool :=
  match r with Ok _ => true | Err _ => false end.

Lemma Ok_inj {E A} (a b : A) : @Ok E A a = Ok b → a = b.
Proof. congruence. Qed.

#[export] Instance result_mret E : MRet (result E) := λ A a, Ok a.
#[export] Instance result_mbind E : MBind (result E) :=
  λ A B f r, match r with Ok a => f a | Err e => Err e end.

(** Outcome of code that indexes slices: it returns, or it panics. A loop that
    is given [fuel] steps may also run out of them. *)
Inductive outcome (A : Type) : Type :=
| Done (a : A)
| Panic
| OutOfFuel.
Arguments Done {A} a.
Arguments Panic {A}.
Arguments OutOfFuel {A}.

#[export] Instance outcome_mret : MRet outcome := λ A a, Done a.
#[export] Instance outcome_mbind : MBind outcome :=
  λ A B f r, match r with Done a => f a | Panic => Panic | OutOfFuel => OutOfFuel end.

(** [wp m P]: the code returns, and its result satisfies [P]. *)
Definition wp {A} (m : outcome A) (P : A → Prop) : Prop := ∃ a, m = Done a ∧ P a.

Lemma wp_done {A} (a : A) (P : A → Prop) : P a → wp (Done a) P.
Proof. intros HP. by exists a. Qed.

Lemma wp_bind {A B} (m : outcome A) (f : A → outcome B) (Q : A → Prop) (P : B → Prop) :
  wp m Q → (∀ a, Q a → wp (f a) P) → wp (m ≫= f) P.
Proof. intros (a & -> & HQ) Hf. exact (Hf a HQ). Qed.

Lemma wp_mono {A} (m : outcome A) (P Q : A → Prop) :
  wp m P → (∀ a, P a → Q a) → wp m Q.
Proof. intros (a & -> & HP) HPQ. exists a. auto. Qed.

(** * State and error monad *)

(** A computation over a mutable state [S] that may return an error; the state
    reached before the error is kept, as it is when a Go function returns
    early. *)
Definition M (S E A : Type) : Type := S → S * result E A.

#[export] Instance M_mret S E : MRet (M S E) := λ A a s, (s, Ok a).
#[export] Instance M_mbind S E : MBind (M S E) :=
  λ A B f m s, match m s with (s', Ok a) => f a s' | (s', Err e) => (s', Err e) end.

Definition mfail {S E A} (e : E) : M S E A := λ s, (s, Err e).

(** A pure call that may fail. *)
Definition mlift {S E A} (r : result E A) : M S E A := λ s, (s, r).

(** * Time *)

(** A [time.Time] is the number of nanoseconds since Go's zero time
    (0001-01-01T00:00:00Z), so the zero value of the type is [0]. A
    [time.Duration] is an [int64] number of nanoseconds. *)
Definition Nanosecond : Z := 1.
Definition Millisecond : Z := 1000000.
Definition Second : Z := 1000000000.
Definition Minute : Z := 60000000000.
Definition Hour : Z := 3600000000000.

(** Seconds from the zero time to the Unix epoch. *)
Definition unixEpochSeconds : Z := 62135596800.

Definition time_IsZero (t : Z) : bool := Z.eqb t 0.
Definition time_Before (t u : Z) : bool := Z.ltb t u.
Definition time_After (t u : Z) : bool := Z.ltb u t.
Definition time_Add (t d : Z) : Z := (t + d)%Z.

(** [Time.Sub] saturates at the bounds of [Duration]. *)
Definition time_Sub (t u : Z) : Z := Z.max MinInt64 (Z.min MaxInt64 (t - u)).

(** [Time.UnixMilli]. *)
Definition time_UnixMilli (t : Z) : Z :=
  ((t - unixEpochSeconds * Second) `div` Millisecond)%Z.

(** [time.Unix(secs, 0)]. *)
Definition time_Unix (secs : Z) : Z := ((secs + unixEpochSeconds) * Second)%Z.

Section time_lemmas.
Local Open Scope Z_scope.

Lemma time_Sub_range t u : in_int64 (time_Sub t u).
Proof. unfold in_int64, time_Sub, MinInt64, MaxInt64. lia. Qed.

Lemma time_Sub_exact t u : in_int64 (t - u) → time_Sub t u = t - u.
Proof. unfold in_int64, time_Sub, MinInt64, MaxInt64. lia. Qed.

(** The comparison with a representable duration is exact, whatever the
    distance between the times: saturation never changes it. *)
Lemma time_Sub_ltb t u d :
  in_int64 d → MinInt64 < d → Z.ltb (time_Sub t u) d = Z.ltb (t - u) d.
Proof.
  unfold in_int64, time_Sub, MinInt64, MaxInt64. intros Hd Hd'.
  destruct (Z.ltb_spec (t - u) d); destruct (Z.ltb_spec
    (Z.max (-9223372036854775808) (Z.min 9223372036854775807 (t - u))) d); lia.
Qed.

Lemma time_Sub_leb t u d :
  in_int64 d → d < MaxInt64 → Z.leb (time_Sub t u) d = Z.leb (t - u) d.
Proof.
  unfold in_int64, time_Sub, MinInt64, MaxInt64. intros Hd Hd'.
  destruct (Z.leb_spec (t - u) d); destruct (Z.leb_spec
    (Z.max (-9223372036854775808) (Z.min 9223372036854775807 (t - u))) d); lia.
Qed.
End time_lemmas.

#[export] Hint Resolve time_Sub_range : go.

(** * Strings *)

(** String concatenation of a list of pieces, the shape [fmt.Sprintf] takes. *)
Definition sprint (l : list string) : string := String.concat "" l.

Definition str_eqb (a b : string) : bool := bool_decide (a = b).
Definition is_empty (s : string) : bool := str_eqb s "".

Lemma is_empty_false s : s ≠ "" → is_empty s = false.
Proof. intros Hs. unfold is_empty, str_eqb. by apply bool_decide_eq_false. Qed.

(** [%d] of an integer. *)
Definition dec (z : Z) : string := pretty z.

(** The NUL byte the code uses to separate the parts of a composite key. *)
Definition nul : string := String (Ascii.ascii_of_nat 0) EmptyString.

(** * Tactics *)

(** Case analysis on every boolean or option the goal branches on. *)
Ltac case_ifs :=
  repeat match goal with
  | |- context [if ?b then _ else _] =>
      match type of b with
      | bool => let E := fresh "E" in destruct b eqn:E
      | _ => case_decide
      end
  end.

(** Turn boolean comparisons in the context and goal into propositions. *)
Ltac to_prop :=
  repeat match goal with
  | H : bool_decide _ = true |- _ => apply bool_decide_eq_true in H
  | H : bool_decide _ = false |- _ => apply bool_decide_eq_false in H
  | H : Z.ltb _ _ = true |- _ => apply Z.ltb_lt in H
  | H : Z.ltb _ _ = false |- _ => apply Z.ltb_ge in H
  | H : Z.leb _ _ = true |- _ => apply Z.leb_le in H
  | H : Z.leb _ _ = false |- _ => apply Z.leb_gt in H
  | H : Z.eqb _ _ = true |- _ => apply Z.eqb_eq in H
  | H : Z.eqb _ _ = false |- _ => apply Z.eqb_neq in H
  | H : negb _ = true |- _ => apply negb_true_iff in H
  | H : negb _ = false |- _ => apply negb_false_iff in H
  | H : andb _ _ = true |- _ => apply andb_true_iff in H as [? ?]
  | H : orb _ _ = false |- _ => apply orb_false_iff in H as [? ?]
  | H : str_eqb _ _ = _ |- _ => unfold str_eqb in H
  | H : is_empty _ = _ |- _ => unfold is_empty in H
  end.

(** Decide a goal about [int64] bounds. *)
Ltac int_lia :=
  unfold in_int64, MinInt64, MaxInt64, is_byte in *; lia.

(** * Lists and options *)

(** Left folds keep an invariant. *)
Lemma foldl_inv {A B} (f : A → B → A) (P : A → Prop) l a :
  P a → (∀ a b, b ∈ l → P a → P (f a b)) → P (foldl f a l).
Proof.
  revert a. induction l as [|b l IH]; intros a Ha Hf; [done|]; simpl.
  apply IH; [|intros; apply Hf; [by right|done]].
  apply Hf; [by left|done].
Qed.

Lemma filter_true {A} (P : A → Prop) `{∀ x, Decision (P x)} l :
  Forall P l → filter P l = l.
Proof.
  induction 1; [done|]. rewrite filter_cons_True by done. by f_equal.
Qed.

Lemma filter_none {A} (P : A → Prop) `{∀ x, Decision (P x)} l :
  Forall (λ x, ¬ P x) l → filter P l = [].
Proof. induction 1; [done|]. by rewrite filter_cons_False by done. Qed.

Lemma Forall_sublist {A} (P : A → Prop) l k : l `sublist_of` k → Forall P k → Forall P l.
Proof.
  induction 1 as [|x l k _ IH|x l k _ IH]; intros Hk; [done| |];
    apply Forall_cons in Hk as [? Hk]; auto.
Qed.

Lemma filter_ext_in {A} (P Q : A → Prop) `{∀ x, Decision (P x)} `{∀ x, Decision (Q x)} (l : list A) :
  (∀ x, x ∈ l → P x ↔ Q x) → filter P l = filter Q l.
Proof.
  induction l as [|x l IH]; intros Hpq; [done|]. rewrite !filter_cons.
  rewrite IH by (intros; apply Hpq; by right). specialize (Hpq x ltac:(by left)).
  destruct (decide (P x)), (decide (Q x)); naive_solver.
Qed.

(** The default a Go map returns for an absent key. *)
Definition map_get {V} (d : V) (m : gmap string V) (k : string) : V :=
  default d (m !! k).

Definition map_has {V} (m : gmap string V) (k : string) : bool :=
  bool_decide (is_Some (m !! k)).

Lemma map_get_insert_eq {V} (d v : V) m k : map_get d (<[k:=v]> m) k = v.
Proof. unfold map_get. by rewrite lookup_insert_eq. Qed.

Lemma map_get_insert_ne {V} (d v : V) m k k' :
  k ≠ k' → map_get d (<[k:=v]> m) k' = map_get d m k'.
Proof. intros. unfold map_get. by rewrite lookup_insert_ne. Qed.

Lemma map_get_delete_eq {V} (d : V) m k : map_get d (delete k m) k = d.
Proof. unfold map_get. by rewrite lookup_delete_eq. Qed.

Lemma map_get_delete_ne {V} (d : V) m k k' :
  k ≠ k' → map_get d (delete k m) k' = map_get d m k'.
Proof. intros. unfold map_get. by rewrite lookup_delete_ne. Qed.

#[export] Hint Rewrite @map_get_insert_eq @map_get_delete_eq : go.

(** [for k, v := range m]: Go visits the entries of a map in an unspecified
    order. Code that ranges over a map is modelled for every such order. *)
Class MapRange := {
  range_map : ∀ {V}, gmap string V → list (string * V);
  range_map_perm : ∀ V (m : gmap string V), range_map m ≡ₚ map_to_list m;
}.

(** One possible order, for running examples. *)
Program Definition canonical_range : MapRange := {| range_map V m := map_to_list m |}.
Next Obligation. done. Qed.

Lemma elem_of_range_map `{MapRange} {V} (m : gmap string V) k v :
  (k, v) ∈ range_map m ↔ m !! k = Some v.
Proof. by rewrite range_map_perm, elem_of_map_to_list. Qed.

(** [sort.Slice]: the result is a permutation sorted by [less]; elements neither
    of which is less than the other may come in any order. *)
Definition weak_order {A} (less : A → A → bool) : Prop :=
  (∀ a b, less a b = true → less b a = false) ∧
  (∀ a b c, less b a = false → less c b = false → less c a = false).

Class SortSlice := {
  sort_slice : ∀ {A}, (A → A → bool) → list A → list A;
  sort_slice_perm : ∀ A (less : A → A → bool) l, sort_slice less l ≡ₚ l;
  sort_slice_sorted : ∀ A (less : A → A → bool) l, weak_order less →
    StronglySorted (λ a b, less b a = false) (sort_slice less l);
}.

(** A merge sort is one such sort, for running examples. *)
Program Definition canonical_sort : SortSlice :=
  {| sort_slice A less l :=
       @merge_sort A (λ a b, less b a = false) (λ a b, decide (less b a = false)) l |}.
Next Obligation. intros. apply merge_sort_Permutation. Qed.
Next Obligation.
  intros A less l [Hasym Htr]. apply StronglySorted_merge_sort.
  - intros a b c. apply Htr.
  - intros a b. destruct (less b a) eqn:Hba; [right; by apply Hasym|by left].
Qed.

(** * Composite keys *)

(** Strings as character lists, and the lemmas that make keys built from
    separated parts injective. *)
Fixpoint has_char (c : Ascii.ascii) (s : string) : bool :=
  match s with
  | EmptyString => false
  | String a s' => if Ascii.eqb a c then true else has_char c s'
  end.

Lemma append_sep_inj c a b a' b' :
  has_char c a = false → has_char c a' = false →
  (a +:+ String c b) = (a' +:+ String c b') → a = a' ∧ b = b'.
Proof.
  revert a'. induction a as [|x a IH]; intros [|x' a'] Ha Ha' He; simpl in *.
  - by simplify_eq.
  - simplify_eq. by rewrite Ascii.eqb_refl in Ha'.
  - simplify_eq. by rewrite Ascii.eqb_refl in Ha.
  - destruct (Ascii.eqb x c); [done|]. destruct (Ascii.eqb x' c); [done|].
    injection He as -> He. by destruct (IH a' Ha Ha' He) as [-> ->].
Qed.

Lemma append_cons c a b : String c a +:+ b = String c (a +:+ b).
Proof. done. Qed.

Lemma append_nil_l b : "" +:+ b = b.
Proof. done. Qed.

Lemma append_nil_r a : a +:+ "" = a.
Proof. induction a as [|c a IH]; [done|]. by rewrite append_cons, IH. Qed.

Lemma append_assoc a b c : (a +:+ b) +:+ c = a +:+ (b +:+ c).
Proof. induction a as [|x a IH]; [done|]. by rewrite !append_cons, IH. Qed.

Lemma append_inj_l a b b' : (a +:+ b) = (a +:+ b') → b = b'.
Proof. induction a; simpl; [done|]. intros [= H]. auto. Qed.

Lemma has_char_app c a b : has_char c (a +:+ b) = has_char c a || has_char c b.
Proof. induction a as [|x a IH]; [done|]. rewrite append_cons. cbn. by destruct (Ascii.eqb x c). Qed.

(** The separator before a suffix that does not hold it. *)
Lemma append_sep_inj_r c a b a' b' :
  has_char c b = false → has_char c b' = false →
  (a +:+ String c b) = (a' +:+ String c b') → a = a' ∧ b = b'.
Proof.
  revert a'. induction a as [|x a IH]; intros [|x' a'] Hb Hb'; rewrite ?append_cons, ?append_nil_l.
  - intros He. by simplify_eq.
  - intros [= -> ->]. rewrite has_char_app in Hb. cbn in Hb.
    by rewrite Ascii.eqb_refl, orb_true_r in Hb.
  - intros [= -> <-]. rewrite has_char_app in Hb'. cbn in Hb'.
    by rewrite Ascii.eqb_refl, orb_true_r in Hb'.
  - intros [= -> He]. by destruct (IH a' Hb Hb' He) as [-> ->].
Qed.

(** A decimal number holds only digits and the minus sign. *)
Definition not_decimal (c : Ascii.ascii) : bool :=
  negb (has_char c "-0123456789").

Lemma not_decimal_neq c d :
  not_decimal c = true → has_char d "-0123456789" = true → Ascii.eqb d c = false.
Proof.
  unfold not_decimal. intros Hc Hd. destruct (Ascii.eqb_spec d c) as [->|]; [|done].
  by rewrite Hd in Hc.
Qed.

Lemma has_char_pretty_N_char c n : not_decimal c = true → Ascii.eqb (pretty_N_char n) c = false.
Proof.
  intros Hc. apply not_decimal_neq; [done|].
  unfold pretty_N_char. by repeat case_match.
Qed.

Lemma has_char_pretty_N_go c x : not_decimal c = true →
  ∀ s, has_char c s = false → has_char c (pretty_N_go x s) = false.
Proof.
  intros Hc. induction (N.lt_wf_0 x) as [x _ IH]; intros s Hs.
  destruct (decide (x = 0)%N) as [->|]; [by rewrite pretty_N_go_0|].
  rewrite pretty_N_go_step by lia. apply IH.
  - apply N.div_lt; lia.
  - cbn. by rewrite has_char_pretty_N_char.
Qed.

Lemma has_char_dec c z : not_decimal c = true → has_char c (dec z) = false.
Proof.
  intros Hc.
  assert (∀ n : N, has_char c (pretty_N n) = false) as Hn.
  { intros n. unfold pretty_N. case_decide.
    - cbn [has_char]. by rewrite not_decimal_neq.
    - by apply has_char_pretty_N_go. }
  unfold dec, pretty, pretty_Z, pretty_positive, pretty.
  destruct z as [|p|p]; [|apply Hn|].
  - cbn [has_char]. by rewrite not_decimal_neq.
  - rewrite append_cons, append_nil_l. cbn [has_char]. by rewrite Hn, not_decimal_neq.
Qed.

Lemma dec_inj a b : dec a = dec b → a = b.
Proof. apply pretty_Z_inj. Qed.
