(* ===== verification/Conc.v ===== *)
(** Goroutines that share a state. A goroutine is a sequence of operations, each
    made under the lock of the component it calls; between two of them any other
    goroutine may run. The file holds the interleaving semantics, the proof rule
    that keeps an invariant under every schedule, and termination. *)
From S2P Require Import Prelude.
From Stdlib Require Import Wellfounded.Inclusion Wellfounded.Inverse_Image.

(** * Goroutines *)

(** [Op m k] makes the call [m] and goes on with its result. *)
Inductive prog (S A : Type) : Type :=
| Ret (a : A)
| Op {B : Type} (m : S → S * B) (k : B → prog S A).
Arguments Ret {S A} a.
Arguments Op {S A B} m k.

Section prog.
Context {S : Type}.

(** Without interference. *)
Fixpoint run_alone {A} (p : prog S A) (s : S) : S * A :=
  match p with
  | Ret a => (s, a)
  | Op m k => let '(s, b) := m s in run_alone (k b) s
  end.

Fixpoint pbind {A C} (g : A → prog S C) (p : prog S A) : prog S C :=
  match p with
  | Ret a => g a
  | Op m k => Op m (λ b, pbind g (k b))
  end.

(** One operation. *)
Definition call {B} (m : S → S * B) : prog S B := Op m Ret.

(** The goroutine makes its next call; a finished one does nothing. *)
Definition advance {A} (p : prog S A) (s : S) : S * prog S A :=
  match p with
  | Ret a => (s, Ret a)
  | Op m k => let '(s, b) := m s in (s, k b)
  end.

Definition finished {A} (p : prog S A) : bool := match p with Ret _ => true | Op _ _ => false end.

(** The [i]-th goroutine of a pool makes its next call. *)
Definition advance_nth {A} (c : S * list (prog S A)) (i : nat) : S * list (prog S A) :=
  match c.2 !! i with
  | Some p => let '(s, p) := advance p c.1 in (s, <[i := p]> c.2)
  | None => c
  end.

(** A schedule names the goroutine of each step. *)
Definition run_schedule {A} (sch : list nat) (c : S * list (prog S A)) : S * list (prog S A) :=
  foldl advance_nth c sch.

Lemma run_pbind {A C} (g : A → prog S C) p : ∀ s,
  run_alone (pbind g p) s = let '(s', a) := run_alone p s in run_alone (g a) s'.
Proof.
  induction p as [a|B m k IH]; intros s; cbn [pbind run_alone]; [done|]. destruct (m s) as [s' b]. apply IH.
Qed.

Lemma run_call {B} (m : S → S * B) s : run_alone (call m) s = m s.
Proof. unfold call. cbn. by destruct (m s). Qed.

(** A goroutine scheduled alone does what [run_alone] does. *)
Lemma run_advance {A} (p : prog S A) s : run_alone (advance p s).2 (advance p s).1 = run_alone p s.
Proof. destruct p as [a|B m k]; [done|]. cbn. by destruct (m s). Qed.

Lemma schedule_app {A} sch sch' (c : S * list (prog S A)) :
  run_schedule (sch ++ sch') c = run_schedule sch' (run_schedule sch c).
Proof. apply foldl_app. Qed.

Lemma schedule_length {A} sch : ∀ c : S * list (prog S A), length (run_schedule sch c).2 = length c.2.
Proof.
  induction sch as [|i sch IH]; intros [s ps]; [done|]. cbn [run_schedule foldl].
  etrans; [apply IH|]. unfold advance_nth. cbn [fst snd].
  destruct (ps !! i) as [p|]; [|done]. destruct (advance p s). cbn. apply length_insert.
Qed.

(** A goroutine that has the processor for [n] calls. *)
Fixpoint advance_n {A} (n : nat) (p : prog S A) (s : S) : S * prog S A :=
  match n with
  | O => (s, p)
  | Datatypes.S n => let '(s, p) := advance p s in advance_n n p s
  end.

Lemma schedule_turn {A} i n : ∀ (p : prog S A) s ps, ps !! i = Some p →
  run_schedule (replicate n i) (s, ps) = ((advance_n n p s).1, <[i := (advance_n n p s).2]> ps).
Proof.
  induction n as [|n IH]; intros p s ps Hp; cbn [replicate run_schedule foldl advance_n fst snd].
  { by rewrite list_insert_id. }
  assert (i < length ps)%nat as Hi by (by eapply lookup_lt_Some).
  unfold advance_nth at 2. cbn [fst snd]. rewrite Hp. destruct (advance p s) as [s' p'].
  etrans; [apply IH; by apply list_lookup_insert_eq|]. by rewrite list_insert_insert_eq.
Qed.

(** A goroutine that has the processor until it ends. *)
Lemma finish_alone {A} i (p : prog S A) : ∀ s ps, ps !! i = Some p →
  ∃ n, run_schedule (replicate n i) (s, ps) = ((run_alone p s).1, <[i := Ret (run_alone p s).2]> ps).
Proof.
  induction p as [a|B m k IH]; intros s ps Hp.
  - exists 0%nat. cbn. by rewrite list_insert_id.
  - assert (i < length ps)%nat as Hi by (by eapply lookup_lt_Some).
    destruct (IH (m s).2 (m s).1 (<[i := k (m s).2]> ps)) as [n Hn]; [by apply list_lookup_insert_eq|].
    exists (Datatypes.S n). cbn [replicate run_schedule foldl]. unfold advance_nth at 2. cbn [fst snd].
    rewrite Hp. cbn [advance run_alone]. destruct (m s) as [s' b]. cbn in *.
    rewrite list_insert_insert_eq in Hn. exact Hn.
Qed.

(** The first goroutine makes some calls, the second all of its own, the first the
    rest. *)
Lemma overtake {A} sch (p q p' : prog S A) s s1 :
  run_schedule sch (s, [p; q]) = (s1, [p'; q]) →
  ∃ sch', run_schedule sch' (s, [p; q]) =
    let '(s2, b) := run_alone q s1 in let '(s3, a) := run_alone p' s2 in (s3, [Ret a; Ret b]).
Proof.
  intros Hp. destruct (finish_alone 1 q s1 [p'; q] eq_refl) as [n Hn].
  destruct (run_alone q s1) as [s2 b]. cbn in Hn.
  destruct (finish_alone 0 p' s2 [p'; Ret b] eq_refl) as [m Hm].
  destruct (run_alone p' s2) as [s3 a]. cbn in Hm.
  exists (sch ++ replicate n 1%nat ++ replicate m 0%nat). by rewrite !schedule_app, Hp, Hn, Hm.
Qed.

(** One after the other. *)
Lemma in_turn {A} (p q : prog S A) s :
  ∃ sch, run_schedule sch (s, [p; q]) =
    let '(s1, a) := run_alone p s in let '(s2, b) := run_alone q s1 in (s2, [Ret a; Ret b]).
Proof.
  destruct (finish_alone 0 p s [p; q] eq_refl) as [n Hn]. destruct (run_alone p s) as [s1 a]. cbn in Hn.
  destruct (finish_alone 1 q s1 [Ret a; q] eq_refl) as [m Hm]. destruct (run_alone q s1) as [s2 b]. cbn in Hm.
  exists (replicate n 0%nat ++ replicate m 1%nat). by rewrite schedule_app, Hn, Hm.
Qed.

(** * Invariants *)

(** [R] is what a goroutine relies on the others to do between two of its calls,
    [G] what each of its own calls does. *)
Section sound.
Context (I : S → Prop) (R G : S → S → Prop) `{!Reflexive R, !Transitive R}.
Hypothesis G_R : ∀ s s', G s s' → R s s'.

(** From [s] on, whatever the others do, every call of the goroutine keeps [I]
    and stays within [G], and the goroutine ends with [Q]. *)
Fixpoint sound {A} (Q : S → A → Prop) (s : S) (p : prog S A) : Prop :=
  match p with
  | Ret a => ∀ s', I s' → R s s' → Q s' a
  | Op m k => ∀ s', I s' → R s s' →
      I (m s').1 ∧ G s' (m s').1 ∧ sound Q (m s').1 (k (m s').2)
  end.

Lemma sound_later {A} (Q : S → A → Prop) s s' p : R s s' → sound Q s p → sound Q s' p.
Proof. intros Hr. destruct p as [a|B m k]; intros Hp s'' Hi Hr'; (apply Hp; [done|by etransitivity]). Qed.

Lemma sound_pbind {A C} (Q : S → A → Prop) (Q' : S → C → Prop) (g : A → prog S C) p : ∀ s, I s →
  (∀ s' a, I s' → R s s' → Q s' a → sound Q' s' (g a)) → sound Q s p → sound Q' s (pbind g p).
Proof.
  induction p as [a|B m k IH]; cbn [sound pbind]; intros s Hi Hg Hp.
  - apply Hg; [done..|]. by apply Hp.
  - intros s' Hi' Hr. destruct (Hp s' Hi' Hr) as (Hi'' & Hg'' & Hk). split_and!; [done..|].
    apply IH; [done| |done]. intros s'' a Hs'' Hr'. apply Hg; [done|].
    etransitivity; [exact Hr|]. etransitivity; [by apply G_R|done].
Qed.

Lemma sound_weaken {A} (Q Q' : S → A → Prop) p : ∀ s,
  (∀ s' a, I s' → R s s' → Q s' a → Q' s' a) → sound Q s p → sound Q' s p.
Proof.
  induction p as [a|B m k IH]; cbn [sound]; intros s HQ Hp.
  - intros s' Hi Hr. by apply HQ, Hp.
  - intros s' Hi Hr. destruct (Hp s' Hi Hr) as (Hi' & Hg' & Hk). split_and!; [done..|].
    apply IH; [|done]. intros s'' a Hi'' Hr'. apply HQ; [done|].
    etransitivity; [exact Hr|]. etransitivity; [by apply G_R|done].
Qed.

Lemma sound_run {A} (Q : S → A → Prop) p : ∀ s, I s → sound Q s p →
  I (run_alone p s).1 ∧ R s (run_alone p s).1 ∧ Q (run_alone p s).1 (run_alone p s).2.
Proof.
  induction p as [a|B m k IH]; cbn [sound run_alone]; intros s Hi Hp.
  - split_and!; [done|done|by apply Hp].
  - destruct (Hp s Hi ltac:(done)) as (Hi' & Hg' & Hk). destruct (m s) as [s' b]. cbn in *.
    destruct (IH b s' Hi' Hk) as (? & ? & ?). split_and!; [done| |done].
    etransitivity; [by apply G_R|done].
Qed.

Lemma advance_sound {A} (Q : S → A → Prop) p s : I s → sound Q s p →
  I (advance p s).1 ∧ R s (advance p s).1 ∧ sound Q (advance p s).1 (advance p s).2.
Proof.
  destruct p as [a|B m k]; cbn [sound advance]; intros Hi Hp; [done|].
  destruct (Hp s Hi ltac:(done)) as (? & ? & ?). destruct (m s). by split_and!; [|apply G_R|].
Qed.

(** Every goroutine of a pool, each with its own end. *)
Definition all_sound {A} (Q : nat → S → A → Prop) (c : S * list (prog S A)) : Prop :=
  I c.1 ∧ ∀ i p, c.2 !! i = Some p → sound (Q i) c.1 p.

Lemma advance_all_sound {A} (Q : nat → S → A → Prop) c i : all_sound Q c →
  all_sound Q (advance_nth c i) ∧ R c.1 (advance_nth c i).1.
Proof.
  destruct c as [s ps]. intros [Hi Hps]. unfold advance_nth. cbn [fst snd] in *.
  destruct (ps !! i) as [p|] eqn:Hp; [|by split].
  destruct (advance_sound (Q i) p s Hi (Hps i p Hp)) as (Hi' & Hr & Hs).
  destruct (advance p s) as [s' p']. cbn [fst snd] in *. split; [split; [done|]|done]. cbn [fst snd].
  intros j q Hq. apply list_lookup_insert_Some in Hq as [(-> & <- & _)|[_ Hq]]; [done|].
  eapply sound_later; [exact Hr|by apply Hps].
Qed.

(** The invariant holds after every schedule. *)
Lemma schedule_sound {A} (Q : nat → S → A → Prop) sch : ∀ c, all_sound Q c →
  all_sound Q (run_schedule sch c) ∧ R c.1 (run_schedule sch c).1.
Proof.
  induction sch as [|i sch IH]; intros c Hc; cbn [run_schedule foldl]; [done|].
  destruct (advance_all_sound Q c i Hc) as [Hc' Hr]. destruct (IH _ Hc') as [? ?]. split; [done|by etransitivity].
Qed.

(** What has finished has ended as it should. *)
Lemma all_sound_result {A} (Q : nat → S → A → Prop) c i a : all_sound Q c → c.2 !! i = Some (Ret a) → Q i c.1 a.
Proof. intros [Hi Hs] Hr. by apply (Hs i _ Hr). Qed.
End sound.

(** What is sound under a weaker discipline is sound under a stronger one. *)
Lemma sound_mono (I R G I' R' G' : _) {A} (Q : S → A → Prop) p :
  (∀ s : S, I s → I' s) → (∀ s s' : S, R s s' → R' s s') →
  (∀ s s' : S, I s → I' s' → G' s s' → I s' ∧ G s s') →
  ∀ s, sound I' R' G' Q s p → sound I R G Q s p.
Proof.
  intros HI HR HG. induction p as [a|B m k IH]; cbn [sound]; intros s Hp s' Hi Hr.
  - apply Hp; auto.
  - destruct (Hp s' (HI s' Hi) (HR s s' Hr)) as (Hi' & Hg & Hk).
    destruct (HG s' _ Hi Hi' Hg) as [? ?]. split_and!; [done..|]. by apply IH.
Qed.

(** * Termination *)

(** A step of a goroutine that has a call left. *)
Definition active {A} (c c' : S * list (prog S A)) : Prop :=
  ∃ i p, c.2 !! i = Some p ∧ finished p = false ∧ c' = advance_nth c i.

(** One call less. *)
Definition child {A} (q p : prog S A) : Prop := finished p = false ∧ ∃ s, q = (advance p s).2.

Lemma child_wf {A} : well_founded (@child A).
Proof.
  intros p. induction p as [a|B m k IH]; constructor; intros q [Hf [s ->]]; [done|].
  cbn. destruct (m s) as [s' b]. apply IH.
Qed.

Definition child_of_one {A} (qs ps : list (prog S A)) : Prop :=
  ∃ i p q, ps !! i = Some p ∧ child q p ∧ qs = <[i := q]> ps.

Lemma child_of_one_cons {A} (p : prog S A) : ∀ ps, Acc child_of_one ps → Acc child_of_one (p :: ps).
Proof.
  induction (child_wf p) as [p _ IHp]. intros ps Hps. induction Hps as [ps Hps IHps].
  constructor. intros qs (i & p' & q & Hl & Hc & ->). destruct i as [|i]; cbn in Hl |- *.
  - injection Hl as ->. apply IHp; [done|]. by constructor.
  - apply IHps. by exists i, p', q.
Qed.

Lemma child_of_one_wf {A} : well_founded (@child_of_one A).
Proof.
  intros ps. induction ps as [|p ps IH]; [|by apply child_of_one_cons].
  constructor. intros qs (i & p & q & Hl & _). by rewrite lookup_nil in Hl.
Qed.

(** However they interleave, the goroutines make finitely many calls. *)
Lemma active_wf {A} : well_founded (flip (@active A)).
Proof.
  refine (Inclusion.wf_incl _ _ _ _ (Inverse_Image.wf_inverse_image _ _ child_of_one snd child_of_one_wf)).
  intros c' c (i & p & Hp & Hf & ->). unfold advance_nth. rewrite Hp.
  destruct (advance p c.1) as [s q] eqn:Ha. exists i, p, q. split_and!; [done| |done].
  split; [done|]. exists c.1. by rewrite Ha.
Qed.

(** Every schedule goes on to one that finishes them all. *)
Lemma completes {A} (c : S * list (prog S A)) :
  ∃ sch, Forall (λ p, finished p = true) (run_schedule sch c).2.
Proof.
  induction (active_wf c) as [c _ IH].
  destruct (decide (Forall (λ p, finished p = true) c.2)) as [Hf|Hf]; [by exists []|].
  apply not_Forall_Exists in Hf; [|apply _]. apply Exists_exists in Hf as (p & Hin & Hp).
  apply list_elem_of_lookup in Hin as [i Hi]. destruct (IH (advance_nth c i)) as [sch Hs].
  { exists i, p. split_and!; [done|by apply not_true_is_false|done]. }
  by exists (i :: sch).
Qed.
End prog.

(** * A component of a larger state *)

Section lift.
Context {S T : Type} (get : S → T) (put : T → S → S).

Definition lift_call {B} (m : T → T * B) (s : S) : S * B := let '(t, b) := m (get s) in (put t s, b).

Fixpoint lift {A} (p : prog T A) : prog S A :=
  match p with
  | Ret a => Ret a
  | Op m k => Op (lift_call m) (λ b, lift (k b))
  end.

Hypothesis get_put : ∀ t s, get (put t s) = t.
Hypothesis put_put : ∀ t t' s, put t (put t' s) = put t s.
Hypothesis put_get : ∀ s, put (get s) s = s.

Lemma run_lift {A} (p : prog T A) : ∀ s,
  run_alone (lift p) s = (put (run_alone p (get s)).1 s, (run_alone p (get s)).2).
Proof using get_put put_put put_get.
  induction p as [a|B m k IH]; intros s; cbn [lift run_alone fst snd]; [by rewrite put_get|].
  unfold lift_call. destruct (m (get s)) as [t b]. by rewrite IH, get_put, put_put.
Qed.

Lemma sound_lift {A} (I : S → Prop) (R G : S → S → Prop) (J : T → Prop) (R' G' : T → T → Prop)
    (Q : T → A → Prop) :
  (∀ s, I s → J (get s)) → (∀ s s', R s s' → R' (get s) (get s')) →
  (∀ s t, I s → J t → G' (get s) t → I (put t s) ∧ G s (put t s)) →
  ∀ p s, sound J R' G' Q (get s) p → sound I R G (λ s, Q (get s)) s (lift p).
Proof using get_put.
  intros HJ HR Hput p. induction p as [a|B m k IH]; cbn [sound lift]; intros s Hp s' Hi Hr.
  - apply Hp; auto.
  - destruct (Hp (get s') (HJ s' Hi) (HR s s' Hr)) as (Hi' & Hg' & Hk). unfold lift_call.
    destruct (m (get s')) as [t b]. cbn in *. destruct (Hput s' t Hi Hi' Hg') as [? ?].
    split_and!; [done..|]. apply IH. by rewrite get_put.
Qed.
End lift.

(** * Errors *)

(** A goroutine that may return an error. *)
Definition eprog (S E A : Type) : Type := prog S (result E A).

#[export] Instance eprog_mret S E : MRet (eprog S E) := λ A a, Ret (Ok a).
#[export] Instance eprog_mbind S E : MBind (eprog S E) :=
  λ A B f p, pbind (λ r, match r with Ok a => f a | Err e => Ret (Err e) end) p.

Definition ecall {S E A} (m : M S E A) : eprog S E A := call m.

Section eprog.
Context {S E : Type}.

Lemma run_bind {A B} (f : A → eprog S E B) (p : eprog S E A) s :
  run_alone (p ≫= f) s =
    match run_alone p s with (s', Ok a) => run_alone (f a) s' | (s', Err e) => (s', Err e) end.
Proof.
  unfold mbind, eprog_mbind. rewrite run_pbind. by destruct (run_alone p s) as [s' [a|e]].
Qed.

Lemma bind_at {A B} (f : A → M S E B) (m : M S E A) s :
  (m ≫= f) s = match m s with (s', Ok a) => f a s' | (s', Err e) => (s', Err e) end.
Proof. done. Qed.

Lemma run_ecall {A} (m : M S E A) s : run_alone (ecall m) s = m s.
Proof. apply run_call. Qed.

Context (I : S → Prop) (R G : S → S → Prop) `{!Reflexive R, !Transitive R}.
Hypothesis G_R : ∀ s s', G s s' → R s s'.

(** A call, then the rest. *)
Lemma sound_ecall {A B} (Q : S → result E B → Prop) (m : M S E A) (f : A → eprog S E B) s :
  (∀ s', I s' → R s s' → ∃ s'' a, m s' = (s'', Ok a) ∧ I s'' ∧ G s' s'' ∧ sound I R G Q s'' (f a)) →
  sound I R G Q s (ecall m ≫= f).
Proof.
  intros Hm s' Hi Hr. destruct (Hm s' Hi Hr) as (s'' & a & -> & ? & ? & ?). by split_and!.
Qed.

Lemma sound_ebind {A B} (Q : S → result E A → Prop) (Q' : S → result E B → Prop)
    (f : A → eprog S E B) (p : eprog S E A) s : I s →
  sound I R G (λ s r, ∃ a, r = Ok a ∧ Q s (Ok a)) s p →
  (∀ s' a, I s' → R s s' → Q s' (Ok a) → sound I R G Q' s' (f a)) → sound I R G Q' s (p ≫= f).
Proof using All.
  intros Hi Hp Hf. refine (sound_pbind I R G G_R _ Q' _ _ _ Hi _ Hp).
  intros s' r Hi' Hr (a & -> & HQ). by apply Hf.
Qed.
End eprog.
