(* ===== verification/Text.v ===== *)
(** The parts of Go's [strings], [unicode/utf8], [encoding/hex], [fmt] and
    [time.Duration] formatting that the program uses, over strings of bytes. *)
From S2P Require Import Prelude.
From Stdlib Require String.
Local Open Scope Z_scope.

(** * Strings and byte sequences *)

Definition byte_of_ascii (c : ascii) : Z := Z.of_N (N_of_ascii c).
Definition ascii_of_byte (b : Z) : ascii := ascii_of_N (Z.to_N b).

Definition bytes_of_string (s : string) : bytes :=
  map byte_of_ascii (String.list_ascii_of_string s).
Definition string_of_bytes (b : bytes) : string :=
  String.string_of_list_ascii (map ascii_of_byte b).

Definition str_len (s : string) : Z := Z.of_nat (String.length s).

(** [s[:n]] and [s[n:]] for [n] within bounds. *)
Definition str_take (n : nat) (s : string) : string := String.substring 0 n s.
Definition str_drop (n : nat) (s : string) : string :=
  String.substring n (String.length s - n) s.

Lemma byte_of_ascii_range c : is_byte (byte_of_ascii c).
Proof.
  unfold is_byte, byte_of_ascii. pose proof (N_ascii_bounded c). lia.
Qed.

Lemma ascii_of_byte_of_ascii c : ascii_of_byte (byte_of_ascii c) = c.
Proof.
  unfold ascii_of_byte, byte_of_ascii. rewrite N2Z.id. apply ascii_N_embedding.
Qed.

Lemma byte_of_ascii_of_byte b : is_byte b → byte_of_ascii (ascii_of_byte b) = b.
Proof.
  unfold is_byte, ascii_of_byte, byte_of_ascii. intros H.
  rewrite N_ascii_embedding by lia. lia.
Qed.

Lemma string_of_bytes_of_string s : string_of_bytes (bytes_of_string s) = s.
Proof.
  unfold string_of_bytes, bytes_of_string. rewrite map_map.
  rewrite (map_ext _ id) by apply ascii_of_byte_of_ascii.
  rewrite map_id. apply String.string_of_list_ascii_of_string.
Qed.

Lemma bytes_of_string_of_bytes b :
  wf_bytes b → bytes_of_string (string_of_bytes b) = b.
Proof.
  unfold string_of_bytes, bytes_of_string. intros Hb.
  rewrite String.list_ascii_of_string_of_list_ascii, map_map.
  induction Hb as [|x l Hx _ IH]; simpl; [done|].
  by rewrite byte_of_ascii_of_byte, IH.
Qed.

Lemma bytes_of_string_wf s : wf_bytes (bytes_of_string s).
Proof.
  unfold wf_bytes, bytes_of_string. induction (String.list_ascii_of_string s); simpl;
    constructor; auto using byte_of_ascii_range.
Qed.

Lemma bytes_of_string_app s t :
  bytes_of_string (s +:+ t) = bytes_of_string s ++ bytes_of_string t.
Proof.
  unfold bytes_of_string. induction s as [|c s IH]; [done|].
  rewrite append_cons. cbn. by f_equal.
Qed.

Lemma str_length_app s t : String.length (s +:+ t) = (String.length s + String.length t)%nat.
Proof. induction s as [|c s IH]; [done|]. rewrite append_cons. simpl. by rewrite IH. Qed.

(** * UTF-8 *)

Definition RuneError : Z := 65533.

Definition is_cont (b : Z) : bool := (128 <=? b) && (b <=? 191).

(** [utf8.DecodeRune]: the rune at the front and the number of bytes it takes;
    an invalid sequence is [RuneError] of width 1. The input is not empty. *)
Definition utf8_decode (b : bytes) : Z * nat :=
  match b with
  | [] => (RuneError, 0%nat)
  | b0 :: t =>
    if b0 <? 128 then (b0, 1%nat)
    else if (194 <=? b0) && (b0 <=? 223) then
      match t with
      | b1 :: _ =>
        if is_cont b1 then ((b0 - 192) * 64 + (b1 - 128), 2%nat) else (RuneError, 1%nat)
      | _ => (RuneError, 1%nat)
      end
    else if (224 <=? b0) && (b0 <=? 239) then
      match t with
      | b1 :: b2 :: _ =>
        let lo := if b0 =? 224 then 160 else 128 in
        let hi := if b0 =? 237 then 159 else 191 in
        if (lo <=? b1) && (b1 <=? hi) && is_cont b2
        then ((b0 - 224) * 4096 + (b1 - 128) * 64 + (b2 - 128), 3%nat)
        else (RuneError, 1%nat)
      | _ => (RuneError, 1%nat)
      end
    else if (240 <=? b0) && (b0 <=? 244) then
      match t with
      | b1 :: b2 :: b3 :: _ =>
        let lo := if b0 =? 240 then 144 else 128 in
        let hi := if b0 =? 244 then 143 else 191 in
        if (lo <=? b1) && (b1 <=? hi) && is_cont b2 && is_cont b3
        then ((b0 - 240) * 262144 + (b1 - 128) * 4096 + (b2 - 128) * 64 + (b3 - 128), 4%nat)
        else (RuneError, 1%nat)
      | _ => (RuneError, 1%nat)
      end
    else (RuneError, 1%nat)
  end.

(** [utf8.AppendRune]: a surrogate or out-of-range rune is encoded as
    [RuneError]. *)
Definition utf8_encode (r : Z) : bytes :=
  if (r <? 0) || (1114111 <? r) || ((55296 <=? r) && (r <=? 57343)) then [239; 191; 189]
  else if r <? 128 then [r]
  else if r <? 2048 then [192 + r / 64; 128 + r mod 64]
  else if r <? 65536 then [224 + r / 4096; 128 + r / 64 mod 64; 128 + r mod 64]
  else [240 + r / 262144; 128 + r / 4096 mod 64; 128 + r / 64 mod 64; 128 + r mod 64].

(** [for _, r := range s] with the bytes each rune was read from; [fuel] is the
    number of bytes. *)
Fixpoint utf8_runes (fuel : nat) (b : bytes) : list (Z * bytes) :=
  match fuel, b with
  | S fuel', _ :: _ =>
    let '(r, n) := utf8_decode b in
    (r, take n b) :: utf8_runes fuel' (drop n b)
  | _, _ => []
  end.

Definition runes_with_bytes (s : string) : list (Z * bytes) :=
  let b := bytes_of_string s in utf8_runes (length b) b.

(** [[]rune(s)] and [string(runes)]. *)
Definition runes (s : string) : list Z := map fst (runes_with_bytes s).
Definition string_of_runes (l : list Z) : string :=
  string_of_bytes (concat (map utf8_encode l)).

(** [utf8.ValidString]: no byte reads as the error rune. *)
Definition utf8_ValidString (s : string) : bool :=
  forallb (λ p, negb ((fst p =? 65533) && (length (snd p) =? 1)%nat)) (runes_with_bytes s).

(** ** Bytes per rune *)

Lemma utf8_decode_width b : b ≠ [] → (1 <= snd (utf8_decode b) <= 4)%nat.
Proof.
  destruct b as [|b0 t]; [done|]. intros _. unfold utf8_decode.
  repeat case_match; simpl; lia.
Qed.

Lemma length_utf8_runes fuel : ∀ b, (length b <= fuel)%nat →
  (length b <= 4 * length (utf8_runes fuel b))%nat.
Proof.
  induction fuel as [|fuel IH]; intros b Hb; [simpl; lia|].
  destruct b as [|b0 t]; [simpl; lia|]. cbn [utf8_runes].
  pose proof (utf8_decode_width (b0 :: t)) as Hw.
  destruct (utf8_decode (b0 :: t)) as [r n]. simpl snd in Hw.
  specialize (Hw ltac:(done)). specialize (IH (drop n (b0 :: t))).
  rewrite length_drop in IH. simpl in *. lia.
Qed.

Lemma str_len_bytes s : str_len s = Z.of_nat (length (bytes_of_string s)).
Proof.
  unfold str_len, bytes_of_string. rewrite length_map. f_equal.
  induction s as [|c s IH]; simpl; [done|by rewrite IH].
Qed.

Lemma str_len_runes s : str_len s <= 4 * Z.of_nat (length (runes s)).
Proof.
  unfold runes, runes_with_bytes. rewrite length_map, str_len_bytes.
  pose proof (length_utf8_runes (length (bytes_of_string s)) (bytes_of_string s)). lia.
Qed.

Lemma length_utf8_encode r : (length (utf8_encode r) <= 4)%nat.
Proof. unfold utf8_encode. repeat case_match; simpl; lia. Qed.

Lemma str_len_of_bytes b : str_len (string_of_bytes b) = Z.of_nat (length b).
Proof. unfold str_len, string_of_bytes. f_equal. induction b; simpl; [done|by f_equal]. Qed.

Lemma str_len_of_runes l : str_len (string_of_runes l) <= 4 * Z.of_nat (length l).
Proof.
  unfold string_of_runes. rewrite str_len_of_bytes.
  induction l as [|r l IH]; simpl; [lia|]. rewrite length_app.
  pose proof (length_utf8_encode r). lia.
Qed.

(** [strings.Map] with a mapping that never drops a rune: a rune that the
    mapping leaves alone keeps its bytes unless it was an invalid byte, which
    comes out as [RuneError]. *)
Definition strings_Map (f : Z → Z) (s : string) : string :=
  string_of_runes (map f (runes s)).

(** * Character classes *)

Definition is_digit (b : Z) : bool := (48 <=? b) && (b <=? 57).
Definition is_upper (b : Z) : bool := (65 <=? b) && (b <=? 90).
Definition is_lower (b : Z) : bool := (97 <=? b) && (b <=? 122).

(** The Unicode case table of Go's [unicode] package, which only matters for
    runes outside ASCII. *)
Class UnicodeTables := unicode_ToLower : Z → Z.

Definition rune_ToLower `{UnicodeTables} (r : Z) : Z :=
  if r <? 128 then if is_upper r then r + 32 else r else unicode_ToLower r.

(** [strings.ToLower]. *)
Definition strings_ToLower `{UnicodeTables} (s : string) : string :=
  if forallb (λ b, b <? 128) (bytes_of_string s)
  then string_of_bytes (map (λ b, if is_upper b then b + 32 else b) (bytes_of_string s))
  else strings_Map rune_ToLower s.

(** [unicode.IsSpace]. *)
Definition is_space (r : Z) : bool :=
  ((9 <=? r) && (r <=? 13)) || (r =? 32) || (r =? 133) || (r =? 160) || (r =? 5760)
  || ((8192 <=? r) && (r <=? 8202)) || (r =? 8232) || (r =? 8233) || (r =? 8239)
  || (r =? 8287) || (r =? 12288).

(** * Trimming *)

Fixpoint drop_while {A} (p : A → bool) (l : list A) : list A :=
  match l with
  | [] => []
  | x :: l' => if p x then drop_while p l' else l
  end.

(** [strings.TrimSpace]: white space runes are removed at both ends. *)
Definition strings_TrimSpace (s : string) : string :=
  let l := drop_while (λ p, is_space (fst p)) (runes_with_bytes s) in
  let l' := rev (drop_while (λ p, is_space (fst p)) (rev l)) in
  string_of_bytes (concat (map snd l')).

(** [strings.TrimRight] with a cutset of ASCII bytes. *)
Definition strings_TrimRight (s : string) (cut : list Z) : string :=
  string_of_bytes (rev (drop_while (λ b, bool_decide (b ∈ cut)) (rev (bytes_of_string s)))).

Definition strings_HasPrefix (s p : string) : bool := String.prefix p s.

Definition strings_TrimPrefix (s p : string) : string :=
  if strings_HasPrefix s p then str_drop (String.length p) s else s.

Definition strings_HasSuffix (s p : string) : bool :=
  (str_len p <=? str_len s)
  && str_eqb (str_drop (String.length s - String.length p) s) p.

Definition strings_TrimSuffix (s p : string) : string :=
  if strings_HasSuffix s p then str_take (String.length s - String.length p) s else s.

(** * Searching *)

(** [strings.Index], as an option. *)
Definition strings_Index (s sub : string) : option nat := String.index 0 sub s.
Definition strings_Contains (s sub : string) : bool :=
  match strings_Index s sub with Some _ => true | None => false end.

(** Position of the first, and of the last, byte that satisfies [p]. *)
Fixpoint index_byte_by (p : ascii → bool) (s : string) : option nat :=
  match s with
  | EmptyString => None
  | String c s' => if p c then Some 0%nat else S <$> index_byte_by p s'
  end.

Fixpoint last_index_byte_by (p : ascii → bool) (s : string) : option nat :=
  match s with
  | EmptyString => None
  | String c s' =>
    match last_index_byte_by p s' with
    | Some n => Some (S n)
    | None => if p c then Some 0%nat else None
    end
  end.

(** * Numbers to text *)

Definition hexdigit (n : Z) : ascii :=
  if n <? 10 then ascii_of_byte (48 + n) else ascii_of_byte (87 + n).

(** [hex.EncodeToString]. *)
Fixpoint hex_EncodeToString (b : bytes) : string :=
  match b with
  | [] => EmptyString
  | x :: t => String (hexdigit (x / 16)) (String (hexdigit (x mod 16)) (hex_EncodeToString t))
  end.

(** A number in [n] decimal digits, padded with zeros. *)
Fixpoint padded (n : nat) (z : Z) : string :=
  match n with
  | O => EmptyString
  | S n' => padded n' (z / 10) +:+ String (ascii_of_byte (48 + z mod 10)) EmptyString
  end.

(** [time.Duration.String]: the fraction of [u] in units of [10^prec], without
    trailing zeros and with its point, and then the units. *)
Definition trim_zeros (s : string) : string := strings_TrimRight s [48].

Definition fmtFrac (u : Z) (prec : nat) : string :=
  let f := trim_zeros (padded prec (u mod 10 ^ Z.of_nat prec)) in
  if is_empty f then "" else "." +:+ f.

Definition duration_String (d : Z) : string :=
  let u := Z.abs d in
  let body :=
    if u <? Second then
      if u =? 0 then "0s"
      else if u <? 1000 then dec u +:+ "ns"
      else if u <? Millisecond then dec (u / 1000) +:+ fmtFrac u 3 +:+ "µs"
      else dec (u / Millisecond) +:+ fmtFrac u 6 +:+ "ms"
    else
      let s := u / Second in
      let sec := dec (s mod 60) +:+ fmtFrac u 9 +:+ "s" in
      let m := s / 60 in
      if 0 <? m then
        let min := dec (m mod 60) +:+ "m" +:+ sec in
        let h := m / 60 in
        if 0 <? h then dec h +:+ "h" +:+ min else min
      else sec
  in if d <? 0 then "-" +:+ body else body.

Example duration_minutes : duration_String (5 * Minute) = "5m0s".
Proof. reflexivity. Qed.
Example duration_hours : duration_String (2 * Hour + 90 * Second) = "2h1m30s".
Proof. reflexivity. Qed.
Example duration_frac : duration_String (1500 * Millisecond) = "1.5s".
Proof. reflexivity. Qed.
Example duration_ms : duration_String (-250 * Millisecond) = "-250ms".
Proof. reflexivity. Qed.

(** * Plain ASCII text *)

Lemma utf8_runes_ascii b : ∀ fuel, Forall (λ x, x < 128) b → (length b <= fuel)%nat →
  utf8_runes fuel b = map (λ x, (x, [x])) b.
Proof.
  induction b as [|x b IH]; intros [|fuel] Hb Hf; simpl in *; try done; try lia.
  apply Forall_cons in Hb as [Hx Hb]. rewrite (proj2 (Z.ltb_lt x 128)) by done.
  simpl. rewrite drop_0. f_equal. apply IH; [done|lia].
Qed.

Lemma drop_while_none {A} (p : A → bool) l : Forall (λ x, p x = false) l → drop_while p l = l.
Proof. destruct 1 as [|x l Hx _]; simpl; [done|]. by rewrite Hx. Qed.

(** Text without spaces or bytes outside ASCII is left alone. *)
Lemma TrimSpace_plain s :
  Forall (λ x, 33 <= x < 128) (bytes_of_string s) → strings_TrimSpace s = s.
Proof.
  intros Hs. unfold strings_TrimSpace, runes_with_bytes.
  rewrite utf8_runes_ascii; [|eapply Forall_impl; [exact Hs|]; simpl; lia|done].
  assert (∀ l, Forall (λ x, 33 <= x < 128) l →
    Forall (λ p : Z * bytes, is_space (fst p) = false) (map (λ x, (x, [x])) l)) as Hsp.
  { intros l Hl. apply Forall_fmap. eapply Forall_impl; [exact Hl|]. intros x Hx. simpl in *.
    unfold is_space. rewrite !orb_false_iff, !andb_false_iff, !Z.eqb_neq, !Z.leb_gt. lia. }
  rewrite (drop_while_none _ (map _ _)) by (by apply Hsp).
  rewrite drop_while_none by (rewrite <- Permutation_rev; by apply Hsp).
  rewrite rev_involutive. replace (concat (map snd (map (λ x, (x, [x])) (bytes_of_string s))))
    with (bytes_of_string s).
  - apply string_of_bytes_of_string.
  - clear. induction (bytes_of_string s) as [|x l IH]; [done|]. simpl. by f_equal.
Qed.

(** ** Trimming twice *)

Lemma utf8_decode_fits b : (snd (utf8_decode b) <= length b)%nat.
Proof.
  destruct b as [|b0 [|b1 [|b2 [|b3 b]]]]; unfold utf8_decode; repeat case_match; cbn; lia.
Qed.

(** A rune only depends on the bytes it is read from. *)
Lemma utf8_decode_app a c : a ≠ [] → (snd (utf8_decode (a ++ c)) <= length a)%nat →
  utf8_decode (a ++ c) = utf8_decode a.
Proof.
  intros Ha. destruct a as [|a0 [|a1 [|a2 [|a3 a]]]]; [done|..];
    cbn [app]; unfold utf8_decode; destruct c as [|c0 [|c1 [|c2 c]]]; try done;
    repeat case_match; cbn [snd length]; try done; lia.
Qed.

Lemma concat_utf8_runes fuel : ∀ b, (length b <= fuel)%nat →
  concat (map snd (utf8_runes fuel b)) = b.
Proof.
  induction fuel as [|fuel IH]; intros [|x b] Hf; [done|simpl in Hf; lia|done|].
  cbn [utf8_runes]. pose proof (utf8_decode_width (x :: b) ltac:(done)) as Hw.
  destruct (utf8_decode (x :: b)) as [r n]. cbn [map snd concat] in *.
  rewrite IH; [apply take_drop|]. rewrite length_drop. cbn in *. lia.
Qed.

(** Decoding the text of some of the first runes, or of the last ones, gives
    these runes back. *)
Lemma utf8_runes_prefix l1 : ∀ fuel b l2, utf8_runes fuel b = l1 ++ l2 → (length b <= fuel)%nat →
  ∀ fuel1, (length (concat (map snd l1)) <= fuel1)%nat → utf8_runes fuel1 (concat (map snd l1)) = l1.
Proof.
  induction l1 as [|[r s] l1 IH]; intros fuel b l2 Hl Hf fuel1 Hf1; [by destruct fuel1|].
  pose proof (concat_utf8_runes fuel b Hf) as Hb. rewrite Hl in Hb.
  rewrite map_app, concat_app in Hb. set (c1 := concat (map snd ((r, s) :: l1))) in *.
  destruct fuel as [|fuel]; [done|]. destruct b as [|x b]; [done|].
  cbn [utf8_runes] in Hl.
  pose proof (utf8_decode_width (x :: b) ltac:(done)) as Hw.
  pose proof (utf8_decode_fits (x :: b)) as Hfit.
  destruct (utf8_decode (x :: b)) as [r' n] eqn:Hd. cbn [snd] in *.
  injection Hl as -> Hs Hl.
  assert (length s = n) as Hsn by (rewrite <-Hs, length_take; lia).
  assert (c1 = s ++ concat (map snd l1)) as Hc1 by done.
  assert (c1 ≠ []) as Hne by (rewrite Hc1; destruct s; simpl in *; [lia|done]).
  assert (utf8_decode c1 = (r, n)) as Hd1.
  { rewrite <-Hd, <-Hb. symmetry. apply utf8_decode_app; [done|].
    rewrite Hb, Hd, Hc1, length_app. cbn. lia. }
  destruct fuel1 as [|fuel1]; [destruct c1; simpl in *; [done|lia]|].
  assert (∃ y c, c1 = y :: c) as (y & c & Hcy) by (destruct c1; [done|by eauto]).
  rewrite Hcy. cbn [utf8_runes]. rewrite <-Hcy, Hd1, Hc1.
  rewrite take_app_length', drop_app_length' by done. f_equal.
  apply (IH fuel (drop n (x :: b)) l2 Hl).
  - rewrite length_drop. simpl in *. lia.
  - rewrite Hc1, length_app in Hf1. lia.
Qed.

Lemma utf8_runes_suffix l1 : ∀ fuel b l2, utf8_runes fuel b = l1 ++ l2 → (length b <= fuel)%nat →
  utf8_runes (length (concat (map snd l2))) (concat (map snd l2)) = l2.
Proof.
  induction l1 as [|[r s] l1 IH]; intros fuel b l2 Hl Hf.
  { eapply (utf8_runes_prefix l2 fuel b []); [by rewrite app_nil_r|done|done]. }
  destruct fuel as [|fuel]; [done|]. destruct b as [|x b]; [done|]. cbn [utf8_runes] in Hl.
  pose proof (utf8_decode_width (x :: b) ltac:(done)) as Hw.
  destruct (utf8_decode (x :: b)) as [r' n]. cbn [snd] in *. injection Hl as _ _ Hl.
  apply (IH _ _ _ Hl). rewrite length_drop. simpl in *. lia.
Qed.

Lemma drop_while_split {A} (p : A → bool) l :
  ∃ l1, l = l1 ++ drop_while p l ∧ drop_while p (drop_while p l) = drop_while p l.
Proof.
  induction l as [|x l (l1 & Hl & Hd)]; simpl; [by exists []|].
  destruct (p x) eqn:Hx; [exists (x :: l1); simpl; by rewrite <-Hl|exists []; simpl; by rewrite Hx].
Qed.

Lemma drop_while_prefix {A} (p : A → bool) l1 l2 :
  drop_while p (l1 ++ l2) = l1 ++ l2 → drop_while p l1 = l1.
Proof.
  destruct l1 as [|x l1]; simpl; [done|]. destruct (p x); [|done]. intros Hd.
  destruct (drop_while_split p (l1 ++ l2)) as (l & Hl & _). rewrite Hd in Hl.
  apply (f_equal length) in Hl. rewrite !length_app in Hl. simpl in Hl. rewrite length_app in Hl. lia.
Qed.

(** No white space at either end. *)
Definition trimmed (l : list (Z * bytes)) : Prop :=
  drop_while (λ p, is_space (fst p)) l = l ∧ drop_while (λ p, is_space (fst p)) (rev l) = rev l.

Lemma TrimSpace_trimmed s : trimmed (runes_with_bytes (strings_TrimSpace s)).
Proof.
  unfold strings_TrimSpace. set (sp := λ p : Z * bytes, is_space (fst p)).
  destruct (drop_while_split sp (runes_with_bytes s)) as (pre & Hpre & Hl).
  set (l := drop_while sp (runes_with_bytes s)) in *.
  destruct (drop_while_split sp (rev l)) as (post & Hpost & Hr).
  set (m := drop_while sp (rev l)) in *.
  assert (l = rev m ++ rev post) as Hlm by by rewrite <-(rev_involutive l), Hpost, rev_app_distr.
  unfold runes_with_bytes in Hpre.
  assert (wf_bytes (concat (map snd (rev m)))) as Hwf.
  { pose proof (bytes_of_string_wf s) as Hs.
    rewrite <-(concat_utf8_runes (length (bytes_of_string s)) (bytes_of_string s)) in Hs by done.
    rewrite Hpre, Hlm, !map_app, !concat_app in Hs. unfold wf_bytes in *.
    rewrite !Forall_app in Hs. tauto. }
  assert (runes_with_bytes (string_of_bytes (concat (map snd (rev m)))) = rev m) as Hm.
  { unfold runes_with_bytes. rewrite bytes_of_string_of_bytes by done.
    pose proof (utf8_runes_suffix pre _ _ _ Hpre (le_n _)) as Hsuf.
    rewrite Hlm in Hsuf. by apply (utf8_runes_prefix (rev m) _ _ _ Hsuf). }
  rewrite Hm. split; [by apply (drop_while_prefix sp (rev m) (rev post)); rewrite <-Hlm|].
  by rewrite rev_involutive.
Qed.

Lemma TrimSpace_of_trimmed s : trimmed (runes_with_bytes s) → strings_TrimSpace s = s.
Proof.
  intros [Hl Hr]. unfold strings_TrimSpace. rewrite Hl, Hr, rev_involutive.
  unfold runes_with_bytes. rewrite concat_utf8_runes by done. apply string_of_bytes_of_string.
Qed.

Lemma TrimSpace_idem s : strings_TrimSpace (strings_TrimSpace s) = strings_TrimSpace s.
Proof. apply TrimSpace_of_trimmed, TrimSpace_trimmed. Qed.

(** A final newline does not matter. *)
Lemma utf8_runes_newline b : ∀ fuel fuel', (length b <= fuel)%nat → (length b < fuel')%nat →
  utf8_runes fuel' (b ++ [10]) = utf8_runes fuel b ++ [(10, [10])].
Proof.
  induction b as [b IH] using (induction_ltof1 _ length); intros fuel fuel' Hf Hf'.
  destruct b as [|x b].
  { destruct fuel' as [|fuel']; [simpl in Hf'; lia|]. destruct fuel; by destruct fuel'. }
  destruct fuel as [|fuel]; [simpl in Hf; lia|]. destruct fuel' as [|fuel']; [simpl in Hf'; lia|].
  assert (utf8_decode ((x :: b) ++ [10]) = utf8_decode (x :: b)) as Hd.
  { apply utf8_decode_app; [done|]. cbn [app]. unfold utf8_decode.
    destruct b as [|b1 [|b2 [|b3 b]]]; cbn [app]; repeat case_match; cbn [snd length]; try lia;
      repeat match goal with H : is_cont 10 = true |- _ => discriminate H end;
      rewrite ?andb_true_iff in *; repeat match goal with H : _ ∧ _ |- _ => destruct H end;
      repeat match goal with H : is_cont 10 = true |- _ => discriminate H end; to_prop; lia. }
  change ((x :: b) ++ [10]) with (x :: (b ++ [10])) in *. cbn [utf8_runes]. rewrite Hd.
  pose proof (utf8_decode_width (x :: b) ltac:(done)) as Hw.
  pose proof (utf8_decode_fits (x :: b)) as Hfit.
  destruct (utf8_decode (x :: b)) as [r n]. cbn [snd] in *.
  change (x :: b ++ [10]) with ((x :: b) ++ [10]).
  rewrite take_app_le, drop_app_le by done. cbn [app]. f_equal.
  apply IH; unfold ltof; rewrite ?length_drop; cbn [length] in *; lia.
Qed.

Lemma TrimSpace_newline s :
  strings_TrimSpace (strings_TrimSpace s +:+ String (ascii_of_byte 10) EmptyString) = strings_TrimSpace s.
Proof.
  destruct (TrimSpace_trimmed s) as [Hl Hr]. set (t := strings_TrimSpace s) in *.
  assert (runes_with_bytes (t +:+ String (ascii_of_byte 10) EmptyString) =
    runes_with_bytes t ++ [(10, [10])]) as Ht.
  { unfold runes_with_bytes. rewrite bytes_of_string_app.
    apply utf8_runes_newline; [done|]. rewrite length_app. cbn. lia. }
  transitivity (strings_TrimSpace t); [|apply TrimSpace_idem].
  unfold strings_TrimSpace at 1 2. rewrite Ht, Hl, Hr.
  destruct (runes_with_bytes t) as [|p l] eqn:Hp; [done|].
  assert (is_space (fst p) = false) as Hs.
  { cbn in Hl. destruct (is_space (fst p)); [|done].
    destruct (drop_while_split (λ p, is_space (fst p)) l) as (l1 & Hl1 & _). rewrite Hl in Hl1.
    apply (f_equal length) in Hl1. rewrite length_app in Hl1. simpl in Hl1. lia. }
  cbn [app drop_while]. rewrite Hs. change (p :: l ++ [(10, [10])]) with ((p :: l) ++ [(10, [10])]).
  rewrite rev_app_distr. cbn [rev app drop_while fst]. change (is_space 10) with true. cbn match.
  cbn [rev] in Hr. by rewrite Hr.
Qed.

(** ** Prefixes and separators *)

Lemma HasPrefix_app p s : strings_HasPrefix (p +:+ s) p = true.
Proof.
  unfold strings_HasPrefix. induction p as [|c p IH]; [by destruct s|].
  rewrite append_cons. simpl. destruct (Ascii.ascii_dec c c); [done|congruence].
Qed.

Lemma str_drop_app p s : str_drop (String.length p) (p +:+ s) = s.
Proof.
  unfold str_drop. induction p as [|c p IH]; rewrite ?append_cons, ?append_nil_l.
  - simpl. rewrite Nat.sub_0_r. induction s as [|c s IH]; simpl; [done|by rewrite IH].
  - simpl. exact IH.
Qed.

Lemma TrimPrefix_app p s : strings_TrimPrefix (p +:+ s) p = s.
Proof. unfold strings_TrimPrefix. by rewrite HasPrefix_app, str_drop_app. Qed.

(** [strings.SplitN(s, sep, 2)] for a one-byte separator: the text before and
    after its first occurrence. *)
Fixpoint cut_at (c : ascii) (s : string) : option (string * string) :=
  match s with
  | EmptyString => None
  | String x s' =>
    if Ascii.eqb x c then Some (EmptyString, s')
    else match cut_at c s' with Some (a, b) => Some (String x a, b) | None => None end
  end.

Lemma cut_at_app c a b : has_char c a = false → cut_at c (a +:+ String c b) = Some (a, b).
Proof.
  induction a as [|x a IH]; rewrite ?append_cons, ?append_nil_l; cbn [has_char cut_at].
  - by rewrite Ascii.eqb_refl.
  - destruct (Ascii.eqb x c); [done|]. intros Ha. by rewrite IH.
Qed.
