(* ===== verification/Float.v ===== *)
(** IEEE-754 binary64 arithmetic, Go's [float64], on the standard library's
    software floats: every operation rounds to nearest, ties to even. The
    model takes each source operation as one rounding, as on amd64. *)
From S2P Require Import Prelude Text.
From Corelib Require Export SpecFloat.
Local Open Scope Z_scope.

Abbreviation float64 := spec_float.

Definition fprec : Z := 53.
Definition femax : Z := 1024.

Definition f_of_int (z : Z) : float64 := binary_normalize fprec femax z 0 false.
Definition f_add : float64 → float64 → float64 := SFadd fprec femax.
Definition f_sub : float64 → float64 → float64 := SFsub fprec femax.
Definition f_mul : float64 → float64 → float64 := SFmul fprec femax.
Definition f_div : float64 → float64 → float64 := SFdiv fprec femax.
Definition f_sqrt : float64 → float64 := SFsqrt fprec femax.
Definition f_ltb : float64 → float64 → bool := SFltb.
Definition f_leb : float64 → float64 → bool := SFleb.
Definition f_eqb : float64 → float64 → bool := SFeqb.
Definition f_zero : float64 := S754_zero false.

(** A decimal constant [n / d]: the quotient of two exact floats, correctly
    rounded, is the constant's nearest float. *)
Definition f_const (n d : Z) : float64 := f_div (f_of_int n) (f_of_int d).

(** The exact value of a finite float as a fraction [num / den]. *)
Definition f_fraction (f : float64) : option (Z * Z) :=
  match f with
  | S754_zero _ => Some (0, 1)
  | S754_finite s m e =>
    let n := if s then - Z.pos m else Z.pos m in
    Some (if 0 <=? e then (n * 2 ^ e, 1) else (n, 2 ^ (- e)))
  | _ => None
  end.

(** [int64(f)]: truncation toward zero; out of range, amd64 gives the minimum. *)
Definition f_to_int64 (f : float64) : Z :=
  match f_fraction f with
  | Some (n, d) =>
    let q := Z.quot n d in
    if (MinInt64 <=? q) && (q <=? MaxInt64) then q else MinInt64
  | None => MinInt64
  end.

(** Round [n / d] (with [0 <= n], [0 < d]) to the nearest integer, ties to
    even, as the decimal formatter does on the exact value. *)
Definition round_half_even (n d : Z) : Z :=
  let q := n / d in
  let r := n mod d in
  if 2 * r <? d then q
  else if d <? 2 * r then q + 1
  else if Z.even q then q else q + 1.

(** [%.<prec>f]. *)
Definition format_fixed (prec : nat) (f : float64) : string :=
  match f with
  | S754_infinity s => if s then "-Inf" else "+Inf"
  | S754_nan => "NaN"
  | _ =>
    match f_fraction f with
    | Some (n, d) =>
      let scaled := round_half_even (Z.abs n * 10 ^ Z.of_nat prec) d in
      let int := dec (scaled / 10 ^ Z.of_nat prec) in
      let frac := match prec with
                  | O => ""
                  | _ => "." +:+ padded prec (scaled mod 10 ^ Z.of_nat prec)
                  end in
      let sign := match f with
                  | S754_zero true | S754_finite true _ _ => "-"
                  | _ => "" end in
      sign +:+ int +:+ frac
    | None => ""
    end
  end.

Example format_fixed_1 : format_fixed 1 (f_const 45 10) = "4.5".
Proof. vm_compute. reflexivity. Qed.
Example format_fixed_even : format_fixed 1 (f_const 1 4) = "0.2".
Proof. vm_compute. reflexivity. Qed.
Example format_fixed_0 : format_fixed 0 (f_of_int 12) = "12".
Proof. vm_compute. reflexivity. Qed.

(** [Duration.Seconds]. *)
Definition duration_Seconds (d : Z) : float64 :=
  f_add (f_of_int (Z.quot d Second)) (f_div (f_of_int (Z.rem d Second)) (f_of_int 1000000000)).

(** [Duration.Round], rounding halfway values away from zero. *)
Definition duration_Round (d m : Z) : Z :=
  if m <=? 0 then d
  else
    let r := Z.rem d m in
    if d <? 0 then
      let r := - r in
      if 2 * r <? m then d + r
      else let d1 := int64 (d - m + r) in if d1 <? d then d1 else MinInt64
    else if 2 * r <? m then d - r
    else let d1 := int64 (d + m - r) in if d <? d1 then d1 else MaxInt64.

(** The constants the detectors use: the nearest floats to 0.8 and 0.2. *)
Example f_08 : f_const 8 10 = S754_finite false 7205759403792794 (-53).
Proof. vm_compute. reflexivity. Qed.
Example f_02 : f_const 2 10 = S754_finite false 7205759403792794 (-55).
Proof. vm_compute. reflexivity. Qed.
