(* ===== verification/Sha256.v ===== *)
(** SHA-256 as Go's [crypto/sha256] computes it (FIPS 180-4), over byte lists. *)
From S2P Require Import Prelude Text.
Local Open Scope Z_scope.

Definition sha_K : list Z :=
  [1116352408; 1899447441; 3049323471; 3921009573; 961987163; 1508970993; 2453635748; 2870763221;
   3624381080; 310598401; 607225278; 1426881987; 1925078388; 2162078206; 2614888103; 3248222580;
   3835390401; 4022224774; 264347078; 604807628; 770255983; 1249150122; 1555081692; 1996064986;
   2554220882; 2821834349; 2952996808; 3210313671; 3336571891; 3584528711; 113926993; 338241895;
   666307205; 773529912; 1294757372; 1396182291; 1695183700; 1986661051; 2177026350; 2456956037;
   2730485921; 2820302411; 3259730800; 3345764771; 3516065817; 3600352804; 4094571909; 275423344;
   430227734; 506948616; 659060556; 883997877; 958139571; 1322822218; 1537002063; 1747873779;
   1955562222; 2024104815; 2227730452; 2361852424; 2428436474; 2756734187; 3204031479; 3329325298].

Definition sha_H0 : list Z :=
  [1779033703; 3144134277; 1013904242; 2773480762; 1359893119; 2600822924; 528734635; 1541459225].

Definition rotr (n x : Z) : Z := Z.lor (Z.shiftr x n) (uint32 (Z.shiftl x (32 - n))).
Definition add32 (x y : Z) : Z := uint32 (x + y).

Definition sha_sigma0 x := Z.lxor (Z.lxor (rotr 7 x) (rotr 18 x)) (Z.shiftr x 3).
Definition sha_sigma1 x := Z.lxor (Z.lxor (rotr 17 x) (rotr 19 x)) (Z.shiftr x 10).
Definition sha_Sigma0 x := Z.lxor (Z.lxor (rotr 2 x) (rotr 13 x)) (rotr 22 x).
Definition sha_Sigma1 x := Z.lxor (Z.lxor (rotr 6 x) (rotr 11 x)) (rotr 25 x).
Definition sha_Ch x y z := Z.lxor (Z.land x y) (Z.land (4294967295 - x) z).
Definition sha_Maj x y z := Z.lxor (Z.lxor (Z.land x y) (Z.land x z)) (Z.land y z).

(** Big-endian bytes of a number, and the number of a byte list. *)
Fixpoint be_bytes (n : nat) (z : Z) : bytes :=
  match n with
  | O => []
  | S n' => be_bytes n' (z / 256) ++ [z mod 256]
  end.
Definition be_int (b : bytes) : Z := foldl (λ a x, a * 256 + x) 0 b.

(** Padding: a one bit, zeros, and the bit length in 64 bits. *)
Definition sha_pad (msg : bytes) : bytes :=
  let n := Z.of_nat (length msg) in
  msg ++ [128] ++ replicate (Z.to_nat ((55 - n) mod 64)) 0 ++ be_bytes 8 (uint64 (8 * n)).

(** The message schedule, most recent word first. *)
Fixpoint sha_extend (n : nat) (w : list Z) : list Z :=
  match n with
  | O => w
  | S n' =>
    let x := add32 (add32 (sha_sigma1 (nth 1 w 0)) (nth 6 w 0))
                   (add32 (sha_sigma0 (nth 14 w 0)) (nth 15 w 0)) in
    sha_extend n' (x :: w)
  end.

Fixpoint words (n : nat) (b : bytes) : list Z :=
  match n with
  | O => []
  | S n' => be_int (take 4 b) :: words n' (drop 4 b)
  end.

Definition sha_round (s : list Z) (kw : Z * Z) : list Z :=
  match s with
  | [a; b; c; d; e; f; g; h] =>
    let t1 := add32 (add32 h (sha_Sigma1 e)) (add32 (sha_Ch e f g) (add32 (fst kw) (snd kw))) in
    let t2 := add32 (sha_Sigma0 a) (sha_Maj a b c) in
    [add32 t1 t2; a; b; c; add32 d t1; e; f; g]
  | _ => s
  end.

Definition sha_block (h : list Z) (blk : bytes) : list Z :=
  let w := rev (sha_extend 48 (rev (words 16 blk))) in
  zip_with add32 h (foldl sha_round h (zip sha_K w)).

Fixpoint sha_blocks (n : nat) (h : list Z) (b : bytes) : list Z :=
  match n with
  | O => h
  | S n' => sha_blocks n' (sha_block h (take 64 b)) (drop 64 b)
  end.

(** [sha256.Sum256]. *)
Definition sha256_Sum256 (msg : bytes) : bytes :=
  let p := sha_pad msg in
  concat (map (be_bytes 4) (sha_blocks (length p / 64) sha_H0 p)).

Example sha256_abc :
  hex_EncodeToString (sha256_Sum256 (bytes_of_string "abc"))
  = "ba7816bf8f01cfea414140de5dae2223b00361a396177a9cb410ff61f20015ad".
Proof. vm_compute. reflexivity. Qed.

Example sha256_empty :
  hex_EncodeToString (sha256_Sum256 [])
  = "e3b0c44298fc1c149afbf4c8996fb92427ae41e4649b934ca495991b7852b855".
Proof. vm_compute. reflexivity. Qed.

(** ** The digest is always 32 bytes *)

Lemma length_be_bytes n z : length (be_bytes n z) = n.
Proof.
  revert z. induction n as [|n IH]; intros z; simpl; [done|].
  rewrite length_app, IH. simpl. lia.
Qed.

Lemma be_bytes_wf n z : wf_bytes (be_bytes n z).
Proof.
  revert z. induction n as [|n IH]; intros z; simpl; [constructor|].
  apply Forall_app; split; [apply IH|]. constructor; [|constructor].
  unfold is_byte. pose proof (Z.mod_pos_bound z 256). lia.
Qed.

Lemma length_sha_round s kw : length (sha_round s kw) = length s.
Proof. unfold sha_round. do 8 (destruct s; [done|]). by destruct s. Qed.

Lemma length_sha_block h blk : length (sha_block h blk) = length h.
Proof.
  unfold sha_block. rewrite length_zip_with.
  assert (∀ l s, length (foldl sha_round s l) = length s) as ->.
  { intros l. induction l as [|x l IH]; intros s; simpl; [done|].
    by rewrite IH, length_sha_round. }
  lia.
Qed.

Lemma length_sha_blocks n h b : length (sha_blocks n h b) = length h.
Proof.
  revert h b. induction n as [|n IH]; intros h b; simpl; [done|].
  by rewrite IH, length_sha_block.
Qed.

Lemma length_concat_const {A} (k : nat) (f : Z → list A) (l : list Z) :
  (∀ z, length (f z) = k) → length (concat (map f l)) = (k * length l)%nat.
Proof.
  intros Hf. induction l as [|x l IH]; simpl; [lia|].
  rewrite length_app, IH, Hf. lia.
Qed.

Lemma length_sha256 msg : length (sha256_Sum256 msg) = 32%nat.
Proof.
  unfold sha256_Sum256.
  rewrite (length_concat_const 4) by apply length_be_bytes.
  by rewrite length_sha_blocks.
Qed.

Lemma sha256_wf msg : wf_bytes (sha256_Sum256 msg).
Proof.
  unfold sha256_Sum256, wf_bytes.
  induction (sha_blocks _ _ _) as [|z l IH]; cbn [map concat]; [constructor|].
  apply Forall_app; split; [apply be_bytes_wf|exact IH].
Qed.

(** ** Big-endian numbers *)

Lemma be_int_app a b : be_int (a ++ b) = be_int a * 256 ^ Z.of_nat (length b) + be_int b.
Proof.
  induction b as [|x b IH] using rev_ind.
  - rewrite app_nil_r. cbn. lia.
  - unfold be_int in *. rewrite app_assoc, !foldl_snoc, IH, length_app. simpl.
    rewrite Nat2Z.inj_add, Z.pow_add_r by lia. lia.
Qed.

Lemma be_int_range b : wf_bytes b → 0 <= be_int b < 256 ^ Z.of_nat (length b).
Proof.
  induction b as [|x b IH] using rev_ind; intros Hb; [cbn; lia|].
  apply Forall_app in Hb as [Hb Hx]. rewrite Forall_singleton in Hx.
  specialize (IH Hb). rewrite be_int_app, length_app. simpl length.
  rewrite Nat2Z.inj_add, Z.pow_add_r by lia. cbn -[Z.pow] in *.
  unfold is_byte in Hx. change (Z.of_nat 1) with 1. rewrite Z.pow_1_r. lia.
Qed.
