(* ===== verification/Core.v ===== *)
(** Findings and collectors: the contracts of [src/core/finding.go] and
    [src/core/collector.go]. Record fields carry the source's names with a
    short prefix for the record they belong to. *)
From S2P Require Import Prelude Text Float Sha256.
Local Open Scope Z_scope.

(** * Dynamic values *)

(** A Go [any], as far as findings and their evidence use it. A nested map is
    an association list with distinct keys, and a value of any other Go type is
    what it becomes when it goes through JSON, if it can. *)
Inductive any : Type :=
| ANil
| ABool (b : bool)
| AInt (z : Z)
| AFloat (f : float64)
| AString (s : string)
| AStrings (l : list string)
| AList (l : list any)
| AMap (m : list (string * any))
| AOther (json : option any).

(** Induction with a hypothesis for every value inside. *)
Fixpoint any_nested_ind (P : any → Prop)
    (Hnil : P ANil) (Hbool : ∀ b, P (ABool b)) (Hint : ∀ z, P (AInt z))
    (Hfloat : ∀ f, P (AFloat f)) (Hstring : ∀ s, P (AString s)) (Hstrings : ∀ l, P (AStrings l))
    (Hlist : ∀ l, Forall P l → P (AList l))
    (Hmap : ∀ m, Forall (λ e, P (snd e)) m → P (AMap m))
    (Hnone : P (AOther None)) (Hother : ∀ v, P v → P (AOther (Some v))) (v : any) : P v :=
  let IH := any_nested_ind P Hnil Hbool Hint Hfloat Hstring Hstrings Hlist Hmap Hnone Hother in
  match v with
  | ANil => Hnil | ABool b => Hbool b | AInt z => Hint z | AFloat f => Hfloat f
  | AString s => Hstring s | AStrings l => Hstrings l
  | AList l => Hlist l
      ((fix go (l : list any) : Forall P l :=
          match l with [] => Forall_nil_2 _ | x :: l' => Forall_cons_2 _ _ _ (IH x) (go l') end) l)
  | AMap m => Hmap m
      ((fix go (m : list (string * any)) : Forall (λ e, P (snd e)) m :=
          match m with
          | [] => Forall_nil_2 _
          | e :: m' => Forall_cons_2 (λ e, P (snd e)) e m' (IH (snd e)) (go m')
          end) m)
  | AOther None => Hnone
  | AOther (Some w) => Hother w (IH w)
  end.

(** A [map[string]any]; [None] is the nil map. *)
Abbreviation evidence := (option (gmap string any)).

(** [json.Marshal] of an evidence map: the text, or [None] when a value is not
    serialisable. The encoder is a parameter of the definitions that use it. *)
Class JSONEncoder := json_Marshal : gmap string any → option string.

(** * Severities *)

Definition SeverityCritical : string := "critical".
Definition SeverityHigh : string := "high".
Definition SeverityMedium : string := "medium".
Definition SeverityLow : string := "low".
Definition SeverityInfo : string := "info".

Definition Severity_rank (s : string) : Z :=
  if str_eqb s SeverityCritical then 4
  else if str_eqb s SeverityHigh then 3
  else if str_eqb s SeverityMedium then 2
  else if str_eqb s SeverityLow then 1
  else if str_eqb s SeverityInfo then 0
  else -1.

Definition Severity_Valid (s : string) : bool := 0 <=? Severity_rank s.

(** * Findings *)

Definition StatusOpen : string := "open".
Definition StatusResolved : string := "resolved".
Definition StatusAcknowledged : string := "acknowledged".
Definition StatusSuppressed : string := "suppressed".

Definition MaxEvidenceBytes : Z := 64 * 1024.

Record Finding := mkFinding {
  f_Fingerprint : string;
  f_Target : string;
  f_Check : string;
  f_Title : string;
  f_Severity : string;
  f_Remediation : string;
  f_Evidence : evidence;
  f_ID : string;
  f_Module : string;
  f_Status : string;
  f_GroupID : option string;
  f_FirstSeen : Z;
  f_LastSeen : Z;
  f_ResolvedAt : option Z;
}.

(** A finding as a collector returns it: the core-owned fields are zero. *)
Definition collectorFinding (fp target check title severity remediation : string)
    (ev : evidence) : Finding :=
  mkFinding fp target check title severity remediation ev "" "" "" None 0 0 None.

Record IngestError := mkIngestError { ie_Field : string; ie_Reason : string }.

Definition IngestError_Error (e : IngestError) : string :=
  "invalid finding: " +:+ ie_Field e +:+ ": " +:+ ie_Reason e.

(** The first rule that fails, in the order of the switch; [None] is [nil]. *)
Definition ValidateForIngest (f : Finding) : option IngestError :=
  if is_empty (f_Fingerprint f) then Some (mkIngestError "fingerprint" "empty")
  else if is_empty (f_Target f) then Some (mkIngestError "target" "empty")
  else if is_empty (f_Check f) then Some (mkIngestError "check" "empty")
  else if is_empty (f_Title f) then Some (mkIngestError "title" "empty")
  else if is_empty (f_Remediation f) then
    Some (mkIngestError "remediation" "empty (every finding must tell the user what to do)")
  else if negb (Severity_Valid (f_Severity f)) then
    Some (mkIngestError "severity" ("unknown value: " +:+ f_Severity f))
  else None.

Definition Fingerprint_input (module target check discriminator : string) : string :=
  module +:+ "|" +:+ target +:+ "|" +:+ check +:+ "|" +:+ discriminator.

Definition Fingerprint (module target check discriminator : string) : string :=
  hex_EncodeToString (take 16
    (sha256_Sum256 (bytes_of_string (Fingerprint_input module target check discriminator)))).

(** * Collectors *)

Record ModuleInfo := mkModuleInfo {
  m_ID : string;
  m_Name : string;
  m_Version : string;
  m_TargetKind : string;
  m_DefaultInterval : Z;
  m_ResolveAfter : Z;
}.

Definition ResolveAfterOrDefault (m : ModuleInfo) : Z :=
  if m_ResolveAfter m <? 1 then 1 else m_ResolveAfter m.

Record Target := mkTarget {
  t_Raw : string;
  t_Canonical : string;
  t_Meta : option (gmap string string);
}.

Record Change := mkChange {
  c_Kind : string;
  c_Finding : Finding;
  c_Detail : string;
}.

(** * Lemmas *)

Lemma Severity_Valid_spec s :
  Severity_Valid s = true ↔
  s ∈ [SeverityCritical; SeverityHigh; SeverityMedium; SeverityLow; SeverityInfo].
Proof.
  unfold Severity_Valid, Severity_rank, str_eqb. rewrite !elem_of_cons, elem_of_nil.
  case_bool_decide; [naive_solver|]. do 4 (case_bool_decide; [naive_solver|]).
  simpl. naive_solver.
Qed.

Lemma Severity_rank_inj s t :
  Severity_Valid s = true → Severity_rank s = Severity_rank t → s = t.
Proof.
  unfold Severity_Valid, Severity_rank, str_eqb.
  repeat case_bool_decide; subst; simpl; intros; congruence || lia.
Qed.

Lemma Severity_rank_range s : -1 <= Severity_rank s <= 4.
Proof. unfold Severity_rank. case_ifs; lia. Qed.

Lemma ResolveAfterOrDefault_pos m : 1 <= ResolveAfterOrDefault m.
Proof. unfold ResolveAfterOrDefault. case_ifs; to_prop; lia. Qed.

#[export] Hint Resolve ResolveAfterOrDefault_pos Severity_rank_range : go.

(** What a finding must have to be stored. *)
Definition ingestible (f : Finding) : Prop :=
  f_Fingerprint f ≠ "" ∧ f_Target f ≠ "" ∧ f_Check f ≠ "" ∧ f_Title f ≠ "" ∧
  f_Remediation f ≠ "" ∧ Severity_Valid (f_Severity f) = true.

Lemma ValidateForIngest_None f : ValidateForIngest f = None ↔ ingestible f.
Proof.
  unfold ValidateForIngest, ingestible, is_empty, str_eqb.
  repeat case_bool_decide; try naive_solver.
  destruct (Severity_Valid _); simpl; naive_solver.
Qed.

Lemma length_hex_EncodeToString b :
  String.length (hex_EncodeToString b) = (2 * length b)%nat.
Proof. induction b as [|x b IH]; cbn -[Nat.mul]; [done|]. rewrite IH. lia. Qed.

Definition hexchars : list ascii :=
  String.list_ascii_of_string "0123456789abcdef".

Lemma hexdigit_hex n : 0 <= n < 16 → hexdigit n ∈ hexchars.
Proof.
  intros H.
  assert (n ∈ seqZ 0 16) as Hin by (apply elem_of_seqZ; lia).
  clear H. revert n Hin.
  apply (proj1 (Forall_forall (λ n, hexdigit n ∈ hexchars) (seqZ 0 16))).
  apply (bool_decide_unpack _). by vm_compute.
Qed.

Lemma hex_EncodeToString_chars b :
  wf_bytes b → Forall (λ c, c ∈ hexchars) (String.list_ascii_of_string (hex_EncodeToString b)).
Proof.
  induction 1 as [|x b Hx _ IH]; cbn [hex_EncodeToString String.list_ascii_of_string];
    [constructor|].
  unfold is_byte in Hx.
  apply Forall_cons; split; [apply hexdigit_hex|apply Forall_cons; split;
    [apply hexdigit_hex|exact IH]].
  - split; [apply Z.div_pos; lia|apply Z.div_lt_upper_bound; lia].
  - apply Z.mod_pos_bound; lia.
Qed.

(** * Properties *)

(** A finding is accepted for storage exactly when its five descriptive
    fields are filled and its severity is one of the five known ones; a rejected
    finding's error names one of those six fields. *)
Theorem ValidateForIngest_spec f :
  (ValidateForIngest f = None ↔ ingestible f) ∧
  (∀ e, ValidateForIngest f = Some e →
     ie_Field e ∈ ["fingerprint"; "target"; "check"; "title"; "remediation"; "severity"]).
Proof.
  split; [apply ValidateForIngest_None|]. intros e. unfold ValidateForIngest.
  case_ifs; intros [= <-]; simpl; set_solver.
Qed.

Lemma length_list_ascii s : length (String.list_ascii_of_string s) = String.length s.
Proof. by induction s as [|c s IH]; cbn; [|rewrite IH]. Qed.

Lemma length_Fingerprint module target check disc :
  String.length (Fingerprint module target check disc) = 32%nat.
Proof.
  unfold Fingerprint. by rewrite length_hex_EncodeToString, length_take, length_sha256.
Qed.

Lemma Fingerprint_nonempty module target check disc : Fingerprint module target check disc ≠ "".
Proof. intros Hf. pose proof (length_Fingerprint module target check disc) as Hl. by rewrite Hf in Hl. Qed.

(** Every fingerprint is 32 lower-case hexadecimal characters, whatever text
    it is computed from, and the four parts are told apart as long as the first
    three do not hold the separator. *)
Theorem Fingerprint_shape module target check disc :
  String.length (Fingerprint module target check disc) = 32%nat ∧
  Forall (λ c, c ∈ hexchars) (String.list_ascii_of_string (Fingerprint module target check disc)) ∧
  ∀ module' target' check' disc',
    Forall (λ s, has_char "|" s = false) [module; target; check; module'; target'; check'] →
    Fingerprint_input module target check disc = Fingerprint_input module' target' check' disc' →
    (module, target, check, disc) = (module', target', check', disc').
Proof.
  unfold Fingerprint. set (b := take 16 _).
  assert (wf_bytes b ∧ length b = 16%nat) as [Hw Hl].
  { subst b. split; [apply Forall_take, sha256_wf|]. by rewrite length_take, length_sha256. }
  split_and!.
  - by rewrite length_hex_EncodeToString, Hl.
  - by apply hex_EncodeToString_chars.
  - intros m' t' c' d' Hs. repeat (apply Forall_cons in Hs as [? Hs]).
    unfold Fingerprint_input. rewrite !append_cons, !append_nil_l. intros He.
    repeat (apply append_sep_inj in He as [-> He]; [|done..]). by subst.
Qed.
