(* ===== verification/Table.v ===== *)
(** Tables of a SQL database as far as the stores use them: rows in the order of
    their insertion, found by a unique key. The statements are [INSERT] with an
    upsert clause, [DELETE] and [SELECT]; each may fail as a whole, and without
    [ORDER BY] the rows of a result come in any order. *)
From S2P Require Import Prelude.
Local Open Scope Z_scope.

(** The order in which a query without [ORDER BY] visits rows. *)
Class RowOrder := {
  visit : ∀ {A}, list A → list A;
  visit_perm : ∀ A (l : list A), visit l ≡ₚ l;
}.

(** By insertion, for running examples. *)
Program Definition rowid_order : RowOrder := {| visit A l := l |}.
Next Obligation. done. Qed.

Section Table.
Context {R K : Type} `{EqDecision K} (key : R → K).

(** The row with a key. *)
Definition row_at (k : K) (rows : list R) : option R := List.find (λ r, bool_decide (key r = k)) rows.

(** [INSERT ... ON CONFLICT(key) DO UPDATE]: [merge old new] is the updated row. *)
Definition upsert (merge : R → R → R) (r : R) (rows : list R) : list R :=
  match row_at (key r) rows with
  | Some _ => map (λ o, if decide (key o = key r) then merge o r else o) rows
  | None => rows ++ [r]
  end.

(** The key is unique. *)
Definition keyed (rows : list R) : Prop := NoDup (map key rows).

Lemma row_at_Some k rows r : row_at k rows = Some r → r ∈ rows ∧ key r = k.
Proof.
  intros Hr. apply List.find_some in Hr as [Hin Hb]. by apply list_elem_of_In in Hin; to_prop.
Qed.

Lemma row_at_None k rows : row_at k rows = None ↔ k ∉ map key rows.
Proof.
  unfold row_at. induction rows as [|x rows IH]; simpl; [set_solver|].
  case_bool_decide; set_solver.
Qed.

Lemma row_at_elem k rows r : keyed rows → row_at k rows = Some r ↔ r ∈ rows ∧ key r = k.
Proof.
  unfold keyed. intros Hnd. split; [apply row_at_Some|]. intros [Hin <-].
  induction rows as [|x rows IH]; [by apply not_elem_of_nil in Hin|].
  simpl in *. apply NoDup_cons in Hnd as [Hni Hnd]. unfold row_at. cbn [List.find].
  apply elem_of_cons in Hin as [->|Hin]; [by rewrite bool_decide_eq_true_2|].
  rewrite bool_decide_eq_false_2; [by apply IH|]. intros He. apply Hni. rewrite He.
  by apply list_elem_of_fmap_2.
Qed.

Lemma row_at_app k rows r : row_at k (rows ++ [r]) =
  match row_at k rows with Some o => Some o | None => if decide (key r = k) then Some r else None end.
Proof.
  unfold row_at. induction rows as [|x rows IH]; cbn [app List.find].
  - case_bool_decide; by case_decide.
  - by case_bool_decide.
Qed.

Section upsert.
Context (merge : R → R → R).
Hypothesis merge_key : ∀ o r, key o = key r → key (merge o r) = key r.

Lemma row_at_update k r rows :
  row_at k (map (λ o, if decide (key o = key r) then merge o r else o) rows) =
  (λ o, if decide (key o = key r) then merge o r else o) <$> row_at k rows.
Proof.
  unfold row_at. induction rows as [|x rows IH]; [done|]. cbn [map List.find].
  assert (key (if decide (key x = key r) then merge x r else x) = key x) as ->.
  { case_decide as Hk; [|done]. by rewrite merge_key. }
  by case_bool_decide.
Qed.

Lemma row_at_upsert k r rows :
  row_at k (upsert merge r rows) =
    if decide (k = key r)
    then Some (match row_at (key r) rows with Some o => merge o r | None => r end)
    else row_at k rows.
Proof.
  unfold upsert. destruct (row_at (key r) rows) as [o|] eqn:Ho.
  - rewrite row_at_update. destruct (decide (k = key r)) as [->|Hk].
    + rewrite Ho. cbn. rewrite decide_True; [done|]. by apply row_at_Some in Ho as [_ ?].
    + destruct (row_at k rows) as [o'|] eqn:Ho'; [|done]. cbn. apply row_at_Some in Ho' as [_ <-].
      by rewrite decide_False.
  - rewrite row_at_app. destruct (decide (k = key r)) as [->|Hk].
    + rewrite Ho. by rewrite decide_True.
    + rewrite decide_False by done. by destruct (row_at k rows).
Qed.

Lemma keyed_upsert r rows : keyed rows → keyed (upsert merge r rows).
Proof.
  unfold keyed, upsert. intros Hnd. destruct (row_at (key r) rows) as [o|] eqn:Ho.
  - rewrite map_map. rewrite (map_ext _ key); [done|]. intros x. case_decide; [|done].
    by rewrite merge_key.
  - apply row_at_None in Ho. rewrite map_app. apply NoDup_app. split_and!; [done| |apply NoDup_singleton].
    intros k Hk ->%list_elem_of_singleton. done.
Qed.

Lemma Forall_upsert (P : R → Prop) r rows :
  P r → (∀ o, P o → P (merge o r)) → Forall P rows → Forall P (upsert merge r rows).
Proof.
  intros Hr Hm Hp. unfold upsert. destruct (row_at (key r) rows).
  - apply Forall_map. eapply Forall_impl; [exact Hp|]. intros o Ho. cbn. case_decide; auto.
  - apply Forall_app. by repeat constructor.
Qed.
End upsert.

Lemma keyed_filter (P : R → Prop) `{∀ r, Decision (P r)} rows : keyed rows → keyed (filter P rows).
Proof. intros Hnd. eapply sublist_NoDup; [exact Hnd|]. apply (fmap_sublist key), sublist_filter. Qed.

Lemma row_at_filter (P : R → Prop) `{∀ r, Decision (P r)} k rows : keyed rows →
  row_at k (filter P rows) = match row_at k rows with
                             | Some r => if decide (P r) then Some r else None
                             | None => None
                             end.
Proof.
  intros Hnd. apply option_eq. intros r. rewrite row_at_elem by by apply keyed_filter.
  rewrite list_elem_of_filter. destruct (row_at k rows) as [o|] eqn:Ho.
  - apply (row_at_elem k rows o Hnd) in Ho as Ho'. split.
    + intros [[Hp Hin] Hk]. assert (row_at k rows = Some r) as Hr by by apply row_at_elem.
      rewrite Ho in Hr. injection Hr as ->. by rewrite decide_True.
    + case_decide; [|done]. intros [= <-]. tauto.
  - split; [|done]. intros [[_ Hin] <-]. apply row_at_None in Ho. destruct Ho.
    by apply list_elem_of_fmap_2.
Qed.
End Table.

(** ** Statements *)

(** A database behind a connection whose next statements may fail: [Some e] in
    [cn_faults] is the failure of the statement at that place. *)
Record Conn (D : Type) := mkConn { cn_data : D; cn_faults : list (option string) }.
Arguments mkConn {D} _ _.
Arguments cn_data {D} _.
Arguments cn_faults {D} _.

(** A statement that fails changes nothing. *)
Definition exec {D A} (stmt : D → result string (D * A)) : M (Conn D) string A :=
  λ c,
    let faults := tail (cn_faults c) in
    match head (cn_faults c) with
    | Some (Some e) => (mkConn (cn_data c) faults, Err e)
    | _ =>
      match stmt (cn_data c) with
      | Err e => (mkConn (cn_data c) faults, Err e)
      | Ok (d, a) => (mkConn d faults, Ok a)
      end
    end.

Definition query {D A} (f : D → A) : M (Conn D) string A := exec (λ d, Ok (d, f d)).

Definition update {D} (f : D → D) : M (Conn D) string unit := exec (λ d, Ok (f d, tt)).

(** No statement fails. *)
Definition healthy {D} (c : Conn D) : Prop := cn_faults c = [].

Lemma query_healthy {D A} (f : D → A) c : healthy c → query f c = (c, Ok (f (cn_data c))).
Proof. destruct c as [d fs]. unfold healthy. cbn. by intros ->. Qed.

Lemma exec_healthy {D A} (stmt : D → result string (D * A)) d d' a :
  stmt d = Ok (d', a) → exec stmt (mkConn d []) = (mkConn d' [], Ok a).
Proof. unfold exec. cbn. by intros ->. Qed.

(** ** Results of queries *)

(** The listing of the rows with a property, decoded, in any order. *)
Lemma listing {R K A B} `{EqDecision K} (key : R → K) (dec : R → A) (P : R → Prop)
    `{∀ r, Decision (P r)} (name : A → B) (rows l : list R) :
  l ≡ₚ filter P rows → NoDup (map key rows) →
  (∀ r r', P r → P r' → name (dec r) = name (dec r') → key r = key r') →
  NoDup (map name (map dec l)) ∧ ∀ a, a ∈ map dec l ↔ ∃ r, r ∈ rows ∧ P r ∧ a = dec r.
Proof.
  intros Hl Hnd Hinj. split.
  - rewrite Hl. clear l Hl. induction rows as [|r rows IH]; [constructor|].
    simpl in Hnd. apply NoDup_cons in Hnd as [Hni Hnd]. rewrite filter_cons.
    case_decide as Hp; [|by apply IH]. simpl. apply NoDup_cons. split; [|by apply IH].
    intros (a & Ha & (r' & -> & [Hp' Hin]%list_elem_of_filter)%list_elem_of_fmap)%list_elem_of_fmap.
    apply Hni. rewrite (Hinj r r' Hp Hp' Ha). by apply list_elem_of_fmap_2.
  - intros a. rewrite list_elem_of_fmap. setoid_rewrite Hl. setoid_rewrite list_elem_of_filter.
    naive_solver.
Qed.
