(* ===== verification/Ulid.v ===== *)
(** ULID generation: [src/store/ulid.go]. The 128-bit value is kept in two
    64-bit words, as in the code, and related to the number it stands for. *)
From S2P Require Import Prelude Text Sha256.
Local Open Scope Z_scope.

Definition crockford : list ascii :=
  String.list_ascii_of_string "0123456789ABCDEFGHJKMNPQRSTVWXYZ".

(** [crockford[i]]; the index is always below 32. *)
Definition crockford_at (i : Z) : ascii := nth (Z.to_nat i) crockford "0"%char.

(** The loop of [encodeCrockford]: [n] symbols remain to be written before
    [acc]. *)
Fixpoint encodeCrockford_loop (n : nat) (hi lo : Z) (acc : string) : string :=
  match n with
  | O => acc
  | S n' =>
    encodeCrockford_loop n' (Z.shiftr hi 5)
      (Z.lor (Z.shiftr lo 5) (uint64 (Z.shiftl hi 59)))
      (String (crockford_at (Z.land lo 31)) acc)
  end.

Definition encodeCrockford (b : bytes) : string :=
  encodeCrockford_loop 26 (be_int (take 8 b)) (be_int (drop 8 b)) "".

(** [NewULID]: [entropy] is what [crypto/rand] fills the last ten bytes with,
    or the error it returns. *)
Definition ulid_bytes (t : Z) (entropy : bytes) : bytes :=
  let ms := uint64 (time_UnixMilli t) in
  [uint8 (Z.shiftr ms 40); uint8 (Z.shiftr ms 32); uint8 (Z.shiftr ms 24);
   uint8 (Z.shiftr ms 16); uint8 (Z.shiftr ms 8); uint8 ms] ++ entropy.

Definition NewULID (t : Z) (entropy : result string bytes) : result string string :=
  b ← entropy; mret (encodeCrockford (ulid_bytes t b)).

(** * The number a ULID stands for *)

(** [n] base-32 digits of [v], most significant first: the specification of the
    encoder. *)
Fixpoint base32 (n : nat) (v : Z) : string :=
  match n with
  | O => EmptyString
  | S n' => String (crockford_at ((v / 32 ^ Z.of_nat n') mod 32)) (base32 n' v)
  end.

(** ** Words and their value *)

(** One shift of the pair of words divides the 128-bit value by 32. *)
Lemma shift_pair hi lo :
  0 <= hi < 2 ^ 64 → 0 <= lo < 2 ^ 64 →
  Z.lor (Z.shiftr lo 5) (uint64 (Z.shiftl hi 59)) = lo / 32 + (hi mod 32) * 2 ^ 59.
Proof.
  intros Hhi Hlo.
  assert (uint64 (Z.shiftl hi 59) = Z.shiftl (hi mod 32) 59) as ->.
  { unfold uint64, uintw. rewrite !Z.shiftl_mul_pow2 by lia.
    change (2 ^ 64) with (2 ^ 5 * 2 ^ 59). rewrite Z.mul_mod_distr_r by lia. done. }
  rewrite Z.shiftr_div_pow2 by lia. change (2 ^ 5) with 32.
  set (x := lo / 32). assert (0 <= x < 2 ^ 59) as Hx.
  { split; [apply Z.div_pos; lia|apply Z.div_lt_upper_bound; lia]. }
  rewrite <-Z.shiftl_mul_pow2 by lia.
  assert (Z.land x (Z.shiftl (hi mod 32) 59) = 0) as Hland.
  { apply Z.bits_inj'. intros i Hi. rewrite Z.land_spec, Z.bits_0.
    destruct (Z.lt_ge_cases i 59); [rewrite Z.shiftl_spec_low by lia; apply andb_false_r|].
    rewrite (Z.testbit_eqb x), Z.div_small by
      (assert (2 ^ 59 <= 2 ^ i) by (apply Z.pow_le_mono_r; lia); lia).
    done. }
  rewrite <-Z.lxor_lor, <-Z.add_nocarry_lxor by done. done.
Qed.

Lemma base32_snoc n v :
  base32 (S n) v = base32 n (v / 32) +:+ String (crockford_at (v mod 32)) "".
Proof.
  revert v. induction n as [|n IH]; intros v.
  - cbn. by rewrite Z.div_1_r.
  - change (base32 (S (S n)) v) with
      (String (crockford_at (v / 32 ^ Z.of_nat (S n) mod 32)) (base32 (S n) v)).
    rewrite IH. cbn [base32]. rewrite append_cons, Z.div_div by lia.
    by rewrite Nat2Z.inj_succ, Z.pow_succ_r by lia.
Qed.

Lemma encodeCrockford_loop_spec n hi lo acc :
  0 <= hi < 2 ^ 64 → 0 <= lo < 2 ^ 64 →
  encodeCrockford_loop n hi lo acc = base32 n (hi * 2 ^ 64 + lo) +:+ acc.
Proof.
  revert hi lo acc. induction n as [|n IH]; intros hi lo acc Hhi Hlo; [done|].
  cbn [encodeCrockford_loop].
  rewrite shift_pair, Z.shiftr_div_pow2 by lia. change (2 ^ 5) with 32.
  pose proof (Z.mod_pos_bound hi 32). pose proof (Z.div_mod hi 32).
  assert (0 <= lo / 32 < 2 ^ 59)
    by (split; [apply Z.div_pos; lia|apply Z.div_lt_upper_bound; lia]).
  assert (0 <= hi / 32 < 2 ^ 64)
    by (split; [apply Z.div_pos; lia|apply Z.div_lt_upper_bound; lia]).
  rewrite IH by lia.
  rewrite base32_snoc, append_assoc, append_cons, append_nil_l. do 2 f_equal.
  - assert ((hi * 2 ^ 64 + lo) / 32 = hi * 2 ^ 59 + lo / 32) as ->; [|lia].
    replace (hi * 2 ^ 64 + lo) with (lo + (hi * 2 ^ 59) * 32) by lia.
    rewrite Z.div_add by lia. lia.
  - f_equal. change 31 with (Z.ones 5). rewrite Z.land_ones by lia.
    replace (hi * 2 ^ 64 + lo) with (lo + (hi * 2 ^ 59) * 32) by lia.
    by rewrite Z.mod_add by lia.
Qed.

(** ** Digits determine the number, and its order *)

Lemma base32_mod n v : base32 n v = base32 n (v mod 32 ^ Z.of_nat n).
Proof.
  revert v. induction n as [|n IH]; intros v; [done|].
  cbn [base32]. rewrite (IH v), (IH (v mod 32 ^ Z.of_nat (S n))).
  assert (0 < 32 ^ Z.of_nat n) by (apply Z.pow_pos_nonneg; lia).
  rewrite Nat2Z.inj_succ, Z.pow_succ_r by lia. f_equal.
  - f_equal. rewrite (Z.mul_comm 32). rewrite Z.rem_mul_r by lia.
    rewrite (Z.add_comm (v mod _)), Z.mul_comm, Z.div_add_l by lia.
    rewrite (Z.div_small (v mod _)) by (apply Z.mod_pos_bound; lia).
    rewrite Z.add_0_r, Z.mod_mod by lia. done.
  - f_equal. rewrite (Z.mul_comm 32). rewrite Z.rem_mul_r by lia.
    rewrite (Z.mul_comm (32 ^ _) (_ mod 32)), Z.mod_add, Z.mod_mod by lia. done.
Qed.

Lemma crockford_at_lt i j :
  0 <= i < 32 → 0 <= j < 32 → i < j →
  Ascii.compare (crockford_at i) (crockford_at j) = Lt.
Proof.
  intros Hi Hj Hij.
  assert (i ∈ seqZ 0 32) as Ii by (apply elem_of_seqZ; lia).
  assert (j ∈ seqZ 0 32) as Ij by (apply elem_of_seqZ; lia).
  assert (Forall (λ i, Forall (λ j, i < j →
    Ascii.compare (crockford_at i) (crockford_at j) = Lt) (seqZ 0 32)) (seqZ 0 32)) as HF.
  { apply (bool_decide_unpack _). by vm_compute. }
  rewrite Forall_forall in HF. specialize (HF i Ii). simpl in HF.
  rewrite Forall_forall in HF. auto.
Qed.

Lemma ascii_compare_refl c : Ascii.compare c c = Eq.
Proof. unfold Ascii.compare. apply N.compare_refl. Qed.

Lemma base32_lt n v w :
  0 <= v < 32 ^ Z.of_nat n → 0 <= w < 32 ^ Z.of_nat n → v < w →
  String.compare (base32 n v) (base32 n w) = Lt.
Proof.
  revert v w. induction n as [|n IH]; intros v w Hv Hw Hvw; [simpl in *; lia|].
  rewrite Nat2Z.inj_succ, Z.pow_succ_r in Hv, Hw by lia.
  assert (0 < 32 ^ Z.of_nat n) as Hp by (apply Z.pow_pos_nonneg; lia).
  assert (∀ x, 0 <= x < 32 * 32 ^ Z.of_nat n → 0 <= x / 32 ^ Z.of_nat n < 32) as Hd.
  { intros x Hx. split; [apply Z.div_pos; lia|apply Z.div_lt_upper_bound; lia]. }
  pose proof (Hd v Hv) as Dv. pose proof (Hd w Hw) as Dw.
  cbn [base32 String.compare]. rewrite !(Z.mod_small (_ / _)) by done.
  assert (v / 32 ^ Z.of_nat n <= w / 32 ^ Z.of_nat n) as Hle by (apply Z.div_le_mono; lia).
  destruct (Z.eq_dec (v / 32 ^ Z.of_nat n) (w / 32 ^ Z.of_nat n)) as [He|Hne].
  - rewrite He, ascii_compare_refl. rewrite (base32_mod n v), (base32_mod n w).
    apply IH; [apply Z.mod_pos_bound; lia..|].
    pose proof (Z.div_mod v (32 ^ Z.of_nat n)). pose proof (Z.div_mod w (32 ^ Z.of_nat n)).
    rewrite He in *. lia.
  - rewrite crockford_at_lt by lia. done.
Qed.

Lemma length_base32 n v : String.length (base32 n v) = n.
Proof. induction n; simpl; auto. Qed.

Lemma string_compare_refl s : String.compare s s = Eq.
Proof. induction s; simpl; [done|]. by rewrite ascii_compare_refl. Qed.

(** ** The bytes of a ULID *)

Definition wf_entropy (b : bytes) : Prop := wf_bytes b ∧ length b = 10%nat.

Lemma ulid_bytes_value t e :
  0 <= time_UnixMilli t < 2 ^ 48 → wf_entropy e →
  be_int (ulid_bytes t e) = time_UnixMilli t * 2 ^ 80 + be_int e.
Proof.
  intros Ht [He Hl]. unfold ulid_bytes. rewrite be_int_app, Hl.
  set (ms := time_UnixMilli t) in *. f_equal.
  unfold uint64, uint8, uintw. rewrite (Z.mod_small ms) by lia.
  rewrite !Z.shiftr_div_pow2 by lia. cbn [be_int foldl].
  change (256 ^ Z.of_nat 10) with (2 ^ 80). f_equal.
  change (2 ^ 8) with 256. change (2 ^ 16) with (256 * 256).
  change (2 ^ 24) with (256 * 256 * 256). change (2 ^ 32) with (256 * 256 * 256 * 256).
  change (2 ^ 40) with (256 * 256 * 256 * 256 * 256). rewrite <-!Z.div_div by lia.
  repeat match goal with |- context [?x / 256] =>
    lazymatch x with context [_ / 256] => fail | _ =>
      let q := fresh "q" in let H := fresh "H" in
      pose proof (Z.div_mod x 256 ltac:(lia)); pose proof (Z.mod_pos_bound x 256 ltac:(lia));
      set (q := x / 256) in *
    end end.
  pose proof (Z.div_mod q3 256 ltac:(lia)). rewrite (Z.mod_small q3) by lia. lia.
Qed.

Lemma ulid_bytes_wf t e : wf_bytes e → wf_bytes (ulid_bytes t e).
Proof.
  intros He. apply Forall_app; split; [|done].
  repeat (apply Forall_cons; split; [apply uint8_byte|]). constructor.
Qed.

Lemma encodeCrockford_spec b :
  wf_bytes b → length b = 16%nat → encodeCrockford b = base32 26 (be_int b).
Proof.
  intros Hb Hl. unfold encodeCrockford.
  assert (wf_bytes (take 8 b)) as H1 by (by apply Forall_take).
  assert (wf_bytes (drop 8 b)) as H2 by (by apply Forall_drop).
  apply be_int_range in H1, H2. rewrite length_take, length_drop, Hl in *.
  change (256 ^ Z.of_nat (8 `min` 16)) with (2 ^ 64) in *.
  change (256 ^ Z.of_nat (16 - 8)) with (2 ^ 64) in *.
  rewrite encodeCrockford_loop_spec by done.
  rewrite append_nil_r. f_equal. rewrite <-(take_drop 8 b) at 3. rewrite be_int_app.
  by rewrite length_drop, Hl.
Qed.

Lemma NewULID_spec t e :
  0 <= time_UnixMilli t < 2 ^ 48 → wf_entropy e →
  NewULID t (Ok e) = Ok (base32 26 (time_UnixMilli t * 2 ^ 80 + be_int e)).
Proof.
  intros Ht [He Hl].
  change (NewULID t (Ok e)) with (@Ok string _ (encodeCrockford (ulid_bytes t e))). f_equal.
  rewrite encodeCrockford_spec, ulid_bytes_value; [done|done|done| |].
  - by apply ulid_bytes_wf.
  - unfold ulid_bytes. rewrite length_app, Hl. done.
Qed.

Lemma entropy_range e : wf_entropy e → 0 <= be_int e < 2 ^ 80.
Proof. intros [He Hl]. pose proof (be_int_range e He) as H. by rewrite Hl in H. Qed.

(** * Properties *)

(** The encoder writes the 26 base-32 digits of the 128-bit value, so two
    different values never share an identifier. *)
Theorem encodeCrockford_injective b1 b2 :
  wf_bytes b1 → wf_bytes b2 → length b1 = 16%nat → length b2 = 16%nat →
  encodeCrockford b1 = encodeCrockford b2 → be_int b1 = be_int b2.
Proof.
  intros W1 W2 L1 L2. rewrite !encodeCrockford_spec by done. intros He.
  assert (0 <= be_int b1 < 32 ^ Z.of_nat 26) as R1.
  { pose proof (be_int_range b1 W1). rewrite L1 in *.
    change (256 ^ Z.of_nat 16) with (2 ^ 128) in *.
    change (32 ^ Z.of_nat 26) with (2 ^ 130). lia. }
  assert (0 <= be_int b2 < 32 ^ Z.of_nat 26) as R2.
  { pose proof (be_int_range b2 W2). rewrite L2 in *.
    change (256 ^ Z.of_nat 16) with (2 ^ 128) in *.
    change (32 ^ Z.of_nat 26) with (2 ^ 130). lia. }
  destruct (Z.lt_trichotomy (be_int b1) (be_int b2)) as [Hlt|[Heq|Hgt]]; [|done|].
  - pose proof (base32_lt 26 _ _ R1 R2 Hlt) as Hc. by rewrite He, string_compare_refl in Hc.
  - pose proof (base32_lt 26 _ _ R2 R1 Hgt) as Hc. by rewrite He, string_compare_refl in Hc.
Qed.

(** Identifiers made at a later millisecond sort after earlier ones as
    strings, whatever their random parts. *)
Theorem NewULID_sorted t1 t2 e1 e2 u1 u2 :
  0 <= time_UnixMilli t1 → time_UnixMilli t1 < time_UnixMilli t2 →
  time_UnixMilli t2 < 2 ^ 48 → wf_entropy e1 → wf_entropy e2 →
  NewULID t1 (Ok e1) = Ok u1 → NewULID t2 (Ok e2) = Ok u2 →
  String.compare u1 u2 = Lt ∧ String.length u1 = 26%nat.
Proof.
  intros H0 Hlt Hmax He1 He2.
  rewrite !NewULID_spec by (done || lia). intros E1 E2.
  apply Ok_inj in E1, E2. subst u1 u2.
  pose proof (entropy_range e1 He1). pose proof (entropy_range e2 He2).
  split; [|apply length_base32].
  change (32 ^ Z.of_nat 26) with (2 ^ 130).
  apply base32_lt; change (32 ^ Z.of_nat 26) with (2 ^ 50 * 2 ^ 80); nia.
Qed.

Lemma encodeCrockford_injective_witness :
  be_int (replicate 16 7) = be_int (replicate 16 7).
Proof.
  apply (encodeCrockford_injective (replicate 16 7) (replicate 16 7)).
  - apply Forall_replicate. done.
  - apply Forall_replicate. done.
  - reflexivity.
  - reflexivity.
  - reflexivity.
Defined.

Lemma zero_entropy : wf_entropy (replicate 10 0).
Proof. split; [apply Forall_replicate; done|reflexivity]. Qed.

(** One millisecond after the Unix epoch against two. *)
Lemma NewULID_sorted_witness :
  ∃ u1 u2, String.compare u1 u2 = Lt ∧ String.length u1 = 26%nat.
Proof.
  eexists _, _.
  apply (NewULID_sorted (time_Unix 0 + Millisecond) (time_Unix 0 + 2 * Millisecond)
           (replicate 10 0) (replicate 10 0)).
  - vm_compute. discriminate.
  - reflexivity.
  - reflexivity.
  - exact zero_entropy.
  - exact zero_entropy.
  - reflexivity.
  - reflexivity.
Defined.
