(* ===== verification/Store.v ===== *)
(** The finding store: [src/store/store.go], [src/store/memory.go] and
    [src/store/targets.go]. The [Store] interface is a class of operations; what
    the reconcile engine relies on is the class [StoreSpec], which [MemStore]
    implements. *)
From S2P Require Import Prelude Text Core.
Local Open Scope Z_scope.

(** * Records *)

Record Record := mkRecord { r_Finding : Finding; r_AbsentStreak : Z }.

Definition r_Fingerprint (r : Record) : string := f_Fingerprint (r_Finding r).
Definition r_Module (r : Record) : string := f_Module (r_Finding r).
Definition r_Target (r : Record) : string := f_Target (r_Finding r).
Definition r_Status (r : Record) : string := f_Status (r_Finding r).

(** * The interface *)

Class StoreOps (W : Type) := {
  ListByTarget : string → string → M W string (list Record);
  Upsert : Record → M W string unit;
  Get : string → string → M W string (option Record);
  ListOpen : string → M W string (list Record);
  ListAll : string → M W string (list Record);
}.

(** Module ids never hold the separator of the composite keys. *)
Definition valid_module (m : string) : Prop := has_char (Ascii.ascii_of_nat 0) m = false.

(** The fields an upsert may keep from the row it updates. *)
Definition same_identity (o r : Record) : Prop :=
  f_ID (r_Finding o) = f_ID (r_Finding r) ∧ r_Module o = r_Module r ∧
  r_Fingerprint o = r_Fingerprint r ∧ r_Target o = r_Target r ∧
  f_Check (r_Finding o) = f_Check (r_Finding r) ∧
  f_FirstSeen (r_Finding o) = f_FirstSeen (r_Finding r).

Definition set_Evidence (ev : evidence) (f : Finding) : Finding :=
  mkFinding (f_Fingerprint f) (f_Target f) (f_Check f) (f_Title f) (f_Severity f)
    (f_Remediation f) ev (f_ID f) (f_Module f) (f_Status f) (f_GroupID f)
    (f_FirstSeen f) (f_LastSeen f) (f_ResolvedAt f).

Definition r_Evidence (r : Record) : evidence := f_Evidence (r_Finding r).

(** [r] with its evidence as a store gives it back. *)
Definition with_evidence (norm : evidence → evidence) (r : Record) : Record :=
  mkRecord (set_Evidence (norm (r_Evidence r)) (r_Finding r)) (r_AbsentStreak r).

(** Every field that validation looks at is the old record's or the new one's. *)
Record mixes (o r m : Record) : Prop := {
  mx_Fingerprint : r_Fingerprint m = r_Fingerprint o ∨ r_Fingerprint m = r_Fingerprint r;
  mx_Target : r_Target m = r_Target o ∨ r_Target m = r_Target r;
  mx_Check : f_Check (r_Finding m) = f_Check (r_Finding o) ∨ f_Check (r_Finding m) = f_Check (r_Finding r);
  mx_Title : f_Title (r_Finding m) = f_Title (r_Finding o) ∨ f_Title (r_Finding m) = f_Title (r_Finding r);
  mx_Remediation : f_Remediation (r_Finding m) = f_Remediation (r_Finding o) ∨
    f_Remediation (r_Finding m) = f_Remediation (r_Finding r);
  mx_Severity : f_Severity (r_Finding m) = f_Severity (r_Finding o) ∨
    f_Severity (r_Finding m) = f_Severity (r_Finding r);
}.

(** Values that every encoder can write. *)
Definition plain (v : any) : bool :=
  match v with ABool _ | AInt _ | AString _ | AStrings _ => true | _ => false end.

(** What a working store promises. Evidence may be stored in an encoded form, so
    a store names the evidence it can write ([storable]) and what it reads back
    ([norm_evidence]). [upsert_merge old r] is what is stored when [r] is upserted
    over [old]: the store may keep the identity of the row. A new row needs an id
    of its own. *)
Class StoreSpec (W : Type) `{StoreOps W} := {
  store_inv : W → Prop;
  lookup_rec : W → string → string → option Record;
  storable : evidence → Prop;
  storable_nil : storable None;
  storable_plain : ∀ ev, map_Forall (λ _ v, plain v = true) ev → storable (Some ev);
  norm_evidence : evidence → evidence;
  upsert_merge : option Record → Record → Record;
  upsert_merge_new : ∀ r, upsert_merge None r = with_evidence norm_evidence r;
  upsert_merge_same : ∀ o r, same_identity o r →
    upsert_merge (Some o) r = with_evidence norm_evidence r;
  upsert_merge_updates : ∀ o r,
    r_Status (upsert_merge (Some o) r) = r_Status r ∧
    r_AbsentStreak (upsert_merge (Some o) r) = r_AbsentStreak r ∧
    (r_Target o = r_Target r → r_Target (upsert_merge (Some o) r) = r_Target r);
  upsert_merge_mixes : ∀ o r, mixes o r (upsert_merge (Some o) r);
  lookup_rec_evidence : ∀ w m fp r, store_inv w → valid_module m → lookup_rec w m fp = Some r →
    storable (r_Evidence r) ∧ norm_evidence (r_Evidence r) = r_Evidence r;
  lookup_rec_key : ∀ w m fp r, store_inv w → valid_module m →
    lookup_rec w m fp = Some r → r_Module r = m ∧ r_Fingerprint r = fp;
  ListByTarget_spec : ∀ w m t, store_inv w → valid_module m →
    ∃ l, ListByTarget m t w = (w, Ok l) ∧ NoDup (map r_Fingerprint l) ∧
      ∀ r, r ∈ l ↔ lookup_rec w m (r_Fingerprint r) = Some r ∧ r_Target r = t;
  Upsert_spec : ∀ w r, store_inv w → valid_module (r_Module r) → storable (r_Evidence r) →
    (lookup_rec w (r_Module r) (r_Fingerprint r) = None →
     ∀ m fp o, lookup_rec w m fp = Some o → f_ID (r_Finding o) ≠ f_ID (r_Finding r)) →
    ∃ w', Upsert r w = (w', Ok tt) ∧ store_inv w' ∧
      ∀ m fp, valid_module m →
        lookup_rec w' m fp =
          if decide (m = r_Module r ∧ fp = r_Fingerprint r)
          then Some (upsert_merge (lookup_rec w m fp) r)
          else lookup_rec w m fp;
  Get_spec : ∀ w m fp, store_inv w → valid_module m →
    Get m fp w = (w, Ok (lookup_rec w m fp));
  ListOpen_spec : ∀ w m, store_inv w → valid_module m →
    ∃ l, ListOpen m w = (w, Ok l) ∧ NoDup (map r_Fingerprint l) ∧
      ∀ r, r ∈ l ↔ lookup_rec w m (r_Fingerprint r) = Some r ∧ r_Status r = StatusOpen;
  ListAll_spec : ∀ w m, store_inv w → valid_module m →
    ∃ l, ListAll m w = (w, Ok l) ∧ NoDup (map r_Fingerprint l) ∧
      ∀ r, r ∈ l ↔ lookup_rec w m (r_Fingerprint r) = Some r;
}.
Arguments storable W {_ _} _.
Arguments norm_evidence W {_ _} _.

(** [r] as the store [W] gives it back. *)
Definition stored (W : Type) `{StoreSpec W} : Record → Record := with_evidence (norm_evidence W).

(** A stored record keeps its evidence. *)
Lemma stored_same {W} `{StoreSpec W} w m fp o r : store_inv w → valid_module m →
  lookup_rec w m fp = Some o → r_Evidence r = r_Evidence o → storable W (r_Evidence r) ∧ stored W r = r.
Proof.
  intros Hw Hm Ho He. destruct (lookup_rec_evidence w m fp o Hw Hm Ho) as [Hs Hn]. split; [by rewrite He|].
  unfold stored, with_evidence. rewrite He, Hn, <-He. by destruct r as [[] ?].
Qed.

(** The store can write whatever the encoder can. *)
Class StoreJSON (W : Type) `{StoreSpec W} `{JSONEncoder} :=
  storable_marshals : ∀ ev, is_Some (json_Marshal ev) → storable W (Some ev).

(** A generator of identifiers: it succeeds, leaves the records alone and gives
    an id that no record has. *)
Definition fresh_ids {W} `{StoreSpec W} (newID : Z → M W string string) : Prop :=
  ∀ t w, store_inv w →
    ∃ w' id, newID t w = (w', Ok id) ∧ store_inv w' ∧
      (∀ m fp, lookup_rec w' m fp = lookup_rec w m fp) ∧
      ∀ m fp o, lookup_rec w m fp = Some o → f_ID (r_Finding o) ≠ id.

(** * The in-memory store *)

Record memTarget := mkMemTarget { mt_raw : string; mt_canonical : string }.

Record MemStore := mkMemStore {
  ms_recs : gmap string Record;
  ms_targets : option (gmap string (list memTarget)); (* [None] is the nil map *)
}.

Definition NewMemStore : MemStore := mkMemStore ∅ None.

Definition key (module fingerprint : string) : string := module +:+ nul +:+ fingerprint.

Section MemStore.
Context `{MapRange}.

Definition MemStore_ListByTarget (module target : string) : M MemStore string (list Record) :=
  λ m, (m, Ok (filter (λ r, r_Module r = module ∧ r_Target r = target)
                      (snd <$> range_map (ms_recs m)))).

Definition MemStore_Upsert (r : Record) : M MemStore string unit :=
  λ m, (mkMemStore (<[key (r_Module r) (r_Fingerprint r) := r]> (ms_recs m)) (ms_targets m), Ok tt).

Definition MemStore_Get (module fingerprint : string) : M MemStore string (option Record) :=
  λ m, (m, Ok (ms_recs m !! key module fingerprint)).

Definition MemStore_ListOpen (module : string) : M MemStore string (list Record) :=
  λ m, (m, Ok (filter (λ r, r_Module r = module ∧ r_Status r = StatusOpen)
                      (snd <$> range_map (ms_recs m)))).

Definition MemStore_ListAll (module : string) : M MemStore string (list Record) :=
  λ m, (m, Ok (filter (λ r, r_Module r = module) (snd <$> range_map (ms_recs m)))).

#[export] Instance MemStore_ops : StoreOps MemStore := {
  ListByTarget := MemStore_ListByTarget;
  Upsert := MemStore_Upsert;
  Get := MemStore_Get;
  ListOpen := MemStore_ListOpen;
  ListAll := MemStore_ListAll;
}.
End MemStore.

(** ** Saved targets *)

Definition targets_of (m : MemStore) (module : string) : list memTarget :=
  map_get [] (default ∅ (ms_targets m)) module.

Definition MemStore_SaveTarget (module raw canonical : string) (m : MemStore) : MemStore :=
  let targets := default ∅ (ms_targets m) in
  let m := mkMemStore (ms_recs m) (Some targets) in
  if existsb (λ t, str_eqb (mt_canonical t) canonical) (targets_of m module) then m
  else mkMemStore (ms_recs m)
    (Some (<[module := targets_of m module ++ [mkMemTarget raw canonical]]> targets)).

(** Writing to the nil map panics. *)
Definition MemStore_DeleteTarget (module canonical : string) (m : MemStore) : outcome MemStore :=
  match ms_targets m with
  | None => Panic
  | Some targets =>
    Done (mkMemStore (ms_recs m)
      (Some (<[module := filter (λ t, mt_canonical t ≠ canonical) (targets_of m module)]> targets)))
  end.

Definition MemStore_ListSavedTargets (module : string) (m : MemStore) : list string :=
  map mt_raw (targets_of m module).

(** * Lemmas *)

Lemma key_inj m fp m' fp' :
  valid_module m → valid_module m' → key m fp = key m' fp' → m = m' ∧ fp = fp'.
Proof. unfold key, nul. rewrite !append_cons, !append_nil_l. apply append_sep_inj. Qed.

(** Every record sits under its own key. *)
Definition MemStore_inv (m : MemStore) : Prop :=
  map_Forall (λ k r, k = key (r_Module r) (r_Fingerprint r) ∧ valid_module (r_Module r))
    (ms_recs m).

Lemma MemStore_inv_empty : MemStore_inv NewMemStore.
Proof. apply map_Forall_empty. Qed.

Lemma MemStore_inv_lookup s m fp r :
  MemStore_inv s → valid_module m → ms_recs s !! key m fp = Some r →
  r_Module r = m ∧ r_Fingerprint r = fp.
Proof.
  intros Hs Hm Hr. destruct (Hs _ _ Hr) as [Hk Hv].
  destruct (key_inj _ _ _ _ Hm Hv Hk). naive_solver.
Qed.

Section MemStoreSpec.
Context `{MapRange}.

Lemma elem_of_range_values (s : gmap string Record) r :
  r ∈ snd <$> range_map s ↔ ∃ k, s !! k = Some r.
Proof.
  rewrite list_elem_of_fmap. split.
  - intros ([k r'] & -> & Hin). exists k. by apply elem_of_range_map.
  - intros [k Hk]. exists (k, r). by rewrite elem_of_range_map.
Qed.

Lemma MemStore_values_NoDup s m :
  MemStore_inv s →
  NoDup (map r_Fingerprint (filter (λ r, r_Module r = m) (snd <$> range_map (ms_recs s)))).
Proof.
  intros Hs. rewrite range_map_perm.
  assert (∀ l, NoDup l.*1 →
    (∀ k r, (k, r) ∈ l → k = key (r_Module r) (r_Fingerprint r)) →
    NoDup (map r_Fingerprint (filter (λ r, r_Module r = m) (snd <$> l)))) as Hl.
  { induction l as [|[k r] l IH]; intros Hnd Hk; [constructor|].
    simpl in *. apply NoDup_cons in Hnd as [Hni Hnd].
    rewrite filter_cons. case_decide as Hm; [|apply IH; [done|by intros; apply Hk; right]].
    simpl. apply NoDup_cons. split; [|apply IH; [done|by intros; apply Hk; right]].
    rewrite list_elem_of_In, in_map_iff. intros (r' & Hfp & Hin).
    apply list_elem_of_In, list_elem_of_filter in Hin as [Hm' Hin].
    apply list_elem_of_fmap in Hin as ([k' r''] & -> & Hin). simpl in *.
    apply Hni. rewrite list_elem_of_fmap. exists (k', r''). split; [|done]. simpl.
    rewrite (Hk k r) by left. rewrite (Hk k' r'') by (by right). congruence. }
  apply Hl; [apply NoDup_fst_map_to_list|].
  intros k r Hin. apply elem_of_map_to_list in Hin. by destruct (Hs _ _ Hin).
Qed.

(** What a listing of a module's records holds. *)
Lemma MemStore_listing s m (P : Record → Prop) `{∀ r, Decision (P r)} :
  MemStore_inv s → valid_module m →
  let l := filter (λ r, r_Module r = m ∧ P r) (snd <$> range_map (ms_recs s)) in
  NoDup (map r_Fingerprint l) ∧ ∀ r, r ∈ l ↔ ms_recs s !! key m (r_Fingerprint r) = Some r ∧ P r.
Proof.
  intros Hs Hm l. subst l. split.
  - rewrite (list_filter_iff _ (λ r, P r ∧ r_Module r = m)) by (intros; tauto).
    rewrite <-list_filter_filter. pose proof (MemStore_values_NoDup s m Hs) as Hnd.
    eapply sublist_NoDup; [exact Hnd|]. apply (fmap_sublist r_Fingerprint), sublist_filter.
  - intros r. rewrite list_elem_of_filter, elem_of_range_values. split.
    + intros [[Hrm Hp] [k Hk]]. destruct (Hs _ _ Hk) as [-> _]. by rewrite Hrm in Hk.
    + intros [Hr Ht]. destruct (MemStore_inv_lookup _ _ _ _ Hs Hm Hr). eauto.
Qed.

#[export] Program Instance MemStore_spec : StoreSpec MemStore := {|
  store_inv := MemStore_inv;
  lookup_rec s m fp := ms_recs s !! key m fp;
  storable _ := True;
  norm_evidence ev := ev;
  upsert_merge o r := r;
|}.
Next Obligation. done. Qed.
Next Obligation. done. Qed.
Next Obligation. by intros [[] ?]. Qed.
Next Obligation. by intros o [[] ?]. Qed.
Next Obligation. done. Qed.
Next Obligation. intros o r. split; by right. Qed.
Next Obligation. done. Qed.
Next Obligation. intros. by eapply MemStore_inv_lookup. Qed.
Next Obligation.
  intros s m t Hs Hm. eexists. split; [done|]. by apply (MemStore_listing s m (λ r, r_Target r = t)).
Qed.
Next Obligation.
  intros s r Hs Hr _ _. eexists. split; [done|]. split.
  - apply map_Forall_insert_2; auto.
  - intros m fp Hm. simpl. case_decide as Hd.
    + destruct Hd as [-> ->]. by rewrite lookup_insert_eq.
    + rewrite lookup_insert_ne; [done|]. intros Hk.
      apply key_inj in Hk; [naive_solver|done|done].
Qed.
Next Obligation. done. Qed.
Next Obligation.
  intros s m Hs Hm. eexists. split; [done|].
  by apply (MemStore_listing s m (λ r, r_Status r = StatusOpen)).
Qed.
Next Obligation.
  intros s m Hs Hm. eexists. split; [done|].
  destruct (MemStore_listing s m (λ _, True)) as [Hnd Hin]; [done|done|].
  rewrite (list_filter_iff _ (λ r, r_Module r = m ∧ True)) by (intros; tauto).
  split; [done|]. intros r. rewrite Hin. tauto.
Qed.

#[export] Instance MemStore_json `{JSONEncoder} : StoreJSON MemStore.
Proof. done. Qed.

(** A generator for running examples: its ids are longer than those in use. *)
Definition freshID (t : Z) : M MemStore string string :=
  λ s, (s, Ok (foldr (λ kr id, f_ID (r_Finding (snd kr)) +:+ id) "01" (map_to_list (ms_recs s)))).

Lemma freshID_fresh : fresh_ids freshID.
Proof.
  intros t s Hs. eexists _, _. split_and!; [done..|]. intros m fp o Ho He. cbn in Ho.
  apply elem_of_map_to_list in Ho. cut (String.length (f_ID (r_Finding o)) <
    String.length (foldr (λ kr id, f_ID (r_Finding (snd kr)) +:+ id) "01" (map_to_list (ms_recs s))))%nat;
    [rewrite <-He; lia|].
  clear He. induction (map_to_list (ms_recs s)) as [|[k r] l IH]; [by apply not_elem_of_nil in Ho|].
  cbn [foldr snd]. rewrite str_length_app. apply elem_of_cons in Ho as [[= _ ->]|Ho].
  - assert (0 < String.length (foldr (λ kr id, f_ID (r_Finding (snd kr)) +:+ id) "01" l))%nat; [|lia].
    clear. induction l as [|x l IH]; cbn [foldr]; [cbn; lia|]. rewrite str_length_app. lia.
  - specialize (IH Ho). lia.
Qed.
End MemStoreSpec.

(** * Properties of the target store *)

Lemma targets_of_Save module raw canonical m mo :
  targets_of (MemStore_SaveTarget module raw canonical m) mo =
    targets_of m mo ++
    (if decide (mo = module ∧ canonical ∉ map mt_canonical (targets_of m module))
     then [mkMemTarget raw canonical] else []).
Proof.
  unfold MemStore_SaveTarget.
  assert (existsb (λ t, str_eqb (mt_canonical t) canonical) (targets_of m module) = true ↔
    canonical ∈ map mt_canonical (targets_of m module)) as He.
  { rewrite existsb_exists, list_elem_of_In, in_map_iff.
    unfold str_eqb. setoid_rewrite bool_decide_eq_true. naive_solver. }
  unfold targets_of in *. cbn.
  destruct (existsb _ _) eqn:E; destruct (decide _) as [[-> Hn]|Hn]; cbn.
  - naive_solver.
  - by rewrite app_nil_r.
  - by rewrite map_get_insert_eq.
  - rewrite app_nil_r. destruct (decide (mo = module)) as [->|]; [|by rewrite map_get_insert_ne].
    destruct Hn. split; [done|]. intros Hin%He. congruence.
Qed.

Lemma ms_targets_Save module raw canonical m :
  is_Some (ms_targets (MemStore_SaveTarget module raw canonical m)).
Proof. unfold MemStore_SaveTarget. case_ifs; by eexists. Qed.

Lemma ms_recs_Save module raw canonical m :
  ms_recs (MemStore_SaveTarget module raw canonical m) = ms_recs m.
Proof. unfold MemStore_SaveTarget. by case_ifs. Qed.

Lemma Delete_spec module canonical m :
  is_Some (ms_targets m) →
  ∃ m', MemStore_DeleteTarget module canonical m = Done m' ∧ ms_recs m' = ms_recs m ∧
    ∀ mo, targets_of m' mo =
      if decide (mo = module) then filter (λ t, mt_canonical t ≠ canonical) (targets_of m mo)
      else targets_of m mo.
Proof.
  intros [targets Ht]. unfold MemStore_DeleteTarget. rewrite Ht. eexists. split_and!; [done|done|].
  intros mo. unfold targets_of at 1. cbn. case_decide as Hd; [subst|].
  - by rewrite map_get_insert_eq.
  - rewrite map_get_insert_ne by done. unfold targets_of. by rewrite Ht.
Qed.

(** ** The interface *)

(** [TargetStore]: the saved targets of a module. *)
Class TargetStoreOps (T : Type) := {
  ts_SaveTarget : string → string → string → M T string unit;
  ts_DeleteTarget : string → string → M T string unit;
  ts_ListSavedTargets : string → M T string (list string);
}.

(** What its clients rely on: saving appends a new canonical name and changes
    nothing for a known one, deleting removes it, listing gives the raw inputs in
    the order of saving. *)
Class TargetStoreSpec (T : Type) `{TargetStoreOps T} := {
  ts_inv : T → Prop;
  ts_saved : T → string → list memTarget;
  SaveTarget_spec : ∀ t m raw c, ts_inv t →
    ∃ t', ts_SaveTarget m raw c t = (t', Ok tt) ∧ ts_inv t' ∧
      ∀ mo, ts_saved t' mo = ts_saved t mo ++
        (if decide (mo = m ∧ c ∉ map mt_canonical (ts_saved t m)) then [mkMemTarget raw c] else []);
  DeleteTarget_spec : ∀ t m c, ts_inv t →
    ∃ t', ts_DeleteTarget m c t = (t', Ok tt) ∧ ts_inv t' ∧
      ∀ mo, ts_saved t' mo =
        if decide (mo = m) then filter (λ x, mt_canonical x ≠ c) (ts_saved t mo) else ts_saved t mo;
  ListSavedTargets_spec : ∀ t m, ts_inv t →
    ts_ListSavedTargets m t = (t, Ok (map mt_raw (ts_saved t m)));
}.

(** [MemStore] keeps the contract once its map exists; deleting before that
    panics, here an error. *)
#[export] Instance MemStore_target_ops : TargetStoreOps MemStore := {
  ts_SaveTarget m raw c s := (MemStore_SaveTarget m raw c s, Ok tt);
  ts_DeleteTarget m c s :=
    match MemStore_DeleteTarget m c s with Done s' => (s', Ok tt) | _ => (s, Err "panic") end;
  ts_ListSavedTargets m s := (s, Ok (MemStore_ListSavedTargets m s));
}.

#[export] Program Instance MemStore_target_spec : TargetStoreSpec MemStore := {|
  ts_inv s := is_Some (ms_targets s);
  ts_saved := targets_of;
|}.
Next Obligation.
  intros t m raw c _. eexists. split_and!; [done|apply ms_targets_Save|].
  intros mo. apply targets_of_Save.
Qed.
Next Obligation.
  intros t m c Ht. destruct (Delete_spec m c t Ht) as (t' & Hd & Hrec & Hs).
  exists t'. cbn. rewrite Hd. split_and!; [done| |done].
  unfold MemStore_DeleteTarget in Hd. destruct (ms_targets t); [|done]. injection Hd as <-. by eexists.
Qed.
Next Obligation. done. Qed.

(** Saving a target that is not saved appends it to its module's list, saving
    it again under another spelling changes nothing, and deleting it afterwards
    gives back exactly the list there was; findings and other modules' targets
    are untouched throughout. *)
Theorem save_delete_roundtrip module raw raw' canonical m :
  canonical ∉ map mt_canonical (targets_of m module) →
  let m1 := MemStore_SaveTarget module raw canonical m in
  MemStore_ListSavedTargets module m1 = MemStore_ListSavedTargets module m ++ [raw] ∧
  (∀ mo, targets_of (MemStore_SaveTarget module raw' canonical m1) mo = targets_of m1 mo) ∧
  ∃ m2, MemStore_DeleteTarget module canonical m1 = Done m2 ∧ ms_recs m2 = ms_recs m ∧
    ∀ mo, MemStore_ListSavedTargets mo m2 = MemStore_ListSavedTargets mo m.
Proof.
  intros Hnew m1. unfold MemStore_ListSavedTargets.
  assert (targets_of m1 module = targets_of m module ++ [mkMemTarget raw canonical]) as Hm1.
  { subst m1. by rewrite targets_of_Save, decide_True. }
  split_and!.
  - by rewrite Hm1, map_app.
  - intros mo. rewrite targets_of_Save, decide_False, app_nil_r; [done|].
    rewrite Hm1, map_app. set_solver.
  - destruct (Delete_spec module canonical m1) as (m2 & -> & Hrecs & Hl).
    { apply ms_targets_Save. }
    exists m2. split_and!; [done|by rewrite Hrecs; apply ms_recs_Save|].
    intros mo. rewrite Hl. f_equal. case_decide as Hd.
    + subst mo. rewrite Hm1, filter_app, filter_true, filter_cons_False, filter_nil, app_nil_r;
        [done|by intros []|].
      apply Forall_forall. intros t Ht Heq. apply Hnew. rewrite <-Heq.
      by apply list_elem_of_In, in_map, list_elem_of_In.
    + subst m1. rewrite targets_of_Save, decide_False by naive_solver. apply app_nil_r.
Qed.

Lemma save_delete_roundtrip_witness :
  let m1 := MemStore_SaveTarget "m" "Example.com" "example.com" NewMemStore in
  MemStore_ListSavedTargets "m" m1 = ["Example.com"] ∧
  (∀ mo, targets_of (MemStore_SaveTarget "m" "EXAMPLE.com" "example.com" m1) mo = targets_of m1 mo) ∧
  ∃ m2, MemStore_DeleteTarget "m" "example.com" m1 = Done m2 ∧ ms_recs m2 = ms_recs NewMemStore ∧
    ∀ mo, MemStore_ListSavedTargets mo m2 = MemStore_ListSavedTargets mo NewMemStore.
Proof.
  apply (save_delete_roundtrip "m" "Example.com" "EXAMPLE.com" "example.com" NewMemStore).
  apply not_elem_of_nil.
Defined.

(** Deleting a target panics exactly on a store where none was ever saved:
    the map of saved targets is made by the first save only. *)
Theorem DeleteTarget_panics module canonical m :
  MemStore_DeleteTarget module canonical m = Panic ↔ ms_targets m = None.
Proof. unfold MemStore_DeleteTarget. by destruct (ms_targets m). Qed.
