(* ===== verification/Reconcile.v ===== *)
(** The reconcile engine: [src/store/reconcile.go], over any store that
    implements the interface of [Store.v]. *)
From S2P Require Import Prelude Text Core Store.
Local Open Scope Z_scope.

(** * Results *)

Record ReconcileResult := mkResult {
  NewlyOpen : list Finding;
  Resolved : list Finding;
  Rejected : list (Finding * IngestError);
}.

Definition emptyResult : ReconcileResult := mkResult [] [] [].

Definition addNewlyOpen (f : Finding) (r : ReconcileResult) : ReconcileResult :=
  mkResult (NewlyOpen r ++ [f]) (Resolved r) (Rejected r).
Definition addResolved (f : Finding) (r : ReconcileResult) : ReconcileResult :=
  mkResult (NewlyOpen r) (Resolved r ++ [f]) (Rejected r).
Definition addRejected (f : Finding) (e : IngestError) (r : ReconcileResult) : ReconcileResult :=
  mkResult (NewlyOpen r) (Resolved r) (Rejected r ++ [(f, e)]).

(** * Field updates *)

Definition capEvidence `{JSONEncoder} (f : Finding) : Finding :=
  match f_Evidence f with
  | None => f
  | Some ev =>
    match json_Marshal ev with
    | None =>
      set_Evidence (Some {["_error" := AString "evidence not serialisable; dropped"]}) f
    | Some b =>
      if MaxEvidenceBytes <? str_len b then
        set_Evidence (Some (<["_truncated" := ABool true]>
          (<["_original_bytes" := AInt (str_len b)]>
          {["_note" := AString "evidence exceeded MaxEvidenceBytes and was dropped"]}))) f
      else f
    end
  end.

(** [rec := Record{Finding: f}] with the core-owned fields filled. *)
Definition newRecord (mo : string) (f : Finding) (id : string) (now : Z) : Record :=
  mkRecord
    (mkFinding (f_Fingerprint f) (f_Target f) (f_Check f) (f_Title f) (f_Severity f)
      (f_Remediation f) (f_Evidence f) id mo StatusOpen (f_GroupID f) now now (f_ResolvedAt f))
    0.

(** [merged]: the mutable fields of [f] on the stored record. *)
Definition refreshRecord (prev : Record) (f : Finding) (now : Z) : Record :=
  let p := r_Finding prev in
  let reopened := str_eqb (f_Status p) StatusResolved in
  mkRecord
    (mkFinding (f_Fingerprint p) (f_Target p) (f_Check p) (f_Title f) (f_Severity f)
      (f_Remediation f) (f_Evidence f) (f_ID p) (f_Module p)
      (if reopened then StatusOpen else f_Status p) (f_GroupID p)
      (f_FirstSeen p) now (if reopened then None else f_ResolvedAt p))
    0.

Definition reopened (prev : Record) : bool := str_eqb (r_Status prev) StatusResolved.

(** Statuses the absence pass leaves alone. *)
Definition settled (r : Record) : bool :=
  str_eqb (r_Status r) StatusResolved || str_eqb (r_Status r) StatusSuppressed.

Definition set_AbsentStreak (n : Z) (r : Record) : Record := mkRecord (r_Finding r) n.

Definition set_Resolved (now : Z) (r : Record) : Record :=
  let f := r_Finding r in
  mkRecord
    (mkFinding (f_Fingerprint f) (f_Target f) (f_Check f) (f_Title f) (f_Severity f)
      (f_Remediation f) (f_Evidence f) (f_ID f) (f_Module f) StatusResolved (f_GroupID f)
      (f_FirstSeen f) (f_LastSeen f) (Some now))
    (r_AbsentStreak r).

(** * The engine *)

Section Reconcile.
Context {W : Type} `{StoreOps W} `{JSONEncoder}.
Context (now : Z) (newID : Z → M W string string).

(** An early [return res, err]. *)
Definition orReturn {A} (res : ReconcileResult) (m : M W string A) :
    M W (ReconcileResult * string) A :=
  λ w, match m w with (w', Ok a) => (w', Ok a) | (w', Err e) => (w', Err (res, e)) end.

(** The first loop: every fresh finding, in order. *)
Fixpoint Reconcile_fresh (mo : ModuleInfo) (byFP : gmap string Record)
    (fresh : list Finding) (seen : gset string) (res : ReconcileResult) :
    M W (ReconcileResult * string) (gset string * ReconcileResult) :=
  match fresh with
  | [] => mret (seen, res)
  | f :: rest =>
    match ValidateForIngest f with
    | Some err => Reconcile_fresh mo byFP rest seen (addRejected f err res)
    | None =>
      let f := capEvidence f in
      let seen := {[f_Fingerprint f]} ∪ seen in
      match byFP !! f_Fingerprint f with
      | None =>
        id ← orReturn res (newID now);
        let rec := newRecord (m_ID mo) f id now in
        _ ← orReturn res (Upsert rec);
        Reconcile_fresh mo byFP rest seen (addNewlyOpen (r_Finding rec) res)
      | Some prev =>
        let merged := refreshRecord prev f now in
        _ ← orReturn res (Upsert merged);
        Reconcile_fresh mo byFP rest seen
          (if reopened prev then addNewlyOpen (r_Finding merged) res else res)
      end
    end
  end.

(** The second loop: stored findings this scan did not report. *)
Fixpoint Reconcile_absent (mo : ModuleInfo) (existing : list Record)
    (seen : gset string) (res : ReconcileResult) :
    M W (ReconcileResult * string) ReconcileResult :=
  match existing with
  | [] => mret res
  | r :: rest =>
    if bool_decide (r_Fingerprint r ∈ seen) then Reconcile_absent mo rest seen res
    else if settled r then Reconcile_absent mo rest seen res
    else
      let r := set_AbsentStreak (r_AbsentStreak r + 1) r in
      let expired := ResolveAfterOrDefault mo <=? r_AbsentStreak r in
      let r := if expired then set_Resolved now r else r in
      let res := if expired then addResolved (r_Finding r) res else res in
      _ ← orReturn res (Upsert r);
      Reconcile_absent mo rest seen res
  end.

Definition byFingerprint (existing : list Record) : gmap string Record :=
  foldl (λ m r, <[r_Fingerprint r := r]> m) ∅ existing.

Definition Reconcile (mo : ModuleInfo) (target : string) (fresh : list Finding) :
    M W (ReconcileResult * string) ReconcileResult :=
  existing ← orReturn emptyResult (ListByTarget (m_ID mo) target);
  '(seen, res) ← Reconcile_fresh mo (byFingerprint existing) fresh ∅ emptyResult;
  Reconcile_absent mo existing seen res.
End Reconcile.

(** * Specification *)

(** What one scan does to a stored record that it does not report. *)
Definition ageRecord (mo : ModuleInfo) (now : Z) (r : Record) : Record :=
  if settled r then r
  else
    let r := set_AbsentStreak (r_AbsentStreak r + 1) r in
    if ResolveAfterOrDefault mo <=? r_AbsentStreak r then set_Resolved now r else r.

Definition is_valid (f : Finding) : bool :=
  match ValidateForIngest f with None => true | Some _ => false end.

(** The valid finding of [fresh] with a given fingerprint. *)
Definition reported (fresh : list Finding) (fp : string) : option Finding :=
  List.find (λ f, is_valid f && str_eqb (f_Fingerprint f) fp) fresh.

Definition valid_fps (fresh : list Finding) : list string :=
  map f_Fingerprint (filter is_valid fresh).

(** The record that a report of [f] leaves behind in a store. *)
Definition afterReport (W : Type) `{StoreSpec W} `{JSONEncoder} (mo : ModuleInfo) (now : Z)
    (old : option Record) (f : Finding) (new : option Record) : Prop :=
  match old with
  | None => ∃ id, new = Some (stored W (newRecord (m_ID mo) (capEvidence f) id now))
  | Some r => new = Some (stored W (refreshRecord r (capEvidence f) now))
  end.

(** A report is announced when the finding is new or was resolved. *)
Definition announced (old : option Record) : bool :=
  match old with None => true | Some r => reopened r end.

(** * Lemmas *)

Section capEvidence_lemmas.
Context `{JSONEncoder}.

Lemma capEvidence_cases f :
  capEvidence f = f ∨ ∃ ev, capEvidence f = set_Evidence ev f.
Proof.
  unfold capEvidence. destruct (f_Evidence f); [|by left].
  destruct (json_Marshal _); [|by eauto]. case_ifs; eauto.
Qed.

Lemma capEvidence_Fingerprint f : f_Fingerprint (capEvidence f) = f_Fingerprint f.
Proof. by destruct (capEvidence_cases f) as [->|[ev ->]]. Qed.

(** What is left of the evidence can be stored. *)
Lemma capEvidence_storable W `{StoreSpec W} `{!StoreJSON W} f : storable W (f_Evidence (capEvidence f)).
Proof.
  unfold capEvidence. destruct (f_Evidence f) as [ev|] eqn:He; [|rewrite He; apply storable_nil].
  destruct (json_Marshal ev) as [b|] eqn:Hb.
  - case_ifs; cbn [set_Evidence f_Evidence].
    + apply storable_plain. by do 2 (apply map_Forall_insert_2; [done|]); apply map_Forall_singleton.
    + rewrite He. apply storable_marshals. by rewrite Hb.
  - cbn [set_Evidence f_Evidence]. apply storable_plain. by apply map_Forall_singleton.
Qed.
End capEvidence_lemmas.

Lemma refreshRecord_identity r f now : same_identity r (refreshRecord r f now).
Proof. done. Qed.

Lemma set_streak_identity r n : same_identity r (set_AbsentStreak n r).
Proof. done. Qed.

Lemma ageRecord_identity mo now r : same_identity r (ageRecord mo now r).
Proof. unfold ageRecord. case_ifs; done. Qed.

#[export] Hint Resolve refreshRecord_identity ageRecord_identity : go.

Lemma valid_fps_cons f fresh :
  valid_fps (f :: fresh) =
    if is_valid f then f_Fingerprint f :: valid_fps fresh else valid_fps fresh.
Proof. unfold valid_fps. rewrite filter_cons. by destruct (is_valid f). Qed.

Lemma reported_cons f fresh fp :
  reported (f :: fresh) fp =
    if is_valid f && bool_decide (f_Fingerprint f = fp) then Some f else reported fresh fp.
Proof. done. Qed.

Lemma reported_None fresh fp :
  reported fresh fp = None ↔ fp ∉ valid_fps fresh.
Proof.
  induction fresh as [|f l IH]; [unfold valid_fps; set_solver|].
  rewrite valid_fps_cons, reported_cons. destruct (is_valid f); simpl; [|done].
  case_bool_decide; set_solver.
Qed.

Lemma reported_Some fresh fp f :
  reported fresh fp = Some f → f ∈ fresh ∧ is_valid f = true ∧ f_Fingerprint f = fp.
Proof.
  intros Hf. apply List.find_some in Hf as [Hin Hb].
  apply list_elem_of_In in Hin. to_prop. done.
Qed.

Lemma byFingerprint_spec l :
  NoDup (map r_Fingerprint l) →
  ∀ fp r, byFingerprint l !! fp = Some r ↔ r ∈ l ∧ r_Fingerprint r = fp.
Proof.
  unfold byFingerprint. intros Hnd fp r.
  assert (∀ m : gmap string Record, (∀ r, r ∈ l → m !! r_Fingerprint r = None) →
    foldl (λ m r, <[r_Fingerprint r := r]> m) m l !! fp = Some r ↔
    (r ∈ l ∧ r_Fingerprint r = fp) ∨ m !! fp = Some r) as Hg.
  { induction l as [|x l IH]; intros m Hm; simpl; [set_solver|].
    simpl in Hnd. apply NoDup_cons in Hnd as [Hx Hnd].
    rewrite IH; [|done|].
    - rewrite lookup_insert_Some. rewrite elem_of_cons.
      specialize (Hm x ltac:(by left)). split; [naive_solver|].
      intros [[[->|Hin] <-]|Hmfp]; [naive_solver..|].
      destruct (decide (r_Fingerprint x = fp)) as [<-|]; [congruence|naive_solver].
    - intros r' Hr'. rewrite lookup_insert_ne; [apply Hm; by right|].
      intros He. apply Hx. rewrite He. apply list_elem_of_In, in_map, list_elem_of_In, Hr'. }
  rewrite Hg by (intros; apply lookup_empty). rewrite lookup_empty. naive_solver.
Qed.

(** * Correctness over a lawful store *)

Section ReconcileSpec.
Context {W : Type} `{StoreSpec W} `{JSONEncoder} `{!StoreJSON W}.
Context (now : Z) (newID : Z → M W string string).

Hypothesis newID_ok : fresh_ids newID.

(** An upsert writes its record and nothing else. *)
Lemma Upsert_exact w r r' :
  store_inv w → valid_module (r_Module r) → storable W (r_Evidence r) →
  (lookup_rec w (r_Module r) (r_Fingerprint r) = None →
   ∀ m fp o, lookup_rec w m fp = Some o → f_ID (r_Finding o) ≠ f_ID (r_Finding r)) →
  upsert_merge (lookup_rec w (r_Module r) (r_Fingerprint r)) r = r' →
  ∃ w', Upsert r w = (w', Ok tt) ∧ store_inv w' ∧
    lookup_rec w' (r_Module r) (r_Fingerprint r) = Some r' ∧
    ∀ m fp, valid_module m → m ≠ r_Module r ∨ fp ≠ r_Fingerprint r →
      lookup_rec w' m fp = lookup_rec w m fp.
Proof.
  intros Hw Hm Hev Hid Hmerge. destruct (Upsert_spec w r Hw Hm Hev Hid) as (w' & -> & Hw' & Hl).
  exists w'. split_and!; [done..| |].
  - rewrite Hl by done. by rewrite decide_True, Hmerge by done.
  - intros m fp Hv Hne. rewrite Hl by done. rewrite decide_False; [done|naive_solver].
Qed.

(** One valid finding: the loop stores it, announces it when it is new or
    reopened, and goes on. *)
Lemma Reconcile_fresh_step mo byFP f fresh seen res w :
  store_inv w → valid_module (m_ID mo) → ValidateForIngest f = None →
  byFP !! f_Fingerprint f = lookup_rec w (m_ID mo) (f_Fingerprint f) →
  ∃ w1 res1 r1,
    Reconcile_fresh now newID mo byFP (f :: fresh) seen res w
      = Reconcile_fresh now newID mo byFP fresh ({[f_Fingerprint f]} ∪ seen) res1 w1 ∧
    store_inv w1 ∧
    lookup_rec w1 (m_ID mo) (f_Fingerprint f) = Some r1 ∧
    afterReport W mo now (lookup_rec w (m_ID mo) (f_Fingerprint f)) f (Some r1) ∧
    (∀ m fp, valid_module m → m ≠ m_ID mo ∨ fp ≠ f_Fingerprint f →
       lookup_rec w1 m fp = lookup_rec w m fp) ∧
    map f_Fingerprint (NewlyOpen res1) = map f_Fingerprint (NewlyOpen res) ++
      (if announced (lookup_rec w (m_ID mo) (f_Fingerprint f)) then [f_Fingerprint f] else []) ∧
    Resolved res1 = Resolved res ∧ Rejected res1 = Rejected res.
Proof.
  intros Hw Hm Hv Hby. cbn [Reconcile_fresh]. rewrite Hv, capEvidence_Fingerprint, Hby.
  unfold mbind, M_mbind, orReturn.
  destruct (lookup_rec w (m_ID mo) (f_Fingerprint f)) as [prev|] eqn:Hl.
  - destruct (lookup_rec_key _ _ _ _ Hw Hm Hl) as [Hpm Hpf].
    destruct (Upsert_exact w (refreshRecord prev (capEvidence f) now)
      (stored W (refreshRecord prev (capEvidence f) now))) as
      (w1 & -> & Hw1 & Hr1 & Hframe); [done|by rewrite <-Hpm in Hm|apply capEvidence_storable; exact _|..].
    { change (r_Module (refreshRecord _ _ _)) with (r_Module prev).
      change (r_Fingerprint (refreshRecord _ _ _)) with (r_Fingerprint prev).
      rewrite Hpm, Hpf, Hl. done. }
    { change (r_Module (refreshRecord _ _ _)) with (r_Module prev).
      change (r_Fingerprint (refreshRecord _ _ _)) with (r_Fingerprint prev).
      rewrite Hpm, Hpf, Hl. by apply upsert_merge_same. }
    change (r_Module (refreshRecord _ _ _)) with (r_Module prev) in *.
    change (r_Fingerprint (refreshRecord _ _ _)) with (r_Fingerprint prev) in *.
    rewrite Hpm, Hpf in *.
    eexists w1, _, _. split_and!; [done|done|exact Hr1|done|exact Hframe|..]; cbn;
      unfold r_Fingerprint in Hpf; destruct (reopened prev); cbn;
      rewrite ?app_nil_r, ?map_app; cbn; by rewrite ?Hpf.
  - destruct (newID_ok now w Hw) as (w0 & id & -> & Hw0 & Hl0 & Hfree).
    destruct (Upsert_exact w0 (newRecord (m_ID mo) (capEvidence f) id now)
      (stored W (newRecord (m_ID mo) (capEvidence f) id now))) as
      (w1 & -> & Hw1 & Hr1 & Hframe); [done|done|apply capEvidence_storable; exact _|..].
    { intros _ m fp o. rewrite Hl0. apply Hfree. }
    { cbn. rewrite capEvidence_Fingerprint, Hl0, Hl. apply upsert_merge_new. }
    cbn in Hr1, Hframe. rewrite capEvidence_Fingerprint in Hr1, Hframe.
    eexists w1, _, _. split_and!; [done|done|exact Hr1|by eexists| |..]; cbn;
      [|by rewrite map_app; cbn; rewrite capEvidence_Fingerprint|done..].
    intros m fp Hvm Hne. by rewrite Hframe, Hl0 by done.
Qed.

Lemma Reconcile_fresh_ok mo byFP fresh : ∀ seen res w,
  store_inv w → valid_module (m_ID mo) → NoDup (valid_fps fresh) →
  (∀ fp, fp ∈ valid_fps fresh → byFP !! fp = lookup_rec w (m_ID mo) fp) →
  ∃ w' res',
    Reconcile_fresh now newID mo byFP fresh seen res w
      = (w', Ok (list_to_set (valid_fps fresh) ∪ seen, res')) ∧
    store_inv w' ∧
    (∀ fp f, reported fresh fp = Some f →
       afterReport W mo now (lookup_rec w (m_ID mo) fp) f (lookup_rec w' (m_ID mo) fp)) ∧
    (∀ m fp, valid_module m → m ≠ m_ID mo ∨ fp ∉ valid_fps fresh →
       lookup_rec w' m fp = lookup_rec w m fp) ∧
    map f_Fingerprint (NewlyOpen res') = map f_Fingerprint (NewlyOpen res) ++
      filter (λ fp, announced (lookup_rec w (m_ID mo) fp)) (valid_fps fresh) ∧
    Resolved res' = Resolved res ∧
    map fst (Rejected res') = map fst (Rejected res) ++ filter (λ f, negb (is_valid f)) fresh.
Proof.
  induction fresh as [|f fresh IH]; intros seen res w Hw Hm Hnd Hby.
  { exists w, res. unfold valid_fps. cbn. rewrite !app_nil_r, (left_id_L ∅ (∪)).
    split_and!; done. }
  rewrite valid_fps_cons, filter_cons in *. setoid_rewrite reported_cons.
  destruct (is_valid f) eqn:Hiv; unfold is_valid in Hiv;
    destruct (ValidateForIngest f) as [err|] eqn:Hv; try done; cbn [andb negb].
  - apply NoDup_cons in Hnd as [Hnin Hnd].
    destruct (Reconcile_fresh_step mo byFP f fresh seen res w Hw Hm Hv)
      as (w1 & res1 & r1 & -> & Hw1 & Hr1 & Hafter & Hframe1 & Hopen1 & Hres1 & Hrej1);
      [apply Hby; by left|].
    destruct (IH ({[f_Fingerprint f]} ∪ seen) res1 w1 Hw1 Hm Hnd)
      as (w' & res' & -> & Hw' & Hrep & Hframe & Hopen & Hres & Hrej).
    { intros fp Hfp. rewrite Hby by set_solver. symmetry. apply Hframe1; set_solver. }
    exists w', res'. split_and!; try done.
    + do 3 f_equal. simpl. set_solver.
    + intros fp f'. case_bool_decide as Hd.
      * intros [= <-]. rewrite <-Hd, Hframe, Hr1 by auto. done.
      * intros Hf'. specialize (Hrep fp f' Hf'). by rewrite Hframe1 in Hrep by auto.
    + intros m fp Hvm Hne. rewrite Hframe by set_solver. apply Hframe1; set_solver.
    + rewrite Hopen, Hopen1, <-app_assoc, filter_cons. f_equal.
      rewrite (filter_ext_in _ (λ fp, announced (lookup_rec w (m_ID mo) fp)) (valid_fps fresh)).
      * by destruct (announced _).
      * intros fp Hfp. rewrite Hframe1 by set_solver. done.
    + by rewrite Hres.
    + by rewrite Hrej, Hrej1.
  - cbn [Reconcile_fresh]. rewrite Hv.
    destruct (IH seen (addRejected f err res) w Hw Hm Hnd Hby)
      as (w' & res' & -> & Hw' & Hrep & Hframe & Hopen & Hres & Hrej).
    exists w', res'. split_and!; try done.
    rewrite Hrej. unfold addRejected. cbn. by rewrite map_app, <-app_assoc.
Qed.

(** ** The absence pass *)

Definition expires (mo : ModuleInfo) (r : Record) : bool :=
  negb (settled r) && (ResolveAfterOrDefault mo <=? r_AbsentStreak r + 1).

Lemma ageRecord_settled mo r : settled r = true → ageRecord mo now r = r.
Proof. unfold ageRecord. by intros ->. Qed.

(** One record of the loop over the absent findings. *)
Lemma absent_step mo r existing (seen : gset string) res w :
  store_inv w → valid_module (m_ID mo) → r_Module r = m_ID mo →
  (r_Fingerprint r ∉ seen → lookup_rec w (m_ID mo) (r_Fingerprint r) = Some r) →
  ∃ w1 res1,
    Reconcile_absent now mo (r :: existing) seen res w
      = Reconcile_absent now mo existing seen res1 w1 ∧ store_inv w1 ∧
    (r_Fingerprint r ∉ seen →
       lookup_rec w1 (m_ID mo) (r_Fingerprint r) = Some (ageRecord mo now r)) ∧
    (∀ m fp, valid_module m → m ≠ m_ID mo ∨ fp ∈ seen ∨ fp ≠ r_Fingerprint r →
       lookup_rec w1 m fp = lookup_rec w m fp) ∧
    NewlyOpen res1 = NewlyOpen res ∧ Rejected res1 = Rejected res ∧
    map f_Fingerprint (Resolved res1) = map f_Fingerprint (Resolved res) ++
      (if decide (r_Fingerprint r ∉ seen ∧ expires mo r) then [r_Fingerprint r] else []).
Proof.
  intros Hw Hm Hrm Hl. cbn [Reconcile_absent]. case_bool_decide as Hseen.
  { exists w, res. rewrite decide_False, app_nil_r by naive_solver. naive_solver. }
  assert (lookup_rec w (m_ID mo) (r_Fingerprint r) = Some r) as Hlr by auto.
  destruct (settled r) eqn:Hset.
  { exists w, res. rewrite decide_False, app_nil_r by (unfold expires; rewrite Hset; naive_solver).
    rewrite ageRecord_settled by done. naive_solver. }
  unfold mbind, M_mbind, orReturn. unfold ageRecord, expires. rewrite Hset. cbn [negb andb].
  set (r' := if _ <=? _ then set_Resolved _ _ else _).
  assert (same_identity r r') as Hid by (subst r'; by case_ifs).
  assert (r_Evidence r' = r_Evidence r) as Hev by (subst r'; by case_ifs).
  destruct (stored_same w _ _ r r' Hw Hm Hlr Hev) as [Hsto Hsame].
  destruct Hid as (? & Hm' & Hf' & Hid).
  destruct (Upsert_exact w r' r') as (w1 & -> & Hw1 & Hu & Hframe).
  { done. } { by rewrite <-Hm', Hrm. } { done. } { by rewrite <-Hm', <-Hf', Hrm, Hlr. }
  { rewrite <-Hm', <-Hf', Hrm, Hlr. etrans; [by apply upsert_merge_same|exact Hsame]. }
  rewrite <-Hm', <-Hf', Hrm in *.
  eexists w1, _. split_and!; [done|done|done|..].
  - intros m fp Hv Hor. apply Hframe; [done|]. naive_solver.
  - by case_ifs.
  - by case_ifs.
  - subst r'. cbn. destruct (ResolveAfterOrDefault mo <=? r_AbsentStreak r + 1) eqn:He; cbn.
    + rewrite decide_True by done. by rewrite map_app.
    + rewrite decide_False, app_nil_r by naive_solver. done.
Qed.

Lemma Reconcile_absent_ok mo existing (seen : gset string) : ∀ res w,
  store_inv w → valid_module (m_ID mo) → NoDup (map r_Fingerprint existing) →
  (∀ r, r ∈ existing → r_Module r = m_ID mo) →
  (∀ r, r ∈ existing → r_Fingerprint r ∉ seen →
     lookup_rec w (m_ID mo) (r_Fingerprint r) = Some r) →
  ∃ w' res',
    Reconcile_absent now mo existing seen res w = (w', Ok res') ∧ store_inv w' ∧
    (∀ r, r ∈ existing → r_Fingerprint r ∉ seen →
       lookup_rec w' (m_ID mo) (r_Fingerprint r) = Some (ageRecord mo now r)) ∧
    (∀ m fp, valid_module m →
       m ≠ m_ID mo ∨ fp ∈ seen ∨ fp ∉ map r_Fingerprint existing →
       lookup_rec w' m fp = lookup_rec w m fp) ∧
    NewlyOpen res' = NewlyOpen res ∧ Rejected res' = Rejected res ∧
    map f_Fingerprint (Resolved res') = map f_Fingerprint (Resolved res) ++
      map r_Fingerprint (filter (λ r, r_Fingerprint r ∉ seen ∧ expires mo r) existing).
Proof.
  induction existing as [|r existing IH]; intros res w Hw Hm Hnd Hmod Hl.
  { exists w, res. cbn. rewrite app_nil_r. split_and!; try done. set_solver. }
  simpl in Hnd. apply NoDup_cons in Hnd as [Hnin Hnd].
  assert (∀ r', r' ∈ existing → r_Fingerprint r' ≠ r_Fingerprint r) as Hne.
  { intros r' Hr' He. apply Hnin. rewrite <-He. apply list_elem_of_In, in_map.
    by apply list_elem_of_In. }
  destruct (absent_step mo r existing seen res w Hw Hm)
    as (w1 & res1 & -> & Hw1 & Hr1 & Hframe1 & Hopen1 & Hrej1 & Hres1).
  { apply Hmod. by left. }
  { apply Hl. by left. }
  destruct (IH res1 w1 Hw1 Hm Hnd) as (w' & res' & -> & Hw' & Haged & Hframe & Ho & Hj & Hs).
  { intros; apply Hmod; by right. }
  { intros r' Hr' Hns. rewrite Hframe1 by auto. apply Hl; [by right|done]. }
  exists w', res'. split_and!; [done|done|..]; try congruence.
  - intros r' Hr' Hns. apply elem_of_cons in Hr' as [->|Hr']; [|by apply Haged].
    rewrite Hframe by auto. by apply Hr1.
  - intros m fp Hv Hor. simpl in Hor. rewrite Hframe by set_solver. apply Hframe1; set_solver.
  - rewrite Hs, Hres1, filter_cons, <-app_assoc. f_equal. by case_decide.
Qed.

(** ** One scan *)

(** The abstract specification of a scan of [target] that reports [fresh]: what
    every record becomes, and what the result lists. *)
Record scan_spec (mo : ModuleInfo) (target : string) (fresh : list Finding)
    (w w' : W) (res : ReconcileResult) : Prop := {
  scan_inv : store_inv w';
  scan_reported : ∀ fp f, reported fresh fp = Some f →
    afterReport W mo now (lookup_rec w (m_ID mo) fp) f (lookup_rec w' (m_ID mo) fp);
  scan_absent : ∀ fp, reported fresh fp = None →
    lookup_rec w' (m_ID mo) fp =
      (λ r, if decide (r_Target r = target) then ageRecord mo now r else r)
        <$> lookup_rec w (m_ID mo) fp;
  scan_frame : ∀ m fp, valid_module m → m ≠ m_ID mo → lookup_rec w' m fp = lookup_rec w m fp;
  scan_NewlyOpen : map f_Fingerprint (NewlyOpen res) =
    filter (λ fp, announced (lookup_rec w (m_ID mo) fp)) (valid_fps fresh);
  scan_Rejected : map fst (Rejected res) = filter (λ f, negb (is_valid f)) fresh;
  scan_Resolved : ∀ fp, fp ∈ map f_Fingerprint (Resolved res) ↔
    reported fresh fp = None ∧
    ∃ r, lookup_rec w (m_ID mo) fp = Some r ∧ r_Target r = target ∧ expires mo r = true;
}.

(** What the engine assumes of a scan: no fingerprint is reported twice, and a
    reported fingerprint that is already stored belongs to the scanned target. *)
Definition scan_ok (mo : ModuleInfo) (target : string) (fresh : list Finding) (w : W) : Prop :=
  NoDup (valid_fps fresh) ∧
  ∀ fp r, fp ∈ valid_fps fresh → lookup_rec w (m_ID mo) fp = Some r → r_Target r = target.

Lemma Reconcile_ok mo target fresh w :
  store_inv w → valid_module (m_ID mo) → scan_ok mo target fresh w →
  ∃ w' res, Reconcile now newID mo target fresh w = (w', Ok res) ∧
    scan_spec mo target fresh w w' res.
Proof.
  intros Hw Hm [Hnd Htgt]. unfold Reconcile, mbind, M_mbind, orReturn.
  destruct (ListByTarget_spec w (m_ID mo) target Hw Hm) as (ex & -> & Hexnd & Hex).
  pose proof (byFingerprint_spec ex Hexnd) as Hby.
  destruct (Reconcile_fresh_ok mo (byFingerprint ex) fresh ∅ emptyResult w Hw Hm Hnd)
    as (w1 & res1 & -> & Hw1 & Hrep1 & Hframe1 & Ho1 & Hs1 & Hj1).
  { intros fp Hfp. apply option_eq. intros r. rewrite Hby, Hex. split.
    - intros [[Hl _] <-]. done.
    - intros Hl. destruct (lookup_rec_key _ _ _ _ Hw Hm Hl) as [_ <-]. eauto. }
  rewrite (right_id_L ∅ (∪)).
  destruct (Reconcile_absent_ok mo ex (list_to_set (valid_fps fresh)) res1 w1 Hw1 Hm Hexnd)
    as (w' & res & -> & Hw' & Hage & Hframe & Ho & Hj & Hs).
  { intros r [Hl _]%Hex. by destruct (lookup_rec_key _ _ _ _ Hw Hm Hl). }
  { intros r [Hl _]%Hex Hns. rewrite Hframe1 by (by set_solver). done. }
  exists w', res. split; [done|]. split; [done|..].
  - intros fp f Hf. rewrite Hframe; [by apply Hrep1|done|right; left].
    apply elem_of_list_to_set. destruct (decide (fp ∈ valid_fps fresh)); [done|].
    apply reported_None in n. congruence.
  - intros fp Hn. apply reported_None in Hn.
    destruct (lookup_rec w (m_ID mo) fp) as [r|] eqn:Hl; simpl.
    + destruct (lookup_rec_key _ _ _ _ Hw Hm Hl) as [Hrm <-]. case_decide as Ht.
      * apply Hage; [by apply Hex|set_solver].
      * rewrite Hframe; [rewrite Hframe1; [exact Hl|done|by right]|done|].
        right; right. rewrite list_elem_of_In, in_map_iff. intros (r' & He & Hin).
        apply list_elem_of_In, Hex in Hin as [Hl' Ht']. congruence.
    + rewrite Hframe; [rewrite Hframe1; [exact Hl|done|by right]|done|].
      right; right. rewrite list_elem_of_In, in_map_iff. intros (r' & He & Hin).
      apply list_elem_of_In, Hex in Hin as [Hl' _]. congruence.
  - intros m fp Hv Hne. rewrite Hframe, Hframe1; auto.
  - by rewrite Ho, Ho1.
  - by rewrite Hj, Hj1.
  - intros fp. rewrite Hs, Hs1, reported_None. cbn [emptyResult Resolved map app].
    rewrite list_elem_of_In, in_map_iff. setoid_rewrite <-list_elem_of_In.
    setoid_rewrite list_elem_of_filter. setoid_rewrite Hex. setoid_rewrite elem_of_list_to_set.
    split.
    + intros (r & <- & [Hns Hexp] & Hl & Ht). split; [done|].
      exists r. split_and!; [done..|]. by apply Is_true_eq_true.
    + intros [Hns (r & Hl & Ht & Hexp)]. exists r.
      destruct (lookup_rec_key _ _ _ _ Hw Hm Hl) as [_ <-]. rewrite Hexp. done.
Qed.
End ReconcileSpec.

(** * Sequences of scans *)

Section Scans.
Context {W : Type} `{StoreSpec W} `{JSONEncoder} `{!StoreJSON W}.
Context (newID : Z → M W string string).
Hypothesis newID_ok : fresh_ids newID.

(** Successive scans of one target, each at its own time. *)
Fixpoint run_scans (mo : ModuleInfo) (target : string) (scans : list (Z * list Finding)) :
    M W (ReconcileResult * string) (list ReconcileResult) :=
  match scans with
  | [] => mret []
  | (now, fresh) :: rest =>
    res ← Reconcile now newID mo target fresh;
    l ← run_scans mo target rest;
    mret (res :: l)
  end.

(** Scans that report findings of their own target, each fingerprint once, and
    never [fp]. *)
Definition quiet_scans (target fp : string) (scans : list (Z * list Finding)) : Prop :=
  Forall (λ s, NoDup (valid_fps (snd s)) ∧ fp ∉ valid_fps (snd s) ∧
               Forall (λ f, f_Target f = target) (snd s)) scans.

Definition own_fingerprints (mo : ModuleInfo) (target : string)
    (scans : list (Z * list Finding)) (w : W) : Prop :=
  ∀ s fp r, s ∈ scans → fp ∈ valid_fps (snd s) →
    lookup_rec w (m_ID mo) fp = Some r → r_Target r = target.

Lemma afterReport_Target mo now old f new target r :
  afterReport W mo now old f new → new = Some r → f_Target f = target →
  (∀ o, old = Some o → r_Target o = target) → r_Target r = target.
Proof.
  unfold afterReport. intros Ha -> Hf Ho. destruct old as [o|].
  - injection Ha as ->. by apply (Ho o).
  - destruct Ha as [id [= ->]]. unfold r_Target; cbn.
    by destruct (capEvidence_cases f) as [->|[ev ->]].
Qed.

Lemma ageRecord_Target mo now r : r_Target (ageRecord mo now r) = r_Target r.
Proof. symmetry. apply ageRecord_identity. Qed.

Lemma run_scans_lookup mo target fp scans : ∀ w r,
  store_inv w → valid_module (m_ID mo) → quiet_scans target fp scans →
  own_fingerprints mo target scans w →
  lookup_rec w (m_ID mo) fp = Some r → r_Target r = target →
  ∃ w' l, run_scans mo target scans w = (w', Ok l) ∧
    lookup_rec w' (m_ID mo) fp =
      Some (foldl (λ r (s : Z * list Finding), ageRecord mo (fst s) r) r scans).
Proof.
  induction scans as [|[now fresh] scans IH]; intros w r Hw Hm Hq Hown Hl Ht.
  { exists w, []. done. }
  apply Forall_cons in Hq as [(Hnd & Hnin & Htgt) Hq]. simpl in *.
  unfold mbind, M_mbind.
  destruct (Reconcile_ok now newID newID_ok mo target fresh w Hw Hm)
    as (w1 & res & -> & Hs).
  { split; [done|]. intros fp' r' Hin. eapply (Hown (now, fresh)); [by left|done]. }
  destruct Hs as [Hw1 Hrep Habs _ _ _ _].
  destruct (IH w1 (ageRecord mo now r)) as (w2 & l & -> & Hl2); [done|done|done|..].
  - intros s fp' r' Hin Hfp' Hl'.
    destruct (reported fresh fp') as [f|] eqn:Hr.
    + eapply afterReport_Target; [by apply Hrep|exact Hl'|..].
      * apply reported_Some in Hr as (Hin' & _ & _). rewrite Forall_forall in Htgt. auto.
      * intros o Ho. eapply (Hown (now, fresh)); [by left| |done].
        destruct (decide (fp' ∈ valid_fps fresh)); [done|].
        apply reported_None in n. congruence.
    + rewrite Habs in Hl' by done. apply fmap_Some in Hl' as (o & Ho & ->).
      case_decide; rewrite ?ageRecord_Target; [done|].
      eapply (Hown s); [by right|done|done].
  - rewrite Habs by (by apply reported_None). rewrite Hl. simpl. by rewrite decide_True.
  - by rewrite ageRecord_Target.
  - exists w2, (res :: l). done.
Qed.
End Scans.

Lemma afterReport_stored W `{StoreSpec W} `{JSONEncoder} mo now old f new :
  afterReport W mo now old f new → is_Some new.
Proof. unfold afterReport. destruct old; naive_solver. Qed.

Lemma afterReport_not_resolved W `{StoreSpec W} `{JSONEncoder} mo now old f r :
  afterReport W mo now old f (Some r) → r_Status r ≠ StatusResolved.
Proof.
  unfold afterReport. destruct old as [o|].
  - intros [= ->]. unfold r_Status. cbn. case_ifs; to_prop; [by vm_compute|done].
  - intros [id [= ->]]. by vm_compute.
Qed.

(** ** Ageing *)

Lemma settled_foldl mo r (scans : list (Z * list Finding)) :
  settled r = true → foldl (λ r (s : Z * list Finding), ageRecord mo (fst s) r) r scans = r.
Proof.
  intros Hr. induction scans as [|s scans IH]; [done|]. simpl.
  by rewrite ageRecord_settled.
Qed.

Lemma ageRecord_foldl mo scans : ∀ r,
  settled r = false → r_AbsentStreak r < ResolveAfterOrDefault mo →
  r_Status (foldl (λ r (s : Z * list Finding), ageRecord mo (fst s) r) r scans) =
    (if ResolveAfterOrDefault mo <=? r_AbsentStreak r + Z.of_nat (length scans)
     then StatusResolved else r_Status r).
Proof.
  induction scans as [|s scans IH]; intros r Hr Hlt; simpl length.
  { case_ifs; to_prop; [simpl in *; lia|done]. }
  cbn [foldl]. unfold ageRecord at 2. rewrite Hr. cbn [set_AbsentStreak r_AbsentStreak].
  destruct (ResolveAfterOrDefault mo <=? r_AbsentStreak r + 1) eqn:He; to_prop.
  - rewrite settled_foldl by done.
    destruct (Z.leb_spec (ResolveAfterOrDefault mo)
      (r_AbsentStreak r + Z.of_nat (S (length scans)))); [done|lia].
  - rewrite IH; [|done|done]. cbn [set_AbsentStreak r_AbsentStreak].
    replace (r_AbsentStreak r + 1 + Z.of_nat (length scans))
      with (r_AbsentStreak r + Z.of_nat (S (length scans))) by lia. done.
Qed.

(** * Properties *)

(** An encoder for running the engine on examples. *)
Definition noMarshal : JSONEncoder := λ _, Some "{}".

Definition exMod : ModuleInfo := mkModuleInfo "loglight" "Loglight" "0.2.4" "source" (5 * Minute) 1.
Definition exFinding : Finding :=
  collectorFinding "fp1" "auth" "detect.scan" "Port scan" "medium" "Block it" None.
Definition exRecord : Record := newRecord "loglight" exFinding "01" 100.
Definition exStore : MemStore := mkMemStore {[key "loglight" "fp1" := exRecord]} None.

Lemma exStore_inv : MemStore_inv exStore.
Proof. apply map_Forall_singleton. done. Qed.

(** C14: one reconcile over a working store implements the abstract scan: every
    reported finding is inserted as open or refreshed, every unreported record
    of the target ages, nothing else changes, and the result lists exactly the
    findings opened, resolved and rejected. *)
Theorem Reconcile_refines_scan {W} `{StoreSpec W} `{JSONEncoder} `{!StoreJSON W} now
    (newID : Z → M W string string)
    (newID_ok : fresh_ids newID)
    mo target fresh w :
  store_inv w → valid_module (m_ID mo) → scan_ok mo target fresh w →
  ∃ w' res, Reconcile now newID mo target fresh w = (w', Ok res) ∧
    scan_spec now mo target fresh w w' res.
Proof. apply Reconcile_ok, newID_ok. Qed.

Lemma Reconcile_refines_scan_witness :
  let H := canonical_range in let J := noMarshal in
  ∃ w' res, Reconcile 200 freshID exMod "auth" [] exStore = (w', Ok res) ∧
    scan_spec 200 exMod "auth" [] exStore w' res.
Proof.
  intros H J. apply (Reconcile_refines_scan 200 freshID freshID_fresh).
  - exact exStore_inv.
  - reflexivity.
  - split; [constructor|]. intros fp r Hfp. apply not_elem_of_nil in Hfp. destruct Hfp.
Defined.

(** C17: a finding the collector stops reporting is resolved at exactly the
    [ResolveAfter]-th consecutive scan without it, and keeps its status until
    then, whatever else those scans report. *)
Theorem absent_finding_resolves {W} `{StoreSpec W} `{JSONEncoder} `{!StoreJSON W}
    (newID : Z → M W string string)
    (newID_ok : fresh_ids newID)
    mo target fp scans w r :
  store_inv w → valid_module (m_ID mo) → quiet_scans target fp scans →
  own_fingerprints mo target scans w →
  lookup_rec w (m_ID mo) fp = Some r → r_Target r = target →
  settled r = false → r_AbsentStreak r < ResolveAfterOrDefault mo →
  ∃ w' l r', run_scans newID mo target scans w = (w', Ok l) ∧
    lookup_rec w' (m_ID mo) fp = Some r' ∧
    r_Status r' =
      (if ResolveAfterOrDefault mo <=? r_AbsentStreak r + Z.of_nat (length scans)
       then StatusResolved else r_Status r).
Proof.
  intros Hw Hm Hq Hown Hl Ht Hset Hlt.
  destruct (run_scans_lookup newID newID_ok mo target fp scans w r)
    as (w' & l & Hrun & Hl'); [done..|].
  eexists w', l, _. split_and!; [done|done|]. by apply ageRecord_foldl.
Qed.

Lemma absent_finding_resolves_witness :
  let H := canonical_range in let J := noMarshal in
  ∃ w' l r', run_scans freshID exMod "auth" [(200, [])] exStore = (w', Ok l) ∧
    lookup_rec w' "loglight" "fp1" = Some r' ∧ r_Status r' = StatusResolved.
Proof.
  intros H J.
  apply (absent_finding_resolves freshID freshID_fresh exMod "auth" "fp1" [(200, [])] exStore exRecord).
  - exact exStore_inv.
  - reflexivity.
  - repeat constructor. apply not_elem_of_nil.
  - intros s fp r [= ->]%list_elem_of_singleton Hfp. by apply not_elem_of_nil in Hfp.
  - reflexivity.
  - reflexivity.
  - reflexivity.
  - reflexivity.
Defined.

(** C18: a finding the user has triaged keeps its place. When the collector
    reports it again its status changes only from resolved to open, its id,
    first sighting and identity never change, its absence streak restarts, and
    it is announced exactly when it had been resolved: an acknowledged or
    suppressed finding stays silent. *)
Theorem triage_is_kept {W} `{StoreSpec W} `{JSONEncoder} `{!StoreJSON W} now
    (newID : Z → M W string string)
    (newID_ok : fresh_ids newID)
    mo target fresh w fp f r :
  store_inv w → valid_module (m_ID mo) → scan_ok mo target fresh w →
  reported fresh fp = Some f → lookup_rec w (m_ID mo) fp = Some r →
  ∃ w' res r', Reconcile now newID mo target fresh w = (w', Ok res) ∧
    lookup_rec w' (m_ID mo) fp = Some r' ∧ same_identity r r' ∧
    r_Status r' = (if reopened r then StatusOpen else r_Status r) ∧
    r_AbsentStreak r' = 0 ∧ f_LastSeen (r_Finding r') = now ∧
    (fp ∈ map f_Fingerprint (NewlyOpen res) ↔ r_Status r = StatusResolved).
Proof.
  intros Hw Hm Hok Hf Hl.
  destruct (Reconcile_ok now newID newID_ok mo target fresh w Hw Hm Hok)
    as (w' & res & Hrun & Hs).
  pose proof (scan_reported _ _ _ _ _ _ _ Hs fp f Hf) as Hrep.
  rewrite Hl in Hrep. cbn in Hrep.
  exists w', res, (stored W (refreshRecord r (capEvidence f) now)).
  split_and!; [done|done|exact (refreshRecord_identity r (capEvidence f) now)|done|done|done|].
  rewrite (scan_NewlyOpen _ _ _ _ _ _ _ Hs), list_elem_of_filter, Hl.
  cbn [announced]. unfold reopened, str_eqb. rewrite Is_true_true, bool_decide_eq_true.
  split; [naive_solver|]. intros He. split; [done|].
  destruct (decide (fp ∈ valid_fps fresh)); [done|].
  apply reported_None in n. congruence.
Qed.

Lemma triage_is_kept_witness :
  let H := canonical_range in let J := noMarshal in
  ∃ w' res r', Reconcile 200 freshID exMod "auth" [exFinding] exStore = (w', Ok res) ∧
    lookup_rec w' (m_ID exMod) "fp1" = Some r' ∧ same_identity exRecord r' ∧
    r_Status r' = (if reopened exRecord then StatusOpen else r_Status exRecord) ∧
    r_AbsentStreak r' = 0 ∧ f_LastSeen (r_Finding r') = 200 ∧
    ("fp1" ∈ map f_Fingerprint (NewlyOpen res) ↔ r_Status exRecord = StatusResolved).
Proof.
  intros H J.
  apply (triage_is_kept 200 freshID freshID_fresh exMod "auth" [exFinding] exStore "fp1"
           exFinding exRecord).
  - exact exStore_inv.
  - reflexivity.
  - split; [apply NoDup_singleton|].
    intros fp r Hfp. apply list_elem_of_singleton in Hfp as ->. by intros [= <-].
  - reflexivity.
  - reflexivity.
Defined.

(** Scanning twice with the same report announces nothing the second time,
    and resolves none of the findings it reports. *)
Theorem repeat_scan_is_silent {W} `{StoreSpec W} `{JSONEncoder} `{!StoreJSON W} t1 t2
    (newID : Z → M W string string)
    (newID_ok : fresh_ids newID)
    mo target fresh w :
  store_inv w → valid_module (m_ID mo) → scan_ok mo target fresh w →
  Forall (λ f, f_Target f = target) fresh →
  ∃ w1 r1 w2 r2, Reconcile t1 newID mo target fresh w = (w1, Ok r1) ∧
    Reconcile t2 newID mo target fresh w1 = (w2, Ok r2) ∧
    NewlyOpen r2 = [] ∧
    ∀ fp, fp ∈ valid_fps fresh → fp ∉ map f_Fingerprint (Resolved r2).
Proof.
  intros Hw Hm Hok Htgt.
  destruct (Reconcile_ok t1 newID newID_ok mo target fresh w Hw Hm Hok)
    as (w1 & r1 & Hrun1 & Hs1).
  assert (∀ fp r, fp ∈ valid_fps fresh → lookup_rec w1 (m_ID mo) fp = Some r →
    r_Target r = target ∧ r_Status r ≠ StatusResolved) as Hkept.
  { intros fp r Hfp Hl. destruct (reported fresh fp) as [f|] eqn:Hf;
      [|by apply reported_None in Hf].
    pose proof (scan_reported _ _ _ _ _ _ _ Hs1 fp f Hf) as Hrep. split.
    - eapply afterReport_Target; [exact Hrep|exact Hl|..].
      + rewrite Forall_forall in Htgt. apply Htgt. by apply reported_Some in Hf as (? & _).
      + intros o Ho. eapply Hok; eauto.
    - rewrite Hl in Hrep. by eapply afterReport_not_resolved. }
  destruct (Reconcile_ok t2 newID newID_ok mo target fresh w1) as (w2 & r2 & Hrun2 & Hs2).
  { apply Hs1. } { done. } { split; [apply Hok|]. intros fp r Hfp Hl. by eapply Hkept. }
  exists w1, r1, w2, r2. split_and!; [done|done|..].
  - apply (map_eq_nil f_Fingerprint). rewrite (scan_NewlyOpen _ _ _ _ _ _ _ Hs2).
    apply filter_none. apply Forall_forall. intros fp Hfp.
    destruct (lookup_rec w1 (m_ID mo) fp) as [r|] eqn:Hl.
    + destruct (Hkept fp r Hfp Hl) as [_ Hst]. cbn. unfold reopened, str_eqb.
      rewrite Is_true_true, bool_decide_eq_true. done.
    + destruct (reported fresh fp) as [f|] eqn:Hf; [|by apply reported_None in Hf].
      pose proof (scan_reported _ _ _ _ _ _ _ Hs1 fp f Hf) as Hrep. rewrite Hl in Hrep.
      by apply afterReport_stored in Hrep as [? ?].
  - intros fp Hfp [Hn _]%(scan_Resolved _ _ _ _ _ _ _ Hs2). by apply reported_None in Hn.
Qed.

Lemma repeat_scan_is_silent_witness :
  let H := canonical_range in let J := noMarshal in
  ∃ w1 r1 w2 r2, Reconcile 200 freshID exMod "auth" [exFinding] NewMemStore = (w1, Ok r1) ∧
    Reconcile 300 freshID exMod "auth" [exFinding] w1 = (w2, Ok r2) ∧
    NewlyOpen r2 = [] ∧
    ∀ fp, fp ∈ valid_fps [exFinding] → fp ∉ map f_Fingerprint (Resolved r2).
Proof.
  intros H J.
  apply (repeat_scan_is_silent 200 300 freshID freshID_fresh exMod "auth" [exFinding] NewMemStore).
  - exact MemStore_inv_empty.
  - reflexivity.
  - split; [apply NoDup_singleton|]. intros fp r _ Hr. discriminate Hr.
  - repeat constructor.
Defined.

(** A fingerprint reported twice in one scan is opened twice: the table of
    known fingerprints is read once, before the loop, so the second report also
    takes the new-finding branch. It is announced twice, while the store keeps
    one record. *)
Theorem duplicate_report_announced_twice `{MapRange} `{JSONEncoder} :
  ∃ w' res, Reconcile 200 freshID exMod "auth" [exFinding; exFinding] NewMemStore = (w', Ok res) ∧
    map f_Fingerprint (NewlyOpen res) = ["fp1"; "fp1"] ∧
    map fst (map_to_list (ms_recs w')) = [key "loglight" "fp1"].
Proof.
  eexists _, _. split.
  - unfold Reconcile, mbind, M_mbind, orReturn. cbn [ListByTarget MemStore_ops].
    unfold MemStore_ListByTarget.
    replace (range_map (ms_recs NewMemStore)) with (@nil (string * Record));
      [|symmetry; apply Permutation_nil_r; by rewrite range_map_perm].
    cbn -[insert]. reflexivity.
  - split; [reflexivity|]. cbn -[insert map_to_list]. rewrite insert_insert_eq. reflexivity.
Qed.
