(* ===== verification/Verify.v ===== *)
(** Domain-ownership challenges: [src/verify/verify.go] and the in-memory
    challenge store [src/verify/memstore.go]. *)
From S2P Require Import Prelude Text Store.
Local Open Scope Z_scope.

(** * Challenges *)

Definition StatePending : string := "pending".
Definition StateVerified : string := "verified".
Definition MethodDNS : string := "dns".
Definition MethodHTTP : string := "http".

Definition tokenPrefix : string := "hexward-verify=".
Definition dnsLabel : string := "_hexward-verify".
Definition httpPath : string := "/.well-known/hexward-verify.txt".
Definition legacyTokenPrefix : string := "sentinel-verify=".
Definition legacyDNSLabel : string := "_sentinel-verify".
Definition legacyHTTPPath : string := "/.well-known/sentinel-verify.txt".

Record Challenge := mkChallenge {
  ch_Domain : string;
  ch_Token : string;
  ch_State : string;
  ch_CreatedAt : Z;
  ch_VerifiedAt : option Z;
}.

Definition DNSRecordName (c : Challenge) : string := dnsLabel +:+ "." +:+ ch_Domain c.
Definition DNSRecordValue (c : Challenge) : string := tokenPrefix +:+ ch_Token c.
Definition HTTPURL (c : Challenge) : string := "http://" +:+ ch_Domain c +:+ httpPath.
Definition HTTPFileContents (c : Challenge) : string := tokenPrefix +:+ ch_Token c.
Definition LegacyDNSRecordName (c : Challenge) : string :=
  legacyDNSLabel +:+ "." +:+ ch_Domain c.
Definition LegacyDNSRecordValue (c : Challenge) : string := legacyTokenPrefix +:+ ch_Token c.
Definition LegacyHTTPURL (c : Challenge) : string :=
  "http://" +:+ ch_Domain c +:+ legacyHTTPPath.
Definition LegacyHTTPFileContents (c : Challenge) : string := legacyTokenPrefix +:+ ch_Token c.

(** [quote] is the verb %q. *)
Definition Instructions (quote : string → string) (c : Challenge) : string := sprint [
  "Verify ownership of "; ch_Domain c; " by EITHER:
  DNS  — add a TXT record at "; quote (DNSRecordName c); " with value "; quote (DNSRecordValue c); "
  HTTP — serve "; quote (HTTPURL c); " containing "; quote (HTTPFileContents c); "
Then it verifies automatically on the next scan."].

(** [normalizeDomain]. *)
Definition cut_scheme (s : string) : string :=
  match strings_Index s "://" with Some i => str_drop (i + 3) s | None => s end.

Definition is_path_char (c : ascii) : bool :=
  Ascii.eqb c "/" || Ascii.eqb c "?" || Ascii.eqb c "#".

Definition cut_path (s : string) : string :=
  match index_byte_by is_path_char s with Some i => str_take i s | None => s end.

Definition cut_port (s : string) : string :=
  match last_index_byte_by (Ascii.eqb ":") s with
  | Some i => if negb (strings_Contains s "]") then str_take i s else s
  | None => s
  end.

Definition normalizeDomain `{UnicodeTables} (inp : string) : string :=
  let s := strings_TrimSpace (strings_ToLower inp) in
  strings_TrimSuffix (cut_port (cut_path (cut_scheme s))) ".".

(** [NewChallenge] with the outcome of the random source. *)
Definition NewChallenge `{UnicodeTables} (domain : string) (now : Z)
    (rand : result string bytes) : result string Challenge :=
  let d := normalizeDomain domain in
  if is_empty d then Err "empty domain"
  else
    match rand with
    | Err e => Err e
    | Ok b => Ok (mkChallenge d (hex_EncodeToString b) StatePending now None)
    end.

(** * The verifier *)

(** The injectable lookups; a nil function field is [None]. *)
Record Verifier := mkVerifier {
  LookupTXT : option (string → result string (list string));
  FetchHTTP : option (string → result string string);
}.

Definition wantDNS (c : Challenge) (s : string) : bool :=
  str_eqb s (DNSRecordValue c) || str_eqb s (LegacyDNSRecordValue c).
Definition wantHTTP (c : Challenge) (s : string) : bool :=
  str_eqb s (HTTPFileContents c) || str_eqb s (LegacyHTTPFileContents c).

Definition try_TXT (look : string → result string (list string)) (c : Challenge)
    (name : string) : bool :=
  match look name with
  | Err _ => false
  | Ok records => existsb (λ r, wantDNS c (strings_TrimSpace r)) records
  end.

Definition try_HTTP (fetch : string → result string string) (c : Challenge)
    (url : string) : bool :=
  match fetch url with
  | Err _ => false
  | Ok body => wantHTTP c (strings_TrimSpace body)
  end.

(** [Satisfied] returns whether a proof holds and by which method; its error is
    always nil. *)
Definition dns_holds (v : Verifier) (c : Challenge) : bool :=
  match LookupTXT v with
  | None => false
  | Some look => existsb (try_TXT look c) [DNSRecordName c; LegacyDNSRecordName c]
  end.

Definition http_holds (v : Verifier) (c : Challenge) : bool :=
  match FetchHTTP v with
  | None => false
  | Some fetch => existsb (try_HTTP fetch c) [HTTPURL c; LegacyHTTPURL c]
  end.

Definition Satisfied (v : Verifier) (c : Challenge) : result string (bool * string) :=
  if dns_holds v c then Ok (true, MethodDNS)
  else if http_holds v c then Ok (true, MethodHTTP)
  else Ok (false, "").

(** * The in-memory challenge store *)

Definition ChallengeStore : Type := gmap string Challenge.

Definition NewChallengeStore : ChallengeStore := ∅.

Definition MemStore_Put (module : string) (c : Challenge) (s : ChallengeStore) : ChallengeStore :=
  <[key module (ch_Domain c) := c]> s.

Definition Challenge_Get (module domain : string) (s : ChallengeStore) : option Challenge :=
  s !! key module domain.

(** [k] starts with [module] and the separator. *)
Definition in_module (module k : string) : bool :=
  (str_len module <? str_len k) && str_eqb (str_take (String.length module) k) module
  && match String.get (String.length module) k with
     | Some c => Ascii.eqb c (ascii_of_byte 0)
     | None => false
     end.

Definition MemStore_List `{MapRange} (module : string) (s : ChallengeStore) : list Challenge :=
  snd <$> filter (λ kc, in_module module (fst kc)) (range_map s).

Definition MemStore_Delete (module domain : string) (s : ChallengeStore) : ChallengeStore :=
  delete (key module domain) s.

(** * Lemmas *)

Definition proof_value (current legacy s : string) : Prop :=
  strings_TrimSpace s = current ∨ strings_TrimSpace s = legacy.

Lemma try_TXT_true look c name :
  try_TXT look c name = true ↔
  ∃ records r, look name = Ok records ∧ r ∈ records ∧
    proof_value (DNSRecordValue c) (LegacyDNSRecordValue c) r.
Proof.
  unfold try_TXT, wantDNS, proof_value, str_eqb. destruct (look name); [|naive_solver].
  rewrite existsb_exists. setoid_rewrite orb_true_iff. setoid_rewrite bool_decide_eq_true.
  setoid_rewrite <-list_elem_of_In. naive_solver.
Qed.

Lemma try_HTTP_true fetch c url :
  try_HTTP fetch c url = true ↔
  ∃ body, fetch url = Ok body ∧
    proof_value (HTTPFileContents c) (LegacyHTTPFileContents c) body.
Proof.
  unfold try_HTTP, wantHTTP, proof_value, str_eqb. destruct (fetch url); [|naive_solver].
  rewrite orb_true_iff, !bool_decide_eq_true. naive_solver.
Qed.

(** A TXT record, or a file, that proves the challenge. *)
Definition dns_proof (v : Verifier) (c : Challenge) : Prop :=
  ∃ look name records r, LookupTXT v = Some look ∧
    (name = DNSRecordName c ∨ name = LegacyDNSRecordName c) ∧
    look name = Ok records ∧ r ∈ records ∧
    proof_value (DNSRecordValue c) (LegacyDNSRecordValue c) r.

Definition http_proof (v : Verifier) (c : Challenge) : Prop :=
  ∃ fetch url body, FetchHTTP v = Some fetch ∧
    (url = HTTPURL c ∨ url = LegacyHTTPURL c) ∧
    fetch url = Ok body ∧
    proof_value (HTTPFileContents c) (LegacyHTTPFileContents c) body.

Lemma existsb_two {A} (p : A → bool) a b : existsb p [a; b] = true ↔ p a = true ∨ p b = true.
Proof. cbn. rewrite orb_false_r, orb_true_iff. done. Qed.

(** * Properties *)

(** A domain counts as verified exactly when a proof is in place, current or
    legacy, at either name or file; a TXT record wins over a file, a lookup that
    fails counts as no proof, and no lookup failure is ever reported. *)
Theorem Satisfied_spec v c :
  (Satisfied v c = Ok (true, MethodDNS) ↔ dns_proof v c) ∧
  (Satisfied v c = Ok (true, MethodHTTP) ↔ ¬ dns_proof v c ∧ http_proof v c) ∧
  (Satisfied v c = Ok (false, "") ↔ ¬ dns_proof v c ∧ ¬ http_proof v c) ∧
  is_ok (Satisfied v c) = true.
Proof.
  assert (dns_holds v c = true ↔ dns_proof v c) as Hd.
  { unfold dns_holds, dns_proof. destruct (LookupTXT v); [|naive_solver].
    rewrite existsb_two, !try_TXT_true. split.
    - intros [(rs & x & ?)|(rs & x & ?)]; [exists r, (DNSRecordName c), rs, x|
        exists r, (LegacyDNSRecordName c), rs, x]; tauto.
    - intros (look & name & rs & x & [= <-] & [-> | ->] & Hx); [left|right]; by exists rs, x. }
  assert (http_holds v c = true ↔ http_proof v c) as Hh.
  { unfold http_holds, http_proof. destruct (FetchHTTP v); [|naive_solver].
    rewrite existsb_two, !try_HTTP_true. split.
    - intros [(b & ?)|(b & ?)]; [exists r, (HTTPURL c), b|exists r, (LegacyHTTPURL c), b]; tauto.
    - intros (look & url & b & [= <-] & [-> | ->] & Hx); [left|right]; by exists b. }
  rewrite <-Hd, <-Hh. unfold Satisfied, MethodDNS, MethodHTTP.
  destruct (dns_holds v c), (http_holds v c); naive_solver.
Qed.
