(* ===== verification/Challenges.v ===== *)
(** The stored ownership challenges: [src/store/verify_sqlite.go], against the
    in-memory store of [Verify.v]. *)
From S2P Require Import Prelude Text Table Store Verify.
Local Open Scope Z_scope.

Record challengeRow := mkChallengeRow {
  cr_module : string;
  cr_domain : string;
  cr_token : string;
  cr_state : string;
  cr_created_at : Z;
  cr_verified_at : option Z;
}.

(** The table [verify_challenges], unique in module and domain. *)
Definition challenge_key (r : challengeRow) : string * string := (cr_module r, cr_domain r).

Definition VDB : Type := Conn (list challengeRow).

Definition challenge_row (module : string) (c : Challenge) : challengeRow :=
  mkChallengeRow module (ch_Domain c) (ch_Token c) (ch_State c) (ch_CreatedAt c) (ch_VerifiedAt c).

Definition update_challenge (old excluded : challengeRow) : challengeRow :=
  mkChallengeRow (cr_module old) (cr_domain old) (cr_token excluded) (cr_state excluded)
    (cr_created_at excluded) (cr_verified_at excluded).

Definition scanChallenge (r : challengeRow) : Challenge :=
  mkChallenge (cr_domain r) (cr_token r) (cr_state r) (cr_created_at r) (cr_verified_at r).

Definition SQLite_Put (module : string) (c : Challenge) : M VDB string unit :=
  update (upsert challenge_key update_challenge (challenge_row module c)).

Definition SQLite_Get (module domain : string) : M VDB string (option Challenge) :=
  query (λ rows, scanChallenge <$> row_at challenge_key (module, domain) rows).

Definition SQLite_List `{SortSlice} (module : string) : M VDB string (list Challenge) :=
  query (λ rows, map scanChallenge (sort_slice (λ a b, String.ltb (cr_domain a) (cr_domain b))
                                      (filter (λ r, cr_module r = module) rows))).

Definition SQLite_Delete (module domain : string) : M VDB string unit :=
  update (λ rows, filter (λ r, challenge_key r ≠ (module, domain)) rows).

(** * Agreement with the in-memory store *)

Inductive challenge_op :=
| PutOp (module : string) (c : Challenge)
| DeleteOp (module domain : string).

Definition op_valid (o : challenge_op) : Prop :=
  match o with PutOp m _ | DeleteOp m _ => valid_module m end.

Definition mem_op (s : ChallengeStore) (o : challenge_op) : ChallengeStore :=
  match o with PutOp m c => MemStore_Put m c s | DeleteOp m d => MemStore_Delete m d s end.

Definition db_op (c : VDB) (o : challenge_op) : VDB :=
  match o with PutOp m ch => (SQLite_Put m ch c).1 | DeleteOp m d => (SQLite_Delete m d c).1 end.

(** Both stores hold the same challenges. *)
Record same_challenges (s : ChallengeStore) (c : VDB) : Prop := {
  sc_healthy : healthy c;
  sc_keyed : keyed challenge_key (cn_data c);
  sc_same : ∀ m d, valid_module m →
    s !! key m d = scanChallenge <$> row_at challenge_key (m, d) (cn_data c);
}.

Lemma key_decide m d m' d' : valid_module m → valid_module m' →
  key m d = key m' d' ↔ (m, d) = (m', d').
Proof.
  intros Hm Hm'. split; [|by intros [= -> ->]]. unfold key, nul. rewrite !append_cons, !append_nil_l.
  intros [-> ->]%append_sep_inj; done.
Qed.

Lemma op_same s c o : op_valid o → same_challenges s c → same_challenges (mem_op s o) (db_op c o).
Proof.
  destruct c as [rows fs]. intros Ho [Hh Hk Hs]. unfold healthy in Hh. cbn [cn_data cn_faults] in Hh, Hk, Hs. subst fs.
  destruct o as [m ch|m d]; cbn [op_valid] in Ho; split; try done.
  - by apply keyed_upsert.
  - intros m' d' Hm'. cbn [mem_op db_op]. unfold MemStore_Put, SQLite_Put, update, exec.
    cbn [cn_data cn_faults head tail fst]. rewrite row_at_upsert by done.
    change (challenge_key (challenge_row m ch)) with (m, ch_Domain ch).
    destruct (decide ((m', d') = (m, ch_Domain ch))) as [[= -> ->]|Hne].
    + etrans; [apply lookup_insert_eq|]. cbn.
      destruct (row_at challenge_key (m, ch_Domain ch) rows) as [o|] eqn:Hr; [|by destruct ch].
      apply row_at_Some in Hr as [_ [= _ Hd]]. unfold scanChallenge. cbn. rewrite Hd. by destruct ch.
    + etrans; [apply lookup_insert_ne; intros Heq%key_decide; [congruence|done|done]|]. by apply Hs.
  - by apply keyed_filter.
  - intros m' d' Hm'. cbn [mem_op db_op]. unfold MemStore_Delete, SQLite_Delete, update, exec.
    cbn [cn_data cn_faults head tail fst]. rewrite row_at_filter by done.
    destruct (decide ((m', d') = (m, d))) as [[= -> ->]|Hne].
    + etrans; [apply lookup_delete_eq|]. destruct (row_at _ _ rows) as [r|] eqn:Hr; [|done].
      apply row_at_Some in Hr as [_ Hr]. rewrite decide_False; [done|]. intros Hn. by apply Hn.
    + etrans; [apply lookup_delete_ne; intros Heq%key_decide; [congruence|done|done]|].
      rewrite Hs by done. destruct (row_at _ _ rows) as [r|] eqn:Hr; [|done].
      apply row_at_Some in Hr as [_ Hr]. by rewrite decide_True by congruence.
Qed.

(** The database and the map answer alike: after any sequence of puts and
    deletions a challenge is read back the same from both, so a restart on the
    database forgets nothing that the in-memory store would hold. *)
Theorem challenge_stores_agree ops module domain : Forall op_valid ops → valid_module module →
  (SQLite_Get module domain (foldl db_op (mkConn [] []) ops)).2 =
    Ok (Challenge_Get module domain (foldl mem_op NewChallengeStore ops)).
Proof.
  intros Hops Hm.
  assert (∀ s c, same_challenges s c →
    same_challenges (foldl mem_op s ops) (foldl db_op c ops)) as Hall.
  { induction Hops as [|o ops Ho _ IH]; intros s c Hsc; [done|]. by apply IH, op_same. }
  destruct (Hall NewChallengeStore (mkConn [] [])) as [Hh _ Hs].
  { split; [done|constructor|]. intros. apply lookup_empty. }
  unfold SQLite_Get. rewrite query_healthy by done. cbn. unfold Challenge_Get. by rewrite Hs.
Qed.

Lemma challenge_stores_agree_witness :
  let c := mkChallenge "example.org" "t0k" "pending" 5 None in
  (SQLite_Get "m" "example.org" (foldl db_op (mkConn [] [])
     [PutOp "m" c; PutOp "n" c; DeleteOp "n" "example.org"])).2 =
    Ok (Challenge_Get "m" "example.org" (foldl mem_op NewChallengeStore
     [PutOp "m" c; PutOp "n" c; DeleteOp "n" "example.org"])).
Proof.
  intros c. apply (challenge_stores_agree _ "m" "example.org"); [repeat constructor|reflexivity].
Defined.
