(* ===== verification/Netip.v ===== *)
(** The parts of Go's [net/netip] and [net.ParseIP] that the program uses:
    parsing and printing of addresses, and the classification of private,
    loopback and link-local addresses. *)
From S2P Require Import Prelude Text.
Local Open Scope Z_scope.

(** * Addresses *)

(** [Addr4] holds 4 bytes; [Addr6] holds 16 bytes and a zone. *)
Inductive Addr :=
| Addr4 (b : bytes)
| Addr6 (b : bytes) (zone : string).

#[export] Instance Addr_eq_dec : EqDecision Addr.
Proof. solve_decision. Defined.

Definition AddrFrom4 (b : bytes) : Addr := Addr4 b.
Definition AddrFrom16 (b : bytes) : Addr := Addr6 b "".

Definition byte_at (b : bytes) (i : nat) : Z := nth i b 0.

(** The [i]-th 16-bit group. *)
Definition v6u16 (b : bytes) (i : nat) : Z := byte_at b (2 * i) * 256 + byte_at b (2 * i + 1).

Definition Is4 (a : Addr) : bool := match a with Addr4 _ => true | Addr6 _ _ => false end.

Definition Is4In6 (a : Addr) : bool :=
  match a with
  | Addr4 _ => false
  | Addr6 b _ => bool_decide (take 12 b = replicate 10 0 ++ [255; 255])
  end.

Definition Unmap (a : Addr) : Addr :=
  match a with
  | Addr6 b _ => if Is4In6 a then Addr4 (drop 12 b) else a
  | _ => a
  end.

(** * Classification *)

Definition Addr_IsPrivate (a : Addr) : bool :=
  match Unmap a with
  | Addr4 b =>
    (byte_at b 0 =? 10)
    || ((byte_at b 0 =? 172) && (Z.land (byte_at b 1) 240 =? 16))
    || ((byte_at b 0 =? 192) && (byte_at b 1 =? 168))
  | Addr6 b _ => Z.land (byte_at b 0) 254 =? 252
  end.

Definition Addr_IsLoopback (a : Addr) : bool :=
  match Unmap a with
  | Addr4 b => byte_at b 0 =? 127
  | Addr6 b _ => bool_decide (b = replicate 15 0 ++ [1])
  end.

Definition Addr_IsLinkLocalUnicast (a : Addr) : bool :=
  match Unmap a with
  | Addr4 b => (byte_at b 0 =? 169) && (byte_at b 1 =? 254)
  | Addr6 b _ => Z.land (v6u16 b 0) 65472 =? 65152
  end.

(** * Printing *)

Definition string4 (b : bytes) : string :=
  dec (byte_at b 0) +:+ "." +:+ dec (byte_at b 1) +:+ "." +:+
  dec (byte_at b 2) +:+ "." +:+ dec (byte_at b 3).

(** A 16-bit group in hexadecimal without leading zeros. *)
Definition hex16 (x : Z) : string :=
  let d n := String (hexdigit (x / 16 ^ n mod 16)) EmptyString in
  if x <? 16 then d 0
  else if x <? 256 then d 1 +:+ d 0
  else if x <? 4096 then d 2 +:+ d 1 +:+ d 0
  else d 3 +:+ d 2 +:+ d 1 +:+ d 0.

Definition groups (b : bytes) : list Z := map (v6u16 b) (seq 0 8).

Fixpoint count_zeros (g : list Z) : nat :=
  match g with 0 :: g' => S (count_zeros g') | _ => 0%nat end.

(** The first longest run of at least two zero groups: start and length. *)
Fixpoint zero_run (fuel i : nat) (g : list Z) (best : nat * nat) : nat * nat :=
  match fuel, g with
  | S fuel', _ :: g' =>
    let l := count_zeros g in
    let best := if (2 <=? l)%nat && (snd best <? l)%nat then (i, l) else best in
    zero_run fuel' (i + S l) (drop (S l) g) best
  | _, _ => best
  end.

Definition join_hex (g : list Z) : string :=
  String.concat ":" (map hex16 g).

Definition string6 (b : bytes) : string :=
  let g := groups b in
  let '(start, len) := zero_run 8 0 g (0%nat, 0%nat) in
  if (len =? 0)%nat then join_hex g
  else join_hex (take start g) +:+ "::" +:+ join_hex (drop (start + len) g).

Definition with_zone (zone s : string) : string :=
  if is_empty zone then s else s +:+ "%" +:+ zone.

Definition Addr_String (a : Addr) : string :=
  match a with
  | Addr4 b => string4 b
  | Addr6 b zone =>
    if Is4In6 a then with_zone zone ("::ffff:" +:+ string4 (drop 12 b))
    else with_zone zone (string6 b)
  end.

(** [a.Prefix(bits)] then [String], for a whole number of bytes. *)
Definition mask_bytes (n : nat) (b : bytes) : bytes := take n b ++ replicate (length b - n) 0.

Definition Prefix_String (a : Addr) (bits : nat) : string :=
  let n := (bits / 8)%nat in
  let a' := match a with
            | Addr4 b => Addr4 (mask_bytes n b)
            | Addr6 b _ => Addr6 (mask_bytes n b) ""
            end in
  Addr_String a' +:+ "/" +:+ dec (Z.of_nat bits).

(** * Parsing *)

(** [parseIPv4Fields]: [val], [digLen] of the current octet and the octets
    already read. *)
Fixpoint parseIPv4Fields (s : bytes) (val : Z) (digLen : nat) (fields : bytes) : option bytes :=
  match s with
  | [] =>
    if (length fields <? 3)%nat then None else Some (fields ++ [val])
  | c :: s' =>
    if is_digit c then
      if (digLen =? 1)%nat && (val =? 0) then None
      else
        let val := val * 10 + (c - 48) in
        if 255 <? val then None else parseIPv4Fields s' val (S digLen) fields
    else if c =? 46 then
      if (digLen =? 0)%nat || bool_decide (s' = []) then None
      else if (length fields =? 3)%nat then None
      else parseIPv4Fields s' 0 0 (fields ++ [val])
    else None
  end.

Definition parseIPv4 (s : bytes) : option Addr := Addr4 <$> parseIPv4Fields s 0 0 [].

Definition hexval (c : Z) : option Z :=
  if is_digit c then Some (c - 48)
  else if (97 <=? c) && (c <=? 102) then Some (c - 97 + 10)
  else if (65 <=? c) && (c <=? 70) then Some (c - 65 + 10)
  else None.

(** A group of one to four hexadecimal digits: its value and what follows. *)
Fixpoint read_hex (s : bytes) (off : nat) (acc : Z) : option (Z * bytes) :=
  let stop := if (off =? 0)%nat then None else Some (acc, s) in
  match s with
  | [] => stop
  | c :: s' =>
    match hexval c with
    | None => stop
    | Some v => if (3 <? off)%nat then None else read_hex s' (S off) (acc * 16 + v)
    end
  end.

Definition starts_with (c : Z) (s : bytes) : bool :=
  match s with x :: _ => x =? c | [] => false end.

(** The groups of an IPv6 address: the bytes read, where the [::] stood, and
    the text left over. [ip] has at most 16 bytes. *)
Fixpoint parse_groups (fuel : nat) (s ip : bytes) (ellipsis : option nat) :
    option (bytes * option nat * bytes) :=
  match fuel with
  | O => Some (ip, ellipsis, s)
  | S fuel' =>
    if (16 <=? length ip)%nat then Some (ip, ellipsis, s) else
    '(acc, rest) ← read_hex s 0 0;
    if starts_with 46 rest then
      if bool_decide (ellipsis = None) && negb (length ip =? 12)%nat then None
      else if (16 <? length ip + 4)%nat then None
      else
        v4 ← parseIPv4Fields s 0 0 [];
        Some (ip ++ v4, ellipsis, [])
    else
      let ip := ip ++ [acc / 256; acc mod 256] in
      match rest with
      | [] => Some (ip, ellipsis, [])
      | c :: s' =>
        if negb (c =? 58) then None
        else
          match s' with
          | [] => None
          | c' :: s'' =>
            if c' =? 58 then
              match ellipsis with
              | Some _ => None
              | None =>
                match s'' with
                | [] => Some (ip, Some (length ip), [])
                | _ => parse_groups fuel' s'' ip (Some (length ip))
                end
              end
            else parse_groups fuel' s' ip ellipsis
          end
      end
  end.

Definition expand (ip : bytes) (ellipsis : option nat) : option bytes :=
  match ellipsis with
  | None => if (length ip <? 16)%nat then None else Some ip
  | Some e =>
    if (length ip <? 16)%nat
    then Some (take e ip ++ replicate (16 - length ip) 0 ++ drop e ip)
    else None
  end.

Fixpoint split_at (c : Z) (s : bytes) : bytes * option bytes :=
  match s with
  | [] => ([], None)
  | x :: s' =>
    if x =? c then ([], Some s')
    else let '(a, b) := split_at c s' in (x :: a, b)
  end.

Definition parseIPv6 (inp : bytes) : option Addr :=
  let '(s, z) := split_at 37 inp in
  if bool_decide (z = Some []) then None
  else
    let zone := string_of_bytes (default [] z) in
    match s with
    | 58 :: 58 :: [] => Some (Addr6 (replicate 16 0) zone)
    | 58 :: 58 :: s' =>
      '(ip, e, rest) ← parse_groups 8 s' [] (Some 0%nat);
      if bool_decide (rest = []) then (λ b, Addr6 b zone) <$> expand ip e else None
    | _ =>
      '(ip, e, rest) ← parse_groups 8 s [] None;
      if bool_decide (rest = []) then (λ b, Addr6 b zone) <$> expand ip e else None
    end.

(** The first of [.], [:] and [%] decides the family. *)
Fixpoint addr_kind (s : bytes) : option Z :=
  match s with
  | [] => None
  | c :: s' => if (c =? 46) || (c =? 58) || (c =? 37) then Some c else addr_kind s'
  end.

Definition ParseAddr (s : string) : option Addr :=
  let b := bytes_of_string s in
  match addr_kind b with
  | Some 46 => parseIPv4 b
  | Some 58 => parseIPv6 b
  | _ => None
  end.

(** [net.ParseIP] accepts no zone and forgets the difference between an IPv4
    address and its mapped form; [IP.String] prints both as IPv4. *)
Definition net_ParseIP (s : string) : option Addr :=
  match ParseAddr s with
  | Some (Addr6 b zone) => if is_empty zone then Some (Unmap (Addr6 b zone)) else None
  | a => a
  end.

Definition IP_String (a : Addr) : string := Addr_String (Unmap a).

(** [netip.ParseAddr] followed by the three tests the program makes of an
    internal address. *)
Definition is_internal (ip : string) : bool :=
  match ParseAddr ip with
  | None => false
  | Some a => Addr_IsPrivate a || Addr_IsLoopback a || Addr_IsLinkLocalUnicast a
  end.

Example parse_v6 : Addr_String <$> ParseAddr "2001:db8:0:0:1::1" = Some "2001:db8::1:0:0:1".
Proof. reflexivity. Qed.
Example parse_mapped : Addr_String <$> ParseAddr "::ffff:10.0.0.1" = Some "::ffff:10.0.0.1".
Proof. reflexivity. Qed.
Example parse_zone : Addr_String <$> ParseAddr "fe80::1%eth0" = Some "fe80::1%eth0".
Proof. reflexivity. Qed.
Example parse_bad : (ParseAddr "1.2.3", ParseAddr "01.2.3.4", ParseAddr "1:2:3:4:5:6:7::8") =
  (None, None, None).
Proof. reflexivity. Qed.

(** * Lemmas *)

(** The digits of an octet are read back as its value. *)
Lemma parse_octet_check :
  forallb (λ n, let d := bytes_of_string (dec (Z.of_nat n)) in
    forallb (λ b, is_digit b) d && negb (bool_decide (d = [])) &&
    bool_decide (parseIPv4Fields d 0 0 [0; 0; 0] = Some [0; 0; 0; Z.of_nat n]))
    (seq 0 256) = true.
Proof. vm_compute. reflexivity. Qed.

Lemma parse_digits d : ∀ val n f v,
  forallb is_digit d = true → length f = 3%nat →
  parseIPv4Fields d val n f = Some (f ++ [v]) →
  ∀ rest fields, starts_with 46 rest = true ∨ rest = [] →
    parseIPv4Fields (d ++ rest) val n fields =
    parseIPv4Fields rest v (n + length d) fields.
Proof.
  induction d as [|c d IH]; intros val n f v Hd Hf Hp rest fields Hr; simpl in *.
  - rewrite Hf in Hp. cbn in Hp. injection Hp as Hp. apply app_inv_head in Hp.
    rewrite Nat.add_0_r. by simplify_eq.
  - destruct (is_digit c); [|done].
    destruct ((n =? 1)%nat && (val =? 0)); [done|].
    destruct (255 <? _); [done|].
    rewrite <-Nat.add_succ_comm. by eapply IH.
Qed.

Lemma dec_octet b :
  is_byte b → let d := bytes_of_string (dec b) in
  forallb is_digit d = true ∧ d ≠ [] ∧ parseIPv4Fields d 0 0 [0; 0; 0] = Some [0; 0; 0; b].
Proof.
  intros Hb. pose proof parse_octet_check as Hc.
  rewrite forallb_forall in Hc. specialize (Hc (Z.to_nat b)).
  rewrite Z2Nat.id in Hc by (unfold is_byte in Hb; lia).
  cbv beta zeta in Hc. rewrite !andb_true_iff, negb_true_iff in Hc.
  destruct Hc as [[Hd Hne] Hp]; [apply in_seq; unfold is_byte in Hb; lia|].
  apply bool_decide_eq_true in Hp. apply bool_decide_eq_false in Hne. done.
Qed.

Lemma parse_octet_dot b rest fields :
  is_byte b → rest ≠ [] → (length fields < 3)%nat →
  parseIPv4Fields (bytes_of_string (dec b) ++ 46 :: rest) 0 0 fields =
  parseIPv4Fields rest 0 0 (fields ++ [b]).
Proof.
  intros Hb Hr Hf. destruct (dec_octet b Hb) as (Hd & Hne & Hp).
  rewrite (parse_digits _ 0 0 [0; 0; 0] b Hd eq_refl Hp) by (by left).
  destruct (bytes_of_string (dec b)) as [|x d]; [done|].
  cbn -[Nat.ltb Nat.eqb]. rewrite bool_decide_false by done.
  destruct (Nat.eqb_spec (length fields) 3); [lia|]. done.
Qed.

Lemma parse_octet_end b fields :
  is_byte b → length fields = 3%nat →
  parseIPv4Fields (bytes_of_string (dec b)) 0 0 fields = Some (fields ++ [b]).
Proof.
  intros Hb Hf. destruct (dec_octet b Hb) as (Hd & Hne & Hp).
  pose proof (parse_digits _ 0 0 [0; 0; 0] b Hd eq_refl Hp [] fields (or_intror eq_refl)) as He.
  rewrite app_nil_r in He. rewrite He. cbn. by rewrite Hf.
Qed.

Lemma addr_kind_digits d rest :
  forallb is_digit d = true → addr_kind (d ++ 46 :: rest) = Some 46.
Proof.
  induction d as [|c d IH]; simpl; [done|]. intros [Hc Hd]%andb_true_iff.
  unfold is_digit in Hc. case_ifs; [|by auto].
  exfalso. rewrite !orb_true_iff, !Z.eqb_eq in E. to_prop. lia.
Qed.

(** Printing an IPv4 address and parsing it gives it back. *)
Lemma ParseAddr_string4 a b c d :
  wf_bytes [a; b; c; d] → ParseAddr (string4 [a; b; c; d]) = Some (Addr4 [a; b; c; d]).
Proof.
  intros Hw. repeat (apply Forall_cons in Hw as [? Hw]).
  unfold ParseAddr, string4, byte_at. cbn [nth].
  rewrite !bytes_of_string_app. change (bytes_of_string ".") with [46]. cbn [app].
  rewrite addr_kind_digits by (by apply dec_octet). unfold parseIPv4.
  assert (∀ (l m : bytes), l ++ 46 :: m ≠ []) by (by intros []).
  rewrite !parse_octet_dot by (first [done | by apply dec_octet | cbn; lia | auto]).
  by rewrite parse_octet_end.
Qed.
