(* ===== verification/Ingest.v ===== *)
(** Ingestion: the normalized event ([src/logingest/event.go]), the per-source
    parse rate and the rotation-aware file tailer ([src/logingest/source.go]). *)
From S2P Require Import Prelude Text Float Netip.
Local Open Scope Z_scope.

(** * Events *)

Definition SourceSyslog : string := "syslog".
Definition SourceFile : string := "file".
Definition SourceJournald : string := "journald".
Definition SourceDocker : string := "docker".
Definition SourceWindows : string := "windows".
Definition SourceNetflow : string := "netflow".

Definition AuthNone : string := "".
Definition AuthFailure : string := "failure".
Definition AuthSuccess : string := "success".

Record Event := mkEvent {
  e_Timestamp : Z;
  e_Source : string;
  e_SourceID : string;
  e_Host : string;
  e_App : string;
  e_Severity : Z;
  e_Message : string;
  e_Auth : string;
  e_User : string;
  e_SrcIP : string;
  e_DstIP : string;
  e_DstPort : Z;
  e_BytesOut : Z;
  e_Action : string;
  e_Vendor : string;
  e_VendorRule : string;
  e_VendorLevel : Z;
  e_Raw : string;
  e_Parsed : bool;
}.

(** The best identity to key detections on. *)
Definition Actor (e : Event) : string :=
  if negb (is_empty (e_SrcIP e)) then e_SrcIP e
  else if negb (is_empty (e_User e)) then "user:" +:+ e_User e
  else e_Host e.

(** [isPrivateIP] through [net.ParseIP], which drops zones and maps 4-in-6. *)
Definition isPrivateIP (ip : string) : bool :=
  match net_ParseIP ip with
  | None => false
  | Some p => Addr_IsLoopback p || Addr_IsPrivate p || Addr_IsLinkLocalUnicast p
  end.

(** * Parse rate *)

Record engineState := mkEngineState {
  parseHit : gmap string Z;
  parseTot : gmap string Z;
}.

Definition newEngineState : engineState := mkEngineState ∅ ∅.

Definition incr (k : string) (m : gmap string Z) : gmap string Z :=
  <[k := int64 (map_get 0 m k + 1)]> m.

Definition engineState_record (e : Event) (s : engineState) : engineState :=
  mkEngineState
    (if e_Parsed e then incr (e_SourceID e) (parseHit s) else parseHit s)
    (incr (e_SourceID e) (parseTot s)).

Definition engineState_ParseRate (sourceID : string) (s : engineState) : float64 :=
  let tot := map_get 0 (parseTot s) sourceID in
  if tot =? 0 then f_of_int 1
  else f_div (f_of_int (map_get 0 (parseHit s) sourceID)) (f_of_int tot).

(** * The file tailer *)

(** What [os.Open] of the path and [Stat] of the open file give. A file that is
    there may be one the process must not read, or be gone when it is opened. *)
Inductive access := Readable | NoStat | Unreadable.

(** The files the tailer can see: the contents of every inode, the inode the path
    leads to, if [os.Stat] finds one, and what comes of opening it. *)
Record fileSystem := mkFS {
  fs_data : gmap Z bytes;
  fs_path : option Z;
  fs_access : access;
}.

Definition contents (fs : fileSystem) (i : Z) : bytes := default [] (fs_data fs !! i).
Definition fsize (fs : fileSystem) (i : Z) : Z := Z.of_nat (length (contents fs i)).

(** The local variables of [FileSource.Run]: the open file with the position its
    reader has reached, [offset] and [inode]. *)
Record tailer := mkTailer {
  t_file : option (Z * nat);
  t_offset : Z;
  t_inode : Z;
}.

Section FileSource.
Context (FromStart : bool).

(** The [open] closure; a file that is open is closed first. *)
Definition tail_open (fs : fileSystem) (t : tailer) : tailer :=
  match fs_path fs, fs_access fs with
  | Some i, Readable =>
    if FromStart then mkTailer (Some (i, 0%nat)) 0 i
    else mkTailer (Some (i, length (contents fs i))) (fsize fs i) i
  | Some i, NoStat => mkTailer (Some (i, 0%nat)) (t_offset t) (t_inode t)
  | _, _ => mkTailer None (t_offset t) (t_inode t)
  end.

(** [reader.ReadString('\n')] until the end of the file: the complete lines, and
    what is left after the last newline. *)
Fixpoint read_lines (cur s : bytes) : list bytes * bytes :=
  match s with
  | [] => ([], cur)
  | c :: s' =>
    if c =? 10 then
      let '(ls, p) := read_lines [] s' in ((cur ++ [c]) :: ls, p)
    else read_lines (cur ++ [c]) s'
  end.

(** The inner loop: a complete line is emitted and counted; the bytes of a
    partial line are taken out of the reader but not counted. Without a file the
    reader is nil. *)
Definition tail_read (fs : fileSystem) (t : tailer) : outcome (tailer * list bytes) :=
  match t_file t with
  | None => Panic
  | Some (i, pos) =>
    let '(ls, p) := read_lines [] (drop pos (contents fs i)) in
    Done (mkTailer (Some (i, Nat.max pos (length (contents fs i))))
            (t_offset t + Z.of_nat (length (concat ls))) (t_inode t), ls)
  end.

(** One tick of the loop: the new state and the lines handed to [ParseLine]. *)
Definition tail_tick (fs : fileSystem) (t : tailer) : outcome (tailer * list bytes) :=
  match t_file t with
  | None => Done (tail_open fs t, [])
  | Some _ =>
    match fs_path fs with
    | None => Done (t, [])
    | Some i =>
      let t := if (fsize fs i <? t_offset t) || negb (i =? t_inode t)
               then tail_open fs t else t in
      tail_read fs t
    end
  end.

(** [Run] from its first [open]: the file system seen at each tick. What was emitted
    before a panic was emitted. *)
Fixpoint tail_run (ticks : list fileSystem) (t : tailer) : outcome tailer * list bytes :=
  match ticks with
  | [] => (Done t, [])
  | fs :: rest =>
    match tail_tick fs t with
    | Done (t, ls) => let '(r, ls') := tail_run rest t in (r, ls ++ ls')
    | Panic => (Panic, [])
    | OutOfFuel => (OutOfFuel, [])
    end
  end.
End FileSource.

Definition tail_start (FromStart : bool) (fs : fileSystem) : tailer :=
  tail_open FromStart fs (mkTailer None 0 0).

(** * Lemmas *)

(** A whole line: its only newline is its last byte. *)
Definition is_line (l : bytes) : Prop := ∃ b, l = b ++ [10] ∧ 10 ∉ b.

Lemma read_lines_partial cur s :
  10 ∉ s → read_lines cur s = ([], cur ++ s).
Proof.
  revert cur. induction s as [|c s IH]; intros cur Hs; simpl.
  - by rewrite app_nil_r.
  - apply not_elem_of_cons in Hs as [Hc Hs].
    destruct (Z.eqb_spec c 10); [congruence|]. by rewrite IH, <-app_assoc.
Qed.

Lemma read_lines_line cur b s :
  10 ∉ b → read_lines cur (b ++ 10 :: s) =
    let '(ls, p) := read_lines [] s in ((cur ++ b ++ [10]) :: ls, p).
Proof.
  revert cur. induction b as [|c b IH]; intros cur Hb; simpl.
  - done.
  - apply not_elem_of_cons in Hb as [Hc Hb].
    destruct (Z.eqb_spec c 10); [congruence|]. rewrite IH by done.
    destruct (read_lines [] s). by rewrite <-app_assoc.
Qed.

Lemma read_lines_lines ls : Forall is_line ls → read_lines [] (concat ls) = (ls, []).
Proof.
  induction 1 as [|l ls (b & -> & Hb) _ IH]; [done|]. simpl.
  rewrite <-app_assoc. cbn [app]. by rewrite read_lines_line, IH.
Qed.

(** ** Appending to the tailed file *)

Definition fs_append (i : Z) (s : bytes) (fs : fileSystem) : fileSystem :=
  mkFS (<[i := contents fs i ++ s]> (fs_data fs)) (fs_path fs) (fs_access fs).

Lemma contents_append i s fs : contents (fs_append i s fs) i = contents fs i ++ s.
Proof. unfold contents at 1, fs_append. cbn. by rewrite lookup_insert_eq. Qed.

(** Successive appends, each followed by a tick. *)
Fixpoint append_all (i : Z) (chunks : list bytes) (fs : fileSystem) : list fileSystem :=
  match chunks with
  | [] => []
  | s :: rest => let fs := fs_append i s fs in fs :: append_all i rest fs
  end.

(** The tailer follows inode [i] and has read all of it. *)
Definition caught_up (i : Z) (fs : fileSystem) (t : tailer) : Prop :=
  fs_path fs = Some i ∧ t_file t = Some (i, length (contents fs i)) ∧
  t_offset t <= fsize fs i ∧ t_inode t = i.

Lemma tail_start_caught_up i fs :
  fs_path fs = Some i → fs_access fs = Readable → caught_up i fs (tail_start false fs).
Proof. intros Hp Ha. unfold caught_up, tail_start, tail_open. by rewrite Hp, Ha. Qed.

(** One append and one tick: the complete lines of the appended bytes alone are
    emitted, whatever the bytes before them were. *)
Lemma tick_append FromStart i fs t s :
  caught_up i fs t →
  ∃ t', tail_tick FromStart (fs_append i s fs) t = Done (t', fst (read_lines [] s)) ∧
    caught_up i (fs_append i s fs) t'.
Proof.
  intros (Hp & Hf & Ho & Hi). unfold tail_tick, tail_read. rewrite Hf.
  change (fs_path (fs_append i s fs)) with (fs_path fs). rewrite Hp.
  unfold fsize in *. rewrite contents_append, length_app, Hi, Z.eqb_refl. cbn [negb].
  destruct (Z.ltb_spec (Z.of_nat (length (contents fs i) + length s)) (t_offset t)); [lia|].
  cbn [orb]. rewrite Hf, contents_append, drop_app_length.
  destruct (read_lines [] s) as [ls p] eqn:Hr. eexists. split; [done|].
  assert (length (concat ls) + length p = length s)%nat as Hlen.
  { change (length s) with (length (@nil Z) + length s)%nat. revert Hr. generalize (@nil Z).
    clear. revert ls p. induction s as [|c s IH]; intros ls p cur; simpl.
    - intros [= <- <-]. simpl. lia.
    - destruct (c =? 10).
      + destruct (read_lines [] s) as [ls' p'] eqn:Hr. intros [= <- <-]. simpl.
        rewrite !length_app. specialize (IH _ _ [] Hr). simpl in *. lia.
      + intros Hr. specialize (IH _ _ _ Hr). rewrite length_app in IH. simpl in *. lia. }
  unfold caught_up, fsize. cbn. rewrite contents_append, length_app. split_and!; [done| |lia|done].
  do 2 f_equal. lia.
Qed.

Lemma tail_run_append FromStart i chunks fs t :
  caught_up i fs t →
  ∃ fs' t', tail_run FromStart (append_all i chunks fs) t =
    (Done t', concat (map (λ s, fst (read_lines [] s)) chunks)) ∧ caught_up i fs' t'.
Proof.
  revert fs t. induction chunks as [|s chunks IH]; intros fs t Hc; [by exists fs, t|]. cbn [append_all tail_run].
  destruct (tick_append FromStart i fs t s Hc) as (t1 & -> & Hc1).
  destruct (IH _ _ Hc1) as (fs2 & t2 & -> & Hc2). by exists fs2, t2.
Qed.

(** Files that can be opened are read without a panic. *)
Lemma tick_accessible FromStart fs t : fs_access fs ≠ Unreadable →
  ∃ t' ls, tail_tick FromStart fs t = Done (t', ls).
Proof.
  intros Ha. unfold tail_tick. destruct (t_file t) as [[i pos]|] eqn:Hf; [|by eexists _, _].
  destruct (fs_path fs) as [j|] eqn:Hp; [|by eexists _, _]. unfold tail_read.
  assert (is_Some (t_file (if (fsize fs j <? t_offset t) || negb (j =? t_inode t) then tail_open FromStart fs t else t)))
    as [[k n] ->].
  { case_match; [|by rewrite Hf]. unfold tail_open. rewrite Hp. destruct (fs_access fs); [| |done]; by destruct FromStart. }
  destruct (read_lines _ _). by eexists _, _.
Qed.

Lemma run_accessible FromStart ticks : Forall (λ fs, fs_access fs ≠ Unreadable) ticks → ∀ t,
  ∃ t', (tail_run FromStart ticks t).1 = Done t'.
Proof.
  induction 1 as [|fs ticks Ha _ IH]; intros t; [by exists t|]. cbn [tail_run].
  destruct (tick_accessible FromStart fs t Ha) as (t1 & ls & ->). destruct (IH t1) as [t2 Ht2].
  destruct (tail_run FromStart ticks t1). cbn in *. by exists t2.
Qed.

Lemma tail_run_app FromStart ticks ticks' : ∀ t t1 ls, tail_run FromStart ticks t = (Done t1, ls) →
  tail_run FromStart (ticks ++ ticks') t = let '(r, ls') := tail_run FromStart ticks' t1 in (r, ls ++ ls').
Proof.
  induction ticks as [|fs ticks IH]; intros t t1 ls; cbn [tail_run app].
  - intros [= <- <-]. by destruct (tail_run _ _ _).
  - destruct (tail_tick FromStart fs t) as [[t2 ls2]| |]; [|done..].
    destruct (tail_run FromStart ticks t2) as [r ls3] eqn:Hr. intros [= -> <-].
    rewrite (IH _ _ _ Hr). destruct (tail_run FromStart ticks' t1). by rewrite app_assoc.
Qed.

Lemma lines_of_chunks chunks : Forall (Forall is_line) chunks →
  concat (map (λ s, fst (read_lines [] s)) (map (@concat Z) chunks)) = concat chunks.
Proof.
  intros Hl. f_equal. rewrite map_map. induction Hl as [|ls chunks Hls _ IH]; [done|].
  cbn. by rewrite read_lines_lines, IH.
Qed.

(** * Properties *)

(** C36: as long as every write to the followed file consists of whole lines, the
    tailer emits exactly the lines written after it started, each once and in
    order, however the writes fall between its ticks. *)
Theorem tail_lossless FromStart i fs t (chunks : list (list bytes)) :
  caught_up i fs t → Forall (Forall is_line) chunks →
  ∃ t', tail_run FromStart (append_all i (map (@concat Z) chunks) fs) t = (Done t', concat chunks).
Proof.
  intros Hc Hl. destruct (tail_run_append FromStart i (map (@concat Z) chunks) fs t Hc) as (fs' & t' & -> & _).
  exists t'. by rewrite lines_of_chunks.
Qed.

Definition exFS : fileSystem := mkFS {[ 7 := [97; 10] ]} (Some 7) Readable.

Lemma tail_lossless_witness :
  ∃ t', tail_run false (append_all 7 (map (@concat Z) [[[98; 10]; [10]]; []; [[99; 10]]]) exFS)
    (tail_start false exFS) = (Done t', [[98; 10]; [10]; [99; 10]]).
Proof.
  apply (tail_lossless false 7 exFS (tail_start false exFS) [[[98; 10]; [10]]; []; [[99; 10]]]).
  - exact (tail_start_caught_up 7 exFS eq_refl eq_refl).
  - assert (is_line [98; 10] ∧ is_line [10] ∧ is_line [99; 10]) as (Hb & Hn & Hc).
    { split_and!; [exists [98]|exists []|exists [99]]; (split; [reflexivity|set_solver]). }
    repeat (apply Forall_cons_2 || apply Forall_nil_2); assumption.
Defined.

(** C38: a line that reaches the file in two writes with a tick between them is
    not emitted whole: its first part is consumed when it is first read and only
    the rest comes out, because the rewind lowers [offset] and leaves the reader
    where it is. *)
Theorem split_line_loses_prefix FromStart i fs t pre post :
  caught_up i fs t → 10 ∉ pre → 10 ∉ post →
  ∃ t', tail_run FromStart (append_all i [pre; post ++ [10]] fs) t = (Done t', [post ++ [10]]).
Proof.
  intros Hc Hpre Hpost.
  destruct (tail_run_append FromStart i [pre; post ++ [10]] fs t Hc) as (fs' & t' & -> & _).
  exists t'. f_equal. cbn [map concat].
  by rewrite read_lines_partial, read_lines_line by done.
Qed.

Lemma split_line_loses_prefix_witness :
  ∃ t', tail_run false (append_all 7 [[98; 99]; [100] ++ [10]] exFS) (tail_start false exFS)
    = (Done t', [[100] ++ [10]]).
Proof.
  apply (split_line_loses_prefix false 7 exFS (tail_start false exFS) [98; 99] [100]).
  - exact (tail_start_caught_up 7 exFS eq_refl eq_refl).
  - set_solver.
  - set_solver.
Defined.

(** C37: A file that cannot be opened when it is rotated takes the whole program
    down. Let the tailer have followed a file, and let the path lead to another one
    at the next tick. When that one cannot be opened (it is not readable for the
    process, or gone again), [open] leaves a nil reader, the loop reads from it, and
    no goroutine recovers: everything that was written before has been emitted, and
    nothing follows. As long as every file at the path can be opened, no run ends
    so. *)
Theorem unreadable_rotation_panics FromStart i j fs fs' t (chunks : list (list bytes)) rest :
  caught_up i fs t → Forall (Forall is_line) chunks → fs_path fs' = Some j → i ≠ j →
  let run := tail_run FromStart (append_all i (map (@concat Z) chunks) fs ++ fs' :: rest) t in
  match fs_access fs' with
  | Unreadable => run = (Panic, concat chunks)
  | _ => Forall (λ fs, fs_access fs ≠ Unreadable) rest → ∃ t', run.1 = Done t'
  end.
Proof.
  intros Hc Hl Hp Hne run. subst run.
  destruct (tail_run_append FromStart i (map (@concat Z) chunks) fs t Hc) as (fs1 & t1 & Hrun & (_ & Hf & _ & Hi)).
  rewrite lines_of_chunks in Hrun by done. rewrite (tail_run_app _ _ _ _ _ _ Hrun).
  assert (fs_access fs' ≠ Unreadable → Forall (λ fs, fs_access fs ≠ Unreadable) rest →
    ∃ t', (let '(r, ls') := tail_run FromStart (fs' :: rest) t1 in (r, concat chunks ++ ls')).1 = Done t') as Hok.
  { intros Ha Hr. destruct (run_accessible FromStart (fs' :: rest)) with (t := t1) as [t2 Ht]; [by constructor|].
    exists t2. destruct (tail_run FromStart (fs' :: rest) t1) as [r ls]. exact Ht. }
  destruct (fs_access fs') eqn:Ha; [by apply Hok..|]. clear Hok.
  cbn [tail_run]. unfold tail_tick. rewrite Hf, Hp, Hi. destruct (Z.eqb_spec j i); [congruence|].
  rewrite orb_true_r. unfold tail_open. rewrite Hp, Ha. cbn. by rewrite app_nil_r.
Qed.

Lemma unreadable_rotation_panics_witness :
  let fs' := mkFS {[ 8 := [98; 10] ]} (Some 8) in
  tail_run false (append_all 7 [[98; 10]; [99; 10]] exFS ++ [fs' Unreadable]) (tail_start false exFS) =
    (Panic, [[98; 10]; [99; 10]]) ∧
  ∃ t', (tail_run false (append_all 7 [[98; 10]; [99; 10]] exFS ++ [fs' Readable]) (tail_start false exFS)).1 = Done t'.
Proof.
  intros fs'. assert (Forall (Forall is_line) [[[98; 10]]; [[99; 10]]]) as Hl.
  { repeat (apply Forall_cons_2 || apply Forall_nil_2); [exists [98]|exists [99]]; (split; [reflexivity|set_solver]). }
  pose proof (λ a, unreadable_rotation_panics false 7 8 exFS (fs' a) (tail_start false exFS) [[[98; 10]]; [[99; 10]]] []
    (tail_start_caught_up 7 exFS eq_refl eq_refl) Hl eq_refl ltac:(discriminate)) as Hx.
  split; [exact (Hx Unreadable)|]. apply (Hx Readable). apply Forall_nil_2.
Defined.

(** When the path is replaced by another file, a tailer that is not set to
    read from the start reopens at the end of the new file: the lines already in
    it are never emitted. *)
Theorem rotation_skips_new_file i j fs fs' t :
  caught_up i fs t → fs_path fs' = Some j → fs_access fs' = Readable → i ≠ j →
  ∃ t', tail_tick false fs' t = Done (t', []) ∧ caught_up j fs' t'.
Proof.
  intros (Hp & Hf & Ho & Hi) Hp' Ha Hne. unfold tail_tick. rewrite Hf, Hp', Hi.
  destruct (Z.eqb_spec j i); [congruence|]. rewrite orb_true_r.
  unfold tail_read, tail_open. rewrite Hp', Ha. cbn [t_file]. rewrite drop_all. cbn.
  eexists. split; [done|]. unfold caught_up. cbn. rewrite Nat.max_id, Z.add_0_r. done.
Qed.

Lemma rotation_skips_new_file_witness :
  let fs' := mkFS {[ 7 := [97; 10]; 8 := [98; 10] ]} (Some 8) Readable in
  ∃ t', tail_tick false fs' (tail_start false exFS) = Done (t', []) ∧ caught_up 8 fs' t'.
Proof.
  intros fs'. apply (rotation_skips_new_file 7 8 exFS fs' (tail_start false exFS)).
  - exact (tail_start_caught_up 7 exFS eq_refl eq_refl).
  - reflexivity.
  - reflexivity.
  - discriminate.
Defined.

(** * The ingest engine ([src/logingest/engine.go]) *)

(** The sources that run, by id. *)
Record IngestEngine (Src : Type) := mkIngest {
  ig_state : engineState;
  ig_running : gmap string Src;
}.
Arguments mkIngest {Src} _ _.
Arguments ig_state {Src} _.
Arguments ig_running {Src} _.

Section IngestEngine.
Context {Src : Type} (src_ID : Src → string).

Definition NewIngestEngine : IngestEngine Src := mkIngest newEngineState ∅.

(** [Add] cancels a source of the same id and runs the new one. *)
Definition Add (s : Src) (e : IngestEngine Src) : IngestEngine Src :=
  mkIngest (ig_state e) (<[src_ID s := s]> (ig_running e)).

Definition Remove (id : string) (e : IngestEngine Src) : IngestEngine Src :=
  mkIngest (ig_state e) (delete id (ig_running e)).

(** The end of the base context stops every source. *)
Definition StopAll (e : IngestEngine Src) : IngestEngine Src := mkIngest (ig_state e) ∅.

Definition set_SourceID (id : string) (ev : Event) : Event :=
  mkEvent (e_Timestamp ev) (e_Source ev) id (e_Host ev) (e_App ev) (e_Severity ev) (e_Message ev)
    (e_Auth ev) (e_User ev) (e_SrcIP ev) (e_DstIP ev) (e_DstPort ev) (e_BytesOut ev) (e_Action ev)
    (e_Vendor ev) (e_VendorRule ev) (e_VendorLevel ev) (e_Raw ev) (e_Parsed ev).

(** The [emit] a running source calls: the event is counted, and goes to the
    handler. *)
Definition emit_event (s : Src) (ev : Event) (e : IngestEngine Src) : IngestEngine Src * Event :=
  let ev := if is_empty (e_SourceID ev) then set_SourceID (src_ID s) ev else ev in
  (mkIngest (engineState_record ev (ig_state e)) (ig_running e), ev).

Definition Engine_ParseRate (id : string) (e : IngestEngine Src) : float64 :=
  engineState_ParseRate id (ig_state e).
End IngestEngine.
