(* ===== verification/Netflow.v ===== *)
(** NetFlow v5, NetFlow v9 and IPFIX parsing: [src/netflow/netflow.go] and the
    conversion of flows to events in [src/netflow/source.go]. *)
From S2P Require Import Prelude Text Netip Sha256 Ingest.
Local Open Scope Z_scope.

(** * Byte slices *)

Definition len {A} (l : list A) : Z := Z.of_nat (length l).

(** [b[lo:hi]]; Go allows [hi] up to the capacity, and every use in the program
    stays within the length, so anything beyond it counts as a panic here. *)
Definition slice (b : bytes) (lo hi : Z) : outcome bytes :=
  if (0 <=? lo) && (lo <=? hi) && (hi <=? len b)
  then Done (take (Z.to_nat (hi - lo)) (drop (Z.to_nat lo) b))
  else Panic.

(** [binary.BigEndian.Uint16(b[lo:hi])] and [Uint32]: the slice must hold at
    least 2, respectively 4, bytes. *)
Definition Uint16 (b : bytes) (lo hi : Z) : outcome Z :=
  s ← slice b lo hi;
  match s with x :: y :: _ => Done (be_int [x; y]) | _ => Panic end.

Definition Uint32 (b : bytes) (lo hi : Z) : outcome Z :=
  s ← slice b lo hi;
  match s with x :: y :: z :: t :: _ => Done (be_int [x; y; z; t]) | _ => Panic end.

Definition index (b : bytes) (i : Z) : outcome Z :=
  if (0 <=? i) && (i <? len b) then Done (byte_at b (Z.to_nat i)) else Panic.

(** * Flows and templates *)

Record Flow := mkFlow {
  fl_Exporter : string;
  fl_SrcIP : string;
  fl_DstIP : string;
  fl_SrcPort : Z;
  fl_DstPort : Z;
  fl_Proto : Z;
  fl_Bytes : Z;
  fl_Packets : Z;
  fl_Start : Z;
  fl_End : Z;
}.

Record templateField := mkField { tf_Type : Z; tf_Len : Z; tf_Ent : bool }.

Record TemplateCache := mkCache {
  tc_tpls : gmap string (list templateField);
  tc_Dropped : Z;
}.

Definition NewTemplateCache : TemplateCache := mkCache ∅ 0.

Definition TemplateCache_key (exporter : string) (domain id : Z) : string :=
  exporter +:+ "|" +:+ dec domain +:+ "|" +:+ dec id.

Definition TemplateCache_put (exporter : string) (domain id : Z) (f : list templateField)
    (c : TemplateCache) : TemplateCache :=
  let tpls := if 4096 <? Z.of_nat (size (tc_tpls c)) then ∅ else tc_tpls c in
  mkCache (<[TemplateCache_key exporter domain id := f]> tpls) (tc_Dropped c).

Definition TemplateCache_get (exporter : string) (domain id : Z) (c : TemplateCache) :
    option (list templateField) :=
  tc_tpls c !! TemplateCache_key exporter domain id.

Definition fieldInBytes : Z := 1.
Definition fieldInPkts : Z := 2.
Definition fieldProtocol : Z := 4.
Definition fieldSrcPort : Z := 7.
Definition fieldSrcAddr4 : Z := 8.
Definition fieldDstPort : Z := 11.
Definition fieldDstAddr4 : Z := 12.
Definition fieldSrcAddr6 : Z := 27.
Definition fieldDstAddr6 : Z := 28.

(** * Decoding records *)

(** [uintN]: the last eight bytes, most significant first. *)
Definition uintN (v : bytes) : Z :=
  let v := if 8 <? len v then drop (length v - 8) v else v in
  foldl (λ out b, Z.lor (uint64 (Z.shiftl out 8)) b) 0 v.

Definition set_SrcIP (s : string) (f : Flow) : Flow :=
  mkFlow (fl_Exporter f) s (fl_DstIP f) (fl_SrcPort f) (fl_DstPort f) (fl_Proto f)
    (fl_Bytes f) (fl_Packets f) (fl_Start f) (fl_End f).
Definition set_DstIP (s : string) (f : Flow) : Flow :=
  mkFlow (fl_Exporter f) (fl_SrcIP f) s (fl_SrcPort f) (fl_DstPort f) (fl_Proto f)
    (fl_Bytes f) (fl_Packets f) (fl_Start f) (fl_End f).
Definition set_SrcPort (p : Z) (f : Flow) : Flow :=
  mkFlow (fl_Exporter f) (fl_SrcIP f) (fl_DstIP f) p (fl_DstPort f) (fl_Proto f)
    (fl_Bytes f) (fl_Packets f) (fl_Start f) (fl_End f).
Definition set_DstPort (p : Z) (f : Flow) : Flow :=
  mkFlow (fl_Exporter f) (fl_SrcIP f) (fl_DstIP f) (fl_SrcPort f) p (fl_Proto f)
    (fl_Bytes f) (fl_Packets f) (fl_Start f) (fl_End f).
Definition set_Proto (p : Z) (f : Flow) : Flow :=
  mkFlow (fl_Exporter f) (fl_SrcIP f) (fl_DstIP f) (fl_SrcPort f) (fl_DstPort f) p
    (fl_Bytes f) (fl_Packets f) (fl_Start f) (fl_End f).
Definition set_Bytes (n : Z) (f : Flow) : Flow :=
  mkFlow (fl_Exporter f) (fl_SrcIP f) (fl_DstIP f) (fl_SrcPort f) (fl_DstPort f) (fl_Proto f)
    n (fl_Packets f) (fl_Start f) (fl_End f).
Definition set_Packets (n : Z) (f : Flow) : Flow :=
  mkFlow (fl_Exporter f) (fl_SrcIP f) (fl_DstIP f) (fl_SrcPort f) (fl_DstPort f) (fl_Proto f)
    (fl_Bytes f) n (fl_Start f) (fl_End f).

(** [applyField]; the conversion [[4]byte(v)] happens under its length guard. *)
Definition applyField (typ : Z) (v : bytes) (f : Flow) : Flow :=
  if typ =? fieldInBytes then set_Bytes (int64 (uintN v)) f
  else if typ =? fieldInPkts then set_Packets (int64 (uintN v)) f
  else if typ =? fieldProtocol then
    if 1 <=? len v then set_Proto (byte_at v (length v - 1)) f else f
  else if typ =? fieldSrcPort then set_SrcPort (int64 (uintN v)) f
  else if typ =? fieldDstPort then set_DstPort (int64 (uintN v)) f
  else if typ =? fieldSrcAddr4 then
    if len v =? 4 then set_SrcIP (Addr_String (AddrFrom4 v)) f else f
  else if typ =? fieldDstAddr4 then
    if len v =? 4 then set_DstIP (Addr_String (AddrFrom4 v)) f else f
  else if typ =? fieldSrcAddr6 then
    if len v =? 16 then set_SrcIP (Addr_String (AddrFrom16 v)) f else f
  else if typ =? fieldDstAddr6 then
    if len v =? 16 then set_DstIP (Addr_String (AddrFrom16 v)) f else f
  else f.

Definition emptyFlow (exporter : string) (now : Z) : Flow :=
  mkFlow exporter "" "" 0 0 0 0 0 now now.

(** The end of both record decoders: a flow without both addresses is dropped,
    a missing packet count is one. *)
Definition finishFlow (f : Flow) : option Flow :=
  if is_empty (fl_SrcIP f) || is_empty (fl_DstIP f) then None
  else Some (if fl_Packets f =? 0 then set_Packets 1 f else f).

Fixpoint fixed_fields (r : bytes) (tpl : list templateField) (off : Z) (f : Flow) : outcome Flow :=
  match tpl with
  | [] => Done f
  | tf :: rest =>
    v ← slice r off (off + tf_Len tf);
    fixed_fields r rest (off + tf_Len tf)
      (if negb (tf_Ent tf) then applyField (tf_Type tf) v f else f)
  end.

Definition decodeRecordFixed (r : bytes) (tpl : list templateField) (exporter : string)
    (now : Z) : outcome (option Flow) :=
  f ← fixed_fields r tpl 0 (emptyFlow exporter now);
  Done (finishFlow f).

Definition varlen : Z := 65535.

(** The length of a variable-length field and where its value starts; [None] is
    the early [return nil, 0]. *)
Definition var_length (r : bytes) (off : Z) : outcome (option (Z * Z)) :=
  if len r <=? off then Done None
  else
    l ← index r off;
    let off := off + 1 in
    if l =? 255 then
      if len r <? off + 2 then Done None
      else
        l ← Uint16 r off (off + 2);
        Done (Some (l, off + 2))
    else Done (Some (l, off)).

Fixpoint var_fields (r : bytes) (tpl : list templateField) (off : Z) (f : Flow) :
    outcome (option (Flow * Z)) :=
  match tpl with
  | [] => Done (Some (f, off))
  | tf :: rest =>
    lo ← (if tf_Len tf =? varlen then var_length r off else Done (Some (tf_Len tf, off)));
    match lo with
    | None => Done None
    | Some (l, off) =>
      if len r <? off + l then Done None
      else if negb (tf_Ent tf) then
        v ← slice r off (off + l);
        var_fields r rest (off + l) (applyField (tf_Type tf) v f)
      else var_fields r rest (off + l) f
    end
  end.

(** The flow, if any, and the number of bytes used. *)
Definition decodeRecordVar (r : bytes) (tpl : list templateField) (exporter : string)
    (now : Z) : outcome (option Flow * Z) :=
  res ← var_fields r tpl 0 (emptyFlow exporter now);
  match res with
  | None => Done (None, 0)
  | Some (f, off) => Done (finishFlow f, off)
  end.

(** The record length of a template without variable-length fields. *)
Fixpoint template_length (tpl : list templateField) (recLen : Z) : Z * bool :=
  match tpl with
  | [] => (recLen, false)
  | f :: rest =>
    if tf_Len f =? varlen then (recLen, true) else template_length rest (recLen + tf_Len f)
  end.

Definition append_flow (out : list Flow) (f : option Flow) : list Flow :=
  match f with Some f => out ++ [f] | None => out end.

(** The loop of [decodeData]. *)
Fixpoint data_records (fuel : nat) (b : bytes) (tpl : list templateField) (recLen : Z)
    (var : bool) (exporter : string) (now off : Z) (out : list Flow) : outcome (list Flow) :=
  match fuel with
  | O => OutOfFuel
  | S fuel' =>
    let next off out :=
      if len b - 3 <=? off then Done out
      else data_records fuel' b tpl recLen var exporter now off out in
    if var then
      rest ← slice b off (len b);
      '(f, n) ← decodeRecordVar rest tpl exporter now;
      if n =? 0 then Done out else next (off + n) (append_flow out f)
    else
      if (recLen =? 0) || (len b <? off + recLen) then Done out
      else
        r ← slice b off (off + recLen);
        f ← decodeRecordFixed r tpl exporter now;
        next (off + recLen) (append_flow out f)
  end.

Definition decodeData (b : bytes) (exporter : string) (domain id now : Z)
    (tc : TemplateCache) : outcome (list Flow * TemplateCache) :=
  match TemplateCache_get exporter domain id tc with
  | None => Done ([], mkCache (tc_tpls tc) (int64 (tc_Dropped tc + 1)))
  | Some tpl =>
    let '(recLen, var) := template_length tpl 0 in
    out ← data_records (S (length b)) b tpl recLen var exporter now 0 [];
    Done (out, tc)
  end.

(** * Parsing datagrams *)

(** The fields of one template: [None] is the early return on a truncated body. *)
Fixpoint template_fields (n : nat) (b : bytes) (ipfix : bool) (off : Z)
    (fields : list templateField) : outcome (option (list templateField * Z)) :=
  match n with
  | O => Done (Some (fields, off))
  | S n' =>
    if len b <? off + 4 then Done None
    else
      ft ← Uint16 b off (off + 2);
      fl ← Uint16 b (off + 2) (off + 4);
      let off := off + 4 in
      if ipfix && negb (Z.land ft 32768 =? 0) then
        if len b <? off + 4 then Done None
        else template_fields n' b ipfix (off + 4)
               (fields ++ [mkField (Z.land ft 32767) fl true])
      else template_fields n' b ipfix off (fields ++ [mkField ft fl false])
  end.

Fixpoint parseTemplates (fuel : nat) (b : bytes) (exporter : string) (domain : Z)
    (ipfix : bool) (off : Z) (tc : TemplateCache) : outcome TemplateCache :=
  match fuel with
  | O => OutOfFuel
  | S fuel' =>
    if len b <? off + 4 then Done tc
    else
      id ← Uint16 b off (off + 2);
      n ← Uint16 b (off + 2) (off + 4);
      if (id <? 256) || (n =? 0) || (128 <? n) then Done tc
      else
        fs ← template_fields (Z.to_nat n) b ipfix (off + 4) [];
        match fs with
        | None => Done tc
        | Some (fields, off) =>
          parseTemplates fuel' b exporter domain ipfix off
            (TemplateCache_put exporter domain id fields tc)
        end
  end.

(** The body of the set loop of both formats: [tplID] is the set id of
    templates; options templates and reserved ids are skipped. *)
Definition flow_set (body : bytes) (setID tplID : Z) (ipfix : bool) (exporter : string)
    (domain now : Z) (tc : TemplateCache) : outcome (list Flow * TemplateCache) :=
  if setID =? tplID then
    tc ← parseTemplates (S (length body)) body exporter domain ipfix 0 tc;
    Done ([], tc)
  else if setID =? tplID + 1 then Done ([], tc)
  else if 255 <? setID then decodeData body exporter domain setID now tc
  else Done ([], tc).

Fixpoint flow_sets (fuel : nat) (b : bytes) (total tplID : Z) (ipfix : bool)
    (exporter : string) (domain now off : Z) (out : list Flow) (tc : TemplateCache) :
    outcome (list Flow * TemplateCache) :=
  match fuel with
  | O => OutOfFuel
  | S fuel' =>
    if total <? off + 4 then Done (out, tc)
    else
      setID ← Uint16 b off (off + 2);
      setLen ← Uint16 b (off + 2) (off + 4);
      if (setLen <? 4) || (total <? off + setLen) then Done (out, tc)
      else
        body ← slice b (off + 4) (off + setLen);
        '(fl, tc) ← flow_set body setID tplID ipfix exporter domain now tc;
        flow_sets fuel' b total tplID ipfix exporter domain now (off + setLen) (out ++ fl) tc
  end.

(** The template cache argument of the parsers may be nil. *)
Definition parseV9 (b : bytes) (exporter : string) (now : Z) (tc : option TemplateCache) :
    outcome (list Flow * option TemplateCache) :=
  match tc with
  | None => Done ([], None)
  | Some tc =>
    if len b <? 20 then Done ([], Some tc)
    else
      domain ← Uint32 b 16 20;
      '(out, tc) ← flow_sets (S (length b)) b (len b) 0 false exporter domain now 20 [] tc;
      Done (out, Some tc)
  end.

Definition parseIPFIX (b : bytes) (exporter : string) (now : Z) (tc : option TemplateCache) :
    outcome (list Flow * option TemplateCache) :=
  match tc with
  | None => Done ([], None)
  | Some tc =>
    if len b <? 16 then Done ([], Some tc)
    else
      total ← Uint16 b 2 4;
      let total := if len b <? total then len b else total in
      domain ← Uint32 b 12 16;
      '(out, tc) ← flow_sets (S (length b)) b total 2 true exporter domain now 16 [] tc;
      Done (out, Some tc)
  end.

Definition v5_flow (exporter : string) (boot : Z) (r : bytes) : outcome Flow :=
  first ← Uint32 r 24 28;
  last ← Uint32 r 28 32;
  src ← slice r 0 4;
  dst ← slice r 4 8;
  packets ← Uint32 r 16 20;
  octets ← Uint32 r 20 24;
  srcport ← Uint16 r 32 34;
  dstport ← Uint16 r 34 36;
  proto ← index r 38;
  Done (mkFlow exporter (Addr_String (AddrFrom4 src)) (Addr_String (AddrFrom4 dst))
    srcport dstport proto (int64 octets) (int64 packets)
    (time_Add boot (first * Millisecond)) (time_Add boot (last * Millisecond))).

Fixpoint v5_records (n : nat) (b : bytes) (exporter : string) (boot i : Z) (out : list Flow) :
    outcome (list Flow) :=
  match n with
  | O => Done out
  | S n' =>
    let off := 24 + i * 48 in
    if len b <? off + 48 then Done out
    else
      r ← slice b off (off + 48);
      f ← v5_flow exporter boot r;
      v5_records n' b exporter boot (i + 1) (out ++ [f])
  end.

Definition parseV5 (b : bytes) (exporter : string) (now : Z) : outcome (list Flow) :=
  if len b <? 24 then Done []
  else
    count ← Uint16 b 2 4;
    uptime ← Uint32 b 4 8;
    secs ← Uint32 b 8 12;
    let base := if secs =? 0 then now else time_Unix secs in
    let boot := time_Add base (- (uptime * Millisecond)) in
    v5_records (Z.to_nat count) b exporter boot 0 [].

Definition ParseDatagram (b : bytes) (exporter : string) (now : Z)
    (tc : option TemplateCache) : outcome (list Flow * option TemplateCache) :=
  if len b <? 2 then Done ([], tc)
  else
    version ← Uint16 b 0 2;
    if version =? 5 then out ← parseV5 b exporter now; Done (out, tc)
    else if version =? 9 then parseV9 b exporter now tc
    else if version =? 10 then parseIPFIX b exporter now tc
    else Done ([], tc).

(** * Events *)

(** [IsPrivate] of [src/netflow/source.go]. *)
Definition IsPrivate (ip : string) : bool := is_internal ip.

(** [FlowEvent]; [clock] is the [time.Now()] it falls back to. *)
Definition FlowEvent (f : Flow) (sourceID : string) (clock : Z) : Event :=
  let srcPriv := IsPrivate (fl_SrcIP f) in
  let dstPriv := IsPrivate (fl_DstIP f) in
  let host :=
    if srcPriv then fl_SrcIP f else if dstPriv then fl_DstIP f else fl_Exporter f in
  let out := if srcPriv && negb dstPriv then fl_Bytes f else 0 in
  let ts := if time_IsZero (fl_End f) then clock else fl_End f in
  {| e_Timestamp := ts;
     e_Source := SourceNetflow;
     e_SourceID := sourceID;
     e_Host := host;
     e_App := "netflow";
     e_Severity := -1;
     e_Message := sprint ["flow "; fl_SrcIP f; ":"; dec (fl_SrcPort f); " -> ";
       fl_DstIP f; ":"; dec (fl_DstPort f); " proto "; dec (fl_Proto f);
       " bytes "; dec (fl_Bytes f)];
     e_Auth := AuthNone;
     e_User := "";
     e_SrcIP := fl_SrcIP f;
     e_DstIP := fl_DstIP f;
     e_DstPort := fl_DstPort f;
     e_BytesOut := out;
     e_Action := "flow";
     e_Vendor := "";
     e_VendorRule := "";
     e_VendorLevel := 0;
     e_Raw := sprint ["netflow "; fl_Exporter f; " "; fl_SrcIP f; ":"; dec (fl_SrcPort f);
       ">"; fl_DstIP f; ":"; dec (fl_DstPort f); " p"; dec (fl_Proto f);
       " b"; dec (fl_Bytes f)];
     e_Parsed := true |}.

(** * Lemmas *)

Lemma be_int_two x y : be_int [x; y] = x * 256 + y.
Proof. unfold be_int. cbn [foldl]. lia. Qed.

Lemma wf_bytes_take n b : wf_bytes b → wf_bytes (take n b).
Proof. apply Forall_take. Qed.
Lemma wf_bytes_drop n b : wf_bytes b → wf_bytes (drop n b).
Proof. apply Forall_drop. Qed.
#[export] Hint Resolve wf_bytes_take wf_bytes_drop : go.

Lemma wp_slice b lo hi :
  0 <= lo → lo <= hi → hi <= len b → wf_bytes b →
  wp (slice b lo hi) (λ s,
    s = take (Z.to_nat (hi - lo)) (drop (Z.to_nat lo) b) ∧ len s = hi - lo ∧ wf_bytes s).
Proof.
  intros Hlo Hlh Hhi Hb. unfold slice.
  rewrite !(proj2 (Z.leb_le _ _)) by done. apply wp_done. unfold len in *.
  split_and!; [done| |auto with go].
  rewrite length_take, length_drop. lia.
Qed.

Lemma wp_Uint16 b lo hi :
  0 <= lo → hi = lo + 2 → hi <= len b → wf_bytes b →
  wp (Uint16 b lo hi) (λ n, 0 <= n < 65536).
Proof.
  intros Hlo -> Hhi Hb. eapply wp_bind; [apply wp_slice; (lia || done)|].
  intros s (_ & Hl & Hw). unfold len in Hl.
  destruct s as [|x [|y s]]; [cbn in Hl; lia..|]. apply wp_done. rewrite be_int_two.
  apply Forall_cons in Hw as [Hx Hw]. apply Forall_cons in Hw as [Hy _]. unfold is_byte in *. lia.
Qed.

Lemma wp_Uint32 b lo hi :
  0 <= lo → hi = lo + 4 → hi <= len b → wf_bytes b →
  wp (Uint32 b lo hi) (λ n, 0 <= n < 4294967296).
Proof.
  intros Hlo -> Hhi Hb. eapply wp_bind; [apply wp_slice; (lia || done)|].
  intros s (_ & Hl & Hw). unfold len in Hl.
  destruct s as [|x [|y [|z [|t s]]]]; [cbn in Hl; lia..|]. apply wp_done.
  unfold be_int. cbn [foldl].
  repeat (apply Forall_cons in Hw as [? Hw]). unfold is_byte in *. lia.
Qed.

Lemma wp_index b i : 0 <= i < len b → wf_bytes b → wp (index b i) is_byte.
Proof.
  intros Hi Hb. unfold index. rewrite (proj2 (Z.leb_le _ _)), (proj2 (Z.ltb_lt _ _)) by lia.
  apply wp_done. unfold byte_at, len in *. eapply Forall_nth; [done|]. lia.
Qed.

Lemma len_nonneg {A} (l : list A) : 0 <= len l.
Proof. unfold len. lia. Qed.

(** One step of a proof about a monadic parser. *)
Ltac wp_step :=
  match goal with
  | |- wp (if ?b then _ else _) _ => let E := fresh "E" in destruct b eqn:E; to_prop
  | |- wp (Done _) _ => apply wp_done
  | |- wp (Uint16 _ _ _ ≫= _) _ =>
      eapply wp_bind; [apply wp_Uint16; (assumption || lia)|cbv beta; intros ? ?]
  | |- wp (Uint32 _ _ _ ≫= _) _ =>
      eapply wp_bind; [apply wp_Uint32; (assumption || lia)|cbv beta; intros ? ?]
  | |- wp (index _ _ ≫= _) _ =>
      eapply wp_bind; [apply wp_index; (assumption || lia)|cbv beta; intros ? ?]
  | |- wp (slice _ _ _ ≫= _) _ =>
      eapply wp_bind; [apply wp_slice; (assumption || lia)|cbv beta; intros ? (? & ? & ?)]
  end.

(** ** Well-formed templates, caches and flows *)

Definition field_ok (f : templateField) : Prop :=
  0 <= tf_Type f < 65536 ∧ 0 <= tf_Len f < 65536.

Definition template_ok (t : list templateField) : Prop :=
  Forall field_ok t ∧ 1 <= len t <= 128.

Definition cache_ok (c : TemplateCache) : Prop :=
  Z.of_nat (size (tc_tpls c)) <= 4097 ∧ map_Forall (λ _ t, template_ok t) (tc_tpls c).

(** What holds of a flow while its fields are filled in. *)
Definition flow_partial (exporter : string) (f : Flow) : Prop :=
  fl_Exporter f = exporter ∧ is_byte (fl_Proto f) ∧
  in_int64 (fl_Bytes f) ∧ in_int64 (fl_Packets f).

Definition flow_ok (exporter : string) (f : Flow) : Prop :=
  flow_partial exporter f ∧ fl_SrcIP f ≠ "" ∧ fl_DstIP f ≠ "".

Lemma NewTemplateCache_ok : cache_ok NewTemplateCache.
Proof. split; [by vm_compute|apply map_Forall_empty]. Qed.

Lemma put_ok exporter domain id t c :
  cache_ok c → template_ok t → cache_ok (TemplateCache_put exporter domain id t c).
Proof.
  intros [Hs Hf] Ht. unfold cache_ok, TemplateCache_put. cbn.
  destruct (Z.ltb_spec 4096 (Z.of_nat (size (tc_tpls c)))).
  - rewrite insert_empty, map_size_singleton. split; [lia|]. by apply map_Forall_singleton.
  - split; [|by apply map_Forall_insert_2].
    rewrite map_size_insert. case_match; cbn; lia.
Qed.

Lemma emptyFlow_partial exporter now : flow_partial exporter (emptyFlow exporter now).
Proof. unfold flow_partial, emptyFlow. cbn. split_and!; [done|int_lia..]. Qed.

Lemma applyField_partial exporter typ v f :
  wf_bytes v → flow_partial exporter f → flow_partial exporter (applyField typ v f).
Proof.
  intros Hv (He & Hp & Hb & Hn). unfold applyField, flow_partial.
  assert (0 < len v → is_byte (byte_at v (length v - 1))) as Hlast.
  { intros Hl. unfold byte_at, len in *. eapply Forall_nth; [done|lia]. }
  case_ifs; cbn; to_prop; auto 10 using int64_range.
  split_and!; auto. apply Hlast. lia.
Qed.

Lemma finishFlow_ok exporter f :
  flow_partial exporter f → ∀ g, finishFlow f = Some g → flow_ok exporter g.
Proof.
  intros (He & Hp & Hb & Hn) g. unfold finishFlow.
  destruct (is_empty _ || _) eqn:E; [done|]. to_prop.
  intros [= <-]. unfold flow_ok, flow_partial. case_ifs; cbn; auto 10.
  split_and!; auto. int_lia.
Qed.

Definition opt_flow_ok (exporter : string) (f : option Flow) : Prop :=
  ∀ g, f = Some g → flow_ok exporter g.

Lemma append_flow_ok exporter out f :
  Forall (flow_ok exporter) out → opt_flow_ok exporter f →
  Forall (flow_ok exporter) (append_flow out f).
Proof.
  intros Ho Hf. destruct f as [f|]; [|done]. cbn.
  apply Forall_app_2; [done|]. apply Forall_singleton. by apply Hf.
Qed.

(** ** No slice is out of range *)

Definition sum_len (tpl : list templateField) : Z := foldr (λ f n, tf_Len f + n) 0 tpl.

Lemma sum_len_nonneg tpl : Forall field_ok tpl → 0 <= sum_len tpl.
Proof. induction 1 as [|f l [_ Hf] _ IH]; cbn; [lia|]. unfold sum_len in *. lia. Qed.

Lemma fixed_fields_ok exporter r tpl : ∀ off f,
  wf_bytes r → Forall field_ok tpl → 0 <= off → off + sum_len tpl <= len r →
  flow_partial exporter f → wp (fixed_fields r tpl off f) (flow_partial exporter).
Proof.
  induction tpl as [|tf tpl IH]; intros off f Hr Ht Ho Hl Hf; cbn [fixed_fields]; [by apply wp_done|].
  apply Forall_cons in Ht as [[Hty Hlen] Ht]. pose proof (sum_len_nonneg tpl Ht).
  cbn in Hl. fold (sum_len tpl) in Hl. wp_step.
  apply IH; [done|done|lia|lia|]. case_ifs; [|done]. by apply applyField_partial.
Qed.

Lemma decodeRecordFixed_ok exporter r tpl now :
  wf_bytes r → Forall field_ok tpl → sum_len tpl <= len r →
  wp (decodeRecordFixed r tpl exporter now) (opt_flow_ok exporter).
Proof.
  intros Hr Ht Hl. eapply wp_bind.
  - apply (fixed_fields_ok exporter); [done|done|lia|lia|apply emptyFlow_partial].
  - intros f Hf. apply wp_done. intros g. by apply finishFlow_ok.
Qed.

Lemma var_length_ok r off :
  wf_bytes r → 0 <= off →
  wp (var_length r off) (λ lo, ∀ l o, lo = Some (l, o) → 0 <= l ∧ off < o).
Proof.
  intros Hr Ho. unfold var_length. repeat wp_step; intros l o [= <- <-]; unfold is_byte in *; lia.
Qed.

Lemma var_fields_ok exporter r tpl : ∀ off f,
  wf_bytes r → Forall field_ok tpl → 0 <= off → off <= len r → flow_partial exporter f →
  wp (var_fields r tpl off f)
    (λ res, ∀ g o, res = Some (g, o) → flow_partial exporter g ∧ off <= o <= len r).
Proof.
  induction tpl as [|tf tpl IH]; intros off f Hr Ht Ho Hl Hf; cbn [var_fields].
  { apply wp_done. intros g o [= <- <-]. auto with lia. }
  apply Forall_cons in Ht as [[Hty Hlen] Ht].
  eapply (wp_bind _ _ (λ lo, ∀ l o, lo = Some (l, o) → 0 <= l ∧ off <= o)).
  { case_ifs.
    - eapply wp_mono; [by apply var_length_ok|]. intros lo Hlo l o He.
      destruct (Hlo l o He). lia.
    - apply wp_done. intros l o [= <- <-]. lia. }
  intros [[l o]|] Hlo; [|by apply wp_done]. destruct (Hlo l o eq_refl) as [Hl0 Ho0].
  assert (∀ g, flow_partial exporter g → o + l <= len r →
    wp (var_fields r tpl (o + l) g)
      (λ res, ∀ g o, res = Some (g, o) → flow_partial exporter g ∧ off <= o <= len r)) as Hrec.
  { intros g Hg Hle. eapply wp_mono; [apply (IH (o + l) g); (done || lia)|].
    intros res Hres g' o' He. destruct (Hres g' o' He). split; [done|lia]. }
  repeat wp_step; [done|apply Hrec; [by apply applyField_partial|lia]|by apply Hrec].
Qed.

Lemma decodeRecordVar_ok exporter r tpl now :
  wf_bytes r → Forall field_ok tpl →
  wp (decodeRecordVar r tpl exporter now)
    (λ res, opt_flow_ok exporter (fst res) ∧ 0 <= snd res <= len r).
Proof.
  intros Hr Ht. pose proof (len_nonneg r). eapply wp_bind.
  - apply (var_fields_ok exporter); [done|done|lia|lia|apply emptyFlow_partial].
  - intros [[f o]|] Hres; apply wp_done; cbn; [|split; [done|lia]].
    destruct (Hres f o eq_refl) as [Hf Ho]. split; [|lia]. intros g. by apply finishFlow_ok.
Qed.

Lemma template_length_fixed tpl : ∀ n,
  Forall field_ok tpl → ∀ recLen, template_length tpl n = (recLen, false) →
  recLen = n + sum_len tpl.
Proof.
  induction tpl as [|f tpl IH]; intros n Ht recLen; cbn [template_length sum_len foldr].
  - intros [= <-]. lia.
  - apply Forall_cons in Ht as [_ Ht]. case_ifs; [done|]. intros He.
    rewrite (IH _ Ht _ He). unfold sum_len. lia.
Qed.

(** Each record takes at least one byte, so [length b + 1] rounds are enough. *)
Lemma data_records_ok exporter b tpl recLen var now : ∀ fuel off out,
  wf_bytes b → Forall field_ok tpl → (var = false → recLen = sum_len tpl) →
  0 <= off <= len b → len b - off < Z.of_nat fuel → Forall (flow_ok exporter) out →
  wp (data_records fuel b tpl recLen var exporter now off out) (Forall (flow_ok exporter)).
Proof.
  induction fuel as [|fuel IH]; intros off out Hb Ht Hrl Ho Hfuel Hout; [lia|].
  cbn [data_records]. pose proof (sum_len_nonneg tpl Ht).
  assert (∀ off' out', off < off' <= len b → Forall (flow_ok exporter) out' →
    wp (if len b - 3 <=? off' then Done out'
        else data_records fuel b tpl recLen var exporter now off' out')
       (Forall (flow_ok exporter))) as Hnext.
  { intros off' out' Hoff' Hout'. wp_step; [wp_step; done|]. apply IH; (done || lia). }
  destruct var; cbn beta iota.
  - wp_step. eapply wp_bind; [by apply decodeRecordVar_ok|]. intros [f n] [Hf Hn]. cbn in *.
    wp_step; [by apply wp_done|]. apply Hnext; [lia|]. by apply append_flow_ok.
  - rewrite Hrl by done. wp_step; [by apply wp_done|].
    wp_step. eapply wp_bind; [apply (decodeRecordFixed_ok exporter); (done || lia)|].
    intros f Hf. rewrite Hrl in Hnext by done. apply Hnext; [lia|]. by apply append_flow_ok.
Qed.

(** What parsing leaves: well-formed flows of this exporter and a well-formed
    cache. *)
Definition parsed_ok (exporter : string) (res : list Flow * TemplateCache) : Prop :=
  Forall (flow_ok exporter) (fst res) ∧ cache_ok (snd res).

Lemma decodeData_ok b exporter domain id now tc :
  wf_bytes b → cache_ok tc → wp (decodeData b exporter domain id now tc) (parsed_ok exporter).
Proof.
  intros Hb Hc. unfold decodeData, TemplateCache_get.
  destruct (tc_tpls tc !! _) as [tpl|] eqn:Hl; [|by apply wp_done].
  destruct Hc as [Hs Hf]. destruct (Hf _ _ Hl) as [Ht _].
  destruct (template_length tpl 0) as [recLen var] eqn:He. pose proof (len_nonneg b).
  eapply wp_bind; [|intros out Hout; by apply wp_done].
  apply data_records_ok; [done|done| |lia|unfold len; lia|done].
  intros ->. rewrite (template_length_fixed tpl 0 Ht recLen He). lia.
Qed.

Lemma land_mask n k : 0 <= n < 65536 → 0 <= k → 0 <= Z.land n k < 65536.
Proof.
  intros Hn Hk. split; [apply Z.land_nonneg; lia|].
  destruct (Z.eq_dec (Z.land n k) 0) as [->|Hne]; [lia|].
  assert (0 <= Z.land n k) by (apply Z.land_nonneg; lia).
  apply (Z.log2_lt_pow2 _ 16); [lia|].
  eapply Z.le_lt_trans; [apply Z.log2_land; lia|].
  assert (Z.log2 n < 16); [|lia].
  destruct (Z.eq_dec n 0) as [->|]; [done|]. apply Z.log2_lt_pow2; lia.
Qed.

Lemma template_fields_ok b ipfix n : ∀ off fields,
  wf_bytes b → 0 <= off → off <= len b → Forall field_ok fields →
  wp (template_fields n b ipfix off fields)
    (λ res, ∀ fs o, res = Some (fs, o) →
       Forall field_ok fs ∧ len fs = len fields + Z.of_nat n ∧ off <= o <= len b).
Proof.
  induction n as [|n IH]; intros off fields Hb Ho Hob Hf; cbn [template_fields].
  { apply wp_done. intros fs o [= <- <-]. split_and!; [done|lia..]. }
  assert (∀ off' f, off <= off' <= len b → field_ok f →
    wp (template_fields n b ipfix off' (fields ++ [f]))
      (λ res, ∀ fs o, res = Some (fs, o) →
         Forall field_ok fs ∧ len fs = len fields + Z.of_nat (S n) ∧ off <= o <= len b)) as Hrec.
  { intros off' f Hoff' Hfok. eapply wp_mono; [apply (IH off'); [done|lia|lia|]|].
    - apply Forall_app_2; [done|by apply Forall_singleton].
    - intros res Hres fs o He. destruct (Hres fs o He) as (? & Hl & ?).
      split_and!; [done| |lia|lia]. revert Hl. unfold len. rewrite length_app. cbn. lia. }
  repeat wp_step; [done..|apply Hrec|apply Hrec]; try lia; [|done].
  split; cbn; [|done]. apply land_mask; lia.
Qed.

Lemma parseTemplates_ok b exporter domain ipfix : ∀ fuel off tc,
  wf_bytes b → cache_ok tc → 0 <= off <= len b → len b - off < Z.of_nat fuel →
  wp (parseTemplates fuel b exporter domain ipfix off tc) cache_ok.
Proof.
  induction fuel as [|fuel IH]; intros off tc Hb Hc Ho Hfuel; [lia|]. cbn [parseTemplates].
  repeat wp_step; [done..|].
  eapply wp_bind; [apply template_fields_ok; [done|lia|lia|done]|].
  intros [[fields o]|] Hres; [|by apply wp_done].
  destruct (Hres fields o eq_refl) as (Hf & Hl & Hoff).
  apply IH; [done| |lia|lia]. apply put_ok; [done|]. split; [done|].
  rewrite Hl. unfold len. cbn. lia.
Qed.

Lemma flow_set_ok body setID tplID ipfix exporter domain now tc :
  wf_bytes body → cache_ok tc →
  wp (flow_set body setID tplID ipfix exporter domain now tc) (parsed_ok exporter).
Proof.
  intros Hb Hc. pose proof (len_nonneg body). unfold flow_set. repeat wp_step.
  - eapply wp_bind; [apply parseTemplates_ok; [done|done|lia|unfold len; lia]|].
    intros tc' Hc'. by apply wp_done.
  - done.
  - by apply decodeData_ok.
  - done.
Qed.

Lemma flow_sets_ok b total tplID ipfix exporter domain now : ∀ fuel off out tc,
  wf_bytes b → total <= len b → cache_ok tc → 0 <= off → Z.max 0 (total - off) < 4 * Z.of_nat fuel →
  Forall (flow_ok exporter) out →
  wp (flow_sets fuel b total tplID ipfix exporter domain now off out tc) (parsed_ok exporter).
Proof.
  induction fuel as [|fuel IH]; intros off out tc Hb Ht Hc Ho Hfuel Hout; [lia|].
  cbn [flow_sets]. repeat wp_step; try done.
  eapply wp_bind; [by apply flow_set_ok|]. intros [fl tc'] [Hfl Hc'].
  apply IH; [done|done|done|lia|lia|]. by apply Forall_app_2.
Qed.

(** More steps than the loop takes change nothing. *)
Lemma flow_sets_mono b total tplID ipfix exporter domain now r : ∀ fuel fuel' off out tc,
  flow_sets fuel b total tplID ipfix exporter domain now off out tc = Done r → (fuel <= fuel')%nat →
  flow_sets fuel' b total tplID ipfix exporter domain now off out tc = Done r.
Proof.
  induction fuel as [|fuel IH]; intros fuel' off out tc Hd Hle; [done|].
  destruct fuel' as [|fuel']; [lia|]. cbn [flow_sets] in *.
  destruct (total <? off + 4); [done|].
  destruct (Uint16 b off (off + 2)) as [setID| |]; [|done|done]. cbn [mbind outcome_mbind] in *.
  destruct (Uint16 b (off + 2) (off + 4)) as [setLen| |]; [|done|done]. cbn [mbind outcome_mbind] in *.
  destruct (_ || _); [done|].
  destruct (slice b (off + 4) (off + setLen)) as [body| |]; [|done|done]. cbn [mbind outcome_mbind] in *.
  destruct (flow_set _ _ _ _ _ _ _ _) as [[fl tc']| |]; [|done|done]. cbn [mbind outcome_mbind] in *.
  apply IH; [done|lia].
Qed.

(** ** NetFlow v5 *)

(** The big-endian number in the [n] bytes at [lo]. *)
Definition be_field (r : bytes) (lo n : nat) : Z := be_int (take n (drop lo r)).

(** The flow a 48-byte v5 record describes. *)
Definition v5_spec (exporter : string) (boot : Z) (r : bytes) : Flow :=
  mkFlow exporter (string4 (take 4 r)) (string4 (take 4 (drop 4 r)))
    (be_field r 32 2) (be_field r 34 2) (byte_at r 38) (be_field r 20 4) (be_field r 16 4)
    (boot + be_field r 24 4 * Millisecond) (boot + be_field r 28 4 * Millisecond).

Lemma slice_eq b lo hi :
  0 <= lo → lo <= hi → hi <= len b →
  slice b lo hi = Done (take (Z.to_nat (hi - lo)) (drop (Z.to_nat lo) b)).
Proof. intros. unfold slice. by rewrite !(proj2 (Z.leb_le _ _)) by done. Qed.

Lemma Uint16_eq b lo hi :
  0 <= lo → hi = lo + 2 → hi <= len b → Uint16 b lo hi = Done (be_field b (Z.to_nat lo) 2).
Proof.
  intros Hlo -> Hhi. unfold Uint16, be_field. rewrite slice_eq by lia.
  replace (lo + 2 - lo) with 2 by lia. cbn [mbind outcome_mbind].
  assert (length (take (Z.to_nat 2) (drop (Z.to_nat lo) b)) = 2%nat) as Hl.
  { rewrite length_take, length_drop. unfold len in *. lia. }
  change (Z.to_nat 2) with 2%nat in *.
  by destruct (take 2 (drop (Z.to_nat lo) b)) as [|x [|y [|]]].
Qed.

Lemma Uint32_eq b lo hi :
  0 <= lo → hi = lo + 4 → hi <= len b → Uint32 b lo hi = Done (be_field b (Z.to_nat lo) 4).
Proof.
  intros Hlo -> Hhi. unfold Uint32, be_field. rewrite slice_eq by lia.
  replace (lo + 4 - lo) with 4 by lia. cbn [mbind outcome_mbind].
  assert (length (take (Z.to_nat 4) (drop (Z.to_nat lo) b)) = 4%nat) as Hl.
  { rewrite length_take, length_drop. unfold len in *. lia. }
  change (Z.to_nat 4) with 4%nat in *.
  by destruct (take 4 (drop (Z.to_nat lo) b)) as [|x [|y [|z [|t [|]]]]].
Qed.

Lemma be_field_range r lo n : wf_bytes r → 0 <= be_field r lo n < 256 ^ Z.of_nat n.
Proof.
  intros Hr. unfold be_field.
  pose proof (be_int_range (take n (drop lo r)) ltac:(auto with go)) as Hb.
  rewrite length_take in Hb. split; [lia|]. eapply Z.lt_le_trans; [apply Hb|].
  apply Z.pow_le_mono_r; lia.
Qed.

Lemma be_field_int64 r lo : wf_bytes r → in_int64 (be_field r lo 4).
Proof.
  intros Hr. pose proof (be_field_range r lo 4 Hr) as Hb.
  change (256 ^ Z.of_nat 4) with 4294967296 in Hb. int_lia.
Qed.

Lemma string4_AddrFrom4 b : Addr_String (AddrFrom4 b) = string4 b.
Proof. done. Qed.

Lemma v5_flow_eq exporter boot r :
  wf_bytes r → len r = 48 → v5_flow exporter boot r = Done (v5_spec exporter boot r).
Proof.
  intros Hr Hl. unfold v5_flow. rewrite !Uint32_eq, !Uint16_eq, !slice_eq by lia.
  unfold index. rewrite Hl. cbn -[Addr_String be_field Z.mul byte_at take drop].
  rewrite !int64_small by (by apply be_field_int64). done.
Qed.

(** The number of whole records after the header. *)
Definition v5_capacity (b : bytes) : Z := (len b - 24) / 48.

Definition v5_record (b : bytes) (i : nat) : bytes := take 48 (drop (24 + 48 * i) b).

Lemma v5_records_eq b exporter boot n : ∀ i out,
  wf_bytes b → 24 <= len b → 0 <= i <= v5_capacity b →
  v5_records n b exporter boot i out =
    Done (out ++ map (λ k, v5_spec exporter boot (v5_record b k))
      (seq (Z.to_nat i) (Nat.min n (Z.to_nat (v5_capacity b - i))))).
Proof.
  unfold v5_capacity.
  induction n as [|n IH]; intros i out Hb Hl Hi; cbn [v5_records].
  { by rewrite app_nil_r. }
  destruct (Z.ltb_spec (len b) (24 + i * 48 + 48)) as [Hlt|Hge].
  - replace (Z.to_nat ((len b - 24) / 48 - i)) with 0%nat.
    + by rewrite Nat.min_0_r, app_nil_r.
    + assert ((len b - 24) / 48 < i + 1); [apply Z.div_lt_upper_bound; lia|lia].
  - assert (i + 1 <= (len b - 24) / 48) by (apply Z.div_le_lower_bound; lia).
    rewrite slice_eq by lia. cbn [mbind outcome_mbind].
    replace (24 + i * 48 + 48 - (24 + i * 48)) with 48 by lia.
    rewrite v5_flow_eq; [|auto with go|unfold len in *; rewrite length_take, length_drop; lia].
    cbn [mbind outcome_mbind]. rewrite IH by (done || lia).
    replace (Z.to_nat ((len b - 24) / 48 - i)) with (S (Z.to_nat ((len b - 24) / 48 - (i + 1))))
      by lia.
    cbn [Nat.min seq map]. rewrite <-app_assoc. cbn [app]. do 3 f_equal.
    + unfold v5_record. by replace (24 + 48 * Z.to_nat i)%nat with (Z.to_nat (24 + i * 48)) by lia.
    + by replace (S (Z.to_nat i)) with (Z.to_nat (i + 1)) by lia.
Qed.

(** The boot time of the exporter, from the header. *)
Definition v5_boot (b : bytes) (now : Z) : Z :=
  (if be_field b 8 4 =? 0 then now else time_Unix (be_field b 8 4))
  - be_field b 4 4 * Millisecond.

Definition v5_flows (b : bytes) (exporter : string) (now : Z) : list Flow :=
  map (λ k, v5_spec exporter (v5_boot b now) (v5_record b k))
    (seq 0 (Nat.min (Z.to_nat (be_field b 2 2)) (Z.to_nat (v5_capacity b)))).

Lemma parseV5_eq b exporter now :
  wf_bytes b → 24 <= len b → parseV5 b exporter now = Done (v5_flows b exporter now).
Proof.
  intros Hb Hl. unfold parseV5. destruct (Z.ltb_spec (len b) 24); [lia|].
  rewrite !Uint32_eq, Uint16_eq by lia. cbn [mbind outcome_mbind].
  assert (0 <= v5_capacity b) by (apply Z.div_pos; lia).
  rewrite v5_records_eq by (done || lia). unfold v5_flows, v5_boot.
  rewrite Z.sub_0_r. done.
Qed.

Lemma string4_nonempty b : string4 b ≠ "".
Proof.
  unfold string4. intros He. apply (f_equal (has_char ".")) in He.
  assert (∀ s t, has_char "." (s +:+ "." +:+ t) = true) as Hd.
  { intros s t. induction s as [|c s IH]; [done|]. rewrite append_cons. simpl. by case_match. }
  by rewrite Hd in He.
Qed.

Lemma v5_spec_ok exporter boot r : wf_bytes r → len r = 48 → flow_ok exporter (v5_spec exporter boot r).
Proof.
  intros Hr Hl. unfold flow_ok, flow_partial, v5_spec. cbn -[be_field byte_at string4 take drop].
  split_and!; [done| |by apply be_field_int64..|apply string4_nonempty|apply string4_nonempty].
  unfold byte_at. eapply Forall_nth; [done|]. unfold len in Hl. lia.
Qed.

Lemma length_v5_record b k :
  (k < Z.to_nat (v5_capacity b))%nat → len (v5_record b k) = 48.
Proof.
  intros Hk. unfold v5_record, v5_capacity, len in *. rewrite length_take, length_drop.
  assert (Z.of_nat k + 1 <= (Z.of_nat (length b) - 24) / 48) as Hle by lia.
  assert (48 * (Z.of_nat k + 1) <= Z.of_nat (length b) - 24).
  { pose proof (Z.mul_div_le (Z.of_nat (length b) - 24) 48). lia. }
  lia.
Qed.

Lemma parseV5_ok b exporter now :
  wf_bytes b → wp (parseV5 b exporter now) (Forall (flow_ok exporter)).
Proof.
  intros Hb. destruct (Z.ltb_spec (len b) 24) as [Hl|Hl].
  - unfold parseV5. rewrite (proj2 (Z.ltb_lt _ _)) by done. by apply wp_done.
  - rewrite parseV5_eq by done. apply wp_done. unfold v5_flows.
    apply Forall_forall. intros f. rewrite list_elem_of_In, in_map_iff.
    intros (k & <- & Hk). apply in_seq in Hk.
    apply v5_spec_ok; [unfold v5_record; auto with go|]. apply length_v5_record. lia.
Qed.

Definition opt_cache_ok (tc : option TemplateCache) : Prop := ∀ c, tc = Some c → cache_ok c.

Lemma ParseDatagram_ok b exporter now tc :
  wf_bytes b → opt_cache_ok tc →
  wp (ParseDatagram b exporter now tc)
    (λ res, Forall (flow_ok exporter) (fst res) ∧ opt_cache_ok (snd res)).
Proof.
  intros Hb Htc. unfold ParseDatagram, parseV9, parseIPFIX. pose proof (len_nonneg b).
  wp_step; [wp_step; done|]. wp_step. wp_step.
  - eapply wp_bind; [by apply parseV5_ok|]. intros out Hout. by apply wp_done.
  - assert (∀ total tplID ipfix domain off tc, total <= len b → 0 <= off → cache_ok tc →
      wp ('(out, tc) ← flow_sets (S (length b)) b total tplID ipfix exporter domain now off [] tc;
          Done (out, Some tc))
        (λ res, Forall (flow_ok exporter) (fst res) ∧ opt_cache_ok (snd res))) as Hsets.
    { intros total tplID ipfix domain off c Ht Ho Hc. eapply wp_bind.
      - apply flow_sets_ok; [done|done|done|done|unfold len in *; lia|done].
      - intros [out tc'] [Hout Hc']. apply wp_done. split; [done|]. by intros c' [= <-]. }
    destruct tc as [c|]; repeat wp_step; try done; apply Hsets; (by auto) || (case_ifs; to_prop; lia).
Qed.

(** ** Keys of the template cache *)

Lemma TemplateCache_key_inj e d i e' d' i' :
  TemplateCache_key e d i = TemplateCache_key e' d' i' → e = e' ∧ d = d' ∧ i = i'.
Proof.
  unfold TemplateCache_key. rewrite <-!append_assoc.
  assert (∀ x, has_char "|" (dec x) = false) as Hd by (intros; by apply has_char_dec).
  rewrite !(append_assoc _ "|"), !append_cons, !append_nil_l. intros He.
  apply append_sep_inj_r in He as [He Hi%dec_inj]; [|done..].
  apply append_sep_inj_r in He as [He Hdm%dec_inj]; [|done..]. done.
Qed.

Lemma get_put e d i t c e' d' i' :
  TemplateCache_get e' d' i' (TemplateCache_put e d i t c) =
    if decide ((e', d', i') = (e, d, i)) then Some t
    else if 4096 <? Z.of_nat (size (tc_tpls c)) then None
    else TemplateCache_get e' d' i' c.
Proof.
  unfold TemplateCache_get, TemplateCache_put. cbn. case_decide as Hk.
  - injection Hk as -> -> ->. by rewrite lookup_insert_eq.
  - rewrite lookup_insert_ne; [by case_ifs|]. intros He. apply Hk.
    by apply TemplateCache_key_inj in He as (-> & -> & ->).
Qed.

(** ** Data sets of fixed-length records *)

(** The value of a record, field by field. *)
Definition decode_fields (tpl : list templateField) (exporter : string) (now : Z)
    (vs : list bytes) : option Flow :=
  finishFlow (foldl (λ f tv, if tf_Ent (fst tv) then f else applyField (tf_Type (fst tv)) (snd tv) f)
    (emptyFlow exporter now) (zip tpl vs)).

Definition fits (tpl : list templateField) (vs : list bytes) : Prop :=
  Forall2 (λ tf v, len v = tf_Len tf) tpl vs.

Lemma fits_length tpl vs : fits tpl vs → len (concat vs) = sum_len tpl.
Proof.
  induction 1 as [|tf v tpl vs Hv _ IH]; [done|]. cbn. unfold len in *.
  rewrite length_app. unfold sum_len in IH. lia.
Qed.

Lemma slice_middle pre v post :
  slice (pre ++ v ++ post) (len pre) (len pre + len v) = Done v.
Proof.
  unfold len. rewrite slice_eq; [|lia..|unfold len; rewrite !length_app; lia].
  replace (Z.to_nat (Z.of_nat (length pre) + Z.of_nat (length v) - Z.of_nat (length pre)))
    with (length v) by lia.
  rewrite Nat2Z.id, drop_app_length, take_app_length. done.
Qed.

Lemma fixed_fields_eq tpl vs : ∀ pre f,
  fits tpl vs →
  fixed_fields (pre ++ concat vs) tpl (len pre) f =
    Done (foldl (λ f tv, if tf_Ent (fst tv) then f else applyField (tf_Type (fst tv)) (snd tv) f)
      f (zip tpl vs)).
Proof.
  revert vs. induction tpl as [|tf tpl IH]; intros vs pre f Hf;
    inversion Hf as [|? v ? vs' Hv Hvs]; subst; [done|].
  cbn [fixed_fields concat zip foldl fst snd]. rewrite <-Hv, slice_middle.
  cbn [mbind outcome_mbind]. rewrite app_assoc.
  replace (len pre + len v) with (len (pre ++ v)) by (unfold len; rewrite length_app; lia).
  rewrite IH by done. by destruct (tf_Ent tf).
Qed.

Lemma decodeRecordFixed_eq tpl vs exporter now :
  fits tpl vs →
  decodeRecordFixed (concat vs) tpl exporter now = Done (decode_fields tpl exporter now vs).
Proof.
  intros Hf. unfold decodeRecordFixed, decode_fields.
  by rewrite (fixed_fields_eq tpl vs [] _ Hf).
Qed.

Lemma append_flow_omap tpl exporter now vs recs out :
  append_flow out (decode_fields tpl exporter now vs) ++ omap (decode_fields tpl exporter now) recs =
  out ++ omap (decode_fields tpl exporter now) (vs :: recs).
Proof.
  cbn [omap list_omap]. destruct (decode_fields tpl exporter now vs); cbn; [|done].
  by rewrite <-app_assoc.
Qed.

Lemma data_records_eq b tpl exporter now pad recs : ∀ fuel pre out,
  b = pre ++ concat (map (@concat Z) recs) ++ pad →
  Forall (fits tpl) recs → 4 <= sum_len tpl → len pad <= 3 → (length recs < fuel)%nat →
  data_records fuel b tpl (sum_len tpl) false exporter now (len pre) out =
  Done (out ++ omap (decode_fields tpl exporter now) recs).
Proof.
  induction recs as [|vs recs IH]; intros fuel pre out Hb Hf Hs Hp Hfuel;
    (destruct fuel as [|fuel]; [lia|]); cbn [data_records];
    (destruct (Z.eqb_spec (sum_len tpl) 0); [lia|]); cbn [orb].
  - rewrite (proj2 (Z.ltb_lt _ _)); [by rewrite app_nil_r|].
    subst b. cbn. unfold len in *. rewrite length_app. lia.
  - apply Forall_cons in Hf as [Hvs Hf]. pose proof (fits_length tpl vs Hvs) as Hl.
    cbn [map concat] in Hb. rewrite <-app_assoc in Hb.
    assert (len b = len pre + sum_len tpl + len (concat (map (@concat Z) recs)) + len pad) as Hlb.
    { subst b. unfold len in *. rewrite !length_app. lia. }
    pose proof (len_nonneg (concat (map (@concat Z) recs))). pose proof (len_nonneg pad).
    rewrite (proj2 (Z.ltb_ge _ _)) by lia.
    replace (slice b (len pre) (len pre + sum_len tpl)) with (Done (concat vs))
      by (by rewrite Hb, <-Hl, slice_middle).
    cbn [mbind outcome_mbind]. rewrite decodeRecordFixed_eq by done. cbn [mbind outcome_mbind].
    replace (len pre + sum_len tpl) with (len (pre ++ concat vs)) in *
      by (unfold len in *; rewrite length_app; lia).
    rewrite <-append_flow_omap.
    destruct (Z.leb_spec (len b - 3) (len (pre ++ concat vs))) as [Hle|Hgt].
    + destruct recs as [|vs' recs]; [by rewrite app_nil_r|]. exfalso.
      apply Forall_cons in Hf as [Hvs' _]. pose proof (fits_length tpl vs' Hvs') as Hl'.
      revert Hle. rewrite Hlb. cbn [map concat]. unfold len in *. rewrite !length_app. lia.
    + apply IH; [by rewrite <-app_assoc|done|done|done|simpl in Hfuel; lia].
Qed.

Lemma template_length_eq tpl : ∀ n,
  Forall (λ f, tf_Len f ≠ varlen) tpl → template_length tpl n = (n + sum_len tpl, false).
Proof.
  induction tpl as [|f tpl IH]; intros n Ht; cbn [template_length sum_len foldr].
  - by rewrite Z.add_0_r.
  - apply Forall_cons in Ht as [Hf Ht]. destruct (Z.eqb_spec (tf_Len f) varlen); [done|].
    rewrite IH by done. f_equal. unfold sum_len. lia.
Qed.

Lemma concat_length_ge recs tpl :
  Forall (fits tpl) recs → 4 <= sum_len tpl →
  (length recs <= length (concat (map (@concat Z) recs)))%nat.
Proof.
  intros Hf Hs. induction Hf as [|vs recs Hvs _ IH]; [done|]. cbn. rewrite length_app.
  pose proof (fits_length tpl vs Hvs). unfold len in *. lia.
Qed.

(** * Properties *)

(** C33: whatever bytes arrive, parsing a datagram returns: no slice is out of
    range and every loop ends. Every flow it gives names the exporter, has both
    addresses and machine-sized counters, and the template cache keeps its bound
    of 4097 well-formed templates. *)
Theorem ParseDatagram_safe b exporter now tc :
  wf_bytes b → opt_cache_ok tc →
  ∃ out tc', ParseDatagram b exporter now tc = Done (out, tc') ∧
    Forall (flow_ok exporter) out ∧ opt_cache_ok tc'.
Proof.
  intros Hb Htc. destruct (ParseDatagram_ok b exporter now tc Hb Htc) as ([out tc'] & H & ?).
  by exists out, tc'.
Qed.

(** The loop over the sets of a datagram ends after at most one step for
    every four bytes left and one more, whatever the bytes and the templates: with
    that many steps it returns, and with more it returns the same. *)
Theorem flow_sets_terminates b total tplID ipfix exporter domain now off out tc :
  wf_bytes b → total <= len b → cache_ok tc → 0 <= off → Forall (flow_ok exporter) out →
  ∃ r, ∀ fuel, Z.max 0 (total - off) < 4 * Z.of_nat fuel →
    flow_sets fuel b total tplID ipfix exporter domain now off out tc = Done r.
Proof.
  intros Hb Ht Hc Ho Hout. set (n := Z.to_nat (Z.max 0 (total - off) / 4 + 1)).
  assert (Z.max 0 (total - off) < 4 * Z.of_nat n) as Hn.
  { subst n. rewrite Z2Nat.id by (pose proof (Z.div_pos (Z.max 0 (total - off)) 4); lia).
    pose proof (Z.mul_succ_div_gt (Z.max 0 (total - off)) 4). lia. }
  destruct (flow_sets_ok b total tplID ipfix exporter domain now n off out tc Hb Ht Hc Ho Hn Hout)
    as (r & Hr & _).
  exists r. intros fuel Hf. eapply flow_sets_mono; [exact Hr|]. subst n.
  apply Nat2Z.inj_le. rewrite Z2Nat.id by (pose proof (Z.div_pos (Z.max 0 (total - off)) 4); lia).
  pose proof (Z.div_lt_upper_bound (Z.max 0 (total - off)) 4 (Z.of_nat fuel)). lia.
Qed.

(** An IPFIX datagram with a template set whose length runs past its end. *)
Definition exDatagram : bytes :=
  [0; 10; 255; 255; 0; 0; 0; 0; 0; 0; 0; 0; 0; 0; 0; 1; 0; 2; 0; 12; 1; 0; 0; 1; 0; 8; 0; 4; 1; 0].

Lemma exDatagram_wf : wf_bytes exDatagram.
Proof. repeat (apply Forall_cons_2; [by vm_compute|]). apply Forall_nil_2. Qed.

Lemma ParseDatagram_safe_witness :
  ∃ out tc', ParseDatagram exDatagram "10.0.0.1" 0 (Some NewTemplateCache) = Done (out, tc') ∧
    Forall (flow_ok "10.0.0.1") out ∧ opt_cache_ok tc'.
Proof.
  apply (ParseDatagram_safe exDatagram "10.0.0.1" 0 (Some NewTemplateCache)).
  - exact exDatagram_wf.
  - intros c [= <-]. exact NewTemplateCache_ok.
Defined.

Lemma flow_sets_terminates_witness :
  ∃ r, ∀ fuel, 14 < 4 * Z.of_nat fuel →
    flow_sets fuel exDatagram 30 2 true "10.0.0.1" 1 0 16 [] NewTemplateCache = Done r.
Proof.
  apply (flow_sets_terminates exDatagram 30 2 true "10.0.0.1" 1 0 16 [] NewTemplateCache).
  - exact exDatagram_wf.
  - vm_compute. discriminate.
  - exact NewTemplateCache_ok.
  - discriminate.
  - constructor.
Defined.

(** A version 5 datagram yields one flow for each record its header counts
    and its bytes hold, in order, each with the addresses, ports, protocol,
    counters and times at their places in the record. *)
Theorem parseV5_spec b exporter now tc :
  wf_bytes b → 24 <= len b → be_field b 0 2 = 5 →
  ParseDatagram b exporter now tc = Done (v5_flows b exporter now, tc).
Proof.
  intros Hb Hl Hv. unfold ParseDatagram. rewrite (proj2 (Z.ltb_ge _ _)) by lia.
  rewrite Uint16_eq by lia. cbn [mbind outcome_mbind]. change (Z.to_nat 0) with 0%nat.
  rewrite Hv. cbn [Z.eqb Pos.eqb]. by rewrite parseV5_eq.
Qed.

(** One record announced as two: 10.0.0.1:4660 sends 100 bytes to 8.8.8.8:443. *)
Definition exV5 : bytes :=
  [0; 5; 0; 2; 0; 0; 0; 1; 0; 0; 0; 2] ++ replicate 12 0 ++
  [10; 0; 0; 1; 8; 8; 8; 8] ++ replicate 8 0 ++
  [0; 0; 0; 1; 0; 0; 0; 100; 0; 0; 0; 1; 0; 0; 0; 2; 18; 52; 1; 187; 0; 0; 6] ++ replicate 9 0.

Lemma exV5_wf : wf_bytes exV5.
Proof. repeat (apply Forall_cons_2; [by vm_compute|]). apply Forall_nil_2. Qed.

Lemma parseV5_spec_witness :
  ParseDatagram exV5 "r1" 0 None =
    Done ([mkFlow "r1" "10.0.0.1" "8.8.8.8" 4660 443 6 100 1
             (time_Unix 2) (time_Unix 2 + Millisecond)], None).
Proof.
  rewrite (parseV5_spec exV5 "r1" 0 None).
  - vm_compute. reflexivity.
  - exact exV5_wf.
  - vm_compute. discriminate.
  - reflexivity.
Defined.

(** C35: a data set of fixed-length records is the concatenation of their field
    values, up to three bytes of padding aside: decoding it against the cached
    template gives back every record, field by field and in order. *)
Theorem decodeData_roundtrip exporter domain id now tc tpl recs pad :
  TemplateCache_get exporter domain id tc = Some tpl →
  Forall (λ f, tf_Len f ≠ varlen) tpl → 4 <= sum_len tpl →
  Forall (fits tpl) recs → len pad <= 3 →
  decodeData (concat (map (@concat Z) recs) ++ pad) exporter domain id now tc =
    Done (omap (decode_fields tpl exporter now) recs, tc).
Proof.
  intros Hg Hv Hs Hf Hp. unfold decodeData. rewrite Hg, template_length_eq by done.
  rewrite Z.add_0_l. pose proof (concat_length_ge recs tpl Hf Hs).
  rewrite (data_records_eq _ tpl exporter now pad recs _ [] []); [done..|].
  rewrite length_app. lia.
Qed.

Definition exTemplate : list templateField :=
  [mkField 8 4 false; mkField 12 4 false; mkField 5 2 true; mkField 1 2 false].

Lemma decodeData_roundtrip_witness :
  let tc := TemplateCache_put "r1" 7 256 exTemplate NewTemplateCache in
  decodeData (concat (map (@concat Z) [[[10; 0; 0; 1]; [8; 8; 8; 8]; [0; 9]; [1; 0]]]) ++ [0; 0])
    "r1" 7 256 0 tc =
  Done ([mkFlow "r1" "10.0.0.1" "8.8.8.8" 0 0 0 256 1 0 0], tc).
Proof.
  intros tc. rewrite (decodeData_roundtrip "r1" 7 256 0 tc exTemplate
    [[[10; 0; 0; 1]; [8; 8; 8; 8]; [0; 9]; [1; 0]]] [0; 0]).
  - vm_compute. reflexivity.
  - vm_compute. reflexivity.
  - repeat (apply Forall_cons_2; [discriminate|]). apply Forall_nil_2.
  - vm_compute. discriminate.
  - repeat constructor.
  - vm_compute. discriminate.
Defined.

(** Templates are private to an exporter, an observation domain and an id:
    the composite text key never mixes two of them up, so storing a template
    changes what is found under its own key alone, unless the full cache is
    emptied first. *)
Theorem template_isolation e d i t c e' d' i' :
  TemplateCache_get e' d' i' (TemplateCache_put e d i t c) =
    if decide ((e', d', i') = (e, d, i)) then Some t
    else if 4096 <? Z.of_nat (size (tc_tpls c)) then None
    else TemplateCache_get e' d' i' c.
Proof. apply get_put. Qed.

(** The "internal" test on the bytes of an IPv4 address: RFC 1918, loopback and
    link-local. *)
Definition internal4 (b : bytes) : bool :=
  let x := byte_at b 0 in let y := byte_at b 1 in
  (x =? 10) || ((x =? 172) && (Z.land y 240 =? 16)) || ((x =? 192) && (y =? 168))
  || (x =? 127) || ((x =? 169) && (y =? 254)).

Lemma IsPrivate_string4 b :
  wf_bytes b → length b = 4%nat → IsPrivate (string4 b) = internal4 b.
Proof.
  intros Hw Hl. destruct b as [|x [|y [|z [|t [|]]]]]; try discriminate Hl.
  unfold IsPrivate, is_internal. by rewrite ParseAddr_string4.
Qed.

(** The event of a v5 flow counts its bytes as leaving the network exactly
    when the source address is internal and the destination is not, and it is
    filed under the internal party, the source first, or else the exporter. *)
Theorem FlowEvent_egress exporter boot r id clock :
  wf_bytes r → len r = 48 →
  let src := take 4 r in let dst := take 4 (drop 4 r) in
  let e := FlowEvent (v5_spec exporter boot r) id clock in
  e_BytesOut e = (if internal4 src && negb (internal4 dst) then be_field r 20 4 else 0) ∧
  e_Host e = (if internal4 src then string4 src
              else if internal4 dst then string4 dst else exporter) ∧
  e_Source e = SourceNetflow ∧ e_Parsed e = true.
Proof.
  intros Hr Hl src dst e. subst e. unfold len in Hl.
  assert (length src = 4%nat ∧ length dst = 4%nat) as [Hls Hld].
  { subst src dst. rewrite !length_take, length_drop. lia. }
  assert (wf_bytes src ∧ wf_bytes dst) as [Hws Hwd] by (subst src dst; auto with go).
  unfold FlowEvent, v5_spec. cbn [e_BytesOut e_Host e_Source e_Parsed fl_SrcIP fl_DstIP fl_Bytes
    fl_Exporter]. fold src dst. by rewrite !IsPrivate_string4.
Qed.

Lemma FlowEvent_egress_witness :
  let r := drop 24 exV5 in
  e_BytesOut (FlowEvent (v5_spec "r1" 0 r) "nf" 5) = 100 ∧
  e_Host (FlowEvent (v5_spec "r1" 0 r) "nf" 5) = "10.0.0.1" ∧
  e_Source (FlowEvent (v5_spec "r1" 0 r) "nf" 5) = SourceNetflow ∧
  e_Parsed (FlowEvent (v5_spec "r1" 0 r) "nf" 5) = true.
Proof.
  intros r. destruct (FlowEvent_egress "r1" 0 r "nf" 5) as (-> & -> & -> & ->).
  - apply wf_bytes_drop. exact exV5_wf.
  - reflexivity.
  - vm_compute. auto.
Defined.
