(* ===== verification/Traffic.v ===== *)
(** The traffic graph: [src/traffic/graph.go]. Flows are buffered in memory,
    flushed into the table [traffic_edges], and read back as the nodes and links
    of the dashboard's map. The table is a finite map from its primary key; a
    transaction is applied whole or not at all. *)
From S2P Require Import Prelude Text Netip Netflow.
Local Open Scope Z_scope.

(** * State *)

Record edgeKey := mkEdge { ek_Src : string; ek_Dst : string; ek_Port : Z; ek_Proto : Z }.

#[export] Instance edgeKey_eq_dec : EqDecision edgeKey.
Proof. solve_decision. Defined.

#[export] Program Instance edgeKey_countable : Countable edgeKey :=
  inj_countable' (λ k, (ek_Src k, ek_Dst k, ek_Port k, ek_Proto k))
    (λ '(s, d, p, q), mkEdge s d p q) _.
Next Obligation. by intros []. Qed.

(** A pending aggregate, and a row of the table. *)
Record agg := mkAgg { ag_Flows : Z; ag_Bytes : Z; ag_Packets : Z; ag_First : Z; ag_Last : Z }.

Record Graph := mkGraph {
  gr_pend : gmap edgeKey agg;
  gr_rows : gmap edgeKey agg;
}.

Definition NewGraph (rows : gmap edgeKey agg) : Graph := mkGraph ∅ rows.

(** * Writing *)

Definition flow_key (f : Flow) : edgeKey := mkEdge (fl_SrcIP f) (fl_DstIP f) (fl_DstPort f) (fl_Proto f).

(** The row after an upsert: the sums, the later last sighting, the first sighting
    of the row that was there. The table's integers are unbounded here. *)
Definition upsert_row (old : option agg) (a : agg) : agg :=
  match old with
  | None => a
  | Some o => mkAgg (ag_Flows o + ag_Flows a) (ag_Bytes o + ag_Bytes a) (ag_Packets o + ag_Packets a)
                (ag_First o) (Z.max (ag_Last o) (ag_Last a))
  end.

(** [Flush]; [db] is the error of [Begin], [Prepare], an [Exec] or [Commit], if
    there is one. The buffer is emptied first. *)
Definition Flush (db : option string) (g : Graph) : Graph * option string :=
  if decide (gr_pend g = ∅) then (mkGraph ∅ (gr_rows g), None)
  else
    match db with
    | Some e => (mkGraph ∅ (gr_rows g), Some e)
    | None => (mkGraph ∅ (map_fold (λ k a rows, <[k := upsert_row (rows !! k) a]> rows)
                            (gr_rows g) (gr_pend g)), None)
    end.

Definition maxPending : Z := 50000.

(** The aggregate of one more flow that ended at [end_]. *)
Definition add_flow (f : Flow) (end_ : Z) (a : agg) : agg :=
  mkAgg (int64 (ag_Flows a + 1)) (int64 (ag_Bytes a + fl_Bytes f)) (int64 (ag_Packets a + fl_Packets f))
    (if time_Before end_ (ag_First a) then end_ else ag_First a)
    (if time_After end_ (ag_Last a) then end_ else ag_Last a).

(** [Observe] at [now]; [db] is the outcome of the flush a full buffer forces. *)
Definition Observe (now : Z) (db : option string) (f : Flow) (g : Graph) : Graph :=
  if is_empty (fl_SrcIP f) || is_empty (fl_DstIP f) then g
  else
    let end_ := if time_IsZero (fl_End f) then now else fl_End f in
    let k := flow_key f in
    let '(g, a) :=
      match gr_pend g !! k with
      | Some a => (g, a)
      | None =>
        let g := if maxPending <? Z.of_nat (size (gr_pend g)) then (Flush db g).1 else g in
        (g, mkAgg 0 0 0 end_ 0)
      end in
    mkGraph (<[k := add_flow f end_ a]> (gr_pend g)) (gr_rows g).

(** [Prune]: a failing statement deletes nothing. *)
Definition Prune (db : option string) (before : Z) (g : Graph) : Graph * option string :=
  match db with
  | Some e => (g, Some e)
  | None => (mkGraph (gr_pend g) (filter (λ ka, time_Before (ag_Last ka.2) before = false) (gr_rows g)), None)
  end.

(** The ticks of [RunFlusher]: each flush's error is dropped. *)
Definition RunFlusher (dbs : list (option string)) (g : Graph) : Graph :=
  foldl (λ g db, (Flush db g).1) g dbs.

(** * Reading *)

(** The order in which a statement without [ORDER BY] returns rows, and a [range]
    visits a map with keys of type [K]. *)
Class KeyRange (K : Type) `{Countable K} := {
  range_of : ∀ {V}, gmap K V → list (K * V);
  range_of_perm : ∀ V (m : gmap K V), range_of m ≡ₚ map_to_list m;
}.

Program Definition canonical_keys (K : Type) `{Countable K} : KeyRange K :=
  {| range_of V m := map_to_list m |}.
Next Obligation. done. Qed.

Record Node := mkNode {
  nd_ID : string;
  nd_Kind : string;
  nd_Bytes : Z;
  nd_Flows : Z;
  nd_Severity : string;
  nd_Members : Z;
}.

Record Link := mkLink {
  ln_Source : string;
  ln_Target : string;
  ln_Bytes : Z;
  ln_Flows : Z;
  ln_TopPort : Z;
}.

Record MapData := mkMapData {
  md_Nodes : list Node;
  md_Links : list Link;
  md_GeneratedAt : Z;
  md_WindowFrom : Z;
  md_Collapsed : bool;
}.

Definition maxExternals : Z := 150.

(** [cidr24]: the /24 of an IPv4 address, the /48 of an IPv6 one. *)
Definition cidr24 (ip : string) : string :=
  match ParseAddr ip with
  | None => ip
  | Some a => if Is4 a then Prefix_String a 24 else Prefix_String a 48
  end.

(** A row as [Snapshot] scans it. *)
Record rawEdge := mkRaw { re_src : string; re_dst : string; re_port : Z; re_flows : Z; re_bytes : Z }.

(** The closure [name]: the id and the kind of an address's node. *)
Definition node_name (collapse : bool) (ip : string) : string * string :=
  if IsPrivate ip then (ip, "internal")
  else if collapse then (cidr24 ip, "group")
  else (ip, "external").

(** The maps that the loop over the edges fills. *)
Record mapState := mkMapState {
  st_nodes : gmap string Node;
  st_links : gmap (string * string) Link;
  st_portBytes : gmap (string * string) (gmap Z Z);
  st_groupMembers : gmap string (gset string);
}.

Definition newMapState : mapState := mkMapState ∅ ∅ ∅ ∅.

Definition bump_node (e : rawEdge) (nk : string * string) (nodes : gmap string Node) : gmap string Node :=
  let n := default (mkNode nk.1 nk.2 0 0 "" 0) (nodes !! nk.1) in
  <[nk.1 := mkNode (nd_ID n) (nd_Kind n) (int64 (nd_Bytes n + re_bytes e)) (int64 (nd_Flows n + re_flows e))
              (nd_Severity n) (nd_Members n)]> nodes.

Definition addMember (group ip : string) (m : gmap string (gset string)) : gmap string (gset string) :=
  <[group := {[ip]} ∪ default ∅ (m !! group)]> m.

Definition bump_link (lk : string * string) (e : rawEdge) (links : gmap (string * string) Link) :
    gmap (string * string) Link :=
  let l := default (mkLink lk.1 lk.2 0 0 0) (links !! lk) in
  <[lk := mkLink (ln_Source l) (ln_Target l) (int64 (ln_Bytes l + re_bytes e))
            (int64 (ln_Flows l + re_flows e)) (ln_TopPort l)]> links.

Definition bump_port (lk : string * string) (e : rawEdge) (m : gmap (string * string) (gmap Z Z)) :
    gmap (string * string) (gmap Z Z) :=
  let ports := default ∅ (m !! lk) in
  <[lk := <[re_port e := int64 (default 0 (ports !! re_port e) + re_bytes e)]> ports]> m.

(** The body of the loop. *)
Definition edge_step (collapse : bool) (st : mapState) (e : rawEdge) : mapState :=
  let s := node_name collapse (re_src e) in
  let d := node_name collapse (re_dst e) in
  let nodes := bump_node e d (bump_node e s (st_nodes st)) in
  let members := if str_eqb s.2 "group" then addMember s.1 (re_src e) (st_groupMembers st)
                 else st_groupMembers st in
  let members := if str_eqb d.2 "group" then addMember d.1 (re_dst e) members else members in
  if str_eqb s.1 d.1 then mkMapState nodes (st_links st) (st_portBytes st) members
  else
    let lk := (s.1, d.1) in
    mkMapState nodes (bump_link lk e (st_links st)) (bump_port lk e (st_portBytes st)) members.

Section Snapshot.
Context {RE : KeyRange edgeKey} {RL : KeyRange (string * string)} {RP : KeyRange Z} {RN : MapRange} {SS : SortSlice}.

(** The rows of the window, in the order of the query. *)
Definition window_edges (since : Z) (rows : gmap edgeKey agg) : list rawEdge :=
  map (λ ka, mkRaw (ek_Src ka.1) (ek_Dst ka.1) (ek_Port ka.1) (ag_Flows ka.2) (ag_Bytes ka.2))
    (filter (λ ka, time_Before (ag_Last ka.2) since = false) (range_of rows)).

Definition external_set (edges : list rawEdge) : gset string :=
  foldl (λ s e,
    let s := if IsPrivate (re_src e) then s else {[re_src e]} ∪ s in
    if IsPrivate (re_dst e) then s else {[re_dst e]} ∪ s) ∅ edges.

(** The port with most bytes; the first visited wins a tie. *)
Definition top_port (ports : gmap Z Z) : Z :=
  (foldl (λ acc pb, if acc.1 <? pb.2 then (pb.2, pb.1) else acc) (-1, 0) (range_of ports)).2.

Definition out_node (severityOf : option (string → string)) (members : gmap string (gset string))
    (n : Node) : Node :=
  let sev := match severityOf with
             | Some f => if str_eqb (nd_Kind n) "group" then nd_Severity n else f (nd_ID n)
             | None => nd_Severity n
             end in
  let m := match members !! nd_ID n with Some s => Z.of_nat (size s) | None => nd_Members n end in
  mkNode (nd_ID n) (nd_Kind n) (nd_Bytes n) (nd_Flows n) sev m.

Definition out_link (portBytes : gmap (string * string) (gmap Z Z)) (kl : (string * string) * Link) : Link :=
  let l := kl.2 in
  mkLink (ln_Source l) (ln_Target l) (ln_Bytes l) (ln_Flows l) (top_port (default ∅ (portBytes !! kl.1))).

Definition link_less (a b : Link) : bool :=
  if str_eqb (ln_Source a) (ln_Source b) then String.ltb (ln_Target a) (ln_Target b)
  else String.ltb (ln_Source a) (ln_Source b).

(** The map over the rows of a window. *)
Definition build_map (now since : Z) (severityOf : option (string → string)) (edges : list rawEdge) : MapData :=
  let collapse := maxExternals <? Z.of_nat (size (external_set edges)) in
  let st := foldl (edge_step collapse) newMapState edges in
  mkMapData
    (sort_slice (λ a b, String.ltb (nd_ID a) (nd_ID b))
       (map (λ kn, out_node severityOf (st_groupMembers st) kn.2) (range_map (st_nodes st))))
    (sort_slice link_less (map (out_link (st_portBytes st)) (range_of (st_links st))))
    now since collapse.

(** [Snapshot]; [db] is the outcome of the flush, [query] the error of reading. *)
Definition Snapshot (now since : Z) (db query : option string) (severityOf : option (string → string))
    (g : Graph) : Graph * result string MapData :=
  match Flush db g with
  | (g, Some e) => (g, Err e)
  | (g, None) =>
    match query with
    | Some e => (g, Err e)
    | None => (g, Ok (build_map now since severityOf (window_edges since (gr_rows g))))
    end
  end.
End Snapshot.

(** * What a flush writes *)

Lemma flushed_lookup (pend rows : gmap edgeKey agg) k :
  map_fold (λ k a rows, <[k := upsert_row (rows !! k) a]> rows) rows pend !! k =
    match pend !! k with Some a => Some (upsert_row (rows !! k) a) | None => rows !! k end.
Proof.
  apply (map_fold_weak_ind (λ r m, r !! k = match m !! k with Some a => Some (upsert_row (rows !! k) a) | None => rows !! k end)).
  - by rewrite lookup_empty.
  - intros i a m r Hi Hr. destruct (decide (i = k)) as [->|Hne].
    + rewrite !lookup_insert_eq. rewrite Hi in Hr. by rewrite Hr.
    + by rewrite !lookup_insert_ne.
Qed.

(** * Conservation *)

(** A quantity of an aggregate that flows add to. *)
Section measure.
Context (m : agg → Z) (c : Flow → Z).
Hypothesis m_add : ∀ f e a, m (add_flow f e a) = int64 (m a + c f).
Hypothesis m_fresh : ∀ e l, m (mkAgg 0 0 0 e l) = 0.
Hypothesis m_upsert : ∀ o a, m (upsert_row (Some o) a) = m o + m a.

Definition pending (g : Graph) (k : edgeKey) : Z := default 0 (m <$> gr_pend g !! k).
Definition total (g : Graph) (k : edgeKey) : Z := pending g k + default 0 (m <$> gr_rows g !! k).

Lemma Flush_total g k : pending (Flush None g).1 k = 0 ∧ total (Flush None g).1 k = total g k.
Proof.
  unfold total, pending, Flush. destruct (decide (gr_pend g = ∅)) as [He|He]; cbn.
  { by rewrite He. }
  rewrite flushed_lookup, lookup_empty. split; [done|]. cbn -[upsert_row].
  destruct (gr_pend g !! k) as [a|]; cbn -[upsert_row]; [|done].
  destruct (gr_rows g !! k) as [o|]; cbn -[upsert_row]; [|cbn; lia].
  rewrite m_upsert. lia.
Qed.

Lemma Flush_cases db g : gr_pend (Flush db g).1 = ∅.
Proof. unfold Flush. by repeat case_match. Qed.

Definition counted (f : Flow) : bool := negb (is_empty (fl_SrcIP f) || is_empty (fl_DstIP f)).

(** One flow more, while the 64 bits are enough. *)
Lemma Observe_total now f g k : 0 <= c f → 0 <= pending g k → pending g k + c f <= MaxInt64 →
  let n := if decide (counted f = true ∧ flow_key f = k) then c f else 0 in
  total (Observe now None f g) k = total g k + n ∧
  0 <= pending (Observe now None f g) k <= pending g k + n.
Proof.
  intros Hc Hp Hmax n. unfold Observe, counted in *.
  destruct (is_empty (fl_SrcIP f) || is_empty (fl_DstIP f)) eqn:He.
  { subst n. rewrite decide_False by naive_solver. lia. }
  set (end_ := if time_IsZero (fl_End f) then now else fl_End f).
  assert (∀ g0 a, (flow_key f = k → pending g0 k = m a) →
    default 0 (m <$> gr_rows g0 !! k) + pending g0 k = total g k →
    0 <= pending g0 k <= pending g k →
    total (mkGraph (<[flow_key f := add_flow f end_ a]> (gr_pend g0)) (gr_rows g0)) k = total g k + n ∧
    0 <= pending (mkGraph (<[flow_key f := add_flow f end_ a]> (gr_pend g0)) (gr_rows g0)) k <= pending g k + n)
    as Hins.
  { intros g0 a Hpk Htot Hle. unfold total, pending in *. cbn [gr_pend gr_rows].
    destruct (decide (flow_key f = k)) as [Hk|Hk].
    - subst n. rewrite decide_True by done. rewrite Hk, lookup_insert_eq. cbn -[add_flow].
      rewrite m_add. rewrite <-Hpk by done. rewrite int64_small; [lia|]. unfold in_int64, MinInt64. lia.
    - subst n. rewrite decide_False by naive_solver. rewrite lookup_insert_ne by done. lia. }
  destruct (gr_pend g !! flow_key f) as [a|] eqn:Hg.
  - apply Hins; [|unfold total; lia|lia]. intros <-. unfold pending. by rewrite Hg.
  - assert (flow_key f = k → pending g k = 0) as Hnone by (intros <-; unfold pending; by rewrite Hg).
    destruct (maxPending <? Z.of_nat (size (gr_pend g))).
    + destruct (Flush_total g k) as [Hf0 Hft].
      apply Hins; [by rewrite m_fresh|unfold total in *; lia|lia].
    + apply Hins; [rewrite m_fresh; done|unfold total; lia|lia].
Qed.

(** Writing operations whose transactions succeed. *)
Inductive traffic_op := OpObserve (now : Z) (f : Flow) | OpFlush.

Definition traffic_step (g : Graph) (o : traffic_op) : Graph :=
  match o with OpObserve now f => Observe now None f g | OpFlush => (Flush None g).1 end.

(** The observed flows of one edge. *)
Definition flows_for (k : edgeKey) (ops : list traffic_op) : list Flow :=
  omap (λ o, match o with
             | OpObserve _ f => if decide (counted f = true ∧ flow_key f = k) then Some f else None
             | OpFlush => None end) ops.

Definition sum_of (c : Flow → Z) (l : list Flow) : Z := foldr (λ f z, c f + z) 0 l.

Definition op_sum (ops : list traffic_op) : Z :=
  foldr (λ o z, match o with OpObserve _ f => c f + z | OpFlush => z end) 0 ops.
Definition op_nonneg (o : traffic_op) : Prop :=
  match o with OpObserve _ f => 0 <= c f | OpFlush => True end.

Lemma op_sum_nonneg ops : Forall op_nonneg ops → 0 <= op_sum ops.
Proof. unfold op_sum. induction 1 as [|[now f|] ops Ho _ IH]; cbn in *; lia. Qed.

Lemma run_total ops k : Forall op_nonneg ops → ∀ g, 0 <= pending g k →
  pending g k + op_sum ops <= MaxInt64 →
  total (foldl traffic_step g ops) k = total g k + sum_of c (flows_for k ops).
Proof.
  induction 1 as [|o ops Ho Hops IH]; intros g Hp Hmax; cbn [foldl]; [cbn; lia|].
  pose proof (op_sum_nonneg ops Hops) as Hpos. unfold op_sum in *.
  destruct o as [now f|]; cbn [foldr traffic_step op_nonneg] in *.
  - destruct (Observe_total now f g k Ho Hp) as [Ht Hp']; [lia|].
    rewrite IH; [|lia|].
    + rewrite Ht. unfold flows_for, sum_of. cbn. destruct (decide _); cbn; lia.
    + destruct (decide _); lia.
  - destruct (Flush_total g k) as [Hp0 Ht]. rewrite IH; [by rewrite Ht|lia|lia].
Qed.
End measure.

(** The buffer's bound. *)
Lemma Observe_bounded now db f g : Z.of_nat (size (gr_pend g)) <= maxPending + 1 →
  Z.of_nat (size (gr_pend (Observe now db f g))) <= maxPending + 1.
Proof.
  intros Hs. unfold Observe. destruct (_ || _); [done|].
  destruct (gr_pend g !! flow_key f) as [a|] eqn:Hg; cbn [gr_pend].
  - rewrite map_size_insert_Some; [done|by eexists].
  - destruct (maxPending <? Z.of_nat (size (gr_pend g))) eqn:Hfull; to_prop.
    + rewrite (Flush_cases db g), map_size_insert_None, map_size_empty by apply lookup_empty.
      unfold maxPending. lia.
    + rewrite map_size_insert_None by done. lia.
Qed.

(** * The loop over the edges *)

Section edges.
Context (collapse : bool).

Definition src_id (e : rawEdge) : string := (node_name collapse (re_src e)).1.
Definition dst_id (e : rawEdge) : string := (node_name collapse (re_dst e)).1.

(** The edges that a link folds. *)
Definition joins (lk : string * string) (e : rawEdge) : Prop :=
  src_id e ≠ dst_id e ∧ (src_id e, dst_id e) = lk.

#[export] Instance joins_dec lk e : Decision (joins lk e).
Proof. unfold joins. apply _. Defined.

Definition edge_sum (m : rawEdge → Z) (es : list rawEdge) : Z := foldr (λ e z, m e + z) 0 es.

Lemma edge_sum_snoc m es e : edge_sum m (es ++ [e]) = edge_sum m es + m e.
Proof. unfold edge_sum. induction es as [|x es IH]; cbn; [lia|]. rewrite IH. lia. Qed.

Lemma int64_add_l x y : int64 (int64 x + y) = int64 (x + y).
Proof.
  unfold int64. f_equal.
  replace ((x + 2 ^ 63) mod 2 ^ 64 - 2 ^ 63 + y + 2 ^ 63)
    with ((x + 2 ^ 63) mod 2 ^ 64 + y) by lia.
  rewrite Zplus_mod_idemp_l. f_equal. lia.
Qed.

(** What the loop has gathered about the pair [lk]. *)
Definition link_of (lk : string * string) (es : list rawEdge) : option Link :=
  match filter (joins lk) es with
  | [] => None
  | es => Some (mkLink lk.1 lk.2 (int64 (edge_sum re_bytes es)) (int64 (edge_sum re_flows es)) 0)
  end.

Definition port_bytes (lk : string * string) (p : Z) (es : list rawEdge) : Z :=
  int64 (edge_sum re_bytes (filter (λ e, re_port e = p) (filter (joins lk) es))).

Lemma link_of_snoc lk es e : link_of lk (es ++ [e]) =
  if decide (joins lk e)
  then let l := default (mkLink lk.1 lk.2 0 0 0) (link_of lk es) in
       Some (mkLink (ln_Source l) (ln_Target l) (int64 (ln_Bytes l + re_bytes e))
               (int64 (ln_Flows l + re_flows e)) (ln_TopPort l))
  else link_of lk es.
Proof.
  unfold link_of. rewrite filter_app, filter_cons, filter_nil.
  destruct (decide (joins lk e)) as [Hj|Hj]; [|by rewrite app_nil_r].
  destruct (filter (joins lk) es) as [|x es'] eqn:He; [cbn; by rewrite !Z.add_0_r|].
  rewrite <-app_comm_cons. change (x :: es' ++ [e]) with ((x :: es') ++ [e]).
  rewrite !edge_sum_snoc. cbn -[edge_sum]. by rewrite !int64_add_l.
Qed.

Lemma loop_links es lk :
  st_links (foldl (edge_step collapse) newMapState es) !! lk = link_of lk es.
Proof.
  induction es as [|e es IH] using rev_ind; [done|].
  rewrite foldl_app, link_of_snoc. cbn [foldl]. rewrite <-IH.
  set (st := foldl _ _ _). unfold edge_step. fold (src_id e) (dst_id e).
  unfold str_eqb. destruct (bool_decide (src_id e = dst_id e)) eqn:Hs; to_prop; cbn [st_links].
  - rewrite decide_False; [done|]. unfold joins. naive_solver.
  - unfold bump_link. destruct (decide (joins lk e)) as [[_ Hj]|Hj].
    + by rewrite <-Hj, lookup_insert_eq.
    + rewrite lookup_insert_ne; [done|]. unfold joins in Hj. naive_solver.
Qed.

Lemma port_bytes_snoc lk p es e : joins lk e →
  port_bytes lk p (es ++ [e]) =
    if decide (re_port e = p) then int64 (port_bytes lk p es + re_bytes e) else port_bytes lk p es.
Proof.
  intros Hj. unfold port_bytes. rewrite !filter_app.
  rewrite (filter_cons_True (joins lk)), !filter_nil by done. rewrite filter_cons, filter_nil.
  destruct (decide (re_port e = p)); [|by rewrite app_nil_r].
  by rewrite edge_sum_snoc, int64_add_l.
Qed.

Lemma loop_ports es lk p :
  default ∅ (st_portBytes (foldl (edge_step collapse) newMapState es) !! lk) !! p =
    if decide (p ∈ map re_port (filter (joins lk) es)) then Some (port_bytes lk p es) else None.
Proof.
  induction es as [|e es IH] using rev_ind; [done|].
  rewrite foldl_app. cbn [foldl]. set (st := foldl _ _ _) in *. unfold edge_step.
  fold (src_id e) (dst_id e). rewrite filter_app, filter_cons, filter_nil.
  unfold str_eqb. destruct (bool_decide (src_id e = dst_id e)) eqn:Hs; to_prop; cbn [st_portBytes].
  - destruct (decide (joins lk e)) as [[Hne _]|Hj]; [done|]. rewrite app_nil_r, IH.
    unfold port_bytes. by rewrite filter_app, (filter_cons_False (joins lk)), filter_nil, app_nil_r.
  - unfold bump_port. destruct (decide (joins lk e)) as [Hj|Hj].
    + rewrite port_bytes_snoc by done. destruct Hj as [_ <-].
      rewrite lookup_insert_eq. cbn [default from_option id].
      rewrite map_app. cbn [map]. destruct (decide (re_port e = p)) as [<-|Hp].
      * rewrite lookup_insert_eq, decide_True by set_solver. f_equal. f_equal. f_equal.
        rewrite IH. destruct (decide _) as [Hin|Hin]; [done|]. cbn. unfold port_bytes.
        rewrite filter_none; [done|]. apply Forall_forall. intros x Hx Heq. apply Hin.
        rewrite <-Heq. by apply (list_elem_of_fmap_2 re_port).
      * rewrite lookup_insert_ne by done. rewrite IH. apply decide_ext. set_solver.
    + rewrite app_nil_r. rewrite lookup_insert_ne by (unfold joins in Hj; naive_solver).
      rewrite IH. unfold port_bytes. by rewrite filter_app, filter_cons_False, filter_nil, app_nil_r.
Qed.
End edges.

(** The port that [Snapshot] reports carries at least as many bytes as any. *)
Lemma top_port_max {RP : KeyRange Z} (ports : gmap Z Z) :
  ports ≠ ∅ → map_Forall (λ _ b, 0 <= b) ports →
  ∃ b, ports !! top_port ports = Some b ∧ map_Forall (λ _ b', b' <= b) ports.
Proof.
  intros Hne Hpos. unfold top_port.
  set (f := λ (acc : Z * Z) (pb : Z * Z), if acc.1 <? pb.2 then (pb.2, pb.1) else acc).
  assert (∀ l bb pp, let r := foldl f (bb, pp) l in
    Forall (λ pb, pb.2 <= r.1) l ∧ bb <= r.1 ∧ (r = (bb, pp) ∨ (r.2, r.1) ∈ l)) as Hf.
  { induction l as [|[p b] l IH]; intros bb pp; cbn [foldl]; [by split_and!; [|cbn; lia|left]|].
    change (f (bb, pp) (p, b)) with (if bb <? b then (b, p) else (bb, pp)).
    destruct (Z.ltb_spec bb b).
    - destruct (IH b p) as (Hall & Hle & Hr). split_and!; [by constructor|lia|right].
      destruct Hr as [-> | Hr]; [by left|by right].
    - destruct (IH bb pp) as (Hall & Hle & Hr). split_and!; [constructor; [cbn; lia|done]|done|].
      destruct Hr as [->|Hr]; [by left|by right; right]. }
  assert (∀ p b, (p, b) ∈ range_of ports ↔ ports !! p = Some b) as Hrange.
  { intros p b. by rewrite range_of_perm, elem_of_map_to_list. }
  destruct (Hf (range_of ports) (-1) 0) as (Hall & Hle & Hr). rewrite Forall_forall in Hall.
  assert (map_Forall (λ _ b', b' <= (foldl f (-1, 0) (range_of ports)).1) ports) as Hmax.
  { intros p b Hp%Hrange. exact (Hall _ Hp). }
  destruct Hr as [Hr|Hr%Hrange]; [|by eexists].
  destruct (map_choose ports Hne) as (p & b & Hp). specialize (Hmax p b Hp). specialize (Hpos p b Hp).
  rewrite Hr in Hmax. cbn in Hmax, Hpos. lia.
Qed.

(** * The snapshot *)

Section snapshot.
Context {RE : KeyRange edgeKey} {RL : KeyRange (string * string)} {RP : KeyRange Z} {RN : MapRange}
  {SS : SortSlice}.

Lemma build_links now since sev es l :
  let md := build_map now since sev es in
  l ∈ md_Links md ↔
  ∃ l0, link_of (md_Collapsed md) (ln_Source l, ln_Target l) es = Some l0 ∧
    ln_Bytes l = ln_Bytes l0 ∧ ln_Flows l = ln_Flows l0 ∧
    ln_TopPort l = top_port (default ∅ (st_portBytes (foldl (edge_step (md_Collapsed md)) newMapState es)
                                          !! (ln_Source l, ln_Target l))).
Proof.
  cbn [build_map md_Links md_Collapsed]. set (c := maxExternals <? _).
  set (st := foldl (edge_step c) newMapState es).
  assert (∀ lk l0, link_of c lk es = Some l0 → ln_Source l0 = lk.1 ∧ ln_Target l0 = lk.2) as Hkey.
  { intros lk l0 Hl. unfold link_of in Hl. destruct (filter _ es); [done|]. by injection Hl as <-. }
  rewrite sort_slice_perm, list_elem_of_fmap. split.
  - intros ([lk l0] & -> & Hin). rewrite range_of_perm, elem_of_map_to_list in Hin.
    unfold st in Hin. rewrite loop_links in Hin. destruct (Hkey _ _ Hin) as [Hs Ht].
    unfold out_link. cbn. rewrite Hs, Ht. destruct lk as [s t]. cbn in *. by exists l0.
  - intros (l0 & Hl & Hb & Hf & Hp). exists ((ln_Source l, ln_Target l), l0).
    destruct (Hkey _ _ Hl) as [Hs Ht]. cbn in Hs, Ht. split.
    + unfold out_link. cbn. rewrite Hs, Ht, <-Hb, <-Hf, <-Hp. by destruct l.
    + rewrite range_of_perm, elem_of_map_to_list. unfold st. by rewrite loop_links.
Qed.

Lemma build_links_NoDup now since sev es :
  NoDup (map (λ l, (ln_Source l, ln_Target l)) (md_Links (build_map now since sev es))).
Proof.
  cbn [build_map md_Links]. set (c := maxExternals <? _). set (st := foldl (edge_step c) newMapState es).
  rewrite sort_slice_perm, map_map, range_of_perm.
  assert (map (λ x, (ln_Source (out_link (st_portBytes st) x), ln_Target (out_link (st_portBytes st) x)))
            (map_to_list (st_links st)) = (map_to_list (st_links st)).*1) as ->;
    [|apply NoDup_fst_map_to_list].
  apply list_fmap_ext. intros i [lk l] Hi. apply list_elem_of_lookup_2, elem_of_map_to_list in Hi.
  unfold st in Hi. rewrite loop_links in Hi. unfold link_of in Hi. destruct (filter _ es); [done|].
  injection Hi as <-. by destruct lk.
Qed.
End snapshot.

(** * Properties *)


Definition exFlow (src dst : string) (port bytes : Z) : Flow :=
  mkFlow "r" src dst 40000 port 6 bytes 2 100 200.


(** A flush that fails loses what was buffered. The buffer is swapped for an
    empty one before the transaction is tried and never put back: with any error
    of the database the table is as it was, the buffer is empty, and every edge
    loses all its pending flows, bytes and packets; the snapshot that forced the
    flush reports the error. *)
Theorem failed_flush_loses {RE : KeyRange edgeKey} {RL : KeyRange (string * string)} {RP : KeyRange Z}
    {RN : MapRange} {SS : SortSlice} (g : Graph) (e : string) (m : agg → Z) (k : edgeKey) :
  gr_pend g ≠ ∅ →
  Flush (Some e) g = (mkGraph ∅ (gr_rows g), Some e) ∧
  total m (Flush (Some e) g).1 k = total m g k - pending m g k ∧
  ∀ now since query sev, Snapshot now since (Some e) query sev g = (mkGraph ∅ (gr_rows g), Err e).
Proof.
  intros Hp. assert (Flush (Some e) g = (mkGraph ∅ (gr_rows g), Some e)) as Hf.
  { unfold Flush. by rewrite decide_False. }
  split_and!; [done| |by intros; unfold Snapshot; rewrite Hf].
  rewrite Hf. unfold total, pending. cbn. rewrite lookup_empty. cbn. lia.
Qed.

Definition exGraph : Graph := Observe 0 None (exFlow "10.0.0.1" "8.8.8.8" 53 100) (NewGraph ∅).

Lemma failed_flush_loses_witness :
  Flush (Some "database is locked") exGraph = (NewGraph ∅, Some "database is locked") ∧
  pending ag_Bytes exGraph (mkEdge "10.0.0.1" "8.8.8.8" 53 6) = 100.
Proof.
  split; [|vm_compute; reflexivity].
  refine (proj1 (failed_flush_loses (RE:=canonical_keys _) (RL:=canonical_keys _) (RP:=canonical_keys _)
    (RN:=canonical_range) (SS:=canonical_sort) exGraph "database is locked" ag_Bytes
    (mkEdge "10.0.0.1" "8.8.8.8" 53 6) _)).
  intros He. apply (f_equal (lookup (mkEdge "10.0.0.1" "8.8.8.8" 53 6))) in He. discriminate He.
Defined.

(** The links of the map are the window's edges, folded by pair of nodes and
    nothing else. There is one link for each pair of distinct nodes that an edge
    joins, in whatever order the database and the maps deliver; it carries the
    sums, in 64-bit arithmetic, of the bytes and flows of exactly these edges, and
    names a port of one of them that no other port exceeds in bytes. *)
Theorem snapshot_links {RE : KeyRange edgeKey} {RL : KeyRange (string * string)} {RP : KeyRange Z}
    {RN : MapRange} {SS : SortSlice} (now since : Z) (sev : option (string → string)) (es : list rawEdge) :
  let md := build_map now since sev es in
  let folded l := filter (joins (md_Collapsed md) (ln_Source l, ln_Target l)) es in
  let bytes l p := int64 (edge_sum re_bytes (filter (λ e, re_port e = p) (folded l))) in
  NoDup (map (λ l, (ln_Source l, ln_Target l)) (md_Links md)) ∧
  Forall (λ l, folded l ≠ [] ∧ ln_Bytes l = int64 (edge_sum re_bytes (folded l)) ∧
    ln_Flows l = int64 (edge_sum re_flows (folded l)) ∧
    (Forall (λ e, 0 <= bytes l (re_port e)) (folded l) →
     ln_TopPort l ∈ map re_port (folded l) ∧
     Forall (λ e, bytes l (re_port e) <= bytes l (ln_TopPort l)) (folded l))) (md_Links md) ∧
  Forall (λ e, src_id (md_Collapsed md) e ≠ dst_id (md_Collapsed md) e →
    (src_id (md_Collapsed md) e, dst_id (md_Collapsed md) e) ∈
      map (λ l, (ln_Source l, ln_Target l)) (md_Links md)) es.
Proof.
  intros md folded bytes. split_and!; [apply build_links_NoDup| |].
  - apply Forall_forall. intros l Hl. apply build_links in Hl as (l0 & Hl0 & Hb & Hf & Ht).
    fold md in Hl0, Ht. unfold link_of in Hl0. fold (folded l) in Hl0.
    destruct (folded l) as [|x xs] eqn:Hof; [done|]. rewrite <-Hof in *. injection Hl0 as <-.
    split_and!; [congruence|exact Hb|exact Hf|]. intros Hpos.
    set (ports := default ∅ _) in Ht.
    assert (∀ p, ports !! p = if decide (p ∈ map re_port (folded l)) then Some (bytes l p) else None) as Hp
      by (intros p; apply loop_ports).
    destruct (top_port_max ports) as (b & Htop & Hmax).
    + intros He. specialize (Hp (re_port x)). rewrite He, lookup_empty, decide_True in Hp; [done|].
      rewrite Hof. by left.
    + intros p b Hpb. rewrite Hp in Hpb. destruct (decide _) as [Hin|]; [|done]. injection Hpb as <-.
      apply list_elem_of_fmap in Hin as (e & -> & He). rewrite Forall_forall in Hpos. by apply Hpos.
    + rewrite <-Ht, Hp in Htop. destruct (decide _) as [Hin|]; [|done]. injection Htop as <-.
      split; [done|]. apply Forall_forall. intros e He.
      apply (Hmax (re_port e)). rewrite Hp, decide_True; [done|].
      by apply (list_elem_of_fmap_2 re_port).
  - apply Forall_forall. intros e He Hne. apply list_elem_of_fmap.
    assert (link_of (md_Collapsed md) (src_id (md_Collapsed md) e, dst_id (md_Collapsed md) e) es ≠ None) as Hl.
    { unfold link_of. destruct (filter _ es) eqn:Hf; [|done]. exfalso.
      apply (not_elem_of_nil e). rewrite <-Hf. by apply list_elem_of_filter. }
    destruct (link_of _ _ es) as [l0|] eqn:Hl0; [|done].
    exists (mkLink (src_id (md_Collapsed md) e) (dst_id (md_Collapsed md) e) (ln_Bytes l0) (ln_Flows l0)
      (top_port (default ∅ (st_portBytes (foldl (edge_step (md_Collapsed md)) newMapState es)
         !! (src_id (md_Collapsed md) e, dst_id (md_Collapsed md) e))))).
    split; [done|]. apply build_links. by exists l0.
Qed.
