(* ===== verification/Window.v ===== *)
(** The windowed state of the detectors: [src/detect/window.go]. Each structure
    keeps only what its window needs; the theorems compare it with a reference
    that keeps everything. *)
From S2P Require Import Prelude.
Local Open Scope Z_scope.

(** [i] advances over the entries before the cutoff and stops at the first one
    that is not; [buf[i:]]. *)
Fixpoint prune {A} (time : A → Z) (cutoff : Z) (buf : list A) : list A :=
  match buf with
  | [] => []
  | x :: rest => if time_Before (time x) cutoff then prune time cutoff rest else buf
  end.

(** * Sliding counter *)

Record slidingCounter := mkCounter {
  sc_window : Z;
  sc_times : gmap string (list Z);
}.

Definition newSlidingCounter (w : Z) : slidingCounter := mkCounter w ∅.

Definition slidingCounter_add (key : string) (t : Z) (s : slidingCounter) : slidingCounter * Z :=
  let cutoff := time_Add t (- sc_window s) in
  let buf := prune id cutoff (map_get [] (sc_times s) key ++ [t]) in
  (mkCounter (sc_window s) (<[key := buf]> (sc_times s)), Z.of_nat (length buf)).

Definition slidingCounter_reset (key : string) (s : slidingCounter) : slidingCounter :=
  mkCounter (sc_window s) (delete key (sc_times s)).

(** * Distinct values *)

Record distinctWindow := mkDistinct {
  dw_window : Z;
  dw_seen : gmap string (gmap string Z);
}.

Definition newDistinctWindow (w : Z) : distinctWindow := mkDistinct w ∅.

Definition distinctWindow_add (key value : string) (t : Z) (d : distinctWindow) :
    distinctWindow * Z :=
  let cutoff := time_Add t (- dw_window d) in
  let m := <[value := t]> (map_get ∅ (dw_seen d) key) in
  let m := filter (λ vt, time_Before (snd vt) cutoff = false) m in
  (mkDistinct (dw_window d) (<[key := m]> (dw_seen d)), Z.of_nat (size m)).

Definition distinctWindow_reset (key : string) (d : distinctWindow) : distinctWindow :=
  mkDistinct (dw_window d) (delete key (dw_seen d)).

(** * Rolling sum *)

Record sumWindow := mkSum {
  sw_window : Z;
  sw_events : gmap string (list (Z * Z));
}.

Definition newSumWindow (w : Z) : sumWindow := mkSum w ∅.

Definition total (buf : list (Z * Z)) : Z := foldl (λ a e, int64 (a + snd e)) 0 buf.

Definition sumWindow_add (key : string) (t v : Z) (s : sumWindow) : sumWindow * Z :=
  let cutoff := time_Add t (- sw_window s) in
  let buf := prune fst cutoff (map_get [] (sw_events s) key ++ [(t, v)]) in
  (mkSum (sw_window s) (<[key := buf]> (sw_events s)), total buf).

(** * Cooldown *)

Record cooldown := mkCooldown {
  cd_d : Z;
  cd_last : gmap string Z;
}.

Definition newCooldown (d : Z) : cooldown := mkCooldown d ∅.

Definition firable (key : string) (t : Z) (c : cooldown) : cooldown * bool :=
  let go := (mkCooldown (cd_d c) (<[key := t]> (cd_last c)), true) in
  match cd_last c !! key with
  | Some last => if time_Sub t last <? cd_d c then (c, false) else go
  | None => go
  end.

(** * The window interface *)

(** What the three windows have in common: entries of type [X] carry a time,
    are added under a key, and give an output of type [O]. *)
Class WindowOps (S X O : Type) := {
  win_time : X → Z;
  win_empty : Z → S;
  win_add : string → X → S → S * O;
}.

Definition in_window {A} (time : A → Z) (cutoff : Z) (x : A) : Prop := cutoff <= time x.

#[export] Instance in_window_dec {A} (time : A → Z) cutoff x : Decision (in_window time cutoff x).
Proof. unfold in_window. apply _. Defined.

Definition nondecreasing {A} (time : A → Z) (l : list A) : Prop :=
  StronglySorted (λ x y, time x <= time y) l.

(** The entries of a history inside the window of length [w] that ends at its
    last entry [x]. *)
Definition recent {A} (time : A → Z) (w : Z) (hist : list A) (x : A) : list A :=
  filter (in_window time (time x - w)) (hist ++ [x]).

(** A window agrees with the histories [H] of everything added per key since its
    last reset: the output of an add is [win_ref] of the entries inside the
    window. *)
Class WindowSpec (S X O : Type) `{WindowOps S X O} := {
  win_ref : list X → O;
  win_holds : Z → gmap string (list X) → S → Prop;
  holds_empty : ∀ w, win_holds w ∅ (win_empty w);
  holds_add : ∀ w H s k x, 0 <= w → win_holds w H s →
    nondecreasing win_time (map_get [] H k ++ [x]) →
    ∃ s', win_add k x s = (s', win_ref (recent win_time w (map_get [] H k) x)) ∧
      win_holds w (<[k := map_get [] H k ++ [x]]> H) s';
}.

(** Windows whose keys can be reset, which starts their history afresh. *)
Class WindowReset (S X O : Type) `{WindowSpec S X O} := {
  win_reset : string → S → S;
  holds_reset : ∀ w H s k, win_holds w H s → win_holds w (delete k H) (win_reset k s);
}.

Inductive window_op (X : Type) :=
| OpAdd (key : string) (x : X)
| OpReset (key : string).
Arguments OpAdd {X} key x.
Arguments OpReset {X} key.

Section run.
Context {S X O : Type} `{WindowReset S X O}.

(** The outputs of a sequence of operations, and those of the reference that
    keeps the whole history. *)
Fixpoint run_window (ops : list (window_op X)) (s : S) : list O :=
  match ops with
  | [] => []
  | OpAdd k x :: rest => let '(s', o) := win_add k x s in o :: run_window rest s'
  | OpReset k :: rest => run_window rest (win_reset k s)
  end.

Fixpoint run_reference (w : Z) (ops : list (window_op X)) (H : gmap string (list X)) : list O :=
  match ops with
  | [] => []
  | OpAdd k x :: rest =>
    win_ref (recent win_time w (map_get [] H k) x)
      :: run_reference w rest (<[k := map_get [] H k ++ [x]]> H)
  | OpReset k :: rest => run_reference w rest (delete k H)
  end.

(** Entries arrive in time order under each key. *)
Fixpoint ordered (ops : list (window_op X)) (H : gmap string (list X)) : Prop :=
  match ops with
  | [] => True
  | OpAdd k x :: rest =>
    nondecreasing win_time (map_get [] H k ++ [x]) ∧
    ordered rest (<[k := map_get [] H k ++ [x]]> H)
  | OpReset k :: rest => ordered rest (delete k H)
  end.

Lemma run_window_ok w ops : ∀ H s,
  0 <= w → win_holds w H s → ordered ops H → run_window ops s = run_reference w ops H.
Proof.
  induction ops as [|[k x|k] ops IH]; intros H' s Hw Hs Ho; cbn; [done|..].
  - destruct Ho as [Hx Ho].
    destruct (holds_add w H' s k x Hw Hs Hx) as (s' & -> & Hs'). f_equal. by apply IH.
  - apply IH; [done|by apply holds_reset|done].
Qed.
End run.

(** * Lemmas *)

Section prune_lemmas.
Context {A : Type} (time : A → Z).

(** On entries in time order, pruning the front is filtering. *)
Lemma prune_sorted cutoff buf :
  nondecreasing time buf → prune time cutoff buf = filter (in_window time cutoff) buf.
Proof.
  induction 1 as [|x buf Hs IH Hx]; [done|]. cbn [prune]. rewrite filter_cons.
  unfold time_Before. destruct (Z.ltb_spec (time x) cutoff) as [Hlt|Hge].
  - rewrite decide_False by (unfold in_window; lia). done.
  - rewrite decide_True by done. f_equal. symmetry. apply filter_true.
    eapply Forall_impl; [exact Hx|]. unfold in_window. intros y Hy. cbn in Hy. lia.
Qed.

(** [buf] is what is left of [hist] once entries that some later entry has put
    out of the window are dropped. *)
Definition window_of (w : Z) (hist buf : list A) : Prop :=
  ∃ old, hist = old ++ buf ∧ Forall (λ y, ∃ z, z ∈ hist ∧ time y < time z - w) old.

Lemma nondecreasing_app l1 l2 :
  nondecreasing time (l1 ++ l2) ↔
  nondecreasing time l1 ∧ nondecreasing time l2 ∧
  ∀ x y, x ∈ l1 → y ∈ l2 → time x <= time y.
Proof.
  unfold nondecreasing. induction l1 as [|a l1 IH]; cbn.
  - split; [|by intros (_ & ? & _)]. intros Hs. split_and!; [constructor|done|].
    intros x y Hx. by apply not_elem_of_nil in Hx.
  - split.
    + inversion 1 as [|? ? Hs Hx]; subst. apply IH in Hs as (H1 & H2 & H12).
      apply Forall_app in Hx as [Hx1 Hx2]. split_and!; [by constructor|done|].
      intros x y [->|Hin]%elem_of_cons Hy; [|by auto]. rewrite Forall_forall in Hx2. auto.
    + intros (H1 & H2 & H12). inversion H1 as [|? ? Hs Hx]; subst. constructor.
      * apply IH. split_and!; [done|done|]. intros; apply H12; [by right|done].
      * apply Forall_app. split; [done|]. apply Forall_forall. intros y Hy.
        apply H12; [by left|done].
Qed.

(** Adding an entry to the buffer and pruning gives the window of the longer
    history. *)
Lemma prune_window w hist buf x :
  0 <= w → window_of w hist buf → nondecreasing time (hist ++ [x]) →
  prune time (time_Add (time x) (- w)) (buf ++ [x]) = recent time w hist x ∧
  window_of w (hist ++ [x]) (prune time (time_Add (time x) (- w)) (buf ++ [x])).
Proof.
  intros Hw (old & -> & Hold) Hs. unfold time_Add, recent.
  replace (time x + - w) with (time x - w) by lia.
  assert (Forall (λ y, time y < time x - w) old) as Hold'.
  { apply nondecreasing_app in Hs as (_ & _ & Hx).
    eapply Forall_impl; [exact Hold|]. intros y (z & Hz & Hlt).
    specialize (Hx z x Hz (list_elem_of_here _ _)). lia. }
  rewrite <-app_assoc in Hs |- *. apply nondecreasing_app in Hs as (_ & Hb & _).
  assert (filter (in_window time (time x - w)) old = []) as Hnone.
  { apply filter_none. eapply Forall_impl; [exact Hold'|]. unfold in_window. cbn. intros; lia. }
  split.
  - rewrite prune_sorted by done. by rewrite (filter_app _ old), Hnone.
  - rewrite prune_sorted by done.
    assert (∃ dropped, buf ++ [x] = dropped ++ filter (in_window time (time x - w)) (buf ++ [x]) ∧
      Forall (λ y, time y < time x - w) dropped) as (dropped & He & Hd).
    { induction Hb as [|y l Hl IH Hy]; [by exists []|]. rewrite filter_cons. case_decide as Hin.
      - exists []. split; [|done]. cbn. f_equal. symmetry. apply filter_true.
        eapply Forall_impl; [exact Hy|]. unfold in_window in *. cbn. intros; lia.
      - destruct IH as (dr & He & Hd). exists (y :: dr). split; [cbn; by f_equal|].
        constructor; [unfold in_window in Hin; lia|done]. }
    exists (old ++ dropped). split; [rewrite <-app_assoc; by f_equal|].
    apply Forall_app; split; (eapply Forall_impl; [eassumption|]);
      cbn; intros y Hy; exists x; (split; [set_solver|done]).
Qed.

Lemma window_of_nil w : window_of w [] [].
Proof. by exists []. Qed.
End prune_lemmas.

(** ** The three instances *)

#[export] Instance slidingCounter_ops : WindowOps slidingCounter Z Z := {
  win_time := id;
  win_empty := newSlidingCounter;
  win_add := slidingCounter_add;
}.

(** Every key's buffer is the window of its history. *)
Definition buffers_hold {A} (time : A → Z) (w : Z) (H bufs : gmap string (list A)) : Prop :=
  ∀ k, window_of time w (map_get [] H k) (map_get [] bufs k).

Lemma buffers_hold_delete {A} (time : A → Z) w H bufs k :
  buffers_hold time w H bufs → buffers_hold time w (delete k H) (delete k bufs).
Proof.
  intros Hb k'. destruct (decide (k = k')) as [->|].
  - rewrite !map_get_delete_eq. apply window_of_nil.
  - rewrite !map_get_delete_ne by done. apply Hb.
Qed.

Lemma buffers_hold_insert {A} (time : A → Z) w H bufs k x buf :
  buffers_hold time w H bufs → window_of time w (map_get [] H k ++ [x]) buf →
  buffers_hold time w (<[k := map_get [] H k ++ [x]]> H) (<[k := buf]> bufs).
Proof.
  intros Hb Hk k'. destruct (decide (k = k')) as [->|].
  - by rewrite !map_get_insert_eq.
  - rewrite !map_get_insert_ne by done. apply Hb.
Qed.

#[export] Program Instance slidingCounter_spec : WindowSpec slidingCounter Z Z := {|
  win_ref l := Z.of_nat (length l);
  win_holds w H s := sc_window s = w ∧ buffers_hold id w H (sc_times s);
|}.
Next Obligation. intros w. split; [done|]. intros k. apply window_of_nil. Qed.
Next Obligation.
  intros w H s k x Hw [<- Hb] Hs. cbn. unfold slidingCounter_add.
  destruct (prune_window id (sc_window s) (map_get [] H k) (map_get [] (sc_times s) k) x)
    as [He Hof]; [done|apply Hb|done|].
  eexists. split; [by rewrite <-He|]. split; [done|]. cbn. by apply buffers_hold_insert.
Qed.

#[export] Program Instance slidingCounter_resets : WindowReset slidingCounter Z Z := {|
  win_reset := slidingCounter_reset;
|}.
Next Obligation. intros w H s k [Hw Hb]. split; [done|]. by apply buffers_hold_delete. Qed.

#[export] Instance sumWindow_ops : WindowOps sumWindow (Z * Z) Z := {
  win_time := fst;
  win_empty := newSumWindow;
  win_add k x := sumWindow_add k (fst x) (snd x);
}.

#[export] Program Instance sumWindow_spec : WindowSpec sumWindow (Z * Z) Z := {|
  win_ref := total;
  win_holds w H s := sw_window s = w ∧ buffers_hold fst w H (sw_events s);
|}.
Next Obligation. intros w. split; [done|]. intros k. apply window_of_nil. Qed.
Next Obligation.
  intros w H s k [t v] Hw [<- Hb] Hs. cbn. unfold sumWindow_add.
  destruct (prune_window fst (sw_window s) (map_get [] H k) (map_get [] (sw_events s) k) (t, v))
    as [He Hof]; [done|apply Hb|done|]. cbn in He, Hof.
  eexists. split; [by rewrite <-He|]. split; [done|]. cbn. by apply buffers_hold_insert.
Qed.

#[export] Instance distinctWindow_ops : WindowOps distinctWindow (string * Z) Z := {
  win_time := snd;
  win_empty := newDistinctWindow;
  win_add k x := distinctWindow_add k (fst x) (snd x);
}.

(** The set of a key against its history: it holds the last time of each of its
    values, and every value that is missing has expired. *)
Definition distinct_holds (w : Z) (hist : list (string * Z)) (m : gmap string Z) : Prop :=
  (∀ v t, m !! v = Some t → (v, t) ∈ hist ∧ ∀ t', (v, t') ∈ hist → t' <= t) ∧
  (∀ v t, (v, t) ∈ hist → is_Some (m !! v) ∨ ∃ z, z ∈ hist ∧ t < snd z - w).

Lemma distinct_holds_nil w : distinct_holds w [] ∅.
Proof. split; intros v t Hv; [by rewrite lookup_empty in Hv|by apply not_elem_of_nil in Hv]. Qed.

Section distinct_step.
Context (w : Z) (hist : list (string * Z)) (m : gmap string Z) (v0 : string) (t0 : Z).
Context (Hw : 0 <= w) (Hm : distinct_holds w hist m).
Context (Hs : nondecreasing snd (hist ++ [(v0, t0)])).

Let m' : gmap string Z :=
  filter (λ vt, time_Before (snd vt) (time_Add t0 (- w)) = false) (<[v0 := t0]> m).

Lemma distinct_lookup v t :
  m' !! v = Some t ↔ t0 - w <= t ∧ (v = v0 ∧ t = t0 ∨ v ≠ v0 ∧ m !! v = Some t).
Proof.
  subst m'. rewrite map_lookup_filter_Some, lookup_insert_Some. cbn.
  unfold time_Before, time_Add. rewrite Z.ltb_ge. split; [|].
  - intros [[[<- <-]|[? ?]] Ht]; (split; [lia|]); [by left|right; done].
  - intros [Ht [[-> ->]|[? ?]]]; (split; [|lia]); [by left|right; done].
Qed.

Lemma history_time v t : (v, t) ∈ hist → t <= t0.
Proof.
  intros Hin. apply nondecreasing_app in Hs as (_ & _ & Hx).
  apply (Hx (v, t) (v0, t0)); [done|set_solver].
Qed.

Lemma distinct_step_holds : distinct_holds w (hist ++ [(v0, t0)]) m'.
Proof.
  destruct Hm as [H1 H2]. split.
  - intros v t [Ht [[-> ->]|[Hne Hv]]]%distinct_lookup.
    + split; [set_solver|]. intros t' [Hin|Hin]%elem_of_app; [by eapply history_time|].
      apply list_elem_of_singleton in Hin. injection Hin as ->. lia.
    + destruct (H1 v t Hv) as [Hin Hmax]. split; [set_solver|].
      intros t' [Hin'|Hin']%elem_of_app; [by apply Hmax|].
      apply list_elem_of_singleton in Hin'. injection Hin' as -> _. done.
  - intros v t Hin. destruct (decide (v = v0)) as [->|Hne].
    { left. exists t0. apply distinct_lookup. split; [lia|by left]. }
    apply elem_of_app in Hin as [Hin|Hin].
    2: { apply list_elem_of_singleton in Hin. injection Hin as -> _. done. }
    destruct (H2 v t Hin) as [[t2 Ht2]|(z & Hz & Hlt)].
    + destruct (H1 v t2 Ht2) as [_ Hmax]. specialize (Hmax t Hin).
      destruct (decide (t0 - w <= t2)).
      * left. exists t2. apply distinct_lookup. split; [done|by right].
      * right. exists (v0, t0). split; [set_solver|]. cbn. lia.
    + right. exists z. split; [set_solver|done].
Qed.

Lemma distinct_step_size :
  size m' = size (list_to_set (map fst (recent snd w hist (v0, t0))) : gset string).
Proof.
  rewrite <-size_dom. f_equal. apply set_eq. intros v.
  rewrite elem_of_dom, elem_of_list_to_set, list_elem_of_In, in_map_iff. unfold recent. split.
  - intros [t Ht]. destruct (proj1 distinct_step_holds v t Ht) as [Hin _].
    apply distinct_lookup in Ht as [Hge _]. exists (v, t). split; [done|].
    apply list_elem_of_In, list_elem_of_filter. done.
  - intros ([v' t] & <- & Hin). apply list_elem_of_In, list_elem_of_filter in Hin as [Hge Hin].
    unfold in_window in Hge. cbn in *.
    destruct (proj2 distinct_step_holds v' t Hin) as [?|(z & Hz & Hlt)]; [done|].
    exfalso. apply elem_of_app in Hz as [Hz|Hz].
    + destruct z as [vz tz]. apply history_time in Hz. cbn in Hlt. lia.
    + apply list_elem_of_singleton in Hz as ->. cbn in Hlt. lia.
Qed.
End distinct_step.

#[export] Program Instance distinctWindow_spec : WindowSpec distinctWindow (string * Z) Z := {|
  win_ref l := Z.of_nat (size (list_to_set (map fst l) : gset string));
  win_holds w H s := dw_window s = w ∧
    ∀ k, distinct_holds w (map_get [] H k) (map_get ∅ (dw_seen s) k);
|}.
Next Obligation. intros w. split; [done|]. intros k. apply distinct_holds_nil. Qed.
Next Obligation.
  intros w H s k [v t] Hw [<- Hb] Hs. cbn. unfold distinctWindow_add. eexists. split.
  { f_equal. f_equal. by apply distinct_step_size. }
  split; [done|]. intros k'. cbn. destruct (decide (k = k')) as [<-|].
  - rewrite !map_get_insert_eq. by apply distinct_step_holds.
  - rewrite !map_get_insert_ne by done. apply Hb.
Qed.

#[export] Program Instance distinctWindow_resets : WindowReset distinctWindow (string * Z) Z := {|
  win_reset := distinctWindow_reset;
|}.
Next Obligation.
  intros w H s k [Hw Hb]. split; [done|]. intros k'. cbn. destruct (decide (k = k')) as [<-|].
  - rewrite !map_get_delete_eq. apply distinct_holds_nil.
  - rewrite !map_get_delete_ne by done. apply Hb.
Qed.

(** ** Cooldown *)

(** The accepted times among successive requests for one key. *)
Fixpoint fires (key : string) (ts : list Z) (c : cooldown) : list Z :=
  match ts with
  | [] => []
  | t :: rest =>
    let '(c, b) := firable key t c in
    if b then t :: fires key rest c else fires key rest c
  end.

Lemma firable_spec key t c :
  in_int64 (cd_d c) → MinInt64 < cd_d c →
  let refused := match cd_last c !! key with Some l => t - l < cd_d c | None => False end in
  (refused ∧ firable key t c = (c, false)) ∨
  (¬ refused ∧ firable key t c = (mkCooldown (cd_d c) (<[key := t]> (cd_last c)), true)).
Proof.
  intros Hd Hd' refused. subst refused. unfold firable.
  destruct (cd_last c !! key) as [l|]; [|right; split; [tauto|done]].
  rewrite time_Sub_ltb by done. destruct (Z.ltb_spec (t - l) (cd_d c)); [by left|].
  right. split; [lia|done].
Qed.

Lemma firable_false key t c c' : firable key t c = (c', false) → c' = c.
Proof. unfold firable. destruct (cd_last c !! key); [case_ifs|]; congruence. Qed.

Lemma firable_true key t c c' :
  firable key t c = (c', true) → c' = mkCooldown (cd_d c) (<[key := t]> (cd_last c)).
Proof. unfold firable. destruct (cd_last c !! key); [case_ifs|]; congruence. Qed.

(** Two times are spaced when the second comes at least [d] after the first. *)
Definition spaced (d : Z) (l : list Z) : Prop := Sorted (λ t u, d <= u - t) l.

Lemma fires_spaced key ts : ∀ c,
  in_int64 (cd_d c) → MinInt64 < cd_d c →
  spaced (cd_d c) (match cd_last c !! key with Some l => l :: fires key ts c | None => fires key ts c end).
Proof.
  induction ts as [|t ts IH]; intros c Hd Hd'; cbn [fires].
  { destruct (cd_last c !! key); repeat constructor. }
  destruct (firable_spec key t c Hd Hd') as [[Href ->]|[Hacc ->]].
  - by apply IH.
  - specialize (IH (mkCooldown (cd_d c) (<[key := t]> (cd_last c))) Hd Hd').
    cbn in IH. rewrite lookup_insert_eq in IH.
    destruct (cd_last c !! key) as [l|]; [|done]. constructor; [done|]. constructor. lia.
Qed.

(** * Properties *)

(** C40: as long as the events of each key come in time order, the sliding counter
    always answers with the number of events of that key inside the window since
    its last reset, although it keeps only the entries it may still need. *)
Theorem slidingCounter_exact w (ops : list (window_op Z)) :
  0 <= w → ordered ops ∅ →
  run_window ops (newSlidingCounter w) = run_reference w ops ∅.
Proof. intros Hw Ho. by apply run_window_ok; [|exact (holds_empty (S:=slidingCounter) w)|]. Qed.

Lemma slidingCounter_exact_witness :
  run_window [OpAdd "a" 0; OpAdd "b" 5; OpAdd "a" 10; OpAdd "a" 11; OpReset "a"; OpAdd "a" 12]
    (newSlidingCounter 10) = [1; 1; 2; 2; 1].
Proof.
  rewrite (slidingCounter_exact 10
    [OpAdd "a" 0; OpAdd "b" 5; OpAdd "a" 10; OpAdd "a" 11; OpReset "a"; OpAdd "a" 12]).
  - reflexivity.
  - discriminate.
  - repeat split; unfold nondecreasing; vm_compute; repeat constructor; vm_compute; discriminate.
Defined.

(** Under the same condition the distinct window answers with the number of
    different values its key has seen inside the window since its last reset. *)
Theorem distinctWindow_exact w (ops : list (window_op (string * Z))) :
  0 <= w → ordered ops ∅ →
  run_window ops (newDistinctWindow w) = run_reference w ops ∅.
Proof. intros Hw Ho. by apply run_window_ok; [|exact (holds_empty (S:=distinctWindow) w)|]. Qed.

Lemma distinctWindow_exact_witness :
  run_window [OpAdd "h" ("22", 0); OpAdd "h" ("80", 3); OpAdd "h" ("22", 4); OpAdd "h" ("443", 14)]
    (newDistinctWindow 10) = [1; 2; 2; 2].
Proof.
  rewrite (distinctWindow_exact 10
    [OpAdd "h" ("22", 0); OpAdd "h" ("80", 3); OpAdd "h" ("22", 4); OpAdd "h" ("443", 14)]).
  - vm_compute. reflexivity.
  - discriminate.
  - repeat split; unfold nondecreasing; vm_compute; repeat constructor; vm_compute; discriminate.
Defined.

(** The cooldown accepts requests for a key only at times at least [d] apart,
    whatever the order of the requests, and refuses one only when the last
    accepted request is less than [d] before it. *)
Theorem cooldown_spaced d key ts :
  in_int64 d → MinInt64 < d →
  spaced d (fires key ts (newCooldown d)) ∧
  ∀ c t, cd_d c = d → (snd (firable key t c) = false ↔ ∃ l, cd_last c !! key = Some l ∧ t - l < d).
Proof.
  intros Hd Hd'. split.
  - exact (fires_spaced key ts (newCooldown d) Hd Hd').
  - intros c t <-. destruct (firable_spec key t c Hd Hd') as [[Href ->]|[Hacc ->]]; cbn;
      destruct (cd_last c !! key); naive_solver.
Qed.

Lemma cooldown_spaced_witness :
  spaced 5 (fires "k" [0; 3; 5; 4; 10] (newCooldown 5)) ∧
  fires "k" [0; 3; 5; 4; 10] (newCooldown 5) = [0; 5; 10].
Proof.
  split; [|reflexivity]. apply (cooldown_spaced 5 "k" [0; 3; 5; 4; 10]).
  - int_lia.
  - reflexivity.
Defined.
