(* ===== verification/Regexp.v ===== *)
(** A matcher for the regular expressions the program compiles: leftmost match,
    alternatives and repetitions tried in order, as Go's [regexp] does, with the
    one capturing group each of them has. *)
From S2P Require Import Prelude Text.
Local Open Scope Z_scope.

(** * Syntax *)

Inductive regexp : Type :=
| Eps
| Class (p : Z → bool)
| Seq (r1 r2 : regexp)
| Alt (r1 r2 : regexp)
| Star (r : regexp)          (* greedy *)
| Group (r : regexp)
| WordB.                      (* \b, ASCII *)

Definition Plus (r : regexp) : regexp := Seq r (Star r).
Definition Opt (r : regexp) : regexp := Alt r Eps.

Definition seqs (l : list regexp) : regexp := foldr Seq Eps l.

(** A literal, and a literal under [(?i)]: a letter matches both cases, and [k]
    and [s] also the Kelvin sign and the long s that Unicode folds to them. *)
Definition lit (s : string) : regexp :=
  foldr (λ c r, Seq (Class (Z.eqb c)) r) Eps (bytes_of_string s).

Definition fold_eq (c r : Z) : bool :=
  let lower x := if is_upper x then x + 32 else x in
  (lower c =? lower r) || ((lower c =? 107) && (r =? 8490)) || ((lower c =? 115) && (r =? 383)).

Definition lit_i (s : string) : regexp :=
  foldr (λ c r, Seq (Class (fold_eq c)) r) Eps (bytes_of_string s).

Definition one_of (s : string) (r : Z) : bool := bool_decide (r ∈ bytes_of_string s).

Definition is_word (r : Z) : bool := is_digit r || is_upper r || is_lower r || (r =? 95).

(** * Matching *)

(** The rune before the position, the runes after it with their bytes, and the
    text of the group. *)
Record mstate := mkM {
  ms_prev : option Z;
  ms_rest : list (Z * bytes);
  ms_cap : option (list (Z * bytes));
}.

Definition at_word_boundary (s : mstate) : bool :=
  let before := match ms_prev s with Some r => is_word r | None => false end in
  let after := match ms_rest s with (r, _) :: _ => is_word r | [] => false end in
  xorb before after.

(** [match_re r s k]: the first way to match [r] at [s] such that [k] accepts
    what follows. A repetition takes at most as many rounds as there are runes
    left, since every repeated expression of the program consumes one. *)
Fixpoint match_re (r : regexp) (s : mstate) (k : mstate → option mstate) : option mstate :=
  match r with
  | Eps => k s
  | Class p =>
    match ms_rest s with
    | x :: rest => if p (fst x) then k (mkM (Some (fst x)) rest (ms_cap s)) else None
    | [] => None
    end
  | Seq r1 r2 => match_re r1 s (λ s', match_re r2 s' k)
  | Alt r1 r2 =>
    match match_re r1 s k with Some x => Some x | None => match_re r2 s k end
  | Star r1 =>
    (fix star (n : nat) (s : mstate) : option mstate :=
       match n with
       | O => k s
       | S n' =>
         match match_re r1 s (star n') with Some x => Some x | None => k s end
       end) (length (ms_rest s)) s
  | Group r1 =>
    match_re r1 s (λ s',
      k (mkM (ms_prev s') (ms_rest s')
           (Some (take (length (ms_rest s) - length (ms_rest s')) (ms_rest s)))))
  | WordB => if at_word_boundary s then k s else None
  end.

(** The leftmost match. *)
Fixpoint search (r : regexp) (prev : option Z) (l : list (Z * bytes)) : option mstate :=
  match match_re r (mkM prev l None) Some with
  | Some s => Some s
  | None =>
    match l with
    | [] => None
    | x :: rest => search r (Some (fst x)) rest
    end
  end.

Definition text_of (l : list (Z * bytes)) : string := string_of_bytes (concat (map snd l)).

(** [FindStringSubmatch(s)]: the text of group 1 when there is a match. *)
Definition FindStringSubmatch (r : regexp) (s : string) : option string :=
  match search r None (runes_with_bytes s) with
  | Some m => Some (text_of (default [] (ms_cap m)))
  | None => None
  end.

Definition MatchString (r : regexp) (s : string) : bool :=
  match search r None (runes_with_bytes s) with Some _ => true | None => false end.

(** [search] with the place where the match starts. *)
Fixpoint search_at (r : regexp) (prev : option Z) (l : list (Z * bytes)) :
    option (list (Z * bytes) * mstate) :=
  match match_re r (mkM prev l None) Some with
  | Some s => Some (l, s)
  | None =>
    match l with
    | [] => None
    | x :: rest => search_at r (Some (fst x)) rest
    end
  end.

(** [FindAllString(s, -1)] for an expression that never matches the empty text:
    there are at most as many matches as runes. *)
Fixpoint find_all (r : regexp) (fuel : nat) (prev : option Z) (l : list (Z * bytes)) : list string :=
  match fuel with
  | O => []
  | S fuel' =>
    match search_at r prev l with
    | None => []
    | Some (l0, m) =>
      text_of (take (length l0 - length (ms_rest m)) l0)
        :: find_all r fuel' (ms_prev m) (ms_rest m)
    end
  end.

Definition FindAllString (r : regexp) (s : string) : list string :=
  find_all r (length (runes_with_bytes s)) None (runes_with_bytes s).

(** [\s]. *)
Definition re_space (r : Z) : bool := one_of " " r || ((9 <=? r) && (r <=? 10)) || ((12 <=? r) && (r <=? 13)).

Definition alts (l : list regexp) : regexp :=
  match l with [] => Class (λ _, false) | r :: rest => foldl Alt r rest end.

(** * Lemmas *)

(** Captures of a repeated class hold only runes of the class. *)
Section capture.
Context (p : Z → bool).

Let star (k : mstate → option mstate) :=
  fix star (n : nat) (s : mstate) : option mstate :=
    match n with
    | O => k s
    | S n' =>
      match match_re (Class p) s (star n') with Some x => Some x | None => k s end
    end.

Lemma star_class k n : ∀ s x,
  star k n s = Some x →
  ∃ pre s', k s' = Some x ∧ ms_rest s = pre ++ ms_rest s' ∧ Forall (λ y, p (fst y) = true) pre.
Proof.
  induction n as [|n IH]; intros s x; cbn.
  - intros Hk. by exists [], s.
  - destruct (ms_rest s) as [|y rest] eqn:Hr.
    + intros Hk. exists [], s. by rewrite Hr.
    + destruct (p (fst y)) eqn:Hp.
      * destruct (star k n _) as [x'|] eqn:Hs.
        -- intros [= <-]. destruct (IH _ _ Hs) as (pre & s' & Hk & Hrest & Hpre).
           exists (y :: pre), s'. cbn in Hrest. rewrite Hrest. auto.
        -- intros Hk. exists [], s. by rewrite Hr.
      * intros Hk. exists [], s. by rewrite Hr.
Qed.

Lemma match_group_plus s k x :
  match_re (Group (Plus (Class p))) s k = Some x →
  ∃ cap prev rest, k (mkM prev rest (Some cap)) = Some x ∧ cap ≠ [] ∧
    Forall (λ y, p (fst y) = true) cap ∧ cap `sublist_of` ms_rest s.
Proof.
  cbn. destruct (ms_rest s) as [|y rest] eqn:Hr; [done|].
  destruct (p (fst y)) eqn:Hp; [|done]. intros Hm. apply star_class in Hm
    as (pre & s' & Hk & Hrest & Hpre). cbn in Hrest. subst rest.
  eexists _, _, _. split; [exact Hk|]. cbn [length]. rewrite length_app.
  replace (S (length pre + length (ms_rest s')) - length (ms_rest s'))%nat
    with (S (length pre)) by lia.
  cbn [take]. rewrite take_app_length. split_and!; [done|by constructor|].
  apply sublist_skip, sublist_inserts_r. done.
Qed.
End capture.

(** An ASCII rune is read from its own byte. *)
Definition ascii_ok (y : Z * bytes) : Prop := fst y < 128 → snd y = [fst y].

Lemma utf8_decode_ascii b r n :
  utf8_decode b = (r, n) → b ≠ [] → wf_bytes b → r < 128 → take n b = [r].
Proof.
  intros Hd Hne Hw Hr. destruct b as [|b0 t]; [done|]. clear Hne.
  apply Forall_cons in Hw as [Hb0 Hw]. unfold utf8_decode, is_cont, RuneError in Hd. unfold is_byte in *.
  repeat match type of Hd with
  | context [if ?c then _ else _] => destruct c eqn:?; to_prop
  | context [match ?l with [] => _ | _ :: _ => _ end] =>
      destruct l as [|? ?]; [|apply Forall_cons in Hw as [? Hw]]
  end; injection Hd as <- <-; try lia; try done.
Qed.

Lemma runes_ascii_ok s : Forall ascii_ok (runes_with_bytes s).
Proof.
  unfold runes_with_bytes. pose proof (bytes_of_string_wf s) as Hw.
  generalize (length (bytes_of_string s)). revert Hw.
  generalize (bytes_of_string s). intros b Hw n. revert b Hw.
  induction n as [|n IH]; intros b Hw; [constructor|]. cbn [utf8_runes].
  destruct b as [|b0 t]; [constructor|].
  destruct (utf8_decode (b0 :: t)) as [r k] eqn:Hd. constructor.
  - intros Hr. cbn in Hr |- *. by eapply utf8_decode_ascii.
  - apply IH. by apply Forall_drop.
Qed.

(** A literal, and a word boundary, only move the position. *)
Lemma match_lit (P : Z * bytes → Prop) s0 k : ∀ st x,
  match_re (lit s0) st k = Some x → Forall P (ms_rest st) →
  ∃ st', k st' = Some x ∧ Forall P (ms_rest st').
Proof.
  unfold lit. induction (bytes_of_string s0) as [|c l IH]; intros st x; cbn.
  - by exists st.
  - destruct (ms_rest st) as [|y rest]; [done|]. destruct (_ =? _); [|done].
    intros Hm Hp. apply Forall_cons in Hp as [_ Hp]. by eapply IH.
Qed.

Lemma search_Some (P : Z * bytes → Prop) r l : ∀ prev x,
  search r prev l = Some x → Forall P l →
  ∃ st, match_re r st Some = Some x ∧ Forall P (ms_rest st).
Proof.
  induction l as [|y l IH]; intros prev x; cbn [search]; destruct (match_re r _ _) eqn:Hm;
    try done; try (intros [= <-] Hp; eexists; split; [exact Hm|done]).
  intros Hs Hp. apply Forall_cons in Hp as [_ Hp]. by eapply IH.
Qed.

(** [\b<name>=(<class>+)]. *)
Definition key_value (name : string) (p : Z → bool) : regexp :=
  seqs [WordB; lit name; Group (Plus (Class p))].

Lemma bytes_of_ascii cap :
  Forall ascii_ok cap → Forall (λ y, fst y < 128) cap → concat (map snd cap) = map fst cap.
Proof.
  intros Ho. induction Ho as [|y cap Hy _ IH]; intros Hl; [done|].
  apply Forall_cons in Hl as [Hy' Hl]. cbn. by rewrite Hy, IH.
Qed.

(** The value found is not empty and made of characters of the class. *)
Lemma key_value_class name p s v :
  (∀ r, p r = true → 0 <= r < 128) →
  FindStringSubmatch (key_value name p) s = Some v →
  v ≠ "" ∧ ∀ c, p (byte_of_ascii c) = false → has_char c v = false.
Proof.
  intros Hp. unfold FindStringSubmatch.
  destruct (search _ _ _) as [m|] eqn:Hs; [|done]. intros [= <-].
  apply (search_Some ascii_ok) in Hs as (st & Hm & Hst); [|apply runes_ascii_ok].
  unfold key_value, seqs in Hm. cbn [foldr match_re] in Hm.
  destruct (at_word_boundary st); [|done].
  apply (match_lit ascii_ok) in Hm as (st' & Hm & Hst'); [|done].
  apply match_group_plus in Hm as (cap & prev & rest & Hk & Hne & Hcap & Hsub).
  injection Hk as <-. cbn [ms_cap default]. unfold text_of.
  assert (Forall ascii_ok cap) as Hok by (by eapply Forall_sublist).
  rewrite bytes_of_ascii; [|done|eapply Forall_impl; [exact Hcap|]; intros y Hy; apply Hp in Hy; lia].
  split.
  - destruct cap as [|y cap]; [done|]. cbn. done.
  - intros c Hc. clear Hok Hsub Hne. unfold string_of_bytes. rewrite map_map.
    induction Hcap as [|y cap Hy _ IH]; [done|]. cbn.
    destruct (Ascii.eqb_spec (ascii_of_byte (fst y)) c) as [<-|]; [|done].
    rewrite byte_of_ascii_of_byte, Hy in Hc; [done|]. apply Hp in Hy. unfold is_byte. lia.
Qed.
