(* ===== verification/Parse.v ===== *)
(** Parsing log lines into events: [src/logingest/syslog.go],
    [src/logingest/fields.go] and [src/logingest/vendor.go], and the readers that
    feed it, [src/logingest/syslog_source.go] and
    [src/logingest/command_source.go]. Times are in UTC. *)
From S2P Require Import Prelude Text Float Netip Core Ingest Regexp.
Local Open Scope Z_scope.

(** * Strings *)

Definition IndexByte (s : string) (c : ascii) : option nat := index_byte_by (Ascii.eqb c) s.

(** [strings.Trim] with a cutset of ASCII bytes. *)
Definition strings_Trim (s : string) (cut : list Z) : string :=
  strings_TrimRight (string_of_bytes (drop_while (λ b, bool_decide (b ∈ cut)) (bytes_of_string s))) cut.

(** [strings.TrimRight(s, "\r\n")]. *)
Definition trim_eol (s : string) : string := strings_TrimRight s [13; 10].

(** [strings.Fields]: the maximal runs of runes that are not white space. *)
Fixpoint fields_of (cur : bytes) (l : list (Z * bytes)) : list string :=
  let flush := match cur with [] => [] | _ => [string_of_bytes cur] end in
  match l with
  | [] => flush
  | (r, b) :: rest => if is_space r then flush ++ fields_of [] rest else fields_of (cur ++ b) rest
  end.
Definition strings_Fields (s : string) : list string := fields_of [] (runes_with_bytes s).

(** [oneLine]. *)
Definition oneLine (s : string) : string := String.concat " " (strings_Fields s).

Fixpoint digits_value (acc : Z) (s : bytes) : option Z :=
  match s with
  | [] => Some acc
  | c :: s' => if is_digit c then digits_value (acc * 10 + (c - 48)) s' else None
  end.

(** [strconv.Atoi] and [strconv.ParseInt(s, 10, 64)]: an optional sign and
    digits, in range. *)
Definition strconv_Atoi (s : string) : option Z :=
  let in_range n := if (MinInt64 <=? n) && (n <=? MaxInt64) then Some n else None in
  match bytes_of_string s with
  | [] => None
  | c :: rest =>
    if (c =? 43) || (c =? 45) then
      match rest with
      | [] => None
      | _ => digits_value 0 rest ≫= λ n, in_range (if c =? 45 then - n else n)
      end
    else digits_value 0 (c :: rest) ≫= in_range
  end.

(** * Dates *)

Definition is_leap (y : Z) : bool := (y mod 4 =? 0) && (negb (y mod 100 =? 0) || (y mod 400 =? 0)).

(** Days of the year before the month [m], in a common year. *)
Definition month_start (m : Z) : Z := nth (Z.to_nat (m - 1)) [0; 31; 59; 90; 120; 151; 181; 212; 243; 273; 304; 334] 0.

Definition days_in (m y : Z) : Z :=
  if m =? 2 then if is_leap y then 29 else 28
  else nth (Z.to_nat (m - 1)) [31; 28; 31; 30; 31; 30; 31; 31; 30; 31; 30; 31] 31.

(** Days from January 1 of year 1 to January 1 of year [y]. *)
Definition days_before_year (y : Z) : Z := 365 * (y - 1) + (y - 1) / 4 - (y - 1) / 100 + (y - 1) / 400.

(** [time.Date] in UTC for a month in range: a day past the end of the month runs
    over into the next. *)
Definition time_Date (y m d h mi s ns : Z) : Z :=
  let days := days_before_year y + month_start m + (if (2 <? m) && is_leap y then 1 else 0) + (d - 1) in
  (days * 86400 + h * 3600 + mi * 60 + s) * Second + ns.

(** [Time.Year]. *)
Definition time_Year (t : Z) : Z :=
  let day := t / (86400 * Second) in
  let y := day * 400 / 146097 + 1 in
  if day <? days_before_year y then y - 1
  else if days_before_year (y + 1) <=? day then y + 1 else y.

(** ** [time.Parse(time.Stamp, s)] *)

(** A date without its year. *)
Record stamp := mkStamp { sp_month : Z; sp_day : Z; sp_hour : Z; sp_min : Z; sp_sec : Z; sp_nsec : Z }.

(** [getnum]: two digits, or one when the width is not fixed. *)
Definition getnum (fixed : bool) (s : bytes) : option (Z * bytes) :=
  match s with
  | a :: rest =>
    if is_digit a then
      match rest with
      | b :: rest' =>
        if is_digit b then Some ((a - 48) * 10 + (b - 48), rest')
        else if fixed then None else Some (a - 48, rest)
      | [] => if fixed then None else Some (a - 48, rest)
      end
    else None
  | [] => None
  end.

Definition cut_spaces : bytes → bytes := drop_while (Z.eqb 32).

(** [skip] of a layout's space: the value must go on with one, if it goes on. *)
Definition skip_space (s : bytes) : option bytes :=
  match s with
  | c :: _ => if c =? 32 then Some (cut_spaces s) else None
  | [] => Some []
  end.

Definition skip_byte (c : Z) (s : bytes) : option bytes :=
  match s with x :: rest => if x =? c then Some rest else None | [] => None end.

Definition short_months : list string :=
  ["jan"; "feb"; "mar"; "apr"; "may"; "jun"; "jul"; "aug"; "sep"; "oct"; "nov"; "dec"].

Definition lower_ascii (b : Z) : Z := if is_upper b then b + 32 else b.

(** The month's name, in any case. *)
Definition parse_month (s : bytes) : option (Z * bytes) :=
  let w := string_of_bytes (map lower_ascii (take 3 s)) in
  match list_find (λ m, m = w) short_months with
  | Some (i, _) => Some (Z.of_nat i + 1, drop 3 s)
  | None => None
  end.

(** Fractional seconds, which [Parse] takes even though the layout has none. *)
Definition parse_fraction (s : bytes) : Z * bytes :=
  match s with
  | p :: d :: rest =>
    if ((p =? 46) || (p =? 44)) && is_digit d then
      let ds := d :: take (length rest - length (drop_while is_digit rest)) rest in
      let ns := default 0 (digits_value 0 (take 9 (ds ++ repeat 48 9))) in
      (ns, drop_while is_digit rest)
    else (0, s)
  | _ => (0, s)
  end.

(** The layout ["Jan _2 15:04:05"]. *)
Definition parse_Stamp (str : string) : option stamp :=
  '(mo, s) ← parse_month (bytes_of_string str);
  s ← skip_space s;
  let s := match s with c :: rest => if c =? 32 then rest else s | [] => s end in
  '(d, s) ← getnum false s;
  s ← skip_space s;
  '(h, s) ← getnum false s;
  s ← skip_byte 58 s;
  '(mi, s) ← getnum true s;
  s ← skip_byte 58 s;
  '(sec, s) ← getnum true s;
  let '(ns, s) := parse_fraction s in
  if (h <? 24) && (mi <? 60) && (sec <? 60) && (1 <=? d) && (d <=? days_in mo 0)
     && (length s =? 0)%nat
  then Some (mkStamp mo d h mi sec ns) else None.

(** [ts.AddDate(year, 0, 0)] of the parsed date, whose year is 0. *)
Definition stamp_in_year (year : Z) (p : stamp) : Z :=
  time_Date year (sp_month p) (sp_day p) (sp_hour p) (sp_min p) (sp_sec p) (sp_nsec p).

Example ex_stamp : stamp_in_year 2026 <$> parse_Stamp "Jan  2 15:04:05"
  = Some (time_Unix 1767366245).
Proof. vm_compute. reflexivity. Qed.
Example ex_year : time_Year (time_Unix 1767366245) = 2026 ∧ time_Year (time_Date 2024 12 31 23 59 59 0) = 2024.
Proof. vm_compute. split; reflexivity. Qed.

(** * Assigning to the fields of an event *)

Definition set_Timestamp (v : Z) (e : Event) : Event :=
  mkEvent v (e_Source e) (e_SourceID e) (e_Host e) (e_App e) (e_Severity e) (e_Message e)
    (e_Auth e) (e_User e) (e_SrcIP e) (e_DstIP e) (e_DstPort e) (e_BytesOut e) (e_Action e)
    (e_Vendor e) (e_VendorRule e) (e_VendorLevel e) (e_Raw e) (e_Parsed e).
Definition set_Source (v : string) (e : Event) : Event :=
  mkEvent (e_Timestamp e) v (e_SourceID e) (e_Host e) (e_App e) (e_Severity e) (e_Message e)
    (e_Auth e) (e_User e) (e_SrcIP e) (e_DstIP e) (e_DstPort e) (e_BytesOut e) (e_Action e)
    (e_Vendor e) (e_VendorRule e) (e_VendorLevel e) (e_Raw e) (e_Parsed e).
Definition set_Host (v : string) (e : Event) : Event :=
  mkEvent (e_Timestamp e) (e_Source e) (e_SourceID e) v (e_App e) (e_Severity e) (e_Message e)
    (e_Auth e) (e_User e) (e_SrcIP e) (e_DstIP e) (e_DstPort e) (e_BytesOut e) (e_Action e)
    (e_Vendor e) (e_VendorRule e) (e_VendorLevel e) (e_Raw e) (e_Parsed e).
Definition set_App (v : string) (e : Event) : Event :=
  mkEvent (e_Timestamp e) (e_Source e) (e_SourceID e) (e_Host e) v (e_Severity e) (e_Message e)
    (e_Auth e) (e_User e) (e_SrcIP e) (e_DstIP e) (e_DstPort e) (e_BytesOut e) (e_Action e)
    (e_Vendor e) (e_VendorRule e) (e_VendorLevel e) (e_Raw e) (e_Parsed e).
Definition set_Severity (v : Z) (e : Event) : Event :=
  mkEvent (e_Timestamp e) (e_Source e) (e_SourceID e) (e_Host e) (e_App e) v (e_Message e)
    (e_Auth e) (e_User e) (e_SrcIP e) (e_DstIP e) (e_DstPort e) (e_BytesOut e) (e_Action e)
    (e_Vendor e) (e_VendorRule e) (e_VendorLevel e) (e_Raw e) (e_Parsed e).
Definition set_Message (v : string) (e : Event) : Event :=
  mkEvent (e_Timestamp e) (e_Source e) (e_SourceID e) (e_Host e) (e_App e) (e_Severity e) v
    (e_Auth e) (e_User e) (e_SrcIP e) (e_DstIP e) (e_DstPort e) (e_BytesOut e) (e_Action e)
    (e_Vendor e) (e_VendorRule e) (e_VendorLevel e) (e_Raw e) (e_Parsed e).
Definition set_Auth (v : string) (e : Event) : Event :=
  mkEvent (e_Timestamp e) (e_Source e) (e_SourceID e) (e_Host e) (e_App e) (e_Severity e)
    (e_Message e) v (e_User e) (e_SrcIP e) (e_DstIP e) (e_DstPort e) (e_BytesOut e) (e_Action e)
    (e_Vendor e) (e_VendorRule e) (e_VendorLevel e) (e_Raw e) (e_Parsed e).
Definition set_User (v : string) (e : Event) : Event :=
  mkEvent (e_Timestamp e) (e_Source e) (e_SourceID e) (e_Host e) (e_App e) (e_Severity e)
    (e_Message e) (e_Auth e) v (e_SrcIP e) (e_DstIP e) (e_DstPort e) (e_BytesOut e) (e_Action e)
    (e_Vendor e) (e_VendorRule e) (e_VendorLevel e) (e_Raw e) (e_Parsed e).
Definition set_SrcIP (v : string) (e : Event) : Event :=
  mkEvent (e_Timestamp e) (e_Source e) (e_SourceID e) (e_Host e) (e_App e) (e_Severity e)
    (e_Message e) (e_Auth e) (e_User e) v (e_DstIP e) (e_DstPort e) (e_BytesOut e) (e_Action e)
    (e_Vendor e) (e_VendorRule e) (e_VendorLevel e) (e_Raw e) (e_Parsed e).
Definition set_DstIP (v : string) (e : Event) : Event :=
  mkEvent (e_Timestamp e) (e_Source e) (e_SourceID e) (e_Host e) (e_App e) (e_Severity e)
    (e_Message e) (e_Auth e) (e_User e) (e_SrcIP e) v (e_DstPort e) (e_BytesOut e) (e_Action e)
    (e_Vendor e) (e_VendorRule e) (e_VendorLevel e) (e_Raw e) (e_Parsed e).
Definition set_DstPort (v : Z) (e : Event) : Event :=
  mkEvent (e_Timestamp e) (e_Source e) (e_SourceID e) (e_Host e) (e_App e) (e_Severity e)
    (e_Message e) (e_Auth e) (e_User e) (e_SrcIP e) (e_DstIP e) v (e_BytesOut e) (e_Action e)
    (e_Vendor e) (e_VendorRule e) (e_VendorLevel e) (e_Raw e) (e_Parsed e).
Definition set_BytesOut (v : Z) (e : Event) : Event :=
  mkEvent (e_Timestamp e) (e_Source e) (e_SourceID e) (e_Host e) (e_App e) (e_Severity e)
    (e_Message e) (e_Auth e) (e_User e) (e_SrcIP e) (e_DstIP e) (e_DstPort e) v (e_Action e)
    (e_Vendor e) (e_VendorRule e) (e_VendorLevel e) (e_Raw e) (e_Parsed e).
Definition set_Action (v : string) (e : Event) : Event :=
  mkEvent (e_Timestamp e) (e_Source e) (e_SourceID e) (e_Host e) (e_App e) (e_Severity e)
    (e_Message e) (e_Auth e) (e_User e) (e_SrcIP e) (e_DstIP e) (e_DstPort e) (e_BytesOut e) v
    (e_Vendor e) (e_VendorRule e) (e_VendorLevel e) (e_Raw e) (e_Parsed e).
Definition set_Vendor (v : string) (e : Event) : Event :=
  mkEvent (e_Timestamp e) (e_Source e) (e_SourceID e) (e_Host e) (e_App e) (e_Severity e)
    (e_Message e) (e_Auth e) (e_User e) (e_SrcIP e) (e_DstIP e) (e_DstPort e) (e_BytesOut e)
    (e_Action e) v (e_VendorRule e) (e_VendorLevel e) (e_Raw e) (e_Parsed e).
Definition set_VendorRule (v : string) (e : Event) : Event :=
  mkEvent (e_Timestamp e) (e_Source e) (e_SourceID e) (e_Host e) (e_App e) (e_Severity e)
    (e_Message e) (e_Auth e) (e_User e) (e_SrcIP e) (e_DstIP e) (e_DstPort e) (e_BytesOut e)
    (e_Action e) (e_Vendor e) v (e_VendorLevel e) (e_Raw e) (e_Parsed e).
Definition set_VendorLevel (v : Z) (e : Event) : Event :=
  mkEvent (e_Timestamp e) (e_Source e) (e_SourceID e) (e_Host e) (e_App e) (e_Severity e)
    (e_Message e) (e_Auth e) (e_User e) (e_SrcIP e) (e_DstIP e) (e_DstPort e) (e_BytesOut e)
    (e_Action e) (e_Vendor e) (e_VendorRule e) v (e_Raw e) (e_Parsed e).
Definition set_Parsed (v : bool) (e : Event) : Event :=
  mkEvent (e_Timestamp e) (e_Source e) (e_SourceID e) (e_Host e) (e_App e) (e_Severity e)
    (e_Message e) (e_Auth e) (e_User e) (e_SrcIP e) (e_DstIP e) (e_DstPort e) (e_BytesOut e)
    (e_Action e) (e_Vendor e) (e_VendorRule e) (e_VendorLevel e) (e_Raw e) v.

(** * Field patterns *)

Definition digit1 : regexp := Class is_digit.
(** [\d{1,3}] and [\d{1,5}]. *)
Fixpoint upto (n : nat) (r : regexp) : regexp :=
  match n with O => Eps | S n' => Opt (Seq r (upto n' r)) end.
Definition digits_1_to (n : nat) : regexp := Seq digit1 (upto (n - 1) digit1).
Definition spaces : regexp := Star (Class re_space).

Definition is_hex (r : Z) : bool :=
  is_digit r || ((97 <=? r) && (r <=? 102)) || ((65 <=? r) && (r <=? 70)).

(** A class under [(?i)]: [k] and [s] also stand for the runes that fold to them. *)
Definition name_char (r : Z) : bool :=
  is_upper r || is_lower r || is_digit r || one_of "._-\$" r || (r =? 8490) || (r =? 383).

Definition reFrom : regexp :=
  seqs [alts [lit_i "from"; lit_i "rhost="; lit_i "src="; lit_i "client="]; spaces;
        Opt (Class (one_of ":[")); Group (Plus (Class (λ r, is_hex r || one_of ".:" r)))].

Definition reAnyIP : regexp :=
  let d := digits_1_to 3 in
  seqs [WordB; Group (seqs [d; lit "."; d; lit "."; d; lit "."; d]); WordB].

Definition dquote : regexp := Class (Z.eqb 34).

Definition reUser : regexp :=
  seqs [alts [Seq (lit_i "for") (Opt (lit_i " invalid user"));
              Seq (lit_i "user") (Opt (lit "="));
              seqs [lit_i "account"; Opt (lit_i " name"); Opt (lit ":")]];
        Plus (Class re_space); Opt dquote; Group (Plus (Class name_char)); Opt dquote].

Definition reDPTeq : regexp :=
  seqs [alts [lit_i "DPT="; Seq (lit_i "dport") (Class (one_of " ="))]; Group (digits_1_to 5)].

Definition reBytes : regexp :=
  seqs [alts [Seq (lit_i "bytes") (Opt (Class (one_of "=:"))); lit_i "BYTES=";
              Seq (lit_i "sent") (Opt (Class (one_of "=:")))];
        spaces; Group (seqs [digit1; digit1; Star digit1])].

Definition reNameKV : regexp :=
  seqs [WordB; lit_i "name="; Opt (Class (λ r, (r =? 34) || (r =? 39))); Group (Plus (Class name_char))].

Definition reEventID (id : string) : regexp :=
  seqs [alts [seqs [lit_i "event"; spaces; lit_i "id"; Opt (Class (one_of ":=")); spaces];
              seqs [lit_i "eventid"; Opt (Class (one_of ":=")); spaces]; WordB];
        lit_i id; WordB].

Definition looksLikeIP (s : string) : bool :=
  if is_empty s then false
  else match net_ParseIP (strings_Trim s [91; 93]) with Some _ => true | None => false end.

Definition findSrcIP (msg : string) : string :=
  match FindStringSubmatch reFrom msg with
  | Some m => if looksLikeIP m then strings_Trim m [91; 93]
              else default "" (FindStringSubmatch reAnyIP msg)
  | None => default "" (FindStringSubmatch reAnyIP msg)
  end.

Definition findUser (msg : string) : string :=
  match FindStringSubmatch reUser msg with
  | Some m =>
    let u := strings_Trim m [34] in
    if negb (is_empty u) && negb (looksLikeIP u) then u else ""
  | None => ""
  end.

Definition findDstPort (msg : string) : Z :=
  match FindStringSubmatch reDPTeq msg ≫= strconv_Atoi with
  | Some n => if (0 <? n) && (n <? 65536) then n else 0
  | None => 0
  end.

Definition findBytes (msg : string) : Z :=
  default 0 (FindStringSubmatch reBytes msg ≫= strconv_Atoi).

Example ex_src : findSrcIP "Failed password for root from 203.0.113.9 port 22 ssh2" = "203.0.113.9".
Proof. vm_compute. reflexivity. Qed.
Example ex_user : findUser "Failed password for invalid user oracle from 203.0.113.9" = "oracle".
Proof. vm_compute. reflexivity. Qed.
Example ex_dpt : findDstPort "IN=eth0 SRC=1.2.3.4 DPT=443 LEN=60" = 443.
Proof. vm_compute. reflexivity. Qed.
Example ex_bytes : findBytes "proxy sent: 123456 to host" = 123456.
Proof. vm_compute. reflexivity. Qed.

(** * Structured alerts of other systems *)

Record wazuhAlert := mkWazuh {
  wz_Level : Z;
  wz_ID : string;
  wz_Description : string;
  wz_Groups : list string;
  wz_AgentName : string;
  wz_Hostname : string;
  wz_Data : gmap string any;
  wz_FullLog : string;
}.

Record hfsEvent := mkHFS {
  hf_Schema : string;
  hf_Event : string;
  hf_Product : string;
  hf_SrcIP : string;
  hf_Check : string;
  hf_Title : string;
  hf_Target : string;
  hf_Severity : string;
}.

(** [json.Unmarshal] into these structs, the shortest decimal form of a float, and
    [time.Parse(time.RFC3339, s)]. *)
Class LogCodec := {
  unmarshal_wazuh : string → option wazuhAlert;
  unmarshal_hfs : string → option hfsEvent;
  format_shortest : float64 → string;
  parse_RFC3339 : string → option Z;
}.

Definition isHexwardRule (id : string) : bool :=
  match strconv_Atoi id with Some n => (100500 <=? n) && (n <=? 100599) | None => false end.

Definition wazuhSyslogSeverity (level : Z) : Z :=
  if 12 <=? level then 2 else if 10 <=? level then 3 else if 7 <=? level then 4
  else if 4 <=? level then 5 else 6.

Fixpoint firstNonEmpty (ss : list string) : string :=
  match ss with [] => "" | s :: rest => if is_empty s then firstNonEmpty rest else s end.

Section parse.
Context `{UnicodeTables} `{LogCodec}.

Fixpoint stringField (m : gmap string any) (keys : list string) : string :=
  match keys with
  | [] => ""
  | k :: rest =>
    match m !! k with
    | Some (AString v) => if is_empty v then stringField m rest else v
    | Some (AFloat v) => format_shortest v
    | _ => stringField m rest
    end
  end.

Definition ipField (m : gmap string any) (keys : list string) : string :=
  match net_ParseIP (stringField m keys) with Some ip => IP_String ip | None => "" end.

(** The loop over the alert's groups. *)
Definition group_auth (auth g : string) : string :=
  if str_eqb g "authentication_failed" || str_eqb g "invalid_login" then AuthFailure
  else if str_eqb g "authentication_success" then
    if str_eqb auth AuthNone then AuthSuccess else auth
  else auth.

Definition json_like (msg marker : string) : bool :=
  strings_HasPrefix msg "{" && strings_Contains msg marker.

Definition quoted_key (k : string) : string :=
  String (ascii_of_byte 34) k.

(** [fromWazuh]: [None] is the result false, which leaves the event alone. *)
Definition fromWazuh (e : Event) : option Event :=
  let msg := strings_TrimSpace (e_Message e) in
  if negb (json_like msg (quoted_key "rule" +:+ String (ascii_of_byte 34) "")) then None
  else
    let a := strings_ToLower (e_App e) in
    if negb (is_empty a) && negb (str_eqb a "ossec") && negb (str_eqb a "wazuh") then None
    else
      match unmarshal_wazuh msg with
      | None => None
      | Some a =>
        if is_empty (wz_ID a) then None
        else
          let e := set_Parsed true (set_VendorLevel (wz_Level a) (set_VendorRule (wz_ID a) (set_Vendor "wazuh" e))) in
          let h := firstNonEmpty [wz_Hostname a; wz_AgentName a] in
          let e := if is_empty h then e else set_Host h e in
          let e := set_Severity (wazuhSyslogSeverity (wz_Level a)) e in
          let m := sprint ["wazuh rule "; wz_ID a; " (level "; dec (wz_Level a); "): "; wz_Description a] in
          let m := if is_empty (wz_FullLog a) then m else sprint [m; " | "; oneLine (wz_FullLog a)] in
          let e := set_Message m e in
          if isHexwardRule (wz_ID a) then Some e
          else
            let e := set_SrcIP (ipField (wz_Data a) ["srcip"; "src_ip"]) e in
            let e := set_DstIP (ipField (wz_Data a) ["dstip"; "dst_ip"]) e in
            let e := match strconv_Atoi (stringField (wz_Data a) ["dstport"; "dst_port"]) with
                     | Some p => if (0 <? p) && (p <? 65536) then set_DstPort p e else e
                     | None => e
                     end in
            let e := set_User (stringField (wz_Data a) ["srcuser"; "dstuser"; "user"]) e in
            Some (set_Auth (foldl group_auth (e_Auth e) (wz_Groups a)) e)
      end.

(** [fromHFS]: the finding is rewritten as the key=value text of the syslog
    format. *)
Definition fromHFS (e : Event) : option Event :=
  let msg := strings_TrimSpace (e_Message e) in
  if negb (json_like msg (quoted_key "hexward.finding/")) then None
  else
    match unmarshal_hfs msg with
    | None => None
    | Some h =>
      if negb (strings_HasPrefix (hf_Schema h) "hexward.finding/") then None
      else
        let status := if str_eqb (hf_Event h) "resolved" then "resolved" else "open" in
        let e := set_Parsed true (set_VendorRule (hf_Check h) (set_Vendor "hexward" e)) in
        let m := sprint [oneLine (hf_Title h); " | product="; hf_Product h; " severity="; hf_Severity h;
                         " check="; hf_Check h; " target="; hf_Target h; " status="; status] in
        match net_ParseIP (hf_SrcIP h) with
        | Some ip => Some (set_Message (sprint [m; " src="; IP_String ip]) (set_SrcIP (IP_String ip) e))
        | None => Some (set_Message m e)
        end
    end.

(** * Field extraction *)

Definition containsEventID (msg id : string) : bool :=
  let low := strings_ToLower msg in
  if negb (strings_Contains low "event") && negb (strings_Contains low "microsoft-windows")
     && negb (strings_Contains low "security") then false
  else MatchString (reEventID id) msg.

Definition has_any (low : string) (ws : list string) : bool := existsb (strings_Contains low) ws.

(** The sections of [extractFields], each of which fills some fields. *)
Definition extract_names (msg : string) (e : Event) : Event :=
  let ip := findSrcIP msg in
  let e := if is_empty ip then e else set_SrcIP ip e in
  let u := findUser msg in
  let e := if is_empty u then e else set_User u e in
  if is_empty (e_User e) then
    match FindStringSubmatch reNameKV msg with Some m => set_User m e | None => e end
  else e.

Definition extract_windows (msg : string) (e : Event) : Event :=
  if containsEventID msg "4625" then set_Auth AuthFailure e
  else if containsEventID msg "4624" then set_Auth AuthSuccess e
  else if containsEventID msg "4720" || containsEventID msg "4728" || containsEventID msg "4732"
  then set_Action "new_admin" e else e.

Definition extract_auth (low : string) (e : Event) : Event :=
  if negb (str_eqb (e_Auth e) AuthNone) then e
  else if has_any low ["failed password"; "authentication failure"; "invalid user"; "failed publickey";
                       "permission denied"] then set_Auth AuthFailure e
  else if has_any low ["accepted password"; "accepted publickey"; "session opened for user"]
  then set_Auth AuthSuccess e else e.

Definition extract_admin (low : string) (e : Event) : Event :=
  if negb (is_empty (e_Action e)) then e
  else
    let appLow := strings_ToLower (e_App e) in
    let e := if (str_eqb appLow "useradd" || strings_Contains low "useradd")
                && has_any low ["new user"; "new account"] then set_Action "new_admin" e else e in
    let e := if has_any low ["usermod"; "gpasswd"] && has_any low ["sudo"; "wheel"; "admin"]
             then set_Action "new_admin" e else e in
    if has_any low ["to group 'sudo'"; "to group 'wheel'"] then set_Action "new_admin" e else e.

Definition extract_flow (msg low : string) (e : Event) : Event :=
  let p := findDstPort msg in
  let e := if p =? 0 then e else set_DstPort p e in
  let b := findBytes msg in
  let e := if b =? 0 then e else set_BytesOut b e in
  if negb (is_empty (e_Action e)) then e
  else if has_any low [" deny"; "blocked"; "drop"] then set_Action "deny" e
  else if has_any low [" accept"; "allow"; "pass "] then set_Action "accept" e else e.

Definition extractFields (e : Event) : Event :=
  match fromWazuh e with
  | Some e => e
  | None =>
    match fromHFS e with
    | Some e => e
    | None =>
      let msg := if is_empty (e_Message e) then e_Raw e else e_Message e in
      let low := strings_ToLower msg in
      extract_flow msg low (extract_admin low (extract_auth low (extract_windows msg (extract_names msg e))))
    end
  end.

(** * Framing *)

Definition splitPriority (line : string) : option (Z * string) :=
  if negb (strings_HasPrefix line "<") then None
  else
    match IndexByte line ">" with
    | None => None
    | Some end_ =>
      if (end_ <? 2)%nat || (4 <? end_)%nat then None
      else
        match strconv_Atoi (str_drop 1 (str_take end_ line)) with
        | None => None
        | Some n => if (n <? 0) || (191 <? n) then None else Some (n, str_drop (end_ + 1) line)
        end
    end.

Definition dashToEmpty (s : string) : string := if str_eqb s "-" then "" else s.

(** The scan for the bracket that closes the structured data: the bytes after it. *)
Fixpoint close_bracket (depth : Z) (l : list (Z * bytes)) : option (list (Z * bytes)) :=
  match l with
  | [] => None
  | (r, _) :: rest =>
    if r =? 91 then close_bracket (depth + 1) rest
    else if r =? 93 then
      if depth - 1 =? 0 then Some rest else close_bracket (depth - 1) rest
    else close_bracket depth rest
  end.

Definition stripStructuredData (s : string) : string :=
  let s := strings_TrimSpace s in
  if strings_HasPrefix s "- " then str_drop 2 s
  else if str_eqb s "-" then ""
  else if strings_HasPrefix s "[" then
    match close_bracket 0 (runes_with_bytes s) with
    | Some rest => strings_TrimSpace (text_of rest)
    | None => s
    end
  else s.

(** [strings.SplitN(rest, " ", n)] for [n > 0]. *)
Fixpoint split_space (n : nat) (s : string) : list string :=
  match n with
  | O => []
  | 1%nat => [s]
  | S n' => match cut_at " " s with Some (a, b) => a :: split_space n' b | None => [s] end
  end.

Definition parse5424 (rest : string) (e : Event) : option Event :=
  if negb (strings_HasPrefix rest "1 ") then None
  else
    match split_space 7 rest with
    | [_; ts; host; app; _; _; msg] =>
      let e := match parse_RFC3339 ts with Some t => set_Timestamp t e | None => e end in
      Some (set_Message (stripStructuredData msg)
              (set_Parsed true (set_App (dashToEmpty app) (set_Host (dashToEmpty host) e))))
    | _ => None
    end.

Definition parse3164 (rest : string) (e : Event) : option Event :=
  if (String.length rest <? 16)%nat then None
  else
    match parse_Stamp (str_take 15 rest) with
    | None => None
    | Some ts =>
      let e := set_Timestamp (stamp_in_year (time_Year (e_Timestamp e)) ts) e in
      let remain := strings_TrimSpace (str_drop 15 rest) in
      match IndexByte remain " " with
      | None => Some (set_Parsed true (set_Message remain e))
      | Some sp =>
        let e := set_Host (str_take sp remain) e in
        let tail := strings_TrimSpace (str_drop (sp + 1) remain) in
        let e :=
          match IndexByte tail ":" with
          | Some colon =>
            if (0 <? colon)%nat && (colon <? 64)%nat then
              let tag := str_take colon tail in
              let tag := match IndexByte tag "[" with Some br => str_take br tag | None => tag end in
              set_Message (strings_TrimSpace (str_drop (colon + 1) tail)) (set_App tag e)
            else set_Message tail e
          | None => set_Message tail e
          end in
        Some (set_Parsed true e)
      end
    end.

(** A new event: what the composite literals leave out is zero. *)
Definition newEvent (now : Z) (src srcID host app : string) (msg raw : string) (parsed : bool) : Event :=
  mkEvent now src srcID host app (-1) msg AuthNone "" "" "" 0 0 "" "" "" 0 raw parsed.

Definition ParseSyslog (line : string) (now : Z) : Event :=
  let line := trim_eol line in
  let e := newEvent now SourceSyslog "" "" "" "" line false in
  let e :=
    match splitPriority line with
    | Some (pri, rest) =>
      let e := set_Severity (pri mod 8) e in
      match parse5424 rest e with
      | Some ev => ev
      | None => match parse3164 rest e with Some ev => ev | None => set_Message rest e end
      end
    | None => set_Message line e
    end in
  extractFields e.

Definition ParseLine (srcType srcID host app line : string) (now : Z) : Event :=
  let trimmed := trim_eol line in
  let e := newEvent now srcType srcID host app trimmed line true in
  let e :=
    match parse3164 trimmed e with
    | None => e
    | Some ev =>
      let e' := set_SourceID srcID (set_Source srcType ev) in
      let e' := if is_empty host then e' else set_Host host e' in
      let e' := if is_empty app then e' else set_App app e' in
      set_Parsed true (set_Message (strings_TrimSpace (e_Message e')) e')
    end in
  extractFields e.

(** * The readers *)

(** [tag] of a syslog listener of kind [kind]. *)
Definition tag (id kind : string) (e : Event) : Event :=
  let e := set_SourceID id e in
  if str_eqb kind SourceWindows then set_Source SourceWindows e else e.

(** One datagram of [runUDP]: the buffer takes 64 KiB of it. *)
Definition udp_event (id kind : string) (now : Z) (datagram : bytes) : Event :=
  tag id kind (ParseSyslog (string_of_bytes (take (64 * 1024) datagram)) now).

(** [bufio.Scanner] over a whole stream with a buffer of at most [max] bytes: the
    lines without their end, up to the first that does not fit. *)
Fixpoint scan_lines (max : nat) (cur s : bytes) : list bytes :=
  let drop_cr b := match last b with Some 13 => take (length b - 1) b | _ => b end in
  match s with
  | [] => match cur with [] => [] | _ => if (max <=? length cur)%nat then [] else [drop_cr cur] end
  | c :: s' =>
    if c =? 10 then
      if (max <=? length cur)%nat then [] else drop_cr cur :: scan_lines max [] s'
    else scan_lines max (cur ++ [c]) s'
  end.

Definition maxLine : nat := Z.to_nat (2 ^ 20).

(** [handleConn]: one connection's stream. *)
Definition conn_events (id kind : string) (now : Z) (stream : bytes) : list Event :=
  map (λ l, tag id kind (ParseSyslog (string_of_bytes l) now)) (scan_lines maxLine [] stream).

(** [CommandSource.Run]: the output of the command. *)
Definition command_events (kind id host app : string) (now : Z) (stdout : bytes) : list Event :=
  map (λ l, ParseLine kind id host app (string_of_bytes l) now) (scan_lines maxLine [] stdout).
End parse.

(** * Lemmas *)

(** ** The year of an instant *)

Lemma days_before_year_mono y y' : y <= y' → days_before_year y <= days_before_year y'.
Proof. unfold days_before_year. intros. Z.to_euclidean_division_equations. lia. Qed.

Lemma year_days y : 365 <= days_before_year (y + 1) - days_before_year y <= 366.
Proof. unfold days_before_year. Z.to_euclidean_division_equations. lia. Qed.

Definition day_of (t : Z) : Z := t / (86400 * Second).

Lemma time_Year_spec t :
  days_before_year (time_Year t) <= day_of t < days_before_year (time_Year t + 1).
Proof.
  unfold time_Year. fold (day_of t). generalize (day_of t). intros d.
  assert (days_before_year (d * 400 / 146097 + 1 - 1) <= d < days_before_year (d * 400 / 146097 + 1 + 2)) as H.
  { unfold days_before_year. Z.to_euclidean_division_equations. lia. }
  set (y := d * 400 / 146097 + 1) in *.
  destruct (Z.ltb_spec d (days_before_year y)); [replace (y - 1 + 1) with y by lia; lia|].
  destruct (Z.leb_spec (days_before_year (y + 1)) d); [|lia].
  replace (y + 1 + 1) with (y + 2) by lia. lia.
Qed.

Lemma time_Year_ge t y : days_before_year y <= day_of t → y <= time_Year t.
Proof.
  intros Hd. destruct (time_Year_spec t) as [_ Hlt]. destruct (Z.le_gt_cases y (time_Year t)); [done|].
  pose proof (days_before_year_mono (time_Year t + 1) y). lia.
Qed.

(** ** Dates *)

Record stamp_ok (p : stamp) : Prop := {
  so_month : 1 <= sp_month p <= 12;
  so_day : 1 <= sp_day p;
  so_hour : 0 <= sp_hour p;
  so_min : 0 <= sp_min p;
  so_sec : 0 <= sp_sec p;
  so_nsec : 0 <= sp_nsec p;
}.

Lemma getnum_nonneg fixed s n rest : getnum fixed s = Some (n, rest) → 0 <= n.
Proof.
  unfold getnum. destruct s as [|a s]; [done|]. unfold is_digit.
  destruct ((48 <=? a) && (a <=? 57)) eqn:Ha; [|done]. to_prop.
  destruct s as [|b s]; [destruct fixed; [done|]; intros [= <- _]; lia|].
  destruct ((48 <=? b) && (b <=? 57)) eqn:Hb; [to_prop; intros [= <- _]; lia|].
  destruct fixed; [done|]. intros [= <- _]; lia.
Qed.

Lemma digits_value_nonneg s : ∀ acc n, 0 <= acc → digits_value acc s = Some n → 0 <= n.
Proof.
  induction s as [|c s IH]; intros acc n Hacc; cbn; [by intros [= <-]|].
  unfold is_digit. destruct ((48 <=? c) && (c <=? 57)) eqn:Hc; [|done]. to_prop. apply IH. lia.
Qed.

Lemma parse_fraction_nonneg s : 0 <= (parse_fraction s).1.
Proof.
  unfold parse_fraction. destruct s as [|p [|d rest]]; [cbn; lia|cbn; lia|].
  destruct (_ && _); [|cbn; lia]. cbn [fst].
  destruct (digits_value 0 _) as [n|] eqn:Hn; cbn [default]; [|lia].
  by eapply digits_value_nonneg in Hn.
Qed.

Lemma parse_month_range s m rest : parse_month s = Some (m, rest) → 1 <= m <= 12.
Proof.
  unfold parse_month. destruct (list_find _ _) as [[i w]|] eqn:Hf; [|done].
  intros [= <- _]. apply list_find_Some in Hf as (Hi & _). apply lookup_lt_Some in Hi. cbn in Hi. lia.
Qed.

Lemma parse_Stamp_ok s p : parse_Stamp s = Some p → stamp_ok p.
Proof.
  unfold parse_Stamp. intros Hp.
  apply bind_Some in Hp as ([mo s1] & Hmo & Hp). apply bind_Some in Hp as (s2 & _ & Hp).
  apply bind_Some in Hp as ([d s3] & Hd & Hp). apply bind_Some in Hp as (s4 & _ & Hp).
  apply bind_Some in Hp as ([h s5] & Hh & Hp). apply bind_Some in Hp as (s6 & _ & Hp).
  apply bind_Some in Hp as ([mi s7] & Hmi & Hp). apply bind_Some in Hp as (s8 & _ & Hp).
  apply bind_Some in Hp as ([sec s9] & Hsec & Hp).
  pose proof (parse_fraction_nonneg s9) as Hns. destruct (parse_fraction s9) as [ns s10]. cbn in Hns.
  destruct (_ && _) eqn:Hc; [|done]. injection Hp as <-. to_prop.
  split; cbn; try done; try (by eapply getnum_nonneg).
  by eapply parse_month_range.
Qed.

Lemma month_start_nonneg m : 0 <= month_start m.
Proof.
  unfold month_start. destruct (Z.to_nat (m - 1)) as [|[|[|[|[|[|[|[|[|[|[|[|n]]]]]]]]]]]]; cbn; try lia.
  by destruct n.
Qed.

(** A parsed date is in the year it is put in, or after. *)
Lemma stamp_in_year_ge y p : stamp_ok p →
  (days_before_year y + month_start (sp_month p)) * (86400 * Second) <= stamp_in_year y p.
Proof.
  intros [Hm Hd Hh Hmi Hs Hn]. unfold stamp_in_year, time_Date.
  pose proof (month_start_nonneg (sp_month p)). destruct (_ && _); unfold Second; lia.
Qed.

(** ** Field extraction leaves the header alone *)

Section frame.
Context `{UnicodeTables} `{LogCodec}.

Lemma fromWazuh_time e e' : fromWazuh e = Some e' →
  e_Timestamp e' = e_Timestamp e ∧ e_Raw e' = e_Raw e ∧ e_Source e' = e_Source e ∧
  e_SourceID e' = e_SourceID e.
Proof. unfold fromWazuh. intros Hw. repeat case_match; try discriminate; injection Hw as <-; done. Qed.

Lemma fromHFS_time e e' : fromHFS e = Some e' →
  e_Timestamp e' = e_Timestamp e ∧ e_Raw e' = e_Raw e ∧ e_Source e' = e_Source e ∧
  e_SourceID e' = e_SourceID e.
Proof. unfold fromHFS. intros Hw. repeat case_match; try discriminate; injection Hw as <-; done. Qed.

Definition header (e : Event) := (e_Timestamp e, e_Raw e, e_Source e, e_SourceID e).

Lemma extract_header msg low e :
  header (extract_flow msg low (extract_admin low (extract_auth low
    (extract_windows msg (extract_names msg e))))) = header e.
Proof.
  transitivity (header (extract_admin low (extract_auth low (extract_windows msg (extract_names msg e))))).
  { unfold extract_flow. by repeat case_match. }
  transitivity (header (extract_auth low (extract_windows msg (extract_names msg e)))).
  { unfold extract_admin. destruct (negb _); [done|]. by repeat match goal with |- context [if ?b then _ else _] => destruct b end. }
  transitivity (header (extract_windows msg (extract_names msg e))).
  { unfold extract_auth. by repeat match goal with |- context [if ?b then _ else _] => destruct b end. }
  transitivity (header (extract_names msg e)).
  { unfold extract_windows. by repeat match goal with |- context [if ?b then _ else _] => destruct b end. }
  unfold extract_names. by repeat case_match.
Qed.

Lemma extractFields_header e : header (extractFields e) = header e.
Proof.
  unfold extractFields. destruct (fromWazuh e) as [e'|] eqn:Hw.
  { apply fromWazuh_time in Hw as (? & ? & ? & ?). unfold header. congruence. }
  destruct (fromHFS e) as [e'|] eqn:Hh; [|apply extract_header].
  apply fromHFS_time in Hh as (? & ? & ? & ?). unfold header. congruence.
Qed.
End frame.

Lemma header_eq e e' : header e' = header e →
  e_Timestamp e' = e_Timestamp e ∧ e_Raw e' = e_Raw e ∧ e_Source e' = e_Source e ∧
  e_SourceID e' = e_SourceID e.
Proof. unfold header. by intros [= -> -> -> ->]. Qed.

Section times.
Context `{UnicodeTables} `{LogCodec}.

Lemma parse3164_time rest e e' : parse3164 rest e = Some e' →
  ∃ p, parse_Stamp (str_take 15 rest) = Some p ∧
    e_Timestamp e' = stamp_in_year (time_Year (e_Timestamp e)) p ∧ e_Raw e' = e_Raw e.
Proof.
  unfold parse3164. destruct (_ <? _)%nat; [done|].
  destruct (parse_Stamp _) as [p|] eqn:Hp; [|done]. intros He. exists p. split; [done|].
  repeat case_match; by injection He as <-.
Qed.

(** What [ParseLine] takes a line's time from. *)
Lemma ParseLine_time srcType srcID host app line now :
  let e := ParseLine srcType srcID host app line now in
  e_Raw e = line ∧ e_Source e = srcType ∧ e_SourceID e = srcID ∧
  (e_Timestamp e = now ∨
   ∃ p, parse_Stamp (str_take 15 (trim_eol line)) = Some p ∧ e_Timestamp e = stamp_in_year (time_Year now) p).
Proof.
  intros e. subst e. unfold ParseLine.
  set (e0 := newEvent now srcType srcID host app (trim_eol line) line true).
  destruct (parse3164 (trim_eol line) e0) as [ev|] eqn:Hp.
  - apply parse3164_time in Hp as (p & Hp & Ht & Hr).
    set (e1 := set_Parsed true _).
    destruct (header_eq _ _ (extractFields_header e1)) as (-> & -> & -> & ->).
    assert (e_Timestamp e1 = e_Timestamp ev ∧ e_Raw e1 = e_Raw ev ∧ e_Source e1 = srcType ∧
      e_SourceID e1 = srcID) as (-> & -> & -> & ->).
    { subst e1. by destruct (is_empty host), (is_empty app). }
    rewrite Hr, Ht. split_and!; [done|done|done|]. right. by exists p.
  - destruct (header_eq _ _ (extractFields_header e0)) as (-> & -> & -> & ->).
    split_and!; [done|done|done|by left].
Qed.
End times.

(** ** Ranges *)

(** What every parsed event satisfies. *)
Record event_ok (e : Event) : Prop := {
  ok_Severity : -1 <= e_Severity e <= 7;
  ok_Auth : e_Auth e ∈ [AuthNone; AuthFailure; AuthSuccess];
  ok_Action : e_Action e ∈ [""; "new_admin"; "accept"; "deny"];
  ok_DstPort : 0 <= e_DstPort e <= 65535;
  ok_BytesOut : in_int64 (e_BytesOut e);
}.

(** The fields it speaks of. *)
Definition ranged (e : Event) := (e_Severity e, e_Auth e, e_Action e, e_DstPort e, e_BytesOut e).

Lemma event_ok_same e e' : ranged e' = ranged e → event_ok e → event_ok e'.
Proof. unfold ranged. intros [= Hs Ha Hc Hd Hb] [? ? ? ? ?]. split; congruence. Qed.

Lemma set_Auth_ok v e : v ∈ [AuthNone; AuthFailure; AuthSuccess] → event_ok e → event_ok (set_Auth v e).
Proof. intros Hv []. by split. Qed.
Lemma set_Action_ok v e : v ∈ [""; "new_admin"; "accept"; "deny"] → event_ok e → event_ok (set_Action v e).
Proof. intros Hv []. by split. Qed.
Lemma set_Severity_ok v e : -1 <= v <= 7 → event_ok e → event_ok (set_Severity v e).
Proof. intros Hv []. by split. Qed.
Lemma set_DstPort_ok v e : 0 <= v <= 65535 → event_ok e → event_ok (set_DstPort v e).
Proof. intros Hv []. by split. Qed.
Lemma set_BytesOut_ok v e : in_int64 v → event_ok e → event_ok (set_BytesOut v e).
Proof. intros Hv []. by split. Qed.

(** Walk through a sequence of assignments. *)
Ltac ok_step :=
  match goal with
  | H : event_ok ?e |- event_ok ?e => exact H
  | |- event_ok (let x := ?v in @?b x) =>
      lazymatch type of v with
      | Event => let Hv := fresh in
                 assert (event_ok v) as Hv; [|revert Hv; generalize v; intros ? Hv; cbv beta]
      | _ => change (event_ok (b v)); cbv beta
      end
  | |- event_ok (if ?b then _ else _) => destruct b eqn:?
  | |- event_ok (match ?x with _ => _ end) => destruct x eqn:?
  | |- event_ok (set_Auth _ _) => apply set_Auth_ok; [try (repeat constructor; fail)|]
  | |- event_ok (set_Action _ _) => apply set_Action_ok; [repeat constructor|]
  | |- event_ok (set_Severity _ _) => apply set_Severity_ok
  | |- event_ok (set_DstPort _ _) => apply set_DstPort_ok; [to_prop; try lia|]
  | |- event_ok (set_BytesOut _ _) => apply set_BytesOut_ok; [done|]
  | |- event_ok (?f _ ?e) => apply (event_ok_same e); [reflexivity|]
  end.

Lemma Atoi_range s n : strconv_Atoi s = Some n → in_int64 n.
Proof.
  unfold strconv_Atoi. destruct (bytes_of_string s) as [|c rest]; [done|].
  assert (∀ k : Z, (if (MinInt64 <=? k) && (k <=? MaxInt64) then Some k else None) = Some n → in_int64 n) as Hk.
  { intros k. destruct (_ && _) eqn:Hr; [|done]. to_prop. intros [= <-]. by split. }
  destruct ((c =? 43) || (c =? 45)).
  - destruct rest; [done|]. intros Hb. apply bind_Some in Hb as (m & _ & Hm). by eapply Hk.
  - intros Hb. apply bind_Some in Hb as (m & _ & Hm). by eapply Hk.
Qed.

Lemma findDstPort_range msg : 0 <= findDstPort msg <= 65535.
Proof.
  unfold findDstPort. destruct (_ ≫= _) as [n|]; [|lia].
  destruct ((0 <? n) && (n <? 65536)) eqn:Hn; [to_prop; lia|lia].
Qed.

Lemma findBytes_range msg : in_int64 (findBytes msg).
Proof.
  unfold findBytes. destruct (_ ≫= _) as [n|] eqn:Hn; cbn; [|int_lia].
  apply bind_Some in Hn as (m & _ & Hm). by eapply Atoi_range.
Qed.

Section ranges.
Context `{UnicodeTables} `{LogCodec}.

Lemma group_auth_ok gs : ∀ a, a ∈ [AuthNone; AuthFailure; AuthSuccess] →
  foldl group_auth a gs ∈ [AuthNone; AuthFailure; AuthSuccess].
Proof.
  induction gs as [|g gs IH]; intros a Ha; cbn [foldl]; [done|]. apply IH. unfold group_auth.
  repeat case_match; set_solver.
Qed.

Lemma fromWazuh_ok e e' : fromWazuh e = Some e' → event_ok e → event_ok e'.
Proof.
  unfold fromWazuh. intros Hw He. destruct (negb _); [done|]. destruct (_ && _); [done|].
  destruct (unmarshal_wazuh _) as [a|]; [|done]. destruct (is_empty (wz_ID a)); [done|].
  assert (-1 <= wazuhSyslogSeverity (wz_Level a) <= 7) as Hs.
  { unfold wazuhSyslogSeverity. repeat case_match; lia. }
  set (e1 := set_Parsed true _) in Hw. set (e2 := set_Severity _ _) in Hw.
  assert (event_ok e2) as He2 by (subst e2 e1; repeat ok_step; done). clearbody e2. clear e1.
  destruct (isHexwardRule _); injection Hw as <-; [repeat ok_step|].
  set (e3 := match strconv_Atoi _ with Some _ => _ | None => _ end).
  assert (event_ok e3) as He3 by (subst e3; repeat ok_step). clearbody e3.
  repeat ok_step. apply group_auth_ok, He3.
Qed.

Lemma fromHFS_ok e e' : fromHFS e = Some e' → event_ok e → event_ok e'.
Proof.
  unfold fromHFS. intros Hw He. repeat case_match; try discriminate; injection Hw as <-; repeat ok_step.
Qed.

Lemma extract_ok msg low e : event_ok e → event_ok (extract_flow msg low (extract_admin low
  (extract_auth low (extract_windows msg (extract_names msg e))))).
Proof.
  intros He.
  assert (event_ok (extract_names msg e)) as H1.
  { apply (event_ok_same e); [|done]. unfold extract_names. by repeat case_match. }
  assert (event_ok (extract_windows msg (extract_names msg e))) as H2.
  { unfold extract_windows. repeat ok_step. }
  assert (event_ok (extract_auth low (extract_windows msg (extract_names msg e)))) as H3.
  { unfold extract_auth. repeat ok_step. }
  assert (event_ok (extract_admin low (extract_auth low (extract_windows msg (extract_names msg e))))) as H4.
  { unfold extract_admin. repeat ok_step. }
  pose proof (findDstPort_range msg). pose proof (findBytes_range msg).
  unfold extract_flow. repeat ok_step.
Qed.

Lemma extractFields_ok e : event_ok e → event_ok (extractFields e).
Proof.
  intros He. unfold extractFields. destruct (fromWazuh e) as [e'|] eqn:Hw; [by eapply fromWazuh_ok|].
  destruct (fromHFS e) as [e'|] eqn:Hh; [by eapply fromHFS_ok|]. by apply extract_ok.
Qed.

Lemma newEvent_ok now src id host app msg raw p : event_ok (newEvent now src id host app msg raw p).
Proof. split; cbn; [lia|set_solver|set_solver|lia|int_lia]. Qed.

Lemma parse3164_ok rest e e' : parse3164 rest e = Some e' → event_ok e → event_ok e'.
Proof.
  unfold parse3164. intros Hp He. repeat case_match; try discriminate; injection Hp as <-; repeat ok_step.
Qed.

Lemma parse5424_ok rest e e' : parse5424 rest e = Some e' → event_ok e → event_ok e'.
Proof.
  unfold parse5424. intros Hp He. repeat case_match; try discriminate; injection Hp as <-; repeat ok_step.
Qed.
End ranges.

Lemma ParseLine_ok `{UnicodeTables} `{LogCodec} srcType srcID host app line now :
  event_ok (ParseLine srcType srcID host app line now).
Proof.
  unfold ParseLine. apply extractFields_ok.
  pose proof (newEvent_ok now srcType srcID host app (trim_eol line) line true) as Hn.
  destruct (parse3164 _ _) as [ev|] eqn:Hp; [|done]. eapply parse3164_ok in Hp; [|done]. repeat ok_step.
Qed.

Lemma ParseSyslog_ok `{UnicodeTables} `{LogCodec} line now : event_ok (ParseSyslog line now).
Proof.
  unfold ParseSyslog. apply extractFields_ok.
  pose proof (newEvent_ok now SourceSyslog "" "" "" "" (trim_eol line) false) as Hn.
  destruct (splitPriority (trim_eol line)) as [[pri rest]|]; [|repeat ok_step].
  assert (event_ok (set_Severity (pri mod 8) (newEvent now SourceSyslog "" "" "" "" (trim_eol line) false))) as Hs.
  { apply set_Severity_ok; [|done]. pose proof (Z.mod_pos_bound pri 8). lia. }
  destruct (parse5424 rest _) as [ev|] eqn:H5; [by eapply parse5424_ok in H5|].
  destruct (parse3164 rest _) as [ev|] eqn:H3; [by eapply parse3164_ok in H3|]. repeat ok_step.
Qed.

(** * Properties *)


(** A line that is not from a syslog listener always carries a time: on any
    clock past the first year the event's timestamp is after the zero time, and it
    is the clock's or the date at the front of the line in the clock's year, so no
    detector window or cooldown ever computes with a zero time. *)
Theorem ParseLine_has_time `{UnicodeTables} `{LogCodec} srcType srcID host app line now :
  366 * (86400 * Second) <= now →
  0 < e_Timestamp (ParseLine srcType srcID host app line now) ∧
  (e_Timestamp (ParseLine srcType srcID host app line now) = now ∨
   ∃ p, parse_Stamp (str_take 15 (trim_eol line)) = Some p ∧
     e_Timestamp (ParseLine srcType srcID host app line now) = stamp_in_year (time_Year now) p).
Proof.
  intros Hnow. destruct (ParseLine_time srcType srcID host app line now) as (_ & _ & _ & Ht).
  split; [|done]. destruct Ht as [->|(p & Hp & ->)]; [unfold Second in *; lia|].
  apply parse_Stamp_ok in Hp.
  assert (2 <= time_Year now) as Hy.
  { apply time_Year_ge. unfold day_of. change (days_before_year 2) with 365.
    apply Z.div_le_lower_bound; [done|]. unfold Second in *. lia. }
  pose proof (stamp_in_year_ge (time_Year now) p Hp) as Hge.
  pose proof (days_before_year_mono 2 (time_Year now) Hy) as Hmono.
  change (days_before_year 2) with 365 in Hmono.
  pose proof (month_start_nonneg (sp_month p)). unfold Second in *. nia.
Qed.

(** The year of a syslog header is guessed from the clock and never checked
    against it: a line written in December and read in January is dated in the
    December to come, more than 300 days ahead of the clock, and every window and
    cooldown it touches is computed with that date. *)
Theorem december_line_is_future `{UnicodeTables} `{LogCodec} srcType srcID host app line now p :
  parse_Stamp (str_take 15 (trim_eol line)) = Some p → sp_month p = 12 →
  (15 < String.length (trim_eol line))%nat →
  now < (days_before_year (time_Year now) + 31) * (86400 * Second) →
  now + 300 * (86400 * Second) < e_Timestamp (ParseLine srcType srcID host app line now).
Proof.
  intros Hp Hm Hlen Hnow.
  assert (e_Timestamp (ParseLine srcType srcID host app line now) = stamp_in_year (time_Year now) p) as ->.
  { unfold ParseLine. set (e0 := newEvent _ _ _ _ _ _ _ _).
    destruct (parse3164 (trim_eol line) e0) as [ev|] eqn:H3.
    - apply parse3164_time in H3 as (p' & Hp' & Hts & _).
      rewrite Hp in Hp'. injection Hp' as <-. change (e_Timestamp e0) with now in Hts.
      match goal with |- e_Timestamp (extractFields ?e1) = _ =>
        destruct (header_eq _ _ (extractFields_header e1)) as (-> & _) end.
      rewrite <-Hts. by destruct (is_empty host), (is_empty app).
    - unfold parse3164 in H3. rewrite Hp in H3.
      destruct (Nat.ltb_spec (String.length (trim_eol line)) 16); [lia|].
      by repeat case_match. }
  pose proof (stamp_in_year_ge (time_Year now) p (parse_Stamp_ok _ _ Hp)) as Hge.
  rewrite Hm in Hge. change (month_start 12) with 334 in Hge. unfold Second in *. lia.
Qed.

(** ** Concrete inputs *)

Section examples.
#[local] Instance exTables : UnicodeTables := λ r, r.
#[local] Instance exCodec : LogCodec := {|
  unmarshal_wazuh _ := None;
  unmarshal_hfs _ := Some (mkHFS "hexward.finding/1" "opened" "decoy" "203.0.113.9" "bait.touched"
    "Bait touched product=evil severity=critical" "web" "critical");
  format_shortest _ := ""; parse_RFC3339 _ := None |}.

(** December 31 at noon, parsed ten seconds into 2026. *)
Definition exNow : Z := time_Date 2026 1 1 0 0 10 0.
Definition exLine : string := "Dec 31 12:00:00 web sshd[7]: Failed password for root from 203.0.113.9 port 22 ssh2".

Lemma ParseLine_has_time_witness :
  366 * (86400 * Second) <= exNow ∧ 0 < e_Timestamp (ParseLine SourceFile "auth" "" "" exLine exNow).
Proof.
  assert (366 * (86400 * Second) <= exNow) as Hn by (vm_compute; discriminate).
  split; [exact Hn|]. exact (proj1 (ParseLine_has_time SourceFile "auth" "" "" exLine exNow Hn)).
Defined.

Lemma december_line_is_future_witness :
  exNow + 300 * (86400 * Second) < e_Timestamp (ParseLine SourceFile "auth" "" "" exLine exNow).
Proof.
  apply (december_line_is_future SourceFile "auth" "" "" exLine exNow (mkStamp 12 31 12 0 0 0)).
  - vm_compute. reflexivity.
  - reflexivity.
  - vm_compute. lia.
  - vm_compute. reflexivity.
Defined.

(** The fields of that line, and of the same behind a priority. *)
Example ex_parse_line :
  let e := ParseLine SourceFile "auth" "" "" exLine exNow in
  (e_Host e, e_App e, e_Auth e, e_User e, e_SrcIP e) = ("web", "sshd", AuthFailure, "root", "203.0.113.9").
Proof. vm_compute. reflexivity. Qed.

Example ex_parse_syslog :
  let e := ParseSyslog (sprint ["<38>"; exLine]) exNow in
  (e_Severity e, e_Host e, e_App e, e_Auth e, e_SrcIP e) = (6, "web", "sshd", AuthFailure, "203.0.113.9").
Proof. vm_compute. reflexivity. Qed.

(** A finding's title is copied into the text that the findings detector reads:
    a title that names a product stands before the real one. *)
Example hfs_title_injection :
  let e := ParseSyslog (sprint [String (ascii_of_byte 123) (quoted_key "hexward.finding/1"); "}"]) exNow in
  FindStringSubmatch (seqs [WordB; lit "product="; Group (Plus (Class is_lower))]) (e_Message e) = Some "evil".
Proof. vm_compute. reflexivity. Qed.

(** The structured data of RFC 5424 is cut off, a dash stands for nothing. *)
Example ex_5424 :
  let e := ParseSyslog "<165>1 2026-07-10T22:14:15Z fw app - ID47 [x@1 a=1][y] link up" 5 in
  (e_Severity e, e_Host e, e_App e, e_Message e, e_Parsed e) = (5, "fw", "app", "[y] link up", true).
Proof. vm_compute. reflexivity. Qed.
End examples.
