(* ===== verification/Detect.v ===== *)
(** The detectors: [src/detect/detect.go], [src/detect/detectors.go] and
    [src/detect/traffic_detectors.go]. *)
From S2P Require Import Prelude Text Float Netip Ingest Window Regexp.
Local Open Scope Z_scope.

(** * Detections and configuration *)

Definition KindBruteForce : string := "brute_force".
Definition KindScan : string := "scan".
Definition KindExfil : string := "exfil".
Definition KindNewAdmin : string := "new_admin".
Definition KindAuthSpike : string := "auth_spike".
Definition KindBeacon : string := "beacon".
Definition KindNewService : string := "new_service".
Definition KindSentinel : string := "sentinel_finding".

Definition SevCritical : string := "critical".
Definition SevHigh : string := "high".
Definition SevMedium : string := "medium".
Definition SevLow : string := "low".

Record Detection := mkDetection {
  d_Kind : string;
  d_Severity : string;
  d_Actor : string;
  d_Target : string;
  d_User : string;
  d_Title : string;
  d_Detail : string;
  d_Count : Z;
  d_FirstAt : Z;
  d_LastAt : Z;
  d_Evidence : list string;
  d_Key : string;
}.

Record Config := mkConfig {
  BruteFailures : Z;
  BruteWindow : Z;
  ScanPorts : Z;
  ScanWindow : Z;
  ExfilBytes : Z;
  ExfilFactor : float64;
  ExfilWindow : Z;
  SpikeMin : Z;
  SpikeWindow : Z;
  BeaconMin : Z;
  BeaconMinGap : Z;
  BeaconMaxGap : Z;
  BeaconMaxCV : float64;
  NewServiceLearn : Z;
  Cooldown : Z;
  EvidenceMax : Z;
}.

Definition or_default (d v : Z) : Z := if v =? 0 then d else v.
Definition or_default_f (d v : float64) : float64 := if f_eqb v f_zero then d else v.

Definition withDefaults (c : Config) : Config := {|
  BruteFailures := or_default 8 (BruteFailures c);
  BruteWindow := or_default (60 * Second) (BruteWindow c);
  ScanPorts := or_default 10 (ScanPorts c);
  ScanWindow := or_default (30 * Second) (ScanWindow c);
  ExfilBytes := or_default (Z.shiftl 50 20) (ExfilBytes c);
  ExfilFactor := or_default_f (f_of_int 4) (ExfilFactor c);
  ExfilWindow := or_default (60 * Second) (ExfilWindow c);
  SpikeMin := or_default 20 (SpikeMin c);
  SpikeWindow := or_default (60 * Second) (SpikeWindow c);
  BeaconMin := or_default 8 (BeaconMin c);
  BeaconMinGap := or_default (10 * Second) (BeaconMinGap c);
  BeaconMaxGap := or_default Hour (BeaconMaxGap c);
  BeaconMaxCV := or_default_f (f_const 2 10) (BeaconMaxCV c);
  NewServiceLearn := or_default (30 * Minute) (NewServiceLearn c);
  Cooldown := or_default (5 * Minute) (Cooldown c);
  EvidenceMax := or_default 5 (EvidenceMax c);
|}.

(** [Config{}], the configuration the binary runs with. *)
Definition zeroConfig : Config :=
  mkConfig 0 0 0 0 0 f_zero 0 0 0 0 0 0 f_zero 0 0 0.

(** * Helpers *)

Definition evidenceKeep (ev : list string) (line : string) (max : Z) : list string :=
  if (max <=? Z.of_nat (length ev)) || is_empty line then ev else ev ++ [line].

Definition orAny (s : string) : string := if is_empty s then "any" else s.

Fixpoint human_scale (fuel : nat) (n div exp : Z) : Z * Z :=
  match fuel with
  | O => (div, exp)
  | S fuel' => if 1024 <=? n then human_scale fuel' (n / 1024) (div * 1024) (exp + 1) else (div, exp)
  end.

(** An [int64] is divided at most six times. *)
Definition humanBytes (b : Z) : string :=
  if b <? 1024 then dec b +:+ " B"
  else
    let '(div, exp) := human_scale 7 (b / 1024) 1024 0 in
    sprint [format_fixed 1 (f_div (f_of_int b) (f_of_int div)); " ";
            String.substring (Z.to_nat exp) 1 "KMGTPE"; "B"].

Definition humanInterval (sec : float64) : string :=
  duration_String (duration_Round (f_to_int64 (f_mul sec (f_of_int Second))) Second).

(** [isInternalIP], the detectors' notion of an internal address. *)
Definition isInternalIP (ip : string) : bool := is_internal ip.

(** Appending to the evidence of a key. *)
Definition keep_evid (k line : string) (max : Z) (m : gmap string (list string)) :
    gmap string (list string) :=
  <[k := evidenceKeep (map_get [] m k) line max]> m.

(** Setting a key that is not there yet. *)
Definition set_first (k : string) (t : Z) (m : gmap string Z) : gmap string Z :=
  match m !! k with Some _ => m | None => <[k := t]> m end.

(** * Brute force *)

Record bruteForce := mkBrute {
  bf_cfg : Config;
  bf_count : slidingCounter;
  bf_cool : cooldown;
  bf_first : gmap string Z;
  bf_evid : gmap string (list string);
}.

Definition newBruteForce (c : Config) : bruteForce :=
  mkBrute c (newSlidingCounter (BruteWindow c)) (newCooldown (Cooldown c)) ∅ ∅.

Definition bruteForce_observe (e : Event) (b : bruteForce) : bruteForce * option Detection :=
  if negb (str_eqb (e_Auth e) AuthFailure) then (b, None)
  else
    let actor := Actor e in
    if is_empty actor then (b, None)
    else
      let first := set_first actor (e_Timestamp e) (bf_first b) in
      let evid := keep_evid actor (e_Raw e) (EvidenceMax (bf_cfg b)) (bf_evid b) in
      let '(count, n) := slidingCounter_add actor (e_Timestamp e) (bf_count b) in
      if n <? BruteFailures (bf_cfg b) then (mkBrute (bf_cfg b) count (bf_cool b) first evid, None)
      else
        let '(cool, ok) := firable ("bf:" +:+ actor) (e_Timestamp e) (bf_cool b) in
        if negb ok then (mkBrute (bf_cfg b) count cool first evid, None)
        else
          let d := {|
            d_Kind := KindBruteForce; d_Severity := SevHigh; d_Actor := actor;
            d_Target := e_Host e; d_User := e_User e;
            d_Title := sprint ["Brute force: "; dec n; " failed logins from "; actor];
            d_Detail := sprint [dec n; " authentication failures within ";
              duration_String (BruteWindow (bf_cfg b)); " (target "; orAny (e_Host e); ")."];
            d_Count := n;
            d_FirstAt := map_get 0 first actor; d_LastAt := e_Timestamp e;
            d_Evidence := map_get [] evid actor;
            d_Key := "brute|" +:+ actor |} in
          (mkBrute (bf_cfg b) (slidingCounter_reset actor count) cool
             (delete actor first) (delete actor evid), Some d).

(** * Port scan *)

Record scan := mkScan {
  sn_cfg : Config;
  sn_ports : distinctWindow;
  sn_cool : cooldown;
  sn_first : gmap string Z;
  sn_evid : gmap string (list string);
}.

Definition newScan (c : Config) : scan :=
  mkScan c (newDistinctWindow (ScanWindow c)) (newCooldown (Cooldown c)) ∅ ∅.

Definition scan_observe (e : Event) (s : scan) : scan * option Detection :=
  let src := e_SrcIP e in
  if is_empty src || (e_DstPort e =? 0) then (s, None)
  else
    let first := set_first src (e_Timestamp e) (sn_first s) in
    let evid := keep_evid src (e_Raw e) (EvidenceMax (sn_cfg s)) (sn_evid s) in
    let '(ports, n) := distinctWindow_add src (dec (e_DstPort e)) (e_Timestamp e) (sn_ports s) in
    if n <? ScanPorts (sn_cfg s) then (mkScan (sn_cfg s) ports (sn_cool s) first evid, None)
    else
      let '(cool, ok) := firable ("scan:" +:+ src) (e_Timestamp e) (sn_cool s) in
      if negb ok then (mkScan (sn_cfg s) ports cool first evid, None)
      else
        let d := {|
          d_Kind := KindScan; d_Severity := SevMedium; d_Actor := src; d_Target := e_Host e;
          d_User := "";
          d_Title := sprint ["Port scan: "; src; " hit "; dec n; " distinct ports"];
          d_Detail := sprint [dec n; " distinct destination ports within ";
            duration_String (ScanWindow (sn_cfg s)); "."];
          d_Count := n;
          d_FirstAt := map_get 0 first src; d_LastAt := e_Timestamp e;
          d_Evidence := map_get [] evid src;
          d_Key := "scan|" +:+ src |} in
        (mkScan (sn_cfg s) (distinctWindow_reset src ports) cool
           (delete src first) (delete src evid), Some d).

(** * Abnormal egress *)

Record exfil := mkExfil {
  ex_cfg : Config;
  ex_sum : sumWindow;
  ex_base : gmap string float64;
  ex_cool : cooldown;
  ex_evid : gmap string (list string);
}.

Definition newExfil (c : Config) : exfil :=
  mkExfil c (newSumWindow (ExfilWindow c)) ∅ (newCooldown (Cooldown c)) ∅.

(** The baseline after a window that summed to [total]; each operation rounds,
    as it does where the compiler does not fuse them. *)
Definition ewma (base : float64) (total : Z) : float64 :=
  if f_eqb base f_zero then f_of_int total
  else f_add (f_mul (f_const 8 10) base) (f_mul (f_const 2 10) (f_of_int total)).

Definition exfil_observe (e : Event) (x : exfil) : exfil * option Detection :=
  let host := e_Host e in
  if (e_BytesOut e <=? 0) || is_empty host then (x, None)
  else
    let evid := keep_evid host (e_Raw e) (EvidenceMax (ex_cfg x)) (ex_evid x) in
    let '(sum, total) := sumWindow_add host (e_Timestamp e) (e_BytesOut e) (ex_sum x) in
    let base := map_get f_zero (ex_base x) host in
    let bases := <[host := ewma base total]> (ex_base x) in
    if (total <? ExfilBytes (ex_cfg x)) || f_eqb base f_zero
    then (mkExfil (ex_cfg x) sum bases (ex_cool x) evid, None)
    else if f_ltb (f_of_int total) (f_mul (ExfilFactor (ex_cfg x)) base)
    then (mkExfil (ex_cfg x) sum bases (ex_cool x) evid, None)
    else
      let '(cool, ok) := firable ("exfil:" +:+ host) (e_Timestamp e) (ex_cool x) in
      if negb ok then (mkExfil (ex_cfg x) sum bases cool evid, None)
      else
        let d := {|
          d_Kind := KindExfil; d_Severity := SevHigh; d_Actor := host; d_Target := host;
          d_User := "";
          d_Title := sprint ["Abnormal egress from "; host; ": "; humanBytes total];
          d_Detail := sprint [humanBytes total; " outbound within ";
            duration_String (ExfilWindow (ex_cfg x)); " — ~";
            format_fixed 1 (f_div (f_of_int total) base); "× this host's baseline."];
          d_Count := 1;
          d_FirstAt := e_Timestamp e; d_LastAt := e_Timestamp e;
          d_Evidence := map_get [] evid host;
          d_Key := "exfil|" +:+ host |} in
        (mkExfil (ex_cfg x) sum bases cool (delete host evid), Some d).

(** * New privileged account *)

Record newAdmin := mkAdmin { na_cfg : Config; na_cool : cooldown }.

Definition newNewAdmin (c : Config) : newAdmin := mkAdmin c (newCooldown (Cooldown c)).

Definition newAdmin_observe (e : Event) (n : newAdmin) : newAdmin * option Detection :=
  if negb (str_eqb (e_Action e) "new_admin") then (n, None)
  else
    let key := sprint ["newadmin|"; orAny (e_Host e); "|"; orAny (e_User e)] in
    let '(cool, ok) := firable key (e_Timestamp e) (na_cool n) in
    let n := mkAdmin (na_cfg n) cool in
    if negb ok then (n, None)
    else
      let who := if is_empty (e_User e) then "a new account" else e_User e in
      (n, Some {|
        d_Kind := KindNewAdmin; d_Severity := SevHigh; d_Actor := Actor e;
        d_Target := e_Host e; d_User := e_User e;
        d_Title := sprint ["New privileged account created: "; who];
        d_Detail := "A new user/admin account or privilege grant was recorded — a classic persistence step. Confirm it was authorised.";
        d_Count := 1;
        d_FirstAt := e_Timestamp e; d_LastAt := e_Timestamp e;
        d_Evidence := [e_Raw e];
        d_Key := key |}).

(** * Distributed authentication-failure spike *)

Record authSpike := mkSpike {
  as_cfg : Config;
  as_count : slidingCounter;
  as_sources : distinctWindow;
  as_cool : cooldown;
  as_first : gmap string Z;
  as_evid : gmap string (list string);
}.

Definition newAuthSpike (c : Config) : authSpike :=
  mkSpike c (newSlidingCounter (SpikeWindow c)) (newDistinctWindow (SpikeWindow c))
    (newCooldown (Cooldown c)) ∅ ∅.

Definition service (e : Event) : string := orAny (e_Host e) +:+ "/" +:+ orAny (e_App e).

Definition authSpike_observe (e : Event) (a : authSpike) : authSpike * option Detection :=
  if negb (str_eqb (e_Auth e) AuthFailure) then (a, None)
  else
    let svc := service e in
    let first := set_first svc (e_Timestamp e) (as_first a) in
    let evid := keep_evid svc (e_Raw e) (EvidenceMax (as_cfg a)) (as_evid a) in
    let '(count, n) := slidingCounter_add svc (e_Timestamp e) (as_count a) in
    let srcKey := if is_empty (e_SrcIP e) then orAny (e_User e) else e_SrcIP e in
    let '(sources, distinctSrc) :=
      distinctWindow_add svc srcKey (e_Timestamp e) (as_sources a) in
    if (n <? SpikeMin (as_cfg a)) || (distinctSrc <? 3)
    then (mkSpike (as_cfg a) count sources (as_cool a) first evid, None)
    else
      let '(cool, ok) := firable ("spike:" +:+ svc) (e_Timestamp e) (as_cool a) in
      if negb ok then (mkSpike (as_cfg a) count sources cool first evid, None)
      else
        let d := {|
          d_Kind := KindAuthSpike; d_Severity := SevMedium; d_Actor := svc;
          d_Target := e_Host e; d_User := "";
          d_Title := sprint ["Distributed auth-failure spike on "; svc; ": "; dec n; " from ";
            dec distinctSrc; " sources"];
          d_Detail := sprint [dec n; " auth failures on "; svc; " from "; dec distinctSrc;
            " distinct sources within "; duration_String (SpikeWindow (as_cfg a));
            " — looks like credential stuffing."];
          d_Count := n;
          d_FirstAt := map_get 0 first svc; d_LastAt := e_Timestamp e;
          d_Evidence := map_get [] evid svc;
          d_Key := "spike|" +:+ svc |} in
        (mkSpike (as_cfg a) (slidingCounter_reset svc count) (distinctWindow_reset svc sources)
           cool (delete svc first) (delete svc evid), Some d).

(** * Findings of the sibling products *)

Definition product_char (r : Z) : bool := is_lower r || is_digit r || one_of "_.-" r.
Definition check_char (r : Z) : bool := is_upper r || product_char r.

Definition reSentinelProduct : regexp := key_value "product=" product_char.
Definition reSentinelSev : regexp := key_value "severity=" is_lower.
Definition reSentinelCheck : regexp := key_value "check=" check_char.
Definition reSentinelStatus : regexp := key_value "status=" is_lower.

Definition firstGroup (re : regexp) (s : string) : string :=
  default "" (FindStringSubmatch re s).

Record sentinelFinding := mkSentinel {
  sf_cfg : Config;
  sf_cool : cooldown;
  sf_evid : gmap string (list string);
}.

Definition newSentinelFinding (c : Config) : sentinelFinding :=
  mkSentinel c (newCooldown (Cooldown c)) ∅.

Definition sentinel_message (e : Event) : string :=
  if is_empty (e_Message e) then e_Raw e else e_Message e.

Definition sentinelFinding_observe (e : Event) (s : sentinelFinding) :
    sentinelFinding * option Detection :=
  let msg := sentinel_message e in
  let product := firstGroup reSentinelProduct msg in
  if is_empty product then (s, None)
  else if str_eqb (firstGroup reSentinelStatus msg) "resolved" then (s, None)
  else
    let sev := firstGroup reSentinelSev msg in
    if negb (str_eqb sev "critical") && negb (str_eqb sev "high") then (s, None)
    else if is_empty (e_SrcIP e) then (s, None)
    else
      let actor := e_SrcIP e in
      let '(cool, ok) :=
        firable (sprint ["sentinel:"; product; ":"; actor]) (e_Timestamp e) (sf_cool s) in
      if negb ok then (mkSentinel (sf_cfg s) cool (sf_evid s), None)
      else
        let evid := keep_evid actor (e_Raw e) (EvidenceMax (sf_cfg s)) (sf_evid s) in
        let check := firstGroup reSentinelCheck msg in
        let severity := if str_eqb sev "critical" then SevCritical else SevHigh in
        (mkSentinel (sf_cfg s) cool evid, Some {|
          d_Kind := KindSentinel; d_Severity := severity; d_Actor := actor;
          d_Target := e_Host e; d_User := "";
          d_Title := sprint [product; " reported "; orAny check; " from "; actor];
          d_Detail := sprint ["A "; sev; " finding from "; product; " arrived over syslog: "; msg];
          d_Count := 1;
          d_FirstAt := e_Timestamp e; d_LastAt := e_Timestamp e;
          d_Evidence := map_get [] evid actor;
          d_Key := sprint ["sentinel|"; product; "|"; actor] |}).

(** * Beaconing *)

Record beacon := mkBeacon {
  bc_cfg : Config;
  bc_times : gmap string (list Z);
  bc_cool : cooldown;
}.

Definition newBeacon (c : Config) : beacon := mkBeacon c ∅ (newCooldown (Cooldown c)).

(** The retained beats: at most twice [BeaconMin], which is not negative. *)
Definition ring (min : Z) (ts : list Z) : list Z :=
  let max := min * 2 in
  if max <? Z.of_nat (length ts) then drop (Z.to_nat (Z.of_nat (length ts) - max)) ts else ts.

(** The gaps between successive beats, in seconds. *)
Fixpoint gaps (ts : list Z) : list float64 :=
  match ts with
  | t :: (u :: _) as rest => duration_Seconds (time_Sub u t) :: gaps rest
  | _ => []
  end.

Definition mean_gap (ts : list Z) : float64 :=
  f_div (foldl f_add f_zero (gaps ts)) (f_of_int (Z.of_nat (length ts) - 1)).

(** The coefficient of variation of the gaps. *)
Definition variation (ts : list Z) : float64 :=
  let mean := mean_gap ts in
  let varsum :=
    foldl (λ a g, f_add a (f_mul (f_sub g mean) (f_sub g mean))) f_zero (gaps ts) in
  f_div (f_sqrt (f_div varsum (f_of_int (Z.of_nat (length ts) - 1)))) mean.

Definition beacon_key (e : Event) : string := sprint [e_SrcIP e; "|"; e_DstIP e].

(** A flow less than a second after the last beat belongs to it. *)
Definition same_beat (t : Z) (ts : list Z) : bool :=
  match last ts with Some u => time_Sub t u <? Second | None => false end.

Definition beacon_observe (e : Event) (b : beacon) : beacon * option Detection :=
  if negb (str_eqb (e_Source e) SourceNetflow) || is_empty (e_SrcIP e) || is_empty (e_DstIP e)
  then (b, None)
  else if negb (isInternalIP (e_SrcIP e)) || isInternalIP (e_DstIP e) then (b, None)
  else
    let key := beacon_key e in
    let ts := map_get [] (bc_times b) key in
    if same_beat (e_Timestamp e) ts then (b, None)
    else
      let ts := ring (BeaconMin (bc_cfg b)) (ts ++ [e_Timestamp e]) in
      let times := <[key := ts]> (bc_times b) in
      let b1 := mkBeacon (bc_cfg b) times (bc_cool b) in
      if Z.of_nat (length ts) <? BeaconMin (bc_cfg b) then (b1, None)
      else
        let mean := mean_gap ts in
        if f_ltb mean (duration_Seconds (BeaconMinGap (bc_cfg b)))
           || f_ltb (duration_Seconds (BeaconMaxGap (bc_cfg b))) mean
        then (b1, None)
        else
          let cv := variation ts in
          if f_ltb (BeaconMaxCV (bc_cfg b)) cv then (b1, None)
          else
            let '(cool, ok) := firable ("beacon:" +:+ key) (e_Timestamp e) (bc_cool b) in
            if negb ok then (mkBeacon (bc_cfg b) times cool, None)
            else
              let d := {|
                d_Kind := KindBeacon; d_Severity := SevHigh; d_Actor := e_SrcIP e;
                d_Target := e_DstIP e; d_User := "";
                d_Title := sprint ["Beaconing: "; e_SrcIP e; " calls "; e_DstIP e; " every ~";
                  humanInterval mean];
                d_Detail := sprint [dec (Z.of_nat (length ts)); " connections at a regular ~";
                  humanInterval mean; " interval (variation ";
                  format_fixed 0 (f_mul cv (f_of_int 100));
                  "%) — the heartbeat pattern of malware calling its command-and-control server."];
                d_Count := Z.of_nat (length ts);
                d_FirstAt := List.hd 0 ts; d_LastAt := e_Timestamp e;
                d_Evidence := [e_Raw e];
                d_Key := "beacon|" +:+ key |} in
              (mkBeacon (bc_cfg b) (delete key times) cool, Some d).

(** * New services *)

Record newService := mkService {
  ns_cfg : Config;
  ns_seen : gmap string (gset Z);
  ns_born : gmap string Z;
  ns_cool : cooldown;
}.

Definition newNewService (c : Config) : newService :=
  mkService c ∅ ∅ (newCooldown (Cooldown c)).

Definition newService_observe (e : Event) (s : newService) : newService * option Detection :=
  if negb (str_eqb (e_Source e) SourceNetflow) || is_empty (e_DstIP e) || (e_DstPort e =? 0)
  then (s, None)
  else if negb (isInternalIP (e_DstIP e)) || str_eqb (e_SrcIP e) (e_DstIP e) then (s, None)
  else if 49151 <? e_DstPort e then (s, None)
  else
    let h := e_DstIP e in
    let '(ports, born) := match ns_seen s !! h with
      | Some ports => (ports, ns_born s)
      | None => (∅, <[h := e_Timestamp e]> (ns_born s))
      end in
    if bool_decide (e_DstPort e ∈ ports)
    then (mkService (ns_cfg s) (<[h := ports]> (ns_seen s)) born (ns_cool s), None)
    else
      let ports := if Z.of_nat (size ports) <? 4096 then {[e_DstPort e]} ∪ ports else ports in
      let s1 := mkService (ns_cfg s) (<[h := ports]> (ns_seen s)) born (ns_cool s) in
      if time_Sub (e_Timestamp e) (map_get 0 born h) <? NewServiceLearn (ns_cfg s)
      then (s1, None)
      else
        let key := sprint ["newsvc|"; h; "|"; dec (e_DstPort e)] in
        let '(cool, ok) := firable key (e_Timestamp e) (ns_cool s) in
        let s1 := mkService (ns_cfg s) (<[h := ports]> (ns_seen s)) born cool in
        if negb ok then (s1, None)
        else
          (s1, Some {|
            d_Kind := KindNewService; d_Severity := SevMedium; d_Actor := e_SrcIP e;
            d_Target := h; d_User := "";
            d_Title := sprint ["New service on "; h; ": port "; dec (e_DstPort e)];
            d_Detail := sprint [h; " started accepting connections on port "; dec (e_DstPort e);
              ", never seen for this host before. New listening services are how backdoors and unauthorised software announce themselves."];
            d_Count := 1;
            d_FirstAt := e_Timestamp e; d_LastAt := e_Timestamp e;
            d_Evidence := [e_Raw e];
            d_Key := key |}).

(** * The engine *)

Record Engine := mkEngine {
  en_cfg : Config;
  en_brute : bruteForce;
  en_scan : scan;
  en_exfil : exfil;
  en_newAdmin : newAdmin;
  en_authSpike : authSpike;
  en_sentinel : sentinelFinding;
  en_beacon : beacon;
  en_newSvc : newService;
}.

Definition NewEngine (cfg : Config) : Engine :=
  let c := withDefaults cfg in
  mkEngine c (newBruteForce c) (newScan c) (newExfil c) (newNewAdmin c) (newAuthSpike c)
    (newSentinelFinding c) (newBeacon c) (newNewService c).

Definition Engine_Observe (ev : Event) (e : Engine) : Engine * list Detection :=
  let '(brute, d1) := bruteForce_observe ev (en_brute e) in
  let '(scan, d2) := scan_observe ev (en_scan e) in
  let '(exfil, d3) := exfil_observe ev (en_exfil e) in
  let '(admin, d4) := newAdmin_observe ev (en_newAdmin e) in
  let '(spike, d5) := authSpike_observe ev (en_authSpike e) in
  let '(sentinel, d6) := sentinelFinding_observe ev (en_sentinel e) in
  let '(beacon, d7) := beacon_observe ev (en_beacon e) in
  let '(svc, d8) := newService_observe ev (en_newSvc e) in
  (mkEngine (en_cfg e) brute scan exfil admin spike sentinel beacon svc,
   omap id [d1; d2; d3; d4; d5; d6; d7; d8]).

Fixpoint Engine_run (evs : list Event) (e : Engine) : Engine * list Detection :=
  match evs with
  | [] => (e, [])
  | ev :: rest =>
    let '(e, ds) := Engine_Observe ev e in
    let '(e, ds') := Engine_run rest e in
    (e, ds ++ ds')
  end.

(** * Examples *)

Definition noEvent : Event := {|
  e_Timestamp := 0; e_Source := SourceSyslog; e_SourceID := "s"; e_Host := "web"; e_App := "";
  e_Severity := -1; e_Message := ""; e_Auth := AuthNone; e_User := ""; e_SrcIP := "";
  e_DstIP := ""; e_DstPort := 0; e_BytesOut := 0; e_Action := ""; e_Vendor := "";
  e_VendorRule := ""; e_VendorLevel := 0; e_Raw := "raw"; e_Parsed := true |}.

Definition flowEvent (t : Z) (src dst : string) (port : Z) : Event := {|
  e_Timestamp := t; e_Source := SourceNetflow; e_SourceID := "nf"; e_Host := src; e_App := "netflow";
  e_Severity := -1; e_Message := ""; e_Auth := AuthNone; e_User := ""; e_SrcIP := src;
  e_DstIP := dst; e_DstPort := port; e_BytesOut := 0; e_Action := "flow"; e_Vendor := "";
  e_VendorRule := ""; e_VendorLevel := 0; e_Raw := "raw"; e_Parsed := true |}.

(** Eight flows exactly a minute apart are reported as a beacon. *)
Example beacon_fires :
  map (λ d, (d_Kind d, d_Title d)) (snd (Engine_run
    (map (λ i, flowEvent (Z.of_nat i * Minute) "10.0.0.5" "8.8.8.8" 50000) (seq 0 8))
    (NewEngine zeroConfig))) =
  [(KindBeacon, "Beaconing: 10.0.0.5 calls 8.8.8.8 every ~1m0s")].
Proof. vm_compute. reflexivity. Qed.

Definition sentinelEvent : Event := {|
  e_Timestamp := 0; e_Source := SourceSyslog; e_SourceID := "s"; e_Host := "web"; e_App := "";
  e_Severity := -1;
  e_Message := "trap tripped | product=decoy severity=high check=decoy.trip src=9.9.9.9";
  e_Auth := AuthNone; e_User := ""; e_SrcIP := "9.9.9.9"; e_DstIP := ""; e_DstPort := 0;
  e_BytesOut := 0; e_Action := ""; e_Vendor := ""; e_VendorRule := ""; e_VendorLevel := 0;
  e_Raw := "raw"; e_Parsed := true |}.

Example sentinel_fires :
  map (λ d, (d_Title d, d_Key d)) (snd (Engine_Observe sentinelEvent (NewEngine zeroConfig))) =
  [("decoy reported decoy.trip from 9.9.9.9", "sentinel|decoy|9.9.9.9")].
Proof. vm_compute. reflexivity. Qed.

(** * The detector interface *)

(** What every detector has: a step, a cooldown, and a way to tell from the key
    of a detection the key its cooldown ran under. *)
Class Detector (S : Type) := {
  det_kind : string;
  det_observe : Event → S → S * option Detection;
  det_cool : S → cooldown;
  key_rel : string → string → Prop;
}.

Class DetectorSpec (S : Type) `{Detector S} := {
  key_rel_functional : ∀ k c1 c2, key_rel k c1 → key_rel k c2 → c1 = c2;
  det_quiet : ∀ e s s', det_observe e s = (s', None) → det_cool s' = det_cool s;
  det_fires : ∀ e s s' d, det_observe e s = (s', Some d) →
    d_Kind d = det_kind ∧ d_LastAt d = e_Timestamp e ∧
    ∃ ck, key_rel (d_Key d) ck ∧
      firable ck (e_Timestamp e) (det_cool s) = (det_cool s', true);
}.

(** Split a detector's step along its branches. *)
Ltac det_cases H :=
  repeat match type of H with
  | context [if ?b then _ else _] => let E := fresh "E" in destruct b eqn:E
  | context [let '(_, _) := ?x in _] => let E := fresh "E" in destruct x as [? ?] eqn:E
  end;
  try discriminate H; to_prop.

Ltac det_quiet_tac :=
  intros e s s' Ho; det_cases Ho; injection Ho as <-; try done;
  cbn in *; repeat match goal with
  | Hf : firable _ _ _ = (_, ?b) |- _ =>
      first [is_var b; match goal with Hb : b = _ |- _ => rewrite Hb in Hf; clear Hb end
            |apply firable_false in Hf; subst]
  end; done.

Ltac det_fires_tac :=
  intros e s s' d Ho; det_cases Ho; injection Ho as <- <-; cbn in *;
  match goal with
  | Hb : ?b = true, Hf : firable _ _ _ = (_, ?b) |- _ => rewrite Hb in Hf
  end;
  (split_and!; [done|done|]).

#[export] Instance brute_detector : Detector bruteForce := {
  det_kind := KindBruteForce;
  det_observe := bruteForce_observe;
  det_cool := bf_cool;
  key_rel k c := ∃ a, k = "brute|" +:+ a ∧ c = "bf:" +:+ a;
}.

Lemma prefix_functional p q (k c1 c2 : string) :
  (∃ a, k = p +:+ a ∧ c1 = q +:+ a) → (∃ a, k = p +:+ a ∧ c2 = q +:+ a) → c1 = c2.
Proof. intros (a & -> & ->) (b & Hk & ->). by apply append_inj_l in Hk as ->. Qed.

#[export] Instance brute_spec : DetectorSpec bruteForce.
Proof.
  split.
  - apply prefix_functional.
  - cbn. unfold bruteForce_observe. det_quiet_tac.
  - cbn. unfold bruteForce_observe. det_fires_tac; eauto.
Qed.

#[export] Instance scan_detector : Detector scan := {
  det_kind := KindScan;
  det_observe := scan_observe;
  det_cool := sn_cool;
  key_rel k c := ∃ a, k = "scan|" +:+ a ∧ c = "scan:" +:+ a;
}.

#[export] Instance scan_spec : DetectorSpec scan.
Proof.
  split.
  - apply prefix_functional.
  - cbn. unfold scan_observe. det_quiet_tac.
  - cbn. unfold scan_observe. det_fires_tac; eauto.
Qed.

#[export] Instance exfil_detector : Detector exfil := {
  det_kind := KindExfil;
  det_observe := exfil_observe;
  det_cool := ex_cool;
  key_rel k c := ∃ a, k = "exfil|" +:+ a ∧ c = "exfil:" +:+ a;
}.

#[export] Instance exfil_spec : DetectorSpec exfil.
Proof.
  split.
  - apply prefix_functional.
  - cbn. unfold exfil_observe. det_quiet_tac.
  - cbn. unfold exfil_observe. det_fires_tac; eauto.
Qed.

#[export] Instance newAdmin_detector : Detector newAdmin := {
  det_kind := KindNewAdmin;
  det_observe := newAdmin_observe;
  det_cool := na_cool;
  key_rel := eq;
}.

#[export] Instance newAdmin_spec : DetectorSpec newAdmin.
Proof.
  split.
  - cbn. congruence.
  - cbn. unfold newAdmin_observe. det_quiet_tac.
  - cbn. unfold newAdmin_observe. det_fires_tac; eauto.
Qed.

#[export] Instance authSpike_detector : Detector authSpike := {
  det_kind := KindAuthSpike;
  det_observe := authSpike_observe;
  det_cool := as_cool;
  key_rel k c := ∃ a, k = "spike|" +:+ a ∧ c = "spike:" +:+ a;
}.

#[export] Instance authSpike_spec : DetectorSpec authSpike.
Proof.
  split.
  - apply prefix_functional.
  - cbn. unfold authSpike_observe. det_quiet_tac.
  - cbn. unfold authSpike_observe. det_fires_tac; eauto.
Qed.

#[export] Instance beacon_detector : Detector beacon := {
  det_kind := KindBeacon;
  det_observe := beacon_observe;
  det_cool := bc_cool;
  key_rel k c := ∃ a, k = "beacon|" +:+ a ∧ c = "beacon:" +:+ a;
}.

#[export] Instance beacon_spec : DetectorSpec beacon.
Proof.
  split.
  - apply prefix_functional.
  - cbn. unfold beacon_observe. det_quiet_tac.
  - cbn. unfold beacon_observe. det_fires_tac; eauto.
Qed.

#[export] Instance newService_detector : Detector newService := {
  det_kind := KindNewService;
  det_observe := newService_observe;
  det_cool := ns_cool;
  key_rel := eq;
}.

#[export] Instance newService_spec : DetectorSpec newService.
Proof.
  split.
  - cbn. congruence.
  - cbn. unfold newService_observe. det_quiet_tac.
  - cbn. unfold newService_observe. det_fires_tac; eauto.
Qed.

(** The products a sentinel finding names never hold the separator of the key. *)
Lemma product_no_bar msg : has_char "|" (firstGroup reSentinelProduct msg) = false.
Proof.
  unfold firstGroup. destruct (FindStringSubmatch _ _) as [v|] eqn:Hv; [|done]. cbn.
  apply key_value_class in Hv as [_ Hv]; [by apply Hv|].
  unfold product_char, is_lower, is_digit, one_of. intros r.
  rewrite !orb_true_iff, !andb_true_iff, !Z.leb_le, bool_decide_eq_true.
  change (bytes_of_string "_.-") with [95; 46; 45].
  rewrite !elem_of_cons, elem_of_nil. lia.
Qed.

#[export] Instance sentinel_detector : Detector sentinelFinding := {
  det_kind := KindSentinel;
  det_observe := sentinelFinding_observe;
  det_cool := sf_cool;
  key_rel k c := ∃ p a, has_char "|" p = false ∧
    k = sprint ["sentinel|"; p; "|"; a] ∧ c = sprint ["sentinel:"; p; ":"; a];
}.

#[export] Instance sentinel_spec : DetectorSpec sentinelFinding.
Proof.
  split.
  - intros k c1 c2 (p & a & Hp & -> & ->) (p' & a' & Hp' & Hk & ->).
    unfold sprint in *. cbn -[String.append] in *.
    rewrite !append_nil_l in Hk. apply append_inj_l in Hk.
    rewrite !append_cons, !append_nil_l in Hk.
    apply append_sep_inj in Hk as [-> ->]; done.
  - cbn. unfold sentinelFinding_observe. det_quiet_tac.
  - cbn. unfold sentinelFinding_observe. det_fires_tac; (eexists; split; [|eassumption]);
      do 2 eexists; (split_and!; [apply product_no_bar|done..]).
Qed.

(** * One detector over a stream *)

Section det_run.
Context {S : Type} `{DetectorSpec S}.

Fixpoint det_run (evs : list Event) (s : S) : list Detection :=
  match evs with
  | [] => []
  | ev :: rest =>
    let '(s', r) := det_observe ev s in
    option_list r ++ det_run rest s'
  end.

(** Detections with the same key are at least [c] apart. *)
Definition apart (c : Z) (d d' : Detection) : Prop :=
  d_Key d = d_Key d' → c <= d_LastAt d' - d_LastAt d.

(** The cooldown keeps every later detection with its key at a distance. *)
Definition after_last (c : cooldown) (ds : list Detection) : Prop :=
  ∀ d ck l, d ∈ ds → key_rel (d_Key d) ck → cd_last c !! ck = Some l → cd_d c <= d_LastAt d - l.

Lemma det_cool_d e s s' r : det_observe e s = (s', r) → cd_d (det_cool s') = cd_d (det_cool s).
Proof.
  destruct r as [d|]; intros Ho.
  - apply det_fires in Ho as (_ & _ & ck & _ & Hf). by apply firable_true in Hf as ->.
  - by rewrite (det_quiet _ _ _ Ho).
Qed.

Lemma det_run_apart evs : ∀ s,
  in_int64 (cd_d (det_cool s)) → 0 <= cd_d (det_cool s) →
  StronglySorted (apart (cd_d (det_cool s))) (det_run evs s) ∧
  after_last (det_cool s) (det_run evs s).
Proof.
  induction evs as [|ev evs IH]; intros s Hd Hpos; cbn [det_run].
  { split; [constructor|]. intros d ck l Hin. by apply not_elem_of_nil in Hin. }
  destruct (det_observe ev s) as [s' r] eqn:Ho. pose proof (det_cool_d _ _ _ _ Ho) as Hc.
  destruct (IH s') as [Hs Hl]; [by rewrite Hc|by rewrite Hc|]. rewrite Hc in Hs.
  destruct r as [d|]; cbn [option_list app].
  - apply det_fires in Ho as (_ & Hlast & ck & Hkey & Hf).
    assert (MinInt64 < cd_d (det_cool s)) as Hmin by (unfold MinInt64; lia).
    destruct (firable_spec ck (e_Timestamp ev) (det_cool s) Hd Hmin) as [[_ Hf']|[Hacc Hf']];
      [congruence|].
    rewrite Hf' in Hf. injection Hf as Hcool.
    assert (∀ d', d' ∈ det_run evs s' → key_rel (d_Key d') ck →
      cd_d (det_cool s) <= d_LastAt d' - e_Timestamp ev) as Hnext.
    { intros d' Hin Hk. rewrite <-Hc. eapply Hl; [done|done|].
      rewrite <-Hcool. cbn. by rewrite lookup_insert_eq. }
    split.
    + constructor; [done|]. apply Forall_forall. intros d' Hin Hk. rewrite Hlast.
      apply Hnext; [done|]. by rewrite <-Hk.
    + intros d' ck' l [->|Hin]%elem_of_cons Hk Hlk.
      * rewrite (key_rel_functional _ _ _ Hk Hkey) in Hlk. rewrite Hlk in Hacc. lia.
      * destruct (decide (ck' = ck)) as [->|Hne].
        -- specialize (Hnext d' Hin Hk). rewrite Hlk in Hacc. lia.
        -- rewrite <-Hc. eapply Hl; [done|done|]. rewrite <-Hcool. cbn.
           by rewrite lookup_insert_ne.
  - rewrite (det_quiet _ _ _ Ho) in *. done.
Qed.
End det_run.

(** ** The engine runs its detectors side by side *)

Definition all_kinds : list string :=
  [KindBruteForce; KindScan; KindExfil; KindNewAdmin; KindAuthSpike; KindSentinel; KindBeacon;
   KindNewService].

Definition of_kind (k : string) (ds : list Detection) : list Detection :=
  filter (λ d, d_Kind d = k) ds.

(** Results listed by kind: picking a kind picks its result. *)
Definition kinds_ok : list string → list (option Detection) → Prop :=
  Forall2 (λ K r, ∀ d, r = Some d → d_Kind d = K).

Lemma of_kind_cons K K0 r0 rs :
  (∀ d, r0 = Some d → d_Kind d = K0) →
  of_kind K (omap id (r0 :: rs)) =
    (if decide (K0 = K) then option_list r0 else []) ++ of_kind K (omap id rs).
Proof.
  intros H0. unfold of_kind. destruct r0 as [d|]; [|by case_decide].
  change (omap id (Some d :: rs)) with (d :: omap id rs).
  rewrite filter_cons, (H0 d eq_refl). by repeat case_decide.
Qed.

Lemma of_kind_none Ks rs K : kinds_ok Ks rs → K ∉ Ks → of_kind K (omap id rs) = [].
Proof.
  induction 1 as [|K0 r0 Ks rs H0 _ IH]; intros Hni; [done|].
  apply not_elem_of_cons in Hni as [Hne Hni].
  rewrite (of_kind_cons K K0) by done. rewrite decide_False by done. by apply IH.
Qed.

Lemma of_kind_omap Ks rs i K r :
  NoDup Ks → kinds_ok Ks rs → Ks !! i = Some K → rs !! i = Some r →
  of_kind K (omap id rs) = option_list r.
Proof.
  intros Hnd Hf. revert i. induction Hf as [|K0 r0 Ks rs H0 Hf IH]; intros i HK Hr; [done|].
  apply NoDup_cons in Hnd as [Hni Hnd]. rewrite (of_kind_cons K K0) by done.
  destruct i as [|i]; cbn in HK, Hr.
  - injection HK as ->. injection Hr as ->. rewrite decide_True by done.
    by rewrite (of_kind_none Ks rs K), app_nil_r.
  - rewrite decide_False; [by eapply IH|]. intros ->. apply Hni.
    by eapply list_elem_of_lookup_2.
Qed.

Lemma det_kind_ok {S} `{DetectorSpec S} e s s' r :
  det_observe e s = (s', r) → ∀ d, r = Some d → d_Kind d = det_kind (S:=S).
Proof. intros Ho d ->. by apply det_fires in Ho as (? & _). Qed.

(** The eight results of a step, in order. *)
Lemma Observe_results ev e :
  ∃ rs, snd (Engine_Observe ev e) = omap id rs ∧
    kinds_ok all_kinds rs ∧
    rs = [snd (det_observe ev (en_brute e)); snd (det_observe ev (en_scan e));
          snd (det_observe ev (en_exfil e)); snd (det_observe ev (en_newAdmin e));
          snd (det_observe ev (en_authSpike e)); snd (det_observe ev (en_sentinel e));
          snd (det_observe ev (en_beacon e)); snd (det_observe ev (en_newSvc e))] ∧
    let e' := fst (Engine_Observe ev e) in
    en_brute e' = fst (det_observe ev (en_brute e)) ∧
    en_scan e' = fst (det_observe ev (en_scan e)) ∧
    en_exfil e' = fst (det_observe ev (en_exfil e)) ∧
    en_newAdmin e' = fst (det_observe ev (en_newAdmin e)) ∧
    en_authSpike e' = fst (det_observe ev (en_authSpike e)) ∧
    en_sentinel e' = fst (det_observe ev (en_sentinel e)) ∧
    en_beacon e' = fst (det_observe ev (en_beacon e)) ∧
    en_newSvc e' = fst (det_observe ev (en_newSvc e)).
Proof.
  unfold Engine_Observe. cbn [det_observe brute_detector scan_detector exfil_detector
    newAdmin_detector authSpike_detector sentinel_detector beacon_detector newService_detector].
  destruct (bruteForce_observe ev _) as [b1 r1] eqn:H1.
  destruct (scan_observe ev _) as [b2 r2] eqn:H2.
  destruct (exfil_observe ev _) as [b3 r3] eqn:H3.
  destruct (newAdmin_observe ev _) as [b4 r4] eqn:H4.
  destruct (authSpike_observe ev _) as [b5 r5] eqn:H5.
  destruct (sentinelFinding_observe ev _) as [b6 r6] eqn:H6.
  destruct (beacon_observe ev _) as [b7 r7] eqn:H7.
  destruct (newService_observe ev _) as [b8 r8] eqn:H8.
  eexists. split; [reflexivity|]. split; [|done].
  unfold all_kinds, kinds_ok. repeat (apply Forall2_cons; split); [..|apply Forall2_nil_2].
  - exact (det_kind_ok ev (en_brute e) b1 r1 H1).
  - exact (det_kind_ok ev (en_scan e) b2 r2 H2).
  - exact (det_kind_ok ev (en_exfil e) b3 r3 H3).
  - exact (det_kind_ok ev (en_newAdmin e) b4 r4 H4).
  - exact (det_kind_ok ev (en_authSpike e) b5 r5 H5).
  - exact (det_kind_ok ev (en_sentinel e) b6 r6 H6).
  - exact (det_kind_ok ev (en_beacon e) b7 r7 H7).
  - exact (det_kind_ok ev (en_newSvc e) b8 r8 H8).
Qed.

Lemma all_kinds_NoDup : NoDup all_kinds.
Proof. apply (bool_decide_unpack _). vm_compute. exact I. Qed.

(** Each detector's share of the engine's output is its own run. *)
Lemma Engine_run_share {S} `{DetectorSpec S} (get : Engine → S) (i : nat) :
  all_kinds !! i = Some (det_kind (S:=S)) →
  (∀ ev e, ∃ rs, snd (Engine_Observe ev e) = omap id rs ∧ kinds_ok all_kinds rs ∧
     rs !! i = Some (snd (det_observe ev (get e))) ∧
     get (fst (Engine_Observe ev e)) = fst (det_observe ev (get e))) →
  ∀ evs e, of_kind (det_kind (S:=S)) (snd (Engine_run evs e)) = det_run evs (get e).
Proof.
  intros Hi Hstep evs. induction evs as [|ev evs IH]; intros e; [done|].
  cbn [Engine_run det_run]. destruct (Hstep ev e) as (rs & Hrs & Hk & Hri & Hget).
  destruct (Engine_Observe ev e) as [e' ds]. cbn in Hrs, Hget. subst ds.
  specialize (IH e'). destruct (Engine_run evs e') as [e'' ds']. cbn in IH |- *.
  unfold of_kind in *. rewrite filter_app.
  pose proof (of_kind_omap all_kinds rs i _ _ all_kinds_NoDup Hk Hi Hri) as Hof.
  unfold of_kind in Hof. rewrite Hof, IH, Hget.
  by destruct (det_observe ev (get e)).
Qed.

(** Every detection has one of the eight kinds. *)
Lemma Engine_run_kinds evs : ∀ e, Forall (λ d, d_Kind d ∈ all_kinds) (snd (Engine_run evs e)).
Proof.
  induction evs as [|ev evs IH]; intros e; [constructor|]. cbn [Engine_run].
  destruct (Observe_results ev e) as (rs & Hrs & Hk & _).
  destruct (Engine_Observe ev e) as [e' ds]. cbn in Hrs. subst ds.
  specialize (IH e'). destruct (Engine_run evs e') as [e'' ds']. cbn in IH |- *.
  apply Forall_app_2; [|done]. clear IH. revert Hk. generalize all_kinds. intros Ks Hk.
  induction Hk as [|K r Ks rs HK _ IHk]; [constructor|].
  destruct r as [d|]; cbn.
  - constructor; [rewrite (HK d eq_refl); set_solver|].
    eapply Forall_impl; [exact IHk|]. cbn. set_solver.
  - eapply Forall_impl; [exact IHk|]. cbn. set_solver.
Qed.

Lemma StronglySorted_by_kind (R : relation Detection) ds :
  Forall (λ d, d_Kind d ∈ all_kinds) ds →
  (∀ K, K ∈ all_kinds → StronglySorted R (of_kind K ds)) →
  StronglySorted (λ d d', d_Kind d = d_Kind d' → R d d') ds.
Proof.
  intros Hk. induction Hk as [|d ds Hd _ IH]; intros Hs; [constructor|].
  constructor.
  - apply IH. intros K HK. specialize (Hs K HK). unfold of_kind in *. rewrite filter_cons in Hs.
    case_decide; [by inversion Hs|done].
  - specialize (Hs (d_Kind d) Hd). unfold of_kind in Hs. rewrite filter_cons_True in Hs by done.
    inversion Hs as [|? ? _ Hall]; subst. apply Forall_forall. intros d' Hin He.
    rewrite Forall_forall in Hall. apply Hall. apply list_elem_of_filter. done.
Qed.

(** The detector at place [i] of the engine keeps its detections apart. *)
Ltac share get i :=
  refine (eq_ind_r (StronglySorted _) _ (Engine_run_share get i eq_refl _ _ _));
  [by refine (proj1 (det_run_apart _ (get (NewEngine _)) _ _))
  |intros ev e; destruct (Observe_results ev e) as (rs & Hs & Hk & -> & ? & ? & ? & ? & ? & ? & ? & ?);
   eexists; split; [exact Hs|split; [exact Hk|split; [reflexivity|assumption]]]].

Lemma Engine_run_apart cfg evs :
  let c := Cooldown (withDefaults cfg) in
  0 <= c <= MaxInt64 →
  StronglySorted (λ d d', d_Kind d = d_Kind d' → apart c d d')
    (snd (Engine_run evs (NewEngine cfg))).
Proof.
  intros c Hc. assert (in_int64 c ∧ 0 <= c) as [Hi Hp] by int_lia.
  apply StronglySorted_by_kind; [apply Engine_run_kinds|].
  intros K HK. unfold all_kinds in HK. rewrite !elem_of_cons, elem_of_nil in HK.
  destruct HK as [-> | [-> | [-> | [-> | [-> | [-> | [-> | [-> | []]]]]]]]].
  - share en_brute 0%nat.
  - share en_scan 1%nat.
  - share en_exfil 2%nat.
  - share en_newAdmin 3%nat.
  - share en_authSpike 4%nat.
  - share en_sentinel 5%nat.
  - share en_beacon 6%nat.
  - share en_newSvc 7%nat.
Qed.

(** * Bursts of failures *)

Definition fails_as (a : string) (e : Event) : Prop := e_Auth e = AuthFailure ∧ Actor e = a.

#[export] Instance fails_as_dec a e : Decision (fails_as a e).
Proof. unfold fails_as. apply _. Defined.

(** The part of the detector's state that concerns one actor. *)
Definition brute_view (a : string) (b : bruteForce) : list Z * option Z * option Z :=
  (map_get [] (sc_times (bf_count b)) a, bf_first b !! a, cd_last (bf_cool b) !! ("bf:" +:+ a)).

Definition brute_of (c : Config) (b : bruteForce) : Prop :=
  bf_cfg b = c ∧ sc_window (bf_count b) = BruteWindow c.

Lemma firable_other k t c c' ok k' :
  firable k t c = (c', ok) → k' ≠ k → cd_last c' !! k' = cd_last c !! k'.
Proof.
  intros Hf Hne. destruct ok.
  - apply firable_true in Hf as ->. cbn. by rewrite lookup_insert_ne.
  - by apply firable_false in Hf as ->.
Qed.

Lemma set_first_other k t m k' : k' ≠ k → set_first k t m !! k' = m !! k'.
Proof. intros Hne. unfold set_first. destruct (m !! k); [done|]. by rewrite lookup_insert_ne. Qed.

(** Events that are not failures of [a] leave its state alone. *)
Lemma brute_other c a e b b' r :
  ¬ fails_as a e → bruteForce_observe e b = (b', r) → brute_of c b →
  brute_view a b' = brute_view a b ∧ brute_of c b' ∧ ∀ d, r = Some d → d_Actor d ≠ a.
Proof.
  intros Hna Ho [Hc Hw]. unfold bruteForce_observe in Ho.
  destruct (str_eqb (e_Auth e) AuthFailure) eqn:Ha; cbn [negb] in Ho; to_prop;
    [|by injection Ho as <- <-].
  assert (Actor e ≠ a) as Hne by (intros He; by apply Hna).
  destruct (is_empty (Actor e)); [by injection Ho as <- <-|].
  unfold slidingCounter_add in Ho.
  assert (∀ k : string, k ≠ a → "bf:" +:+ a ≠ "bf:" +:+ k) as Hck.
  { intros k Hk He. apply append_inj_l in He. congruence. }
  destruct (_ <? _).
  { injection Ho as <- <-. unfold brute_view, brute_of. cbn.
    rewrite map_get_insert_ne, set_first_other by done. done. }
  destruct (firable _ _ _) as [cool ok] eqn:Hf.
  apply (firable_other _ _ _ _ _ ("bf:" +:+ a)) in Hf; [|by apply Hck].
  destruct ok; cbn [negb] in Ho; injection Ho as <- <-; unfold brute_view, brute_of; cbn;
    rewrite Hf.
  - rewrite map_get_delete_ne, map_get_insert_ne, lookup_delete_ne, set_first_other by done.
    split_and!; [done..|]. by intros d [= <-].
  - rewrite map_get_insert_ne, set_first_other by done. done.
Qed.

(** A stream without failures of [a] says nothing of [a]. *)
Lemma brute_none c a evs : ∀ b,
  brute_of c b → filter (fails_as a) evs = [] →
  filter (λ d, d_Actor d = a) (det_run evs b) = [].
Proof.
  induction evs as [|e evs IH]; intros b Hb Hn; [done|].
  rewrite filter_cons in Hn. case_decide as Hf; [done|]. cbn [det_run det_observe brute_detector].
  destruct (bruteForce_observe e b) as [b' r] eqn:Ho.
  destruct (brute_other c a e b b' r Hf Ho Hb) as (_ & Hb' & Hd).
  rewrite filter_app, IH, app_nil_r by done.
  destruct r as [d|]; [|done]. cbn. rewrite decide_False; [done|]. by apply Hd.
Qed.

(** One failure of [a] while its cooldown is clear and nothing has expired. *)
Lemma brute_step c a e b pre :
  brute_of c b → fails_as a e → a ≠ "" →
  brute_view a b = (map e_Timestamp pre, e_Timestamp <$> head pre, None) →
  Forall (λ x, e_Timestamp e - BruteWindow c <= e_Timestamp x) (pre ++ [e]) →
  let n := Z.of_nat (length (pre ++ [e])) in
  let first := default (e_Timestamp e) (e_Timestamp <$> head pre) in
  ∃ b' r, bruteForce_observe e b = (b', r) ∧ brute_of c b' ∧
    if n <? BruteFailures c
    then r = None ∧
      brute_view a b' = (map e_Timestamp (pre ++ [e]), e_Timestamp <$> head (pre ++ [e]), None)
    else ∃ d, r = Some d ∧ d_Actor d = a ∧ d_Count d = n ∧ d_FirstAt d = first ∧
      d_LastAt d = e_Timestamp e.
Proof.
  intros [Hc Hw] [Ha Hact] Hne Hv Hall n first. injection Hv as Htimes Hfirst Hcool.
  unfold bruteForce_observe, slidingCounter_add. rewrite Ha, Hact, Hw, Hc, Htimes.
  unfold is_empty, str_eqb. rewrite (bool_decide_true (AuthFailure = AuthFailure)) by done.
  cbn [negb]. rewrite (bool_decide_false (a = "")) by done.
  assert (prune id (time_Add (e_Timestamp e) (- BruteWindow c)) (map e_Timestamp pre ++ [e_Timestamp e])
    = map e_Timestamp (pre ++ [e])) as ->.
  { replace (map e_Timestamp pre ++ [e_Timestamp e]) with (map e_Timestamp (pre ++ [e]))
      by (by rewrite map_app).
    destruct (pre ++ [e]) as [|x l] eqn:Hx; [done|]. cbn [map prune]. unfold time_Before, time_Add, id.
    apply Forall_cons in Hall as [Hx' _]. rewrite (proj2 (Z.ltb_ge _ _)) by lia. done. }
  rewrite length_map. fold n.
  assert (map_get 0 (set_first a (e_Timestamp e) (bf_first b)) a = first ∧
    set_first a (e_Timestamp e) (bf_first b) !! a = e_Timestamp <$> head (pre ++ [e])) as [Hf1 Hf2].
  { unfold set_first, map_get. subst first. rewrite Hfirst. destruct pre as [|x pre]; cbn.
    - by rewrite lookup_insert_eq.
    - by rewrite Hfirst. }
  unfold firable. rewrite Hcool. destruct (Z.ltb_spec n (BruteFailures c)); eexists _, _;
    (split; [reflexivity|]); (split; [done|]).
  - split; [done|]. unfold brute_view. cbn. by rewrite map_get_insert_eq, Hf2, Hcool.
  - eexists. split; [reflexivity|]. cbn. done.
Qed.

Definition span_ok (w : Z) (fs : list Event) : Prop :=
  ∀ e e', e ∈ fs → e' ∈ fs → e_Timestamp e' - e_Timestamp e <= w.

Lemma brute_burst_aux c a evs : ∀ b pre,
  brute_of c b → a ≠ "" →
  let fs := pre ++ filter (fails_as a) evs in
  brute_view a b = (map e_Timestamp pre, e_Timestamp <$> head pre, None) →
  Z.of_nat (length pre) < BruteFailures c → span_ok (BruteWindow c) fs →
  let ds := filter (λ d, d_Actor d = a) (det_run evs b) in
  (Z.of_nat (length fs) < BruteFailures c → ds = []) ∧
  (Z.of_nat (length fs) = BruteFailures c → ∃ d, ds = [d] ∧ d_Count d = BruteFailures c ∧
     Some (d_FirstAt d) = e_Timestamp <$> head fs ∧ Some (d_LastAt d) = e_Timestamp <$> last fs).
Proof.
  induction evs as [|e evs IH]; intros b pre Hb Hne fs Hv Hlt Hspan ds.
  { subst fs ds. cbn. rewrite app_nil_r. split; [done|lia]. }
  subst fs ds. rewrite filter_cons in *. cbn [det_run det_observe brute_detector].
  case_decide as Hf.
  - destruct (brute_step c a e b pre Hb Hf Hne Hv) as (b' & r & Ho & Hb' & Hcase).
    { apply Forall_forall. intros x Hx. assert (e_Timestamp e - e_Timestamp x <= BruteWindow c);
        [|lia]. apply Hspan; set_solver. }
    rewrite Ho, filter_app.
    replace (pre ++ e :: filter (fails_as a) evs) with ((pre ++ [e]) ++ filter (fails_as a) evs)
      in * by (by rewrite <-app_assoc).
    destruct (Z.ltb_spec (Z.of_nat (length (pre ++ [e]))) (BruteFailures c)) as [Hn|Hn].
    + destruct Hcase as [-> Hv']. cbn [option_list]. by apply IH.
    + destruct Hcase as (d & -> & Ha & Hcnt & Hfirst & Hlast).
      change (option_list (Some d)) with [d]. rewrite filter_cons_True, filter_nil by done.
      rewrite length_app in Hn. cbn in Hn. rewrite !length_app. cbn [length].
      split; [lia|]. intros Hlen. destruct (filter (fails_as a) evs) eqn:Hfl; [|cbn in Hlen; lia].
      rewrite (brute_none c a evs b' Hb' Hfl). exists d. rewrite !app_nil_r.
      split_and!; [done|rewrite Hcnt, length_app; cbn [length] in *; lia| |].
      * rewrite Hfirst. by destruct pre.
      * by rewrite Hlast, last_snoc.
  - destruct (bruteForce_observe e b) as [b' r] eqn:Ho.
    destruct (brute_other c a e b b' r Hf Ho Hb) as (Hv' & Hb' & Hd).
    rewrite filter_app.
    assert (filter (λ d, d_Actor d = a) (option_list r) = []) as ->.
    { destruct r as [d|]; [|done]. cbn. rewrite decide_False; [done|]. by apply Hd. }
    apply IH; [done|done|by rewrite Hv'|done|done].
Qed.

(** * New services are reported once *)

Definition svc_seen (s : newService) (h : string) (p : Z) : Prop :=
  ∃ ps, ns_seen s !! h = Some ps ∧ p ∈ ps.

Definition svc_key (h : string) (p : Z) : string := sprint ["newsvc|"; h; "|"; dec p].

Lemma svc_key_inj h p h' p' : svc_key h p = svc_key h' p' → h = h' ∧ p = p'.
Proof.
  unfold svc_key, sprint. cbn -[String.append]. rewrite !append_nil_l. intros Hk.
  apply append_inj_l in Hk. rewrite !append_cons, !append_nil_l in Hk.
  apply append_sep_inj_r in Hk as [-> ->%dec_inj]; [done|by apply has_char_dec..].
Qed.

(** All ports seen so far belong to [P]. *)
Definition svc_within (P : gset Z) (s : newService) : Prop :=
  map_Forall (λ _ ps, ps ⊆ P) (ns_seen s).

Lemma newService_step P e s s' r :
  newService_observe e s = (s', r) → svc_within P s → e_DstPort e ∈ P →
  Z.of_nat (size P) <= 4096 →
  svc_within P s' ∧ (∀ h p, svc_seen s h p → svc_seen s' h p) ∧
  ∀ d, r = Some d → ∃ h p, d_Key d = svc_key h p ∧ ¬ svc_seen s h p ∧ svc_seen s' h p.
Proof.
  intros Ho Hin HP Hsize. unfold newService_observe in Ho.
  repeat match type of Ho with
  | (if ?b then (s, None) else _) = _ => destruct b; [injection Ho as <- <-; by auto|]
  end.
  set (h := e_DstIP e) in *. set (p := e_DstPort e) in *.
  destruct (match ns_seen s !! h with Some ports => _ | None => _ end) as [ports born] eqn:Hp.
  assert (ports ⊆ P ∧ (∀ q, q ∈ ports ↔ svc_seen s h q)) as [Hsub Hports].
  { unfold svc_seen. destruct (ns_seen s !! h) as [ps|] eqn:Hl; injection Hp as <- <-.
    - split; [by apply (Hin h)|naive_solver].
    - split; [set_solver|]. intros q. split; [set_solver|]. intros (? & ? & ?). congruence. }
  assert (∀ ps s1, ns_seen s1 = <[h := ps]> (ns_seen s) → ports ⊆ ps → ps ⊆ P →
    svc_within P s1 ∧ (∀ h p, svc_seen s h p → svc_seen s1 h p)) as Hupd.
  { intros ps s1 Hs1 Hps HpsP. split.
    - unfold svc_within. rewrite Hs1. apply map_Forall_insert_2; done.
    - intros h' p' Hseen. unfold svc_seen. rewrite Hs1. destruct (decide (h = h')) as [<-|Hne].
      + rewrite lookup_insert_eq. exists ps. split; [done|]. apply Hps, Hports, Hseen.
      + rewrite lookup_insert_ne by done. exact Hseen. }
  case_bool_decide as Hknown.
  { injection Ho as <- <-. edestruct (Hupd ports) as [? ?]; [|done|done|by auto]. done. }
  assert (Z.of_nat (size ports) < 4096) as Hlt.
  { assert (size ({[p]} ∪ ports) <= size P)%nat as Hle by (apply subseteq_size; set_solver).
    rewrite size_union, size_singleton in Hle by set_solver. lia. }
  rewrite (proj2 (Z.ltb_lt _ _) Hlt) in Ho.
  assert (∀ s1, ns_seen s1 = <[h := {[p]} ∪ ports]> (ns_seen s) →
    svc_within P s1 ∧ (∀ h p, svc_seen s h p → svc_seen s1 h p) ∧ svc_seen s1 h p) as Hadd.
  { intros s1 Hs1. destruct (Hupd ({[p]} ∪ ports) s1 Hs1) as [? ?]; [set_solver|set_solver|].
    split_and!; [done|done|]. unfold svc_seen. rewrite Hs1, lookup_insert_eq.
    eexists. split; [done|]. apply elem_of_union_l, elem_of_singleton_2. done. }
  assert (ns_seen s' = <[h := {[p]} ∪ ports]> (ns_seen s) ∧
    ∀ d, r = Some d → d_Key d = svc_key h p) as [Hs1 Hd].
  { destruct (time_Sub _ _ <? _); [by injection Ho as <- <-|].
    destruct (firable _ _ _) as [cool ok].
    destruct ok; cbn [negb] in Ho; injection Ho as <- <-; (split; [done|]); [by intros d [= <-]|done]. }
  destruct (Hadd s' Hs1) as (Hw1 & Hm1 & Hsn). split_and!; [done|done|].
  intros d Hr. exists h, p. split_and!; [by apply Hd| |done]. by rewrite <-Hports.
Qed.

Lemma newService_once_aux P evs : ∀ s,
  svc_within P s → Forall (λ e, e_DstPort e ∈ P) evs → Z.of_nat (size P) <= 4096 →
  NoDup (map d_Key (det_run evs s)) ∧
  ∀ h p, svc_seen s h p → svc_key h p ∉ map d_Key (det_run evs s).
Proof.
  induction evs as [|e evs IH]; intros s Hs Hp HP; cbn [det_run det_observe newService_detector].
  { split; [constructor|]. intros h p _. apply not_elem_of_nil. }
  apply Forall_cons in Hp as [Hpe Hp].
  destruct (newService_observe e s) as [s' r] eqn:Ho.
  destruct (newService_step P e s s' r Ho Hs Hpe HP) as (Hs' & Hmono & Hd).
  destruct (IH s' Hs' Hp HP) as [Hnd Hnot]. rewrite map_app. destruct r as [d|]; cbn; [|naive_solver].
  destruct (Hd d eq_refl) as (h & p & Hk & Hnew & Hseen). split.
  - constructor; [|done]. rewrite Hk. by apply Hnot.
  - intros h' p' Hseen'. apply not_elem_of_cons. split; [|by apply Hnot, Hmono].
    rewrite Hk. intros [-> ->]%svc_key_inj. done.
Qed.

(** * Bounded state *)

Definition evid_bounded (max : Z) (m : gmap string (list string)) : Prop :=
  map_Forall (λ _ l, Z.of_nat (length l) <= max) m.

Lemma evidenceKeep_bounded ev line max :
  0 <= max → Z.of_nat (length ev) <= max → Z.of_nat (length (evidenceKeep ev line max)) <= max.
Proof.
  intros Hm He. unfold evidenceKeep. destruct (Z.leb_spec max (Z.of_nat (length ev))); [done|].
  case_ifs; [done|]. rewrite length_app. cbn. lia.
Qed.

Lemma keep_evid_bounded k line max m :
  0 <= max → evid_bounded max m → evid_bounded max (keep_evid k line max m).
Proof.
  intros Hmax Hm. apply map_Forall_insert_2; [|done]. apply evidenceKeep_bounded; [done|].
  unfold map_get. destruct (m !! k) eqn:Hl; [by apply (Hm k)|done].
Qed.

Lemma evid_bounded_delete k max m : evid_bounded max m → evid_bounded max (delete k m).
Proof. apply map_Forall_delete. Qed.

Lemma evid_bounded_empty max : evid_bounded max ∅.
Proof. apply map_Forall_empty. Qed.

#[export] Hint Resolve keep_evid_bounded evid_bounded_delete evid_bounded_empty : go.

Lemma length_ring min ts : 0 <= min → Z.of_nat (length (ring min ts)) <= min * 2.
Proof.
  intros Hm. unfold ring. destruct (Z.ltb_spec (min * 2) (Z.of_nat (length ts))); [|done].
  rewrite length_drop. lia.
Qed.

(** The state that is kept per key has a fixed size. *)
Record bounded (c : Config) (e : Engine) : Prop := {
  bd_brute : bf_cfg (en_brute e) = c ∧ evid_bounded (EvidenceMax c) (bf_evid (en_brute e));
  bd_scan : sn_cfg (en_scan e) = c ∧ evid_bounded (EvidenceMax c) (sn_evid (en_scan e));
  bd_exfil : ex_cfg (en_exfil e) = c ∧ evid_bounded (EvidenceMax c) (ex_evid (en_exfil e));
  bd_spike : as_cfg (en_authSpike e) = c ∧ evid_bounded (EvidenceMax c) (as_evid (en_authSpike e));
  bd_sentinel : sf_cfg (en_sentinel e) = c ∧ evid_bounded (EvidenceMax c) (sf_evid (en_sentinel e));
  bd_beacon : bc_cfg (en_beacon e) = c ∧
    map_Forall (λ _ ts, Z.of_nat (length ts) <= BeaconMin c * 2) (bc_times (en_beacon e));
  bd_service : map_Forall (λ _ (ps : gset Z), Z.of_nat (size ps) <= 4096) (ns_seen (en_newSvc e));
}.

Ltac bounded_tac :=
  intros Ho; det_cases Ho; injection Ho as <- _; cbn; subst; auto 10 with go.

Lemma brute_bounded c ev b b' r :
  0 <= EvidenceMax c → bf_cfg b = c ∧ evid_bounded (EvidenceMax c) (bf_evid b) →
  bruteForce_observe ev b = (b', r) → bf_cfg b' = c ∧ evid_bounded (EvidenceMax c) (bf_evid b').
Proof. intros Hm [Hc Hb]. unfold bruteForce_observe. bounded_tac. Qed.

Lemma scan_bounded c ev b b' r :
  0 <= EvidenceMax c → sn_cfg b = c ∧ evid_bounded (EvidenceMax c) (sn_evid b) →
  scan_observe ev b = (b', r) → sn_cfg b' = c ∧ evid_bounded (EvidenceMax c) (sn_evid b').
Proof. intros Hm [Hc Hb]. unfold scan_observe. bounded_tac. Qed.

Lemma exfil_bounded c ev b b' r :
  0 <= EvidenceMax c → ex_cfg b = c ∧ evid_bounded (EvidenceMax c) (ex_evid b) →
  exfil_observe ev b = (b', r) → ex_cfg b' = c ∧ evid_bounded (EvidenceMax c) (ex_evid b').
Proof. intros Hm [Hc Hb]. unfold exfil_observe. bounded_tac. Qed.

Lemma spike_bounded c ev b b' r :
  0 <= EvidenceMax c → as_cfg b = c ∧ evid_bounded (EvidenceMax c) (as_evid b) →
  authSpike_observe ev b = (b', r) → as_cfg b' = c ∧ evid_bounded (EvidenceMax c) (as_evid b').
Proof. intros Hm [Hc Hb]. unfold authSpike_observe. bounded_tac. Qed.

Lemma sentinel_bounded c ev b b' r :
  0 <= EvidenceMax c → sf_cfg b = c ∧ evid_bounded (EvidenceMax c) (sf_evid b) →
  sentinelFinding_observe ev b = (b', r) →
  sf_cfg b' = c ∧ evid_bounded (EvidenceMax c) (sf_evid b').
Proof. intros Hm [Hc Hb]. unfold sentinelFinding_observe. bounded_tac. Qed.

Definition times_bounded (c : Config) (m : gmap string (list Z)) : Prop :=
  map_Forall (λ _ ts, Z.of_nat (length ts) <= BeaconMin c * 2) m.

Lemma times_bounded_insert c k ts m :
  0 <= BeaconMin c → times_bounded c m → times_bounded c (<[k := ring (BeaconMin c) ts]> m).
Proof. intros Hm Hb. apply map_Forall_insert_2; [by apply length_ring|done]. Qed.

Lemma times_bounded_delete c k m : times_bounded c m → times_bounded c (delete k m).
Proof. apply map_Forall_delete. Qed.

#[export] Hint Resolve times_bounded_insert times_bounded_delete : go.

Lemma beacon_bounded c ev b b' r :
  0 <= BeaconMin c → bc_cfg b = c ∧ times_bounded c (bc_times b) →
  beacon_observe ev b = (b', r) → bc_cfg b' = c ∧ times_bounded c (bc_times b').
Proof. intros Hm [Hc Hb]. unfold beacon_observe. bounded_tac. Qed.

Lemma service_bounded ev s s' r :
  map_Forall (λ _ (ps : gset Z), Z.of_nat (size ps) <= 4096) (ns_seen s) →
  newService_observe ev s = (s', r) →
  map_Forall (λ _ (ps : gset Z), Z.of_nat (size ps) <= 4096) (ns_seen s').
Proof.
  intros Hs Ho. unfold newService_observe in Ho.
  repeat match type of Ho with
  | (if ?b then (s, None) else _) = _ => destruct b; [by injection Ho as <- <-|]
  end.
  destruct (match ns_seen s !! e_DstIP ev with Some ports => _ | None => _ end) as [ports born] eqn:Hp.
  assert (Z.of_nat (size ports) <= 4096) as Hports.
  { destruct (ns_seen s !! e_DstIP ev) as [ps|] eqn:Hl; injection Hp as <- <-; [by apply (Hs _ _ Hl)|].
    by rewrite size_empty. }
  case_bool_decide as Hknown.
  { injection Ho as <- <-. by apply map_Forall_insert_2. }
  set (ports' := if _ <? 4096 then _ else _) in Ho.
  assert (Z.of_nat (size ports') <= 4096) as Hports'.
  { subst ports'. destruct (Z.ltb_spec (Z.of_nat (size ports)) 4096); [|done].
    rewrite size_union, size_singleton by set_solver. lia. }
  assert (ns_seen s' = <[e_DstIP ev := ports']> (ns_seen s)) as ->.
  { det_cases Ho; by injection Ho as <- _. }
  by apply map_Forall_insert_2.
Qed.

Lemma Engine_run_bounded c evs : ∀ e,
  0 <= EvidenceMax c → 0 <= BeaconMin c → bounded c e → bounded c (fst (Engine_run evs e)).
Proof.
  induction evs as [|ev evs IH]; intros e Hm Hb Hbd; [done|]. cbn [Engine_run].
  unfold Engine_Observe. destruct Hbd.
  destruct (bruteForce_observe ev _) as [b1 r1] eqn:H1.
  destruct (scan_observe ev _) as [b2 r2] eqn:H2.
  destruct (exfil_observe ev _) as [b3 r3] eqn:H3.
  destruct (newAdmin_observe ev _) as [b4 r4] eqn:H4.
  destruct (authSpike_observe ev _) as [b5 r5] eqn:H5.
  destruct (sentinelFinding_observe ev _) as [b6 r6] eqn:H6.
  destruct (beacon_observe ev _) as [b7 r7] eqn:H7.
  destruct (newService_observe ev _) as [b8 r8] eqn:H8.
  set (e' := mkEngine _ _ _ _ _ _ _ _ _).
  assert (bounded c e') as Hbd'.
  { split; cbn; eauto using brute_bounded, scan_bounded, exfil_bounded, spike_bounded,
      sentinel_bounded, beacon_bounded, service_bounded. }
  specialize (IH e' Hm Hb Hbd'). by destruct (Engine_run evs e').
Qed.

Lemma NewEngine_bounded cfg : bounded (withDefaults cfg) (NewEngine cfg).
Proof.
  split; cbn; try (split; [done|]); auto with go; apply map_Forall_empty.
Qed.

(** * Properties *)

(** C24: whatever the events and their order, two detections of the same kind
    with the same key are at least the cooldown apart in event time: an ongoing
    condition is never reported twice within it. *)
Theorem detections_respect_cooldown cfg evs :
  let c := Cooldown (withDefaults cfg) in
  0 <= c <= MaxInt64 →
  StronglySorted (λ d d', d_Kind d = d_Kind d' → d_Key d = d_Key d' →
      c <= d_LastAt d' - d_LastAt d)
    (snd (Engine_run evs (NewEngine cfg))).
Proof. intros c Hc. exact (Engine_run_apart cfg evs Hc). Qed.

Lemma detections_respect_cooldown_witness :
  StronglySorted (λ d d', d_Kind d = d_Kind d' → d_Key d = d_Key d' →
      5 * Minute <= d_LastAt d' - d_LastAt d)
    (snd (Engine_run [sentinelEvent; sentinelEvent] (NewEngine zeroConfig))).
Proof.
  apply (detections_respect_cooldown zeroConfig [sentinelEvent; sentinelEvent]).
  split; vm_compute; discriminate.
Defined.


Definition failure (t : Z) (ip : string) : Event := {|
  e_Timestamp := t; e_Source := SourceSyslog; e_SourceID := "s"; e_Host := "web"; e_App := "sshd";
  e_Severity := -1; e_Message := ""; e_Auth := AuthFailure; e_User := ""; e_SrcIP := ip;
  e_DstIP := ""; e_DstPort := 0; e_BytesOut := 0; e_Action := ""; e_Vendor := "";
  e_VendorRule := ""; e_VendorLevel := 0; e_Raw := "raw"; e_Parsed := true |}.

Definition exConfig : Config :=
  withDefaults (mkConfig 2 0 0 0 0 f_zero 0 0 0 0 0 0 f_zero 0 0 0).


(** As long as no more than 4096 different ports occur, each service (a host
    and a port) is reported as new at most once, whatever the traffic. *)
Theorem new_service_reported_once c evs :
  let ports := list_to_set (map e_DstPort evs) : gset Z in
  Z.of_nat (size ports) <= 4096 → NoDup (map d_Key (det_run evs (newNewService c))).
Proof.
  intros ports Hs. apply (newService_once_aux ports evs); [apply map_Forall_empty| |done].
  apply Forall_forall. intros e He. subst ports.
  apply elem_of_list_to_set, list_elem_of_In, in_map, list_elem_of_In, He.
Qed.

Lemma new_service_reported_once_witness :
  NoDup (map d_Key (det_run
    [flowEvent 0 "10.0.0.5" "10.0.0.6" 80; flowEvent Hour "10.0.0.5" "10.0.0.6" 22;
     flowEvent (2 * Hour) "10.0.0.5" "10.0.0.6" 22] (newNewService exConfig))).
Proof.
  apply (new_service_reported_once exConfig
    [flowEvent 0 "10.0.0.5" "10.0.0.6" 80; flowEvent Hour "10.0.0.5" "10.0.0.6" 22;
     flowEvent (2 * Hour) "10.0.0.5" "10.0.0.6" 22]).
  vm_compute. discriminate.
Defined.


