(* ===== verification/Correlate.v ===== *)
(** The kill-chain correlator: [src/correlate/correlate.go]. *)
From S2P Require Import Prelude Text Window Detect.
Local Open Scope Z_scope.

(** * State *)

Record Member := mkMember { mb_At : Z; mb_Stage : string; mb_Note : string }.

Record Incident := mkIncident {
  in_Severity : string;
  in_Actor : string;
  in_Target : string;
  in_Title : string;
  in_Detail : string;
  in_Stages : list string;
  in_Members : list Member;
  in_FirstAt : Z;
  in_LastAt : Z;
  in_Key : string;
}.

Record actorState := mkActor {
  ac_scanAt : Z;
  ac_scanNote : string;
  ac_bruteAt : Z;
  ac_brute : option Detection;
  ac_target : string;
}.

Definition emptyActor : actorState := mkActor 0 "" 0 None "".

Record Correlator := mkCorrelator {
  co_window : Z;
  co_cool : Z;
  co_states : gmap string actorState;
  co_fired : gmap string Z;
}.

Definition New (window cooldown : Z) : Correlator :=
  mkCorrelator
    (if window <=? 0 then 10 * Minute else window)
    (if cooldown <=? 0 then 15 * Minute else cooldown)
    ∅ ∅.

(** * Operations *)

(** [c.state(actor)] followed by the caller's updates. *)
Definition update_actor (actor : string) (f : actorState → actorState) (c : Correlator) : Correlator :=
  mkCorrelator (co_window c) (co_cool c)
    (<[actor := f (default emptyActor (co_states c !! actor))]> (co_states c)) (co_fired c).

Definition new_target (d : Detection) (s : actorState) : string :=
  if is_empty (d_Target d) then ac_target s else d_Target d.

Definition ObserveDetection (d : Detection) (c : Correlator) : Correlator :=
  if str_eqb (d_Kind d) KindScan then
    update_actor (d_Actor d)
      (λ s, mkActor (d_LastAt d) (d_Title d) (ac_bruteAt s) (ac_brute s) (new_target d s)) c
  else if str_eqb (d_Kind d) KindBruteForce then
    update_actor (d_Actor d)
      (λ s, mkActor (ac_scanAt s) (ac_scanNote s) (d_LastAt d) (Some d) (new_target d s)) c
  else c.

(** The actor's last incident is too recent. *)
Definition cooling (actor : string) (at_ : Z) (c : Correlator) : bool :=
  match co_fired c !! actor with
  | Some last => time_Sub at_ last <? co_cool c
  | None => false
  end.

(** The chain is consumed and the time of the incident kept. *)
Definition consume (actor : string) (at_ : Z) (c : Correlator) : Correlator :=
  mkCorrelator (co_window c) (co_cool c) (delete actor (co_states c))
    (<[actor := at_]> (co_fired c)).

Definition phrase (hasScan hasBrute : bool) : string :=
  if hasScan && hasBrute then "a port scan and a brute-force attempt"
  else if hasBrute then "a brute-force attempt"
  else "a port scan".

(** [t] is within the window before [at_], and not after it. *)
Definition linked (window t at_ : Z) : bool :=
  (time_Sub at_ t <=? window) && negb (time_After t at_).

Definition brute_title (s : actorState) : string :=
  match ac_brute s with Some d => d_Title d | None => "" end.

Definition ObserveSentinelFinding (d : Detection) (c : Correlator) : Correlator * option Incident :=
  if negb (str_eqb (d_Kind d) KindSentinel) || is_empty (d_Actor d) then (c, None)
  else
    let at_ := d_LastAt d in
    match co_states c !! d_Actor d with
    | None => (c, None)
    | Some s =>
      if cooling (d_Actor d) at_ c then (c, None)
      else
        let hasScan := negb (time_IsZero (ac_scanAt s)) && linked (co_window c) (ac_scanAt s) at_ in
        let hasBrute := match ac_brute s with Some _ => true | None => false end
                        && linked (co_window c) (ac_bruteAt s) at_ in
        if negb hasScan && negb hasBrute then (c, None)
        else
          let target := if is_empty (d_Target d) then ac_target s else d_Target d in
          let first := if hasScan then ac_scanAt s else 0 in
          let first :=
            if hasBrute then
              if time_IsZero first || time_Before (ac_bruteAt s) first then ac_bruteAt s else first
            else first in
          let before := (if hasScan then ["scan"] else []) ++
                        (if hasBrute then ["brute_force"] else []) in
          let members :=
            (if hasScan then [mkMember (ac_scanAt s) "scan" (ac_scanNote s)] else []) ++
            (if hasBrute then [mkMember (ac_bruteAt s) "brute_force" (brute_title s)] else []) ++
            [mkMember at_ "deception" (d_Title d)] in
          let inc := {|
            in_Severity := "critical"; in_Actor := d_Actor d; in_Target := target;
            in_Title := sprint ["Confirmed intrusion from "; d_Actor d; ": ";
              String.concat " → " before; " → bait touched"];
            in_Detail := sprint [d_Actor d; " tripped a decoy after "; phrase hasScan hasBrute;
              " from the same source. Bait has no legitimate users, so this is not a heuristic: treat the host as compromised, isolate it, and review everything that source touched."];
            in_Stages := before ++ ["deception"];
            in_Members := members;
            in_FirstAt := first; in_LastAt := at_;
            in_Key := "killchain|" +:+ d_Actor d |} in
          (consume (d_Actor d) at_ c, Some inc)
    end.

(** This package's own [orAny]. *)
Definition orHost (s : string) : string := if is_empty s then "the host" else s.

Definition successNote (user target raw : string) : string :=
  if negb (is_empty user) then sprint ["successful login as "; user; " on "; orHost target]
  else if negb (is_empty raw) then raw
  else "successful login on " +:+ orHost target.

Definition scanClause (hasScan : bool) : string :=
  if hasScan then ", itself preceded by a port scan from the same source" else "".

Definition ObserveSuccess (actor host user : string) (at_ : Z) (raw : string) (c : Correlator) :
    Correlator * option Incident :=
  match co_states c !! actor with
  | None => (c, None)
  | Some s =>
    match ac_brute s with
    | None => (c, None)
    | Some b =>
      if (co_window c <? time_Sub at_ (ac_bruteAt s)) || time_Before at_ (ac_bruteAt s)
      then (c, None)
      else if cooling actor at_ c then (c, None)
      else
        let hasScan := negb (time_IsZero (ac_scanAt s))
                       && linked (co_window c) (ac_scanAt s) (ac_bruteAt s) in
        let target := if is_empty host then ac_target s else host in
        let first :=
          if negb (time_IsZero (ac_scanAt s)) && time_Before (ac_scanAt s) (ac_bruteAt s)
          then ac_scanAt s else ac_bruteAt s in
        let inc := {|
          in_Severity := if hasScan then "critical" else "high";
          in_Actor := actor; in_Target := target;
          in_Title :=
            if hasScan
            then sprint ["Likely intrusion from "; actor; ": scan → brute force → successful login"]
            else "Successful login after brute force from " +:+ actor;
          in_Detail := sprint [actor; " authenticated successfully to "; orHost target;
            " immediately after a brute-force attempt"; scanClause hasScan;
            ". Treat as a possible account compromise: rotate the credential and review the session."];
          in_Stages := (if hasScan then ["scan"] else []) ++ ["brute_force"; "success"];
          in_Members :=
            (if hasScan then [mkMember (ac_scanAt s) "scan" (ac_scanNote s)] else []) ++
            [mkMember (ac_bruteAt s) "brute_force" (d_Title b);
             mkMember at_ "success" (successNote user target raw)];
          in_FirstAt := first; in_LastAt := at_;
          in_Key := "killchain|" +:+ actor |} in
        (consume actor at_ c, Some inc)
    end
  end.

(** * Runs *)

Inductive op :=
| OpDetection (d : Detection)
| OpSentinel (d : Detection)
| OpSuccess (actor host user : string) (at_ : Z) (raw : string).

Definition step (o : op) (c : Correlator) : Correlator * option Incident :=
  match o with
  | OpDetection d => (ObserveDetection d c, None)
  | OpSentinel d => ObserveSentinelFinding d c
  | OpSuccess actor host user at_ raw => ObserveSuccess actor host user at_ raw c
  end.

Fixpoint run (ops : list op) (c : Correlator) : list Incident :=
  match ops with
  | [] => []
  | o :: rest => let '(c', r) := step o c in option_list r ++ run rest c'
  end.

(** The actor an operation is about. *)
Definition op_actor (o : op) : string :=
  match o with
  | OpDetection d | OpSentinel d => d_Actor d
  | OpSuccess actor _ _ _ _ => actor
  end.

(** * Lemmas *)

Ltac step_cases H :=
  repeat match type of H with
  | context [if ?b then _ else _] => let E := fresh "E" in destruct b eqn:E
  | context [match ?x with Some _ => _ | None => _ end] =>
      let E := fresh "E" in destruct x eqn:E
  end.

(** The configuration never changes. *)
Lemma step_config o c c' r :
  step o c = (c', r) → co_window c' = co_window c ∧ co_cool c' = co_cool c.
Proof.
  destruct o as [d|d|actor host user at_ raw]; cbn.
  - intros [= <- _]. unfold ObserveDetection. by case_ifs.
  - unfold ObserveSentinelFinding. repeat (case_match; try (intros [= <- _]; done)).
  - unfold ObserveSuccess. repeat (case_match; try (intros [= <- _]; done)).
Qed.

(** An incident comes from one of the two closing operations, which consume the
    actor's chain; an operation without one leaves the firing times alone. *)
Lemma step_fires o c c' inc :
  step o c = (c', Some inc) →
  in_Actor inc = op_actor o ∧ cooling (op_actor o) (in_LastAt inc) c = false ∧
  c' = consume (op_actor o) (in_LastAt inc) c ∧ in_Key inc = "killchain|" +:+ op_actor o.
Proof.
  destruct o as [d|d|actor host user at_ raw]; cbn; [done|..].
  - unfold ObserveSentinelFinding.
    destruct (negb _ || _); [done|]. destruct (co_states c !! _) as [s|]; [|done].
    destruct (cooling _ _ _) eqn:Hc; [done|].
    destruct (_ && _); [done|]. intros [= <- <-]. done.
  - unfold ObserveSuccess. destruct (co_states c !! _) as [s|]; [|done].
    destruct (ac_brute s); [|done]. destruct (_ || _); [done|].
    destruct (cooling _ _ _) eqn:Hc; [done|]. intros [= <- <-]. done.
Qed.

Lemma step_quiet o c c' : step o c = (c', None) → co_fired c' = co_fired c.
Proof.
  destruct o as [d|d|actor host user at_ raw]; cbn.
  - intros [= <-]. unfold ObserveDetection. by case_ifs.
  - unfold ObserveSentinelFinding. repeat (case_match; try (intros [= <-]; done)); done.
  - unfold ObserveSuccess. repeat (case_match; try (intros [= <-]; done)); done.
Qed.

(** ** Cooldown *)

Definition far (c : Z) (i j : Incident) : Prop :=
  in_Actor i = in_Actor j → c <= in_LastAt j - in_LastAt i.

Lemma cooling_false a t c l :
  in_int64 (co_cool c) → MinInt64 < co_cool c →
  cooling a t c = false → co_fired c !! a = Some l → co_cool c <= t - l.
Proof.
  intros Hi Hm. unfold cooling. intros Hc Hl. rewrite Hl, time_Sub_ltb in Hc by done.
  by apply Z.ltb_ge in Hc.
Qed.

Lemma run_far ops : ∀ c,
  in_int64 (co_cool c) → 0 <= co_cool c →
  StronglySorted (far (co_cool c)) (run ops c) ∧
  ∀ i l, i ∈ run ops c → co_fired c !! in_Actor i = Some l → co_cool c <= in_LastAt i - l.
Proof.
  induction ops as [|o ops IH]; intros c Hi Hp; cbn [run].
  { split; [constructor|]. intros i l Hin. by apply not_elem_of_nil in Hin. }
  destruct (step o c) as [c' r] eqn:Hs. destruct (step_config _ _ _ _ Hs) as [_ Hc].
  destruct (IH c') as [Hsorted Hlast]; [by rewrite Hc|by rewrite Hc|]. rewrite Hc in *.
  destruct r as [inc|]; cbn [option_list app].
  - destruct (step_fires _ _ _ _ Hs) as (Ha & Hcool & -> & _).
    assert (∀ j, j ∈ run ops (consume (op_actor o) (in_LastAt inc) c) → in_Actor j = op_actor o →
      co_cool c <= in_LastAt j - in_LastAt inc) as Hnext.
    { intros j Hj He. apply Hlast; [done|]. cbn. by rewrite He, lookup_insert_eq. }
    assert (MinInt64 < co_cool c) by (unfold MinInt64; lia).
    split.
    + constructor; [done|]. apply Forall_forall. intros j Hj He. apply Hnext; [done|congruence].
    + intros i l [->|Hin]%elem_of_cons Hl.
      * rewrite Ha in Hl. by eapply cooling_false.
      * destruct (decide (in_Actor i = op_actor o)) as [He|Hne].
        -- rewrite He in Hl. specialize (Hnext i Hin He).
           pose proof (cooling_false _ _ _ _ Hi H Hcool Hl). lia.
        -- apply Hlast; [done|]. cbn. by rewrite lookup_insert_ne.
  - rewrite (step_quiet _ _ _ Hs) in Hlast. done.
Qed.

(** ** Actors are independent *)

(** What the correlator knows of one actor. *)
Definition view (a : string) (c : Correlator) : Z * Z * option actorState * option Z :=
  (co_window c, co_cool c, co_states c !! a, co_fired c !! a).

Lemma step_other a o c c' r :
  step o c = (c', r) → op_actor o ≠ a →
  view a c' = view a c ∧ ∀ i, r = Some i → in_Actor i ≠ a.
Proof.
  intros Hs Hne. destruct r as [inc|].
  - destruct (step_fires _ _ _ _ Hs) as (Ha & _ & -> & _). split; [|by intros i [= <-]; congruence].
    unfold view. cbn. by rewrite lookup_delete_ne, lookup_insert_ne.
  - split; [|done]. revert Hs. destruct o as [d|d|actor host user at_ raw]; cbn in *.
    + intros [= <-]. unfold ObserveDetection, view. case_ifs; cbn; by rewrite ?lookup_insert_ne.
    + unfold ObserveSentinelFinding. repeat (case_match; try (intros [= <-]; done)); done.
    + unfold ObserveSuccess. repeat (case_match; try (intros [= <-]; done)); done.
Qed.

Lemma cooling_view a t c1 c2 : view a c1 = view a c2 → cooling a t c1 = cooling a t c2.
Proof. unfold view, cooling. by intros [= _ -> _ ->]. Qed.

Lemma consume_view a t c1 c2 : view a c1 = view a c2 → view a (consume a t c1) = view a (consume a t c2).
Proof.
  unfold view. intros [= Hw Hc _ _]. cbn.
  by rewrite !lookup_delete_eq, !lookup_insert_eq, Hw, Hc.
Qed.

Lemma step_view a o c1 c2 :
  op_actor o = a → view a c1 = view a c2 →
  snd (step o c1) = snd (step o c2) ∧ view a (fst (step o c1)) = view a (fst (step o c2)).
Proof.
  intros <- Hv. pose proof (cooling_view _ (match o with
    | OpSuccess _ _ _ t _ => t | OpSentinel d | OpDetection d => d_LastAt d end) _ _ Hv) as Hcool.
  pose proof Hv as [= Hw Hk Hs Hf].
  destruct o as [d|d|actor host user at_ raw]; cbn in *.
  - split; [done|]. unfold ObserveDetection, update_actor, view. case_ifs; cbn;
      rewrite ?lookup_insert_eq, ?Hw, ?Hk, ?Hs, ?Hf; done.
  - unfold ObserveSentinelFinding. rewrite Hs, Hcool, Hw.
    destruct (negb _ || _); [done|]. destruct (co_states c2 !! _); [|done].
    destruct (cooling _ _ c2); [done|].
    match goal with |- context [if ?b then (c1, None) else _] => destruct b end; [done|].
    cbn. split; [done|]. by apply consume_view.
  - unfold ObserveSuccess. rewrite Hs, Hcool, Hw. destruct (co_states c2 !! _) as [s|]; [|done].
    destruct (ac_brute s); [|done]. destruct (_ || _); [done|]. destruct (cooling _ _ c2); [done|].
    cbn. split; [done|]. by apply consume_view.
Qed.

Definition about (a : string) (l : list Incident) : list Incident :=
  filter (λ i, in_Actor i = a) l.

Lemma run_isolated a ops : ∀ c1 c2,
  view a c1 = view a c2 →
  about a (run ops c1) = run (filter (λ o, op_actor o = a) ops) c2.
Proof.
  induction ops as [|o ops IH]; intros c1 c2 Hv; [done|]. cbn [run].
  destruct (step o c1) as [c1' r1] eqn:H1. unfold about in *. rewrite filter_app.
  rewrite filter_cons. case_decide as Ha.
  - cbn [run]. destruct (step o c2) as [c2' r2] eqn:H2.
    destruct (step_view a o c1 c2 Ha Hv) as [Hr Hv']. rewrite H1, H2 in Hr, Hv'. cbn in Hr, Hv'.
    subst r2. rewrite (IH c1' c2' Hv'). f_equal. destruct r1 as [i|]; [|done].
    destruct (step_fires _ _ _ _ H1) as (Hi & _). change (option_list (Some i)) with [i].
    by rewrite filter_cons_True by congruence.
  - destruct (step_other a o c1 c1' r1 H1 Ha) as [Hv' Hr].
    rewrite (IH c1' c2) by congruence. destruct r1 as [i|]; [|done].
    change (option_list (Some i)) with [i]. by rewrite filter_cons_False by (by apply Hr).
Qed.

(** ** Where the members of an incident come from *)

Definition linked_spec (w t at_ : Z) : Prop := 0 <= at_ - t <= w.

Lemma linked_true w t at_ :
  in_int64 w → w < MaxInt64 → linked w t at_ = true ↔ linked_spec w t at_.
Proof.
  intros Hi Hm. unfold linked, linked_spec, time_After. rewrite time_Sub_leb by done.
  rewrite andb_true_iff, negb_true_iff, Z.leb_le, Z.ltb_ge. lia.
Qed.

(** The remembered stages are detections seen before. *)
Definition remembered (seen : list Detection) (a : string) (s : actorState) : Prop :=
  (ac_scanAt s ≠ 0 → ∃ d, d ∈ seen ∧ d_Kind d = KindScan ∧ d_Actor d = a ∧
     d_LastAt d = ac_scanAt s ∧ d_Title d = ac_scanNote s) ∧
  (∀ b, ac_brute s = Some b → b ∈ seen ∧ d_Kind b = KindBruteForce ∧ d_Actor b = a ∧
     d_LastAt b = ac_bruteAt s).

Definition states_ok (seen : list Detection) (c : Correlator) : Prop :=
  map_Forall (remembered seen) (co_states c).

Lemma remembered_mono seen seen' a s : seen ⊆ seen' → remembered seen a s → remembered seen' a s.
Proof.
  intros Hsub [H1 H2]. split.
  - intros Hz. destruct (H1 Hz) as (d & Hd & ?). exists d. split; [by apply Hsub|done].
  - intros b Hb. destruct (H2 b Hb) as (Hin & ?). split; [by apply Hsub|done].
Qed.

Lemma remembered_empty seen a : remembered seen a emptyActor.
Proof. split; [done|]. intros b Hb. discriminate Hb. Qed.

Definition op_detections (o : op) : list Detection :=
  match o with OpDetection d => [d] | _ => [] end.

Lemma states_ok_detection seen d c :
  states_ok seen c → states_ok (seen ++ [d]) (ObserveDetection d c).
Proof.
  intros Hs. assert (seen ⊆ seen ++ [d]) as Hsub by set_solver.
  assert (states_ok (seen ++ [d]) c) as Hs'.
  { intros a s Hl. eapply remembered_mono; [exact Hsub|by apply Hs]. }
  assert (remembered (seen ++ [d]) (d_Actor d) (default emptyActor (co_states c !! d_Actor d)))
    as [Hd1 Hd2].
  { destruct (co_states c !! d_Actor d) eqn:Hl; [by apply Hs'|apply remembered_empty]. }
  unfold ObserveDetection. destruct (str_eqb (d_Kind d) KindScan) eqn:Hk1;
    [|destruct (str_eqb (d_Kind d) KindBruteForce) eqn:Hk2; [|done]]; to_prop;
    (apply map_Forall_insert_2; [|done]); split; cbn.
  - intros _. exists d. split; [set_solver|done].
  - done.
  - done.
  - intros b [= <-]. split; [set_solver|done].
Qed.

Lemma states_ok_step seen o c c' r :
  step o c = (c', r) → states_ok seen c → states_ok (seen ++ op_detections o) c'.
Proof.
  intros Hs Hok. destruct r as [inc|].
  - destruct (step_fires _ _ _ _ Hs) as (_ & _ & -> & _).
    intros a s Hl. cbn in Hl. apply lookup_delete_Some in Hl as [_ Hl].
    eapply remembered_mono; [|by apply Hok]. set_solver.
  - destruct o as [d|d|actor host user at_ raw]; cbn in *.
    + injection Hs as <-. by apply states_ok_detection.
    + rewrite app_nil_r. revert Hs. unfold ObserveSentinelFinding.
      repeat (case_match; try (intros [= <-]; done)); done.
    + rewrite app_nil_r. revert Hs. unfold ObserveSuccess.
      repeat (case_match; try (intros [= <-]; done)); done.
Qed.

(** A member of an incident, against the detections seen so far. *)
Definition member_ok (w : Z) (seen : list Detection) (inc : Incident) (m : Member) : Prop :=
  in_FirstAt inc <= mb_At m <= in_LastAt inc ∧
  ((mb_Stage m = "scan" ∧ in_LastAt inc - mb_At m <= 2 * w ∧
    ∃ d, d ∈ seen ∧ d_Kind d = KindScan ∧ d_Actor d = in_Actor inc ∧
      d_LastAt d = mb_At m ∧ d_Title d = mb_Note m) ∨
   (mb_Stage m = "brute_force" ∧ in_LastAt inc - mb_At m <= w ∧
    ∃ d, d ∈ seen ∧ d_Kind d = KindBruteForce ∧ d_Actor d = in_Actor inc ∧
      d_LastAt d = mb_At m ∧ d_Title d = mb_Note m) ∨
   (mb_Stage m ∈ ["deception"; "success"] ∧ mb_At m = in_LastAt inc)).

Definition incident_ok (w : Z) (seen : list Detection) (inc : Incident) : Prop :=
  in_Stages inc = map mb_Stage (in_Members inc) ∧ (2 <= length (in_Members inc))%nat ∧
  Forall (member_ok w seen inc) (in_Members inc).

Lemma sentinel_incident_ok seen d c c' inc :
  in_int64 (co_window c) → co_window c < MaxInt64 → 0 <= co_window c → states_ok seen c →
  ObserveSentinelFinding d c = (c', Some inc) → incident_ok (co_window c) seen inc.
Proof.
  intros Hi Hm Hw Hok. unfold ObserveSentinelFinding.
  destruct (negb _ || _); [done|]. destruct (co_states c !! _) as [s|] eqn:Hs; [|done].
  destruct (Hok _ _ Hs) as [Hscan Hbrute]. destruct (cooling _ _ c); [done|].
  destruct (negb (time_IsZero (ac_scanAt s)) && _) eqn:Hhs;
    destruct (match ac_brute s with Some _ => true | None => false end && _) eqn:Hhb;
    cbn [negb andb app]; [..|done]; intros [= _ <-]; to_prop;
    repeat match goal with
    | H : linked _ _ _ = true |- _ => apply (linked_true _ _ _ Hi Hm) in H; unfold linked_spec in H
    end; unfold incident_ok, member_ok, brute_title; cbn;
    try (destruct (ac_brute s) as [b|] eqn:Hb; [|discriminate];
         destruct (Hbrute b eq_refl) as (Hin & Hk & Ha & Hl));
    try (unfold time_IsZero, time_Before in *; destruct Hscan as (ds & ?); [by apply Z.eqb_neq|]);
    (split; [done|]); (split; [lia|]).
  - destruct (Z.eqb_spec (ac_scanAt s) 0); [done|]. cbn [orb].
    repeat apply Forall_cons_2; [..|apply Forall_nil_2]; cbn.
    + split; [case_ifs; to_prop; lia|]. left. split_and!; [done|lia|]. by exists ds.
    + split; [case_ifs; to_prop; lia|]. right; left. split_and!; [done|lia|]. by exists b.
    + split; [case_ifs; to_prop; lia|]. right; right. split; [set_solver|done].
  - repeat apply Forall_cons_2; [..|apply Forall_nil_2]; cbn.
    + split; [lia|]. left. split_and!; [done|lia|]. by exists ds.
    + split; [lia|]. right; right. split; [set_solver|done].
  - repeat apply Forall_cons_2; [..|apply Forall_nil_2]; cbn.
    + split; [lia|]. right; left. split_and!; [done|lia|]. by exists b.
    + split; [lia|]. right; right. split; [set_solver|done].
Qed.

Lemma success_incident_ok seen actor host user at_ raw c c' inc :
  in_int64 (co_window c) → co_window c < MaxInt64 → 0 <= co_window c → states_ok seen c →
  ObserveSuccess actor host user at_ raw c = (c', Some inc) → incident_ok (co_window c) seen inc.
Proof.
  intros Hi Hm Hw Hok. unfold ObserveSuccess.
  destruct (co_states c !! _) as [s|] eqn:Hs; [|done].
  destruct (Hok _ _ Hs) as [Hscan Hbrute]. destruct (ac_brute s) as [b|] eqn:Hb; [|done].
  destruct (Hbrute b eq_refl) as (Hin & Hk & Ha & Hl).
  destruct ((co_window c <? _) || _) eqn:Hlate; [done|]. apply orb_false_iff in Hlate as [Hlate Hord].
  rewrite Z.ltb_antisym, time_Sub_leb in Hlate by done. unfold time_Before in Hord. to_prop.
  destruct (cooling _ _ c); [done|].
  destruct (negb (time_IsZero (ac_scanAt s)) && linked _ _ _) eqn:Hhs; intros [= _ <-]; to_prop;
    repeat match goal with
    | H : linked _ _ _ = true |- _ => apply (linked_true _ _ _ Hi Hm) in H; unfold linked_spec in H
    end; unfold incident_ok, member_ok; cbn; unfold time_IsZero, time_Before in *;
    (split; [done|]); (split; [lia|]).
  - destruct Hscan as (ds & Hds); [by apply Z.eqb_neq|].
    repeat apply Forall_cons_2; [..|apply Forall_nil_2]; cbn.
    + split; [case_ifs; to_prop; lia|]. left. split_and!; [done|lia|]. by exists ds.
    + split; [case_ifs; to_prop; lia|]. right; left. split_and!; [done|lia|]. by exists b.
    + split; [case_ifs; to_prop; lia|]. right; right. split; [set_solver|done].
  - repeat apply Forall_cons_2; [..|apply Forall_nil_2]; cbn.
    + split; [case_ifs; to_prop; lia|]. right; left. split_and!; [done|lia|]. by exists b.
    + split; [case_ifs; to_prop; lia|]. right; right. split; [set_solver|done].
Qed.

Lemma ObserveDetection_scan d c :
  d_Kind d = KindScan →
  ObserveDetection d c = update_actor (d_Actor d)
    (λ s, mkActor (d_LastAt d) (d_Title d) (ac_bruteAt s) (ac_brute s) (new_target d s)) c.
Proof. intros Hk. unfold ObserveDetection, str_eqb. by rewrite Hk, bool_decide_true. Qed.

Lemma ObserveDetection_brute d c :
  d_Kind d = KindBruteForce →
  ObserveDetection d c = update_actor (d_Actor d)
    (λ s, mkActor (ac_scanAt s) (ac_scanNote s) (d_LastAt d) (Some d) (new_target d s)) c.
Proof.
  intros Hk. unfold ObserveDetection, str_eqb.
  by rewrite Hk, bool_decide_false, bool_decide_true.
Qed.

(** The correlator after a sequence of operations. *)
Definition after (ops : list op) (c : Correlator) : Correlator :=
  foldl (λ c o, fst (step o c)) c ops.

Lemma after_ok ops : ∀ seen c,
  states_ok seen c →
  states_ok (seen ++ concat (map op_detections ops)) (after ops c) ∧
  co_window (after ops c) = co_window c.
Proof.
  induction ops as [|o ops IH]; intros seen c Hok; cbn; [by rewrite app_nil_r|].
  destruct (step o c) as [c' r] eqn:Hs.
  destruct (IH (seen ++ op_detections o) c') as [Hok' Hw]; [by eapply states_ok_step|].
  rewrite <-app_assoc in Hok'. split; [exact Hok'|]. cbn in *.
  destruct (step_config _ _ _ _ Hs) as [<- _]. exact Hw.
Qed.

(** * Properties *)

(** Two incidents about the same actor are at least the cooldown apart,
    whatever the operations and their order. *)
Theorem incidents_respect_cooldown window cooldown ops :
  cooldown <= MaxInt64 →
  let c := New window cooldown in
  StronglySorted (λ i j, in_Actor i = in_Actor j → co_cool c <= in_LastAt j - in_LastAt i)
    (run ops c).
Proof.
  intros Hc c. assert (0 <= co_cool c <= MaxInt64) as Hr.
  { subst c. cbn. destruct (Z.leb_spec cooldown 0); [by vm_compute|lia]. }
  apply run_far; int_lia.
Qed.

(** The correlator treats actors independently: the incidents about an actor
    are those of the operations about it alone, whatever is mixed in. *)
Theorem actors_independent window cooldown ops a :
  about a (run ops (New window cooldown)) =
    run (filter (λ o, op_actor o = a) ops) (New window cooldown).
Proof. by apply run_isolated. Qed.

(** C26: every incident is made of real evidence: it has at least two members, its
    stages are theirs, each earlier stage is a scan or brute-force detection of
    the same actor that was observed before, none is after the closing event or
    before [FirstAt], and none is older than the window allows (one window for a
    brute force, two for a scan that precedes it). *)
Theorem incidents_sound window cooldown ops o c' inc :
  window < MaxInt64 →
  let c := after ops (New window cooldown) in
  step o c = (c', Some inc) →
  incident_ok (co_window (New window cooldown)) (concat (map op_detections ops)) inc.
Proof.
  intros Hw c Hs.
  assert (0 <= co_window (New window cooldown) < MaxInt64) as Hr.
  { cbn. destruct (Z.leb_spec window 0); [by vm_compute|lia]. }
  destruct (after_ok ops [] (New window cooldown)) as [Hok Hcw]; [apply map_Forall_empty|].
  fold c in Hok, Hcw. rewrite <-Hcw in *. cbn [app] in Hok.
  destruct o as [d|d|actor host user at_ raw]; cbn in Hs; [done|..].
  - eapply sentinel_incident_ok; [int_lia|lia|lia|exact Hok|exact Hs].
  - eapply success_incident_ok; [int_lia|lia|lia|exact Hok|exact Hs].
Qed.

Definition exDet (kind actor : string) (t : Z) : Detection :=
  mkDetection kind SevMedium actor "web" "" "title" "detail" 1 t t [] "key".

Definition exOps : list op :=
  [OpDetection (exDet KindScan "9.9.9.9" 10); OpDetection (exDet KindBruteForce "9.9.9.9" 20)].

Lemma incidents_sound_witness :
  ∃ c' inc, step (OpSuccess "9.9.9.9" "web" "root" 30 "raw") (after exOps (New 0 0)) = (c', Some inc) ∧
    incident_ok (co_window (New 0 0)) (concat (map op_detections exOps)) inc.
Proof.
  eexists _, _. split; [vm_compute; reflexivity|].
  eapply (incidents_sound 0 0 exOps (OpSuccess "9.9.9.9" "web" "root" 30 "raw")).
  - reflexivity.
  - vm_compute. reflexivity.
Defined.

Lemma incidents_respect_cooldown_witness :
  StronglySorted (λ i j, in_Actor i = in_Actor j → 15 * Minute <= in_LastAt j - in_LastAt i)
    (run (exOps ++ [OpSuccess "9.9.9.9" "web" "root" 30 "raw"]) (New 0 0)).
Proof.
  apply (incidents_respect_cooldown 0 0 (exOps ++ [OpSuccess "9.9.9.9" "web" "root" 30 "raw"])).
  vm_compute. discriminate.
Defined.

(** A full kill chain is never missed: when the operations about an actor are
    a scan, a brute force and a successful login, in time order with each gap
    inside the window, exactly one incident is raised, critical, with the three
    stages at their times, whatever other actors do in between. *)
Theorem kill_chain_completes window cooldown ops ds db actor host user at_ raw :
  let c := New window cooldown in
  window < MaxInt64 →
  d_Kind ds = KindScan → d_Kind db = KindBruteForce → d_Actor ds = actor → d_Actor db = actor →
  d_LastAt ds ≠ 0 →
  0 <= d_LastAt db - d_LastAt ds <= co_window c → 0 <= at_ - d_LastAt db <= co_window c →
  filter (λ o, op_actor o = actor) ops =
    [OpDetection ds; OpDetection db; OpSuccess actor host user at_ raw] →
  ∃ inc, about actor (run ops c) = [inc] ∧ in_Severity inc = "critical" ∧
    map (λ m, (mb_Stage m, mb_At m)) (in_Members inc) =
      [("scan", d_LastAt ds); ("brute_force", d_LastAt db); ("success", at_)] ∧
    in_FirstAt inc = d_LastAt ds ∧ in_LastAt inc = at_.
Proof.
  intros c Hw Hks Hkb Has Hab Hz Hg1 Hg2 Hops.
  rewrite (run_isolated actor ops c c eq_refl), Hops.
  assert (0 <= co_window c < MaxInt64) as Hr.
  { subst c. cbn. destruct (Z.leb_spec window 0); [by vm_compute|lia]. }
  set (c1 := ObserveDetection ds c). set (c2 := ObserveDetection db c1).
  assert (∃ tgt, co_states c2 !! actor =
    Some (mkActor (d_LastAt ds) (d_Title ds) (d_LastAt db) (Some db) tgt)) as [tgt Hst].
  { subst c2 c1. rewrite (ObserveDetection_scan ds) by done. rewrite ObserveDetection_brute by done.
    unfold update_actor. cbn. rewrite Hab, Has, lookup_insert_eq. cbn.
    rewrite lookup_insert_eq. by eexists. }
  assert (co_window c2 = co_window c ∧ co_fired c2 = ∅) as [Hcw Hcf].
  { subst c2 c1. rewrite (ObserveDetection_scan ds) by done. by rewrite ObserveDetection_brute. }
  cbn [run step]. fold c1. fold c2. unfold ObserveSuccess, cooling.
  rewrite Hst, Hcf, lookup_empty. cbn [ac_brute ac_bruteAt ac_scanAt ac_scanNote ac_target].
  rewrite Hcw, Z.ltb_antisym, time_Sub_leb by (int_lia || lia).
  rewrite (proj2 (Z.leb_le _ _)) by lia. unfold time_Before. rewrite (proj2 (Z.ltb_ge _ _)) by lia.
  cbn [negb orb]. unfold time_IsZero. rewrite (proj2 (Z.eqb_neq _ _)) by done.
  assert (in_int64 (co_window c)) as Hi by int_lia.
  rewrite (proj2 (linked_true _ _ _ Hi (proj2 Hr)) Hg1). cbn [negb andb app].
  eexists. split; [reflexivity|]. cbn. split_and!; [done|done| |done].
  case_ifs; to_prop; lia.
Qed.

Lemma kill_chain_completes_witness :
  let c := New 0 0 in
  ∃ inc, about "9.9.9.9" (run (exOps ++ [OpSuccess "9.9.9.9" "web" "root" 30 "raw"]) c) = [inc] ∧
    in_Severity inc = "critical" ∧
    map (λ m, (mb_Stage m, mb_At m)) (in_Members inc) =
      [("scan", 10); ("brute_force", 20); ("success", 30)] ∧
    in_FirstAt inc = 10 ∧ in_LastAt inc = 30.
Proof.
  intros c.
  apply (kill_chain_completes 0 0 (exOps ++ [OpSuccess "9.9.9.9" "web" "root" 30 "raw"])
    (exDet KindScan "9.9.9.9" 10) (exDet KindBruteForce "9.9.9.9" 20) "9.9.9.9" "web" "root" 30 "raw");
    try reflexivity; try discriminate; split; vm_compute; discriminate.
Defined.

(** A scan that is too old to be part of the chain still moves the start of
    the incident: its time becomes [FirstAt] although it is not a member and
    every member is later. *)
Theorem stale_scan_moves_start actor host user at_ raw c s b :
  in_int64 (co_window c) → 0 <= co_window c < MaxInt64 →
  co_states c !! actor = Some s → ac_brute s = Some b → ac_scanAt s ≠ 0 →
  co_window c < ac_bruteAt s - ac_scanAt s →
  0 <= at_ - ac_bruteAt s <= co_window c → cooling actor at_ c = false →
  ∃ c' inc, ObserveSuccess actor host user at_ raw c = (c', Some inc) ∧
    in_FirstAt inc = ac_scanAt s ∧ map mb_Stage (in_Members inc) = ["brute_force"; "success"] ∧
    Forall (λ m, in_FirstAt inc + co_window c < mb_At m) (in_Members inc).
Proof.
  intros Hi Hw Hs Hb Hz Hold Hg Hc. unfold ObserveSuccess. rewrite Hs, Hb, Hc.
  rewrite Z.ltb_antisym, time_Sub_leb by (done || lia).
  rewrite (proj2 (Z.leb_le _ _)) by lia. unfold time_Before. rewrite (proj2 (Z.ltb_ge _ _)) by lia.
  cbn [negb orb]. unfold linked, time_IsZero. rewrite time_Sub_leb by (done || lia).
  rewrite (proj2 (Z.eqb_neq _ _)) by done. rewrite (proj2 (Z.leb_gt _ _)) by lia.
  rewrite (proj2 (Z.ltb_lt _ _)) by lia. cbn [negb andb app].
  eexists _, _. split; [reflexivity|]. cbn. split_and!; [done|done|].
  repeat apply Forall_cons_2; [..|apply Forall_nil_2]; cbn; lia.
Qed.

Lemma stale_scan_moves_start_witness :
  let s := mkActor 10 "scan" (10 + Hour) (Some (exDet KindBruteForce "a" (10 + Hour))) "web" in
  let c := mkCorrelator (10 * Minute) (15 * Minute) {["a" := s]} ∅ in
  ∃ c' inc, ObserveSuccess "a" "web" "root" (20 + Hour) "raw" c = (c', Some inc) ∧
    in_FirstAt inc = 10 ∧ map mb_Stage (in_Members inc) = ["brute_force"; "success"] ∧
    Forall (λ m, in_FirstAt inc + 10 * Minute < mb_At m) (in_Members inc).
Proof.
  intros s c.
  apply (stale_scan_moves_start "a" "web" "root" (20 + Hour) "raw" c s
    (exDet KindBruteForce "a" (10 + Hour)));
    try reflexivity; try discriminate; split; vm_compute; (reflexivity || discriminate).
Defined.
