(* ===== verification/Notify.v ===== *)
(** Notifications: the batching dispatcher ([src/notify/notify.go]), the text
    rendering ([src/notify/format.go]), and the webhook, Slack, Telegram and
    syslog channels ([src/notify/channels.go]). *)
From S2P Require Import Prelude Text Netip Core.
Local Open Scope Z_scope.

(** * Events and digests *)

Definition KindOpened : string := "opened".
Definition KindResolved : string := "resolved".

Record NEvent := mkNEvent { n_Kind : string; n_Module : string; n_Finding : Finding }.

Record Digest := mkDigest {
  dg_Module : string;
  dg_Opened : list Finding;
  dg_Resolved : list Finding;
  dg_At : Z;
}.

Definition Empty (d : Digest) : bool :=
  (length (dg_Opened d) =? 0)%nat && (length (dg_Resolved d) =? 0)%nat.

Record Config := mkConfig {
  FlushInterval : Z;
  MaxBatch : Z;
  MinSeverity : string;
  Retries : Z;
  RetryDelay : Z;
}.

Definition positive_or (d v : Z) : Z := if v <=? 0 then d else v.

Definition withDefaults (c : Config) : Config :=
  mkConfig (positive_or (30 * Second) (FlushInterval c)) (positive_or 100 (MaxBatch c))
    (MinSeverity c) (positive_or 3 (Retries c)) (positive_or (5 * Second) (RetryDelay c)).

(** * Severity order *)

Definition severityRank (s : string) : Z :=
  if str_eqb s SeverityCritical then 4
  else if str_eqb s SeverityHigh then 3
  else if str_eqb s SeverityMedium then 2
  else if str_eqb s SeverityLow then 1
  else 0.

(** The inner loop of [sortBySeverity] moves the element at place [j] towards the
    front, past every element of lower rank next to it: [rev_front] is the part
    of the slice before it, last element first. *)
Fixpoint sift (x : Finding) (rev_front : list Finding) : list Finding :=
  match rev_front with
  | y :: rest =>
    if severityRank (f_Severity y) <? severityRank (f_Severity x)
    then y :: sift x rest else x :: rev_front
  | [] => [x]
  end.

(** The outer loop: the sorted front, last element first, and the rest. *)
Fixpoint sort_loop (rev_front fs : list Finding) : list Finding :=
  match fs with
  | [] => rev rev_front
  | x :: rest => sort_loop (sift x rev_front) rest
  end.

Definition sortBySeverity (fs : list Finding) : list Finding := sort_loop [] fs.

(** * The dispatcher *)

Record Dispatcher := mkDispatcher {
  di_cfg : Config;
  di_pending : gmap string (list NEvent);
  di_seen : gset string;
  di_timer : bool;                (* the window timer is armed *)
  di_closed : bool;
}.

Definition NewDispatcher (cfg : Config) : Dispatcher :=
  mkDispatcher (withDefaults cfg) ∅ ∅ false false.

Definition passesSeverity (s : string) (d : Dispatcher) : bool :=
  is_empty (MinSeverity (di_cfg d))
  || (severityRank (MinSeverity (di_cfg d)) <=? severityRank s).

Definition dedup_key (e : NEvent) : string :=
  sprint [n_Kind e; "|"; n_Module e; "|"; f_Fingerprint (n_Finding e)].

Definition of_event (k : string) (events : list NEvent) : list Finding :=
  map n_Finding (filter (λ e, n_Kind e = k) events).

Definition digest_of (now : Z) (module : string) (events : list NEvent) : Digest :=
  mkDigest module (sortBySeverity (of_event KindOpened events)) (of_event KindResolved events) now.

Section Dispatcher.
Context `{MapRange}.

Definition pending_total (p : gmap string (list NEvent)) : Z :=
  foldl (λ t me, t + Z.of_nat (length (snd me))) 0 (range_map p).

(** [flushLocked]: the digests handed to every channel, one per module that has
    something to say. *)
Definition flushLocked (now : Z) (d : Dispatcher) : Dispatcher * list Digest :=
  if (size (di_pending d) =? 0)%nat
  then (mkDispatcher (di_cfg d) (di_pending d) (di_seen d) false (di_closed d), [])
  else
    let digests := map (λ me, digest_of now (fst me) (snd me)) (range_map (di_pending d)) in
    (mkDispatcher (di_cfg d) ∅ ∅ false (di_closed d),
     filter (λ dg, Empty dg = false) digests).

Definition Enqueue (now : Z) (e : NEvent) (d : Dispatcher) : Dispatcher * list Digest :=
  if str_eqb (n_Kind e) KindOpened && negb (passesSeverity (f_Severity (n_Finding e)) d)
  then (d, [])
  else if di_closed d then (d, [])
  else
    let key := dedup_key e in
    if bool_decide (key ∈ di_seen d) then (d, [])
    else
      let pending :=
        <[n_Module e := map_get [] (di_pending d) (n_Module e) ++ [e]]> (di_pending d) in
      let d := mkDispatcher (di_cfg d) pending ({[key]} ∪ di_seen d) (di_timer d) (di_closed d) in
      if MaxBatch (di_cfg d) <=? pending_total pending then flushLocked now d
      else (mkDispatcher (di_cfg d) pending (di_seen d) true (di_closed d), []).

Definition Flush (now : Z) (d : Dispatcher) : Dispatcher * list Digest := flushLocked now d.

Definition Close (now : Z) (d : Dispatcher) : Dispatcher * list Digest :=
  let '(d, ds) := flushLocked now d in
  (mkDispatcher (di_cfg d) (di_pending d) (di_seen d) (di_timer d) true, ds).
End Dispatcher.

(** [sendWithRetry]: [send i] is the outcome of the [i]-th attempt. The result is
    the number of attempts made, and the error given to [OnSendError] if all of
    them failed. *)
Fixpoint sendWithRetry (send : nat → option string) (left attempt : nat) (err : string) :
    nat * option string :=
  match left with
  | O => (attempt, Some err)
  | S left' =>
    match send attempt with
    | None => (S attempt, None)
    | Some e => sendWithRetry send left' (S attempt) e
    end
  end.

(** * Rendering *)

Definition severityBadge (s : string) : string :=
  if str_eqb s SeverityCritical then "🟥 CRITICAL"
  else if str_eqb s SeverityHigh then "🟧 HIGH"
  else if str_eqb s SeverityMedium then "🟨 MEDIUM"
  else if str_eqb s SeverityLow then "🟦 LOW"
  else "⬜ INFO".

Definition productName (module : string) : string :=
  if str_eqb module "certwatch" then "CertWatch"
  else if str_eqb module "asm" then "Attack Surface Monitor"
  else if str_eqb module "decoy" then "Decoy"
  else if str_eqb module "patchlight" then "Patchlight"
  else if str_eqb module "rulehawk" then "RuleHawk"
  else if str_eqb module "loglight" then "Loglight"
  else module.

Definition newline : string := String (ascii_of_byte 10) EmptyString.

Definition FormatText (d : Digest) : string :=
  let opened :=
    if (length (dg_Opened d) =? 0)%nat then ""
    else sprint ([productName (dg_Module d); " — "; dec (Z.of_nat (length (dg_Opened d)));
                  " new finding(s)"; newline] ++
      map (λ f, sprint [newline; severityBadge (f_Severity f); " "; f_Target f; newline; "  ";
                        f_Title f; newline; "  → "; f_Remediation f; newline]) (dg_Opened d)) in
  let resolved :=
    if (length (dg_Resolved d) =? 0)%nat then ""
    else sprint ([if is_empty opened then "" else newline; "✅ ";
                  dec (Z.of_nat (length (dg_Resolved d))); " finding(s) resolved"; newline] ++
      map (λ f, sprint ["  • "; f_Target f; " — "; f_Title f; newline]) (dg_Resolved d)) in
  strings_TrimRight (opened +:+ resolved) [10].

(** * Channels over HTTP *)

Record httpRequest := mkRequest {
  rq_URL : string;
  rq_Body : string;
  rq_Headers : list (string * string);
}.

(** The client and the JSON encoder are the outside world: a status code with its
    text, or an error; the encoding of a payload, or an error. *)
Class HTTPClient := httpDo : httpRequest → result string (Z * string).

Record webhookFinding := mkWire {
  wf_Target : string;
  wf_Check : string;
  wf_Severity : string;
  wf_Title : string;
  wf_Remediation : string;
  wf_Evidence : evidence;
}.

Record webhookPayload := mkPayload {
  wp_Version : Z;
  wp_Module : string;
  wp_At : Z;
  wp_Opened : list webhookFinding;
  wp_Resolved : list webhookFinding;
}.

Class PayloadEncoder := {
  marshal_payload : webhookPayload → result string string;
  marshal_strings : list (string * string) → result string string;
}.

Definition toWire (f : Finding) : webhookFinding :=
  mkWire (f_Target f) (f_Check f) (f_Severity f) (f_Title f) (f_Remediation f) (f_Evidence f).

Section Channels.
Context `{HTTPClient} `{PayloadEncoder}.

(** A response outside 200..299 is an error. *)
Definition post (name : string) (rq : httpRequest) : option string :=
  match httpDo rq with
  | Err e => Some e
  | Ok (code, status) =>
    if (code <? 200) || (299 <? code) then Some (sprint [name; " returned "; status]) else None
  end.

Definition WebhookChannel_Send (url secret : string) (d : Digest) : option string :=
  let payload :=
    mkPayload 1 (dg_Module d) (dg_At d) (map toWire (dg_Opened d)) (map toWire (dg_Resolved d)) in
  match marshal_payload payload with
  | Err e => Some e
  | Ok body =>
    post "webhook" (mkRequest url body
      (("Content-Type", "application/json") ::
       (if is_empty secret then []
        else [("X-Hexward-Token", secret); ("X-Sentinel-Token", secret)])))
  end.

Definition SlackChannel_Send (url : string) (d : Digest) : option string :=
  match marshal_strings [("text", FormatText d)] with
  | Err e => Some e
  | Ok body => post "slack" (mkRequest url body [("Content-Type", "application/json")])
  end.

Definition TelegramChannel_Send (token chat baseURL : string) (d : Digest) : option string :=
  let base := if is_empty baseURL then "https://api.telegram.org" else baseURL in
  match marshal_strings [("chat_id", chat); ("text", FormatText d)] with
  | Err e => Some e
  | Ok body =>
    post "telegram" (mkRequest (sprint [base; "/bot"; token; "/sendMessage"]) body
      [("Content-Type", "application/json")])
  end.
End Channels.

(** * Syslog *)

Definition statusWord (resolved : bool) : string := if resolved then "resolved" else "open".

Fixpoint first_ip (keys : list string) (ev : gmap string any) : string :=
  match keys with
  | [] => ""
  | k :: rest =>
    match ev !! k with
    | Some (AString s) =>
      match net_ParseIP (strings_TrimSpace s) with
      | Some _ => strings_TrimSpace s
      | None => first_ip rest ev
      end
    | _ => first_ip rest ev
    end
  end.

Definition evidenceIP (ev : evidence) : string :=
  first_ip ["source_ip"; "src_ip"; "src"; "actor"; "client_ip"; "ip"] (default ∅ ev).

Definition syslogSeverity `{UnicodeTables} (sev : string) : Z :=
  let s := strings_ToLower sev in
  if str_eqb s "critical" then 2
  else if str_eqb s "high" then 3
  else if str_eqb s "medium" then 4
  else if str_eqb s "low" then 5
  else 6.

Definition sanitizeSyslog (s : string) : string :=
  let s := strings_Map (λ r, if (r =? 10) || (r =? 13) || (r =? 0) then 32 else r) s in
  if 1600 <? str_len s then str_take 1600 s +:+ "…" else s.

Definition syslogMessage (module : string) (f : Finding) (resolved : bool) : string :=
  let src := evidenceIP (f_Evidence f) in
  sanitizeSyslog (sprint
    [if resolved then "RESOLVED: " else ""; f_Title f;
     " | product="; module; " severity="; f_Severity f; " check="; f_Check f;
     " target="; f_Target f; " status="; statusWord resolved;
     if is_empty src then "" else " src=" +:+ src]).

Record SyslogChannel := mkSyslog {
  sy_Addr : string;
  sy_Network : string;
  sy_Hostname : string;
  sy_Tag : string;
  sy_Facility : Z;
}.

(** The host the process runs on: [os.Hostname], [os.Getpid], and the rendering
    of a time in the local zone by [time.Stamp]. *)
Class Process := {
  os_Hostname : result string string;
  os_Getpid : Z;
  format_Stamp : Z → string;
}.

Section lines.
Context `{UnicodeTables} `{Process}.

Definition syslog_host (s : SyslogChannel) : string :=
  if is_empty (sy_Hostname s) then
    match os_Hostname with
    | Ok h => if is_empty h then "-" else h
    | Err _ => "-"
    end
  else sy_Hostname s.

Definition syslog_line (pri : Z) (ts host tag : string) (msg : string) : string :=
  sprint ["<"; dec pri; ">"; ts; " "; host; " "; tag; "["; dec os_Getpid; "]: "; msg; newline].

(** [lines]; [clock] is the [time.Now()] that stands in for a digest without a
    time. *)
Definition SyslogChannel_lines (s : SyslogChannel) (clock : Z) (d : Digest) : list string :=
  let tag := if is_empty (sy_Tag s) then dg_Module d else sy_Tag s in
  let facility := if sy_Facility s =? 0 then 16 else sy_Facility s in
  let stamp := if time_IsZero (dg_At d) then clock else dg_At d in
  let ts := format_Stamp stamp in
  map (λ f, syslog_line (facility * 8 + syslogSeverity (f_Severity f)) ts (syslog_host s) tag
              (syslogMessage (dg_Module d) f false)) (dg_Opened d) ++
  map (λ f, syslog_line (facility * 8 + 5) ts (syslog_host s) tag
              (syslogMessage (dg_Module d) f true)) (dg_Resolved d).
End lines.

(** [SyslogChannel.Send]: dial, and write line after line until one fails. *)
Class Network := {
  net_Dial : string → string → option string;
  conn_Write : string → option string;
}.

Fixpoint write_lines `{Network} (ls : list string) : option string :=
  match ls with
  | [] => None
  | l :: rest => match conn_Write l with Some e => Some e | None => write_lines rest end
  end.

Definition SyslogChannel_Send `{UnicodeTables} `{Process} `{Network}
    (s : SyslogChannel) (clock : Z) (d : Digest) : option string :=
  if Empty d then None
  else
    match net_Dial (if is_empty (sy_Network s) then "udp" else sy_Network s) (sy_Addr s) with
    | Some e => Some e
    | None => write_lines (SyslogChannel_lines s clock d)
    end.

(** * The dispatcher as a batching buffer *)

(** The operations the scheduler, the window timer and shutdown apply. *)
Inductive di_op :=
| OpEnqueue (now : Z) (e : NEvent)
| OpFlush (now : Z)
| OpClose (now : Z).

Definition di_step `{MapRange} (o : di_op) (d : Dispatcher) : Dispatcher * list Digest :=
  match o with
  | OpEnqueue now e => Enqueue now e d
  | OpFlush now => Flush now d
  | OpClose now => Close now d
  end.

Fixpoint di_run `{MapRange} (ops : list di_op) (d : Dispatcher) : Dispatcher * list (list Digest) :=
  match ops with
  | [] => (d, [])
  | o :: rest => let '(d, ds) := di_step o d in let '(d, dss) := di_run rest d in (d, ds :: dss)
  end.

(** The specification keeps one list, the events of the current window, in
    arrival order, and whether the buffer is closed. A step may send the window
    off: [Some (now, window)]. *)
Record buffer := mkBuffer { bu_window : list NEvent; bu_closed : bool }.

(** What the dispatcher takes in: an event of sufficient severity, unless the
    buffer is closed or the window has the same transition already. *)
Definition accepts (cfg : Config) (e : NEvent) (b : buffer) : bool :=
  negb (bu_closed b)
  && (negb (str_eqb (n_Kind e) KindOpened) || is_empty (MinSeverity cfg)
      || (severityRank (MinSeverity cfg) <=? severityRank (f_Severity (n_Finding e))))
  && negb (bool_decide (dedup_key e ∈ map dedup_key (bu_window b))).

Definition buffer_step (cfg : Config) (o : di_op) (b : buffer) : buffer * option (Z * list NEvent) :=
  match o with
  | OpEnqueue now e =>
    if accepts cfg e b then
      let w := bu_window b ++ [e] in
      if MaxBatch cfg <=? Z.of_nat (length w) then (mkBuffer [] (bu_closed b), Some (now, w))
      else (mkBuffer w (bu_closed b), None)
    else (b, None)
  | OpFlush now => (mkBuffer [] (bu_closed b), Some (now, bu_window b))
  | OpClose now => (mkBuffer [] true, Some (now, bu_window b))
  end.

Fixpoint buffer_run (cfg : Config) (ops : list di_op) (b : buffer) :
    buffer * list (option (Z * list NEvent)) :=
  match ops with
  | [] => (b, [])
  | o :: rest =>
    let '(b, s) := buffer_step cfg o b in let '(b, ss) := buffer_run cfg rest b in (b, s :: ss)
  end.

Definition of_module (m : string) (w : list NEvent) : list NEvent :=
  filter (λ e, n_Module e = m) w.

(** The digests that a window becomes: for every module with an event to tell,
    exactly one, made of the module's events in arrival order. *)
Definition delivers (s : option (Z * list NEvent)) (ds : list Digest) : Prop :=
  match s with
  | None => ds = []
  | Some (now, w) =>
    NoDup (map dg_Module ds) ∧
    ∀ dg, dg ∈ ds ↔ ∃ m, dg = digest_of now m (of_module m w) ∧ Empty dg = false
  end.

(** The dispatcher holds a window: its pending map groups the window by module,
    and its [seen] set has the window's keys. *)
Record holds (cfg : Config) (d : Dispatcher) (b : buffer) : Prop := {
  hd_cfg : di_cfg d = withDefaults cfg;
  hd_pending : ∀ m, map_get [] (di_pending d) m = of_module m (bu_window b);
  hd_total : ∀ `{MapRange}, pending_total (di_pending d) = Z.of_nat (length (bu_window b));
  hd_seen : ∀ k, k ∈ di_seen d ↔ k ∈ map dedup_key (bu_window b);
  hd_closed : di_closed d = bu_closed b;
}.

(** Between operations its timer is armed exactly when something waits, and less
    than a batch waits. *)
Record represents (cfg : Config) (d : Dispatcher) (b : buffer) : Prop := {
  rep_holds : holds cfg d b;
  rep_timer : di_timer d = true ↔ bu_window b ≠ [];
  rep_small : Z.of_nat (length (bu_window b)) < MaxBatch (withDefaults cfg);
}.

Section batching.

Lemma pending_total_sum `{MapRange} p :
  pending_total p = Z.of_nat (sum_list (map (λ me, length (snd me)) (map_to_list p))).
Proof.
  assert (∀ (l : list (string * list NEvent)) a,
    foldl (λ t me, t + Z.of_nat (length (snd me))) a l
      = a + Z.of_nat (sum_list (map (λ me, length (snd me)) l))) as Hl.
  { induction l as [|x l IH]; intros a; simpl; [lia|]. rewrite IH. lia. }
  unfold pending_total. rewrite Hl. f_equal.
  induction (range_map_perm _ p); simpl; lia.
Qed.

Lemma pending_total_insert `{MapRange} p m e :
  pending_total (<[m := map_get [] p m ++ [e]]> p) = pending_total p + 1.
Proof.
  rewrite !pending_total_sum.
  assert (∀ l k : list (string * list NEvent), l ≡ₚ k →
    sum_list (map (λ me, length (snd me)) l) = sum_list (map (λ me, length (snd me)) k)) as Hp.
  { induction 1; simpl; lia. }
  unfold map_get. destruct (p !! m) as [es|] eqn:Hm; simpl.
  - rewrite <- insert_delete_eq, (Hp _ _ (map_to_list_insert _ m _ (lookup_delete_eq _ _))).
    rewrite <- (Hp _ _ (map_to_list_delete _ m es Hm)). simpl. rewrite length_app. simpl. lia.
  - rewrite (Hp _ _ (map_to_list_insert _ m _ Hm)). simpl. lia.
Qed.

Lemma withDefaults_MaxBatch cfg : 0 < MaxBatch (withDefaults cfg).
Proof. simpl. unfold positive_or. case_ifs; to_prop; lia. Qed.

Lemma represents_empty cfg c :
  represents cfg (mkDispatcher (withDefaults cfg) ∅ ∅ false c) (mkBuffer [] c).
Proof.
  split; [split|..]; try done; [| |apply withDefaults_MaxBatch].
  - intros Hr. simpl. rewrite pending_total_sum. by rewrite map_to_list_empty.
  - intros k. simpl. set_solver.
Qed.

Lemma of_module_snoc m w e :
  of_module m (w ++ [e]) = of_module m w ++ (if decide (n_Module e = m) then [e] else []).
Proof. unfold of_module. rewrite filter_app, filter_cons. by case_decide. Qed.

Lemma holds_empty cfg d b : holds cfg d b → di_pending d = ∅ → bu_window b = [] ∧ di_seen d = ∅.
Proof.
  intros [_ Hp _ Hseen _] Hz. assert (bu_window b = []) as Hw.
  { destruct (bu_window b) as [|e w] eqn:Hw; [done|]. exfalso.
    specialize (Hp (n_Module e)). rewrite Hz in Hp. unfold map_get, of_module in Hp.
    by rewrite lookup_empty, filter_cons_True in Hp by done. }
  split; [done|]. apply set_eq. intros k. rewrite Hseen, Hw. set_solver.
Qed.

(** Sending a window off. *)
Lemma flushLocked_delivers `{MapRange} cfg d b now : holds cfg d b →
  (flushLocked now d).1 = mkDispatcher (withDefaults cfg) ∅ ∅ false (bu_closed b) ∧
  delivers (Some (now, bu_window b)) (flushLocked now d).2.
Proof.
  intros Hh. pose proof Hh as [Hcfg Hp _ Hseen Hcl]. unfold flushLocked.
  destruct (Nat.eqb_spec (size (di_pending d)) 0) as [Hz|Hz]; simpl.
  - apply map_size_empty_inv in Hz. destruct (holds_empty _ _ _ Hh Hz) as [Hw ->].
    rewrite Hcfg, Hcl, Hw, Hz. split; [done|]. split; [constructor|].
    intros dg. split; [by intros ?%not_elem_of_nil|]. by intros (m & -> & ?).
  - rewrite Hcfg, Hcl. split; [done|]. split.
    + eapply sublist_NoDup; [|apply (fmap_sublist dg_Module), sublist_filter].
      change (map ?f ?l) with (f <$> l). rewrite <- list_fmap_compose.
      rewrite (list_fmap_ext _ fst) by done. rewrite range_map_perm. apply NoDup_fst_map_to_list.
    + intros dg. rewrite list_elem_of_filter. change (map ?f ?l) with (f <$> l).
      rewrite list_elem_of_fmap. split.
      * intros (He & [m es] & -> & Hin). simpl in *. apply elem_of_range_map in Hin.
        exists m. specialize (Hp m). unfold map_get in Hp. rewrite Hin in Hp. simpl in Hp.
        by rewrite <- Hp.
      * intros (m & -> & He). split; [done|]. specialize (Hp m). unfold map_get in Hp.
        destruct (di_pending d !! m) as [es|] eqn:Hm; simpl in Hp.
        { exists (m, es). simpl. rewrite <- Hp. split; [done|]. by apply elem_of_range_map. }
        by rewrite <- Hp in He.
Qed.

(** Taking an event in. *)
Lemma holds_add cfg d b e t : holds cfg d b →
  holds cfg (mkDispatcher (di_cfg d)
      (<[n_Module e := map_get [] (di_pending d) (n_Module e) ++ [e]]> (di_pending d))
      ({[dedup_key e]} ∪ di_seen d) t (di_closed d))
    (mkBuffer (bu_window b ++ [e]) (bu_closed b)).
Proof.
  intros [Hcfg Hp Htot Hseen Hcl]. split; simpl; [done| | | |done].
  - intros m. rewrite of_module_snoc, <- (Hp m). case_decide as Hm; subst.
    + by rewrite map_get_insert_eq.
    + by rewrite map_get_insert_ne, app_nil_r.
  - intros Hr. rewrite pending_total_insert, Htot, length_app. simpl. lia.
  - intros k. rewrite map_app, elem_of_union, elem_of_singleton, Hseen, elem_of_app. simpl.
    rewrite list_elem_of_singleton. tauto.
Qed.

Lemma represents_flush `{MapRange} cfg d b now : holds cfg d b →
  represents cfg (flushLocked now d).1 (mkBuffer [] (bu_closed b)) ∧
  delivers (Some (now, bu_window b)) (flushLocked now d).2.
Proof.
  intros Hh. destruct (flushLocked_delivers cfg d b now Hh) as [-> Hd].
  split; [|done]. apply represents_empty.
Qed.

Lemma Enqueue_cases `{MapRange} cfg d b e now : holds cfg d b →
  Enqueue now e d =
    if accepts (withDefaults cfg) e b then
      let pending :=
        <[n_Module e := map_get [] (di_pending d) (n_Module e) ++ [e]]> (di_pending d) in
      if MaxBatch (withDefaults cfg) <=? Z.of_nat (length (bu_window b ++ [e]))
      then flushLocked now (mkDispatcher (di_cfg d) pending ({[dedup_key e]} ∪ di_seen d)
             (di_timer d) (di_closed d))
      else (mkDispatcher (di_cfg d) pending ({[dedup_key e]} ∪ di_seen d) true (di_closed d), [])
    else (d, []).
Proof.
  intros Hh. pose proof (hd_total _ _ _ (holds_add cfg d b e true Hh)) as Htot. simpl in Htot.
  destruct Hh as [Hcfg _ _ Hseen Hcl].
  unfold Enqueue, accepts, passesSeverity. rewrite <- Htot, <- Hcl, Hcfg.
  rewrite (bool_decide_ext _ _ (Hseen (dedup_key e))).
  destruct (str_eqb (n_Kind e) KindOpened), (is_empty _), (_ <=? severityRank _),
    (di_closed d), (bool_decide (dedup_key e ∈ _)); done.
Qed.

Lemma represents_step `{MapRange} cfg o d b : represents cfg d b →
  represents cfg (di_step o d).1 (buffer_step (withDefaults cfg) o b).1 ∧
  delivers (buffer_step (withDefaults cfg) o b).2 (di_step o d).2.
Proof.
  intros Hr. pose proof (rep_holds _ _ _ Hr) as Hh. destruct o as [now e|now|now].
  - cbn [di_step buffer_step]. rewrite (Enqueue_cases cfg d b) by done.
    destruct (accepts _ _ _); [|done].
    pose proof (holds_add cfg d b e) as Ha. cbn zeta.
    destruct (Z.leb_spec (MaxBatch (withDefaults cfg)) (Z.of_nat (length (bu_window b ++ [e]))))
      as [Hm|Hm].
    + destruct (represents_flush cfg _ _ now (Ha (di_timer d) Hh)) as [Hrep Hd]. by split.
    + split; [|done]. split; [by apply Ha| |done]. simpl.
      split; [intros _ ?; by destruct (bu_window b)|done].
  - by apply represents_flush.
  - destruct (represents_flush cfg d b now Hh) as [Hrep Hd]. simpl. unfold Close.
    destruct (flushLocked_delivers cfg d b now Hh) as [Heq _].
    destruct (flushLocked now d) as [d' ds]. simpl in *. subst d'.
    split; [apply represents_empty|done].
Qed.

Lemma represents_run `{MapRange} cfg ops : ∀ d b, represents cfg d b →
  represents cfg (di_run ops d).1 (buffer_run (withDefaults cfg) ops b).1 ∧
  Forall2 delivers (buffer_run (withDefaults cfg) ops b).2 (di_run ops d).2.
Proof.
  induction ops as [|o ops IH]; intros d b Hr; simpl; [done|].
  destruct (represents_step cfg o d b Hr) as [Hr' Hd].
  destruct (buffer_step _ o b) as [b' s], (di_step o d) as [d' ds]. simpl in *.
  destruct (IH d' b' Hr') as [Hr'' Hds].
  destruct (buffer_run _ ops b') as [? ?], (di_run ops d') as [? ?]. simpl in *. auto.
Qed.
End batching.

(** * Sorting by severity *)

Section sort.
Let rank (f : Finding) : Z := severityRank (f_Severity f).

Lemma sift_perm x l : sift x l ≡ₚ x :: l.
Proof.
  induction l as [|y l IH]; [done|]. simpl. case_match; [|done].
  rewrite IH. apply perm_swap.
Qed.

Lemma sift_sorted x l :
  StronglySorted (λ a b, rank a <= rank b) l → StronglySorted (λ a b, rank a <= rank b) (sift x l).
Proof.
  unfold rank. induction 1 as [|y l Hs IH Hy]; simpl; [repeat constructor|].
  case_match; to_prop.
  - constructor; [done|]. rewrite sift_perm. constructor; [lia|done].
  - constructor; [by constructor|]. constructor; [lia|].
    eapply Forall_impl; [done|]. simpl. lia.
Qed.

Lemma sift_filter x l r :
  StronglySorted (λ a b, rank a <= rank b) l →
  filter (λ f, rank f = r) (sift x l) = filter (λ f, rank f = r) (x :: l).
Proof.
  unfold rank. induction 1 as [|y l Hs IH Hy]; simpl; [done|].
  case_match; [|done]. to_prop. rewrite !filter_cons in *.
  rewrite IH. repeat case_decide; try done. lia.
Qed.

Lemma sort_loop_spec fs : ∀ front,
  StronglySorted (λ a b, rank a <= rank b) front →
  sort_loop front fs ≡ₚ front ++ fs ∧
  StronglySorted (λ a b, rank b <= rank a) (sort_loop front fs) ∧
  ∀ r, filter (λ f, rank f = r) (sort_loop front fs)
       = rev (filter (λ f, rank f = r) front) ++ filter (λ f, rank f = r) fs.
Proof.
  induction fs as [|x fs IH]; intros front Hs; simpl.
  - rewrite !app_nil_r. split; [symmetry; apply Permutation_rev|]. split.
    + induction Hs as [|y l Hs IH Hy]; simpl; [constructor|].
      apply StronglySorted_app_2; [|done|repeat constructor].
      intros a b Ha Hb. apply list_elem_of_singleton in Hb as ->.
      rewrite <- (Permutation_rev l) in Ha. rewrite Forall_forall in Hy. by apply Hy.
    + intros r. rewrite app_nil_r. clear. induction front as [|y l IH]; [done|].
      simpl. rewrite filter_app, IH, !filter_cons. case_decide; simpl; [done|].
      by rewrite app_nil_r.
  - destruct (IH (sift x front) (sift_sorted x front Hs)) as (Hp & Hso & Hf).
    split; [rewrite Hp, sift_perm; simpl; apply Permutation_middle|]. split; [done|].
    intros r. rewrite Hf, (sift_filter x front r Hs), !filter_cons.
    case_decide; simpl; [by rewrite <- app_assoc|done].
Qed.
End sort.

Lemma sortBySeverity_perm fs : sortBySeverity fs ≡ₚ fs.
Proof. apply (sort_loop_spec fs []). constructor. Qed.

(** * Lines that no finding can break *)

Section sanitize.

Definition no_byte (b : Z) (s : string) : Prop := b ∉ bytes_of_string s.

Lemma no_byte_app b s t : no_byte b s → no_byte b t → no_byte b (s +:+ t).
Proof. unfold no_byte. rewrite bytes_of_string_app, elem_of_app. tauto. Qed.

Lemma no_byte_sprint b l : Forall (no_byte b) l → no_byte b (sprint l).
Proof.
  unfold sprint. induction 1 as [|x l Hx Hl IH]; [by intros ?%not_elem_of_nil|].
  destruct l as [|y l]; [done|]. cbn [String.concat] in *.
  apply no_byte_app; [done|]. rewrite append_nil_l. exact IH.
Qed.

Lemma no_byte_take b n s : no_byte b s → no_byte b (str_take n s).
Proof.
  unfold no_byte, str_take. revert n. induction s as [|c s IH]; intros [|n] Hb; try apply not_elem_of_nil.
  unfold bytes_of_string in *. cbn. intros Hin.
  apply elem_of_cons in Hin as [Hin|Hin]; [apply Hb; rewrite Hin; by left|].
  apply (IH n); [|done]. intros ?. apply Hb. by right.
Qed.

(** A control byte is only in the encoding of itself. *)
Lemma utf8_encode_control b r : b < 128 → r ≠ b → b ∉ utf8_encode r.
Proof.
  intros Hb Hr. unfold utf8_encode. case_ifs; to_prop;
    repeat match goal with H : _ || _ = false |- _ => apply orb_false_iff in H as [??] end; to_prop;
    rewrite ?not_elem_of_cons; repeat split; try apply not_elem_of_nil; try lia;
    match goal with |- context [?a `mod` 64] => idtac | |- _ => Z.div_mod_to_equations; lia end;
    repeat match goal with |- context [?a `mod` 64] =>
      pose proof (Z.mod_pos_bound a 64 ltac:(lia)); generalize dependent (a `mod` 64); intros end;
    lia.
Qed.

Lemma utf8_encode_wf r : wf_bytes (utf8_encode r).
Proof.
  unfold wf_bytes, utf8_encode. case_ifs; to_prop;
    repeat match goal with H : _ || _ = false |- _ => apply orb_false_iff in H as [??] end; to_prop;
    repeat constructor; unfold is_byte; Z.div_mod_to_equations; lia.
Qed.

Lemma strings_Map_no_byte b f s : b < 128 → (∀ r, f r ≠ b) → no_byte b (strings_Map f s).
Proof.
  intros Hb Hf. unfold no_byte, strings_Map, string_of_runes.
  rewrite bytes_of_string_of_bytes.
  - induction (runes s) as [|r l IH]; simpl; [apply not_elem_of_nil|].
    rewrite elem_of_app. intros [Hin|Hin]; [|done]. by eapply utf8_encode_control.
  - induction (runes s) as [|r l IH]; simpl; [constructor|].
    apply Forall_app. split; [apply utf8_encode_wf|done].
Qed.

Lemma sanitize_no_byte b s : b = 10 ∨ b = 13 ∨ b = 0 → no_byte b (sanitizeSyslog s).
Proof.
  intros Hb. unfold sanitizeSyslog.
  assert (no_byte b (strings_Map (λ r, if (r =? 10) || (r =? 13) || (r =? 0) then 32 else r) s)).
  { apply strings_Map_no_byte; [lia|]. intros r.
    destruct (Z.eqb_spec r 10), (Z.eqb_spec r 13), (Z.eqb_spec r 0); simpl; lia. }
  case_ifs; [|done]. apply no_byte_app; [by apply no_byte_take|].
  unfold no_byte. change (bytes_of_string "…") with [226; 128; 166].
  rewrite !not_elem_of_cons. repeat split; try lia. apply not_elem_of_nil.
Qed.

Lemma str_take_length n s : (String.length (str_take n s) <= n)%nat.
Proof.
  unfold str_take. revert n. induction s as [|c s IH]; intros [|n]; simpl; try lia.
  specialize (IH n). lia.
Qed.

Lemma sanitize_length s : str_len (sanitizeSyslog s) <= 1603.
Proof.
  unfold sanitizeSyslog, str_len. case_ifs; to_prop; [|lia].
  rewrite str_length_app. change (String.length "…") with 3%nat.
  pose proof (str_take_length 1600
    (strings_Map (λ r, if (r =? 10) || (r =? 13) || (r =? 0) then 32 else r) s)). lia.
Qed.

End sanitize.

Lemma has_char_no_byte b s : is_byte b → has_char (ascii_of_byte b) s = false → no_byte b s.
Proof.
  intros Hb. unfold no_byte, bytes_of_string. induction s as [|c s IH]; cbn [has_char].
  { intros _. apply not_elem_of_nil. }
  destruct (Ascii.eqb_spec c (ascii_of_byte b)) as [->|Hc]; [done|]. intros Hs.
  cbn. rewrite not_elem_of_cons. split; [|by apply IH].
  intros ->. apply Hc. by rewrite ascii_of_byte_of_ascii.
Qed.

Lemma dec_no_newline z : no_byte 10 (dec z).
Proof. apply has_char_no_byte; [unfold is_byte; lia|]. by apply has_char_dec. Qed.

#[export] Hint Resolve dec_no_newline no_byte_app no_byte_sprint : go.

(** A frame is a body without a line feed, which ends in a bounded message, and
    the line feed. *)
Definition framed (line : string) : Prop :=
  ∃ head msg, line = (head +:+ msg) +:+ newline ∧ no_byte 10 (head +:+ msg) ∧ str_len msg <= 1603.

Lemma syslog_line_framed `{Process} pri ts host tag msg :
  no_byte 10 ts → no_byte 10 host → no_byte 10 tag →
  framed (syslog_line pri ts host tag (sanitizeSyslog msg)).
Proof.
  intros Hts Hho Hta.
  exists (sprint ["<"; dec pri; ">"; ts; " "; host; " "; tag; "["; dec os_Getpid; "]: "]),
    (sanitizeSyslog msg).
  split; [|split; [|apply sanitize_length]].
  - unfold syslog_line, sprint. cbn [String.concat].
    by rewrite !append_nil_l, !append_assoc.
  - apply no_byte_app; [|apply sanitize_no_byte; auto]. apply no_byte_sprint.
    repeat constructor; auto with go; by apply has_char_no_byte.
Qed.

(** * Nothing accepted is lost *)

Section kept.
Context (cfg : Config).

(** The windows sent off by a run. *)
Definition sent (ss : list (option (Z * list NEvent))) (e : NEvent) : Prop :=
  ∃ now w, Some (now, w) ∈ ss ∧ e ∈ w.

Lemma buffer_step_keeps o b e : e ∈ bu_window b →
  e ∈ bu_window (buffer_step cfg o b).1 ∨ sent [(buffer_step cfg o b).2] e.
Proof.
  intros He. unfold sent. destruct o as [now e'|now|now]; simpl.
  - case_ifs; simpl; [right|left|left; done].
    + exists now, (bu_window b ++ [e']). split; [by left|]. apply elem_of_app; auto.
    + apply elem_of_app; auto.
  - right. exists now, (bu_window b). split; [by left|done].
  - right. exists now, (bu_window b). split; [by left|done].
Qed.

Lemma buffer_run_keeps ops e : ∀ b, e ∈ bu_window b →
  e ∈ bu_window (buffer_run cfg ops b).1 ∨ sent (buffer_run cfg ops b).2 e.
Proof.
  induction ops as [|o ops IH]; intros b He; [by left|]. simpl.
  pose proof (buffer_step_keeps o b e He) as Hk.
  destruct (buffer_step cfg o b) as [b' s]. simpl in Hk. destruct Hk as [Hk|Hk].
  - destruct (IH b' Hk) as [Hw|(now & w & Hs & Hw)]; destruct (buffer_run cfg ops b'); [by left|].
    right. exists now, w. split; [by right|done].
  - destruct Hk as (now & w & Hs & Hw). apply list_elem_of_singleton in Hs as <-.
    destruct (buffer_run cfg ops b'). right. exists now, w. split; [by left|done].
Qed.

Lemma buffer_run_app ops ops' b :
  buffer_run cfg (ops ++ ops') b =
  (let '(b', s) := buffer_run cfg ops b in
   let '(b'', s') := buffer_run cfg ops' b' in (b'', s ++ s')).
Proof.
  revert b. induction ops as [|o ops IH]; intros b; simpl; [by destruct (buffer_run _ _ _)|].
  destruct (buffer_step cfg o b) as [b' s]. rewrite IH.
  destruct (buffer_run cfg ops b') as [b1 s1], (buffer_run cfg ops' b1). done.
Qed.

(** An event that passes the severity gate is in the window afterwards, itself
    or the earlier event of the same transition, or has just been sent. *)
Lemma buffer_accepts now e b :
  bu_closed b = false →
  (n_Kind e = KindOpened → MinSeverity cfg = "" ∨
     severityRank (MinSeverity cfg) <= severityRank (f_Severity (n_Finding e))) →
  ∃ e', dedup_key e' = dedup_key e ∧
    (e' ∈ bu_window (buffer_step cfg (OpEnqueue now e) b).1
     ∨ sent [(buffer_step cfg (OpEnqueue now e) b).2] e').
Proof.
  intros Hc Hs. cbn [buffer_step]. unfold accepts. rewrite Hc.
  replace (negb (str_eqb (n_Kind e) KindOpened) || is_empty (MinSeverity cfg)
    || (severityRank (MinSeverity cfg) <=? severityRank (f_Severity (n_Finding e)))) with true.
  2:{ symmetry. unfold str_eqb at 1. case_bool_decide as Hk; [|done].
      destruct (Hs Hk) as [->|Hr]; [done|]. apply orb_true_iff. right. by apply Z.leb_le. }
  case_bool_decide as Hd; simpl.
  - apply list_elem_of_fmap in Hd as (e' & Hk & Hin). exists e'. auto.
  - exists e. split; [done|]. case_ifs; simpl; [right|left].
    + exists now, (bu_window b ++ [e]). split; [by left|]. apply elem_of_app. right. by left.
    + apply elem_of_app. right. by left.
Qed.

Lemma buffer_run_open ops b :
  bu_closed b = false → Forall (λ o, match o with OpClose _ => False | _ => True end) ops →
  bu_closed (buffer_run cfg ops b).1 = false.
Proof.
  intros Hb Ho. revert b Hb. induction Ho as [|o ops Ho Hos IH]; intros b Hb; [done|].
  assert (bu_closed (buffer_step cfg o b).1 = false) as Hb'.
  { destruct o; simpl; [by case_ifs|done|done]. }
  simpl. destruct (buffer_step cfg o b) as [b' s].
  specialize (IH b' Hb'). by destruct (buffer_run cfg ops b').
Qed.

Lemma sent_app s s' e : sent (s ++ s') e ↔ sent s e ∨ sent s' e.
Proof. unfold sent. setoid_rewrite elem_of_app. naive_solver. Qed.

(** Closing sends what waits. *)
Lemma buffer_run_close ops now e b :
  e ∈ bu_window b → sent (buffer_run cfg (ops ++ [OpClose now]) b).2 e.
Proof.
  intros He. rewrite buffer_run_app. pose proof (buffer_run_keeps ops e b He) as Hk.
  destruct (buffer_run cfg ops b) as [b' s]. simpl in *. apply sent_app.
  destruct Hk as [Hk|Hk]; [right|by left]. exists now, (bu_window b'). split; [by left|done].
Qed.

Lemma buffer_sends before now e after now' b :
  bu_closed b = false → Forall (λ o, match o with OpClose _ => False | _ => True end) before →
  (n_Kind e = KindOpened → MinSeverity cfg = "" ∨
     severityRank (MinSeverity cfg) <= severityRank (f_Severity (n_Finding e))) →
  ∃ e', dedup_key e' = dedup_key e ∧
    sent (buffer_run cfg (before ++ OpEnqueue now e :: after ++ [OpClose now']) b).2 e'.
Proof.
  intros Hc Hb Hs. pose proof (buffer_run_open before b Hc Hb) as Hc'. rewrite buffer_run_app.
  destruct (buffer_run cfg before b) as [b1 s1]. cbn [fst] in Hc'.
  destruct (buffer_accepts now e b1 Hc' Hs) as (e' & Hk & Hin). exists e'. split; [done|].
  cbn [buffer_run].
  destruct (buffer_step cfg (OpEnqueue now e) b1) as [b2 s2]. cbn [fst snd] in Hin.
  assert (sent ([s2] ++ (buffer_run cfg (after ++ [OpClose now']) b2).2) e') as Hsent.
  { apply sent_app. destruct Hin as [Hin|Hin]; [right; by apply buffer_run_close|by left]. }
  destruct (buffer_run cfg (after ++ [OpClose now']) b2). apply sent_app. by right.
Qed.

(** Windows hold enqueued events only. *)
Lemma buffer_run_from ops (P : NEvent → Prop) :
  Forall (λ o, match o with OpEnqueue _ e => P e | _ => True end) ops →
  ∀ b, Forall P (bu_window b) →
  Forall P (bu_window (buffer_run cfg ops b).1) ∧ (∀ e, sent (buffer_run cfg ops b).2 e → P e).
Proof.
  assert (∀ e, sent [] e → P e) as Hnil by (by intros e (? & ? & ?%not_elem_of_nil & ?)).
  assert (∀ o b, match o with OpEnqueue _ e => P e | _ => True end → Forall P (bu_window b) →
    Forall P (bu_window (buffer_step cfg o b).1) ∧ ∀ e, sent [(buffer_step cfg o b).2] e → P e) as Hst.
  { intros o b Ho Hb.
    assert (∀ now w e, Forall P w → sent [Some (now, w)] e → P e) as Hsome.
    { intros now w e Hw (n & w' & Hin & He). apply list_elem_of_singleton in Hin as [= -> ->].
      rewrite Forall_forall in Hw. by apply Hw. }
    assert (∀ e, sent [None] e → P e) as Hno by (by intros e (? & ? & ?%list_elem_of_singleton & ?)).
    destruct o as [now e|now|now]; simpl.
    - assert (Forall P (bu_window b ++ [e])) by (apply Forall_app; auto).
      case_ifs; simpl; eauto.
    - eauto.
    - eauto. }
  induction 1 as [|o ops Ho _ IH]; intros b Hb; [by split|]. simpl.
  destruct (Hst o b Ho Hb) as [Hb' Hs]. destruct (buffer_step cfg o b) as [b' s].
  destruct (IH b' Hb') as [Hb'' Hs']. destruct (buffer_run cfg ops b') as [b'' ss].
  split; [done|]. intros e (now & w & Hin & He). apply elem_of_cons in Hin as [Heq|Hin].
  - apply Hs. exists now, w. split; [rewrite Heq; by left|done].
  - apply Hs'. by exists now, w.
Qed.
End kept.

(** Events as the program makes them: the two kinds, and module names without
    the separator of the deduplication key. *)
Definition regular (e : NEvent) : Prop :=
  (n_Kind e = KindOpened ∨ n_Kind e = KindResolved) ∧ has_char "|"%char (n_Module e) = false.

Lemma dedup_key_regular e e' : regular e → regular e' → dedup_key e' = dedup_key e →
  n_Kind e' = n_Kind e ∧ n_Module e' = n_Module e ∧
  f_Fingerprint (n_Finding e') = f_Fingerprint (n_Finding e).
Proof.
  intros [Hk Hm] [Hk' Hm']. unfold dedup_key, sprint. cbn [String.concat].
  rewrite !append_nil_l, !append_cons, !append_nil_l. intros He.
  apply append_sep_inj in He as [? He];
    [|by destruct Hk' as [-> | ->]|by destruct Hk as [-> | ->]].
  by apply append_sep_inj in He.
Qed.

Lemma digest_has_opened now e w : n_Kind e = KindOpened → e ∈ w →
  n_Finding e ∈ dg_Opened (digest_of now (n_Module e) (of_module (n_Module e) w)).
Proof.
  intros Hk He. simpl. rewrite sortBySeverity_perm. apply list_elem_of_fmap.
  exists e. split; [done|]. apply list_elem_of_filter. split; [done|].
  by apply list_elem_of_filter.
Qed.

(** * Properties *)

(** C27: The dispatcher implements a simple batching buffer. Whatever sequence of
    [Enqueue], [Flush] and [Close] calls is made, and in whatever order Go
    ranges over the pending map, the dispatcher sends what the buffer sends: a
    window goes off when it is full, when it is flushed or when the dispatcher
    is closed, each module with something to tell gets exactly one digest of its
    own events in arrival order, and nothing is sent otherwise. Between calls the
    pending map, the [seen] set and the flags represent the window, less than
    [MaxBatch] events wait, and the timer is armed exactly when some event
    waits, so no event is left without a flush to come. *)
Theorem dispatcher_refines_buffer `{MapRange} cfg ops :
  represents cfg (di_run ops (NewDispatcher cfg)).1
    (buffer_run (withDefaults cfg) ops (mkBuffer [] false)).1 ∧
  Forall2 delivers (buffer_run (withDefaults cfg) ops (mkBuffer [] false)).2
    (di_run ops (NewDispatcher cfg)).2.
Proof. apply represents_run, represents_empty. Qed.

(** An opened event of sufficient severity is in some digest by the time the
    dispatcher is closed. *)
Lemma opened_is_delivered `{MapRange} cfg now now' e before after :
  Forall (λ o, match o with OpEnqueue _ e => regular e | OpClose _ => False | _ => True end)
    (before ++ OpEnqueue now e :: after) →
  n_Kind e = KindOpened →
  (MinSeverity cfg = "" ∨
   severityRank (MinSeverity cfg) <= severityRank (f_Severity (n_Finding e))) →
  ∃ ds dg f, ds ∈ (di_run (before ++ OpEnqueue now e :: after ++ [OpClose now'])
                     (NewDispatcher cfg)).2 ∧
    dg ∈ ds ∧ dg_Module dg = n_Module e ∧ f ∈ dg_Opened dg ∧
    f_Fingerprint f = f_Fingerprint (n_Finding e).
Proof.
  intros Hall Hk Hsev.
  set (ops := before ++ OpEnqueue now e :: after ++ [OpClose now']).
  destruct (represents_run cfg ops _ _ (represents_empty cfg false)) as [_ Hds].
  change (mkDispatcher (withDefaults cfg) ∅ ∅ false false) with (NewDispatcher cfg) in Hds.
  set (c := withDefaults cfg) in *.
  assert (regular e) as Hrege by (rewrite Forall_app, Forall_cons in Hall; tauto).
  assert (Forall (λ o, match o with OpEnqueue _ e => regular e | _ => True end) ops) as Hops.
  { subst ops. change (OpEnqueue now e :: after ++ [OpClose now'])
      with ((OpEnqueue now e :: after) ++ [OpClose now']). rewrite app_assoc.
    apply Forall_app. split; [|by repeat constructor].
    eapply Forall_impl; [exact Hall|]. by intros [| |]. }
  destruct (buffer_sends c before now e after now' (mkBuffer [] false)) as (e' & Hkey & Hsent);
    [done| |by intros _|].
  { apply Forall_app in Hall as [Hall _]. eapply Forall_impl; [exact Hall|]. by intros [| |]. }
  destruct (buffer_run_from c ops regular Hops (mkBuffer [] false)) as [_ Hreg]; [constructor|].
  specialize (Hreg e' Hsent). destruct Hsent as (n & w & Hs & Hw).
  destruct (dedup_key_regular e e' Hrege Hreg Hkey) as (Hk' & Hm & Hfp).
  apply list_elem_of_lookup in Hs as [i Hi].
  destruct (Forall2_lookup_l _ _ _ _ _ Hds Hi) as (ds & Hdsi & _ & Hin).
  pose proof (digest_has_opened n e' w (eq_trans Hk' Hk) Hw) as Hf.
  exists ds, (digest_of n (n_Module e') (of_module (n_Module e') w)), (n_Finding e').
  split; [by eapply list_elem_of_lookup_2|]. split; [|by rewrite <- Hm].
  apply Hin. eexists. split; [done|]. unfold Empty.
  destruct (dg_Opened _) eqn:Ho; [|done]. by apply not_elem_of_nil in Hf.
Qed.

(** No alert is lost. An opened event of sufficient severity that is enqueued
    before the dispatcher is closed reaches the channels by the time it is
    closed, itself or as the equal transition already in its window: some
    digest of its module lists, among its opened findings, one of its
    fingerprint. *)
Theorem no_alert_lost `{MapRange} cfg now now' e before after :
  Forall (λ o, match o with OpEnqueue _ e => regular e | OpClose _ => False | _ => True end)
    (before ++ OpEnqueue now e :: after) →
  n_Kind e = KindOpened →
  (MinSeverity cfg = "" ∨
   severityRank (MinSeverity cfg) <= severityRank (f_Severity (n_Finding e))) →
  ∃ ds dg f, ds ∈ (di_run (before ++ OpEnqueue now e :: after ++ [OpClose now'])
                     (NewDispatcher cfg)).2 ∧
    dg ∈ ds ∧ dg_Module dg = n_Module e ∧ f ∈ dg_Opened dg ∧
    f_Fingerprint f = f_Fingerprint (n_Finding e).
Proof. apply opened_is_delivered. Qed.

Definition exEvent (k fp sev : string) : NEvent :=
  mkNEvent k "loglight" (collectorFinding fp "web" "auth-bruteforce" "t" sev "r" None).

Lemma no_alert_lost_witness :
  ∃ ds dg f, ds ∈ (@di_run canonical_range
                     ([OpFlush 5] ++ OpEnqueue 10 (exEvent "opened" "fp1" "high") ::
                      [OpEnqueue 11 (exEvent "opened" "fp2" "critical")] ++ [OpClose 20])
                     (NewDispatcher (mkConfig 0 0 "medium" 0 0))).2 ∧
    dg ∈ ds ∧ dg_Module dg = "loglight" ∧ f ∈ dg_Opened dg ∧ f_Fingerprint f = "fp1".
Proof.
  apply (@no_alert_lost canonical_range (mkConfig 0 0 "medium" 0 0) 10 20
    (exEvent "opened" "fp1" "high") [OpFlush 5] [OpEnqueue 11 (exEvent "opened" "fp2" "critical")]).
  - repeat constructor.
  - reflexivity.
  - right. vm_compute. discriminate.
Defined.

(** [sortBySeverity] is a stable sort: it keeps every finding, puts the most
    severe first, and leaves findings of equal rank in arrival order. *)
Theorem sortBySeverity_stable fs :
  sortBySeverity fs ≡ₚ fs ∧
  StronglySorted (λ a b, severityRank (f_Severity b) <= severityRank (f_Severity a))
    (sortBySeverity fs) ∧
  ∀ r, filter (λ f, severityRank (f_Severity f) = r) (sortBySeverity fs)
       = filter (λ f, severityRank (f_Severity f) = r) fs.
Proof. apply (sort_loop_spec fs []). constructor. Qed.

(** A hostile title, target or evidence value cannot break the syslog stream.
    If the host name, the tag and the time stamp hold no line feed, every
    finding of a digest becomes exactly one frame: one line feed, at the end,
    and a message of at most 1603 bytes before it. *)
Theorem syslog_one_frame_per_finding `{UnicodeTables} `{Process} s clock d :
  (∀ t, no_byte 10 (format_Stamp t)) →
  no_byte 10 (syslog_host s) →
  no_byte 10 (if is_empty (sy_Tag s) then dg_Module d else sy_Tag s) →
  length (SyslogChannel_lines s clock d) = (length (dg_Opened d) + length (dg_Resolved d))%nat ∧
  Forall framed (SyslogChannel_lines s clock d).
Proof.
  intros Hts Hho Hta. unfold SyslogChannel_lines. split.
  - by rewrite length_app, !length_map.
  - apply Forall_app. split; apply Forall_forall; intros line Hin;
      apply list_elem_of_fmap in Hin as (f & -> & _); by apply syslog_line_framed.
Qed.

Definition exProcess : Process := {|
  os_Hostname := Ok "gw"; os_Getpid := 7; format_Stamp := λ _, "Jan  2 15:04:05" |}.

Lemma syslog_one_frame_per_finding_witness :
  let d := mkDigest "loglight" [n_Finding (exEvent "opened" "fp1" ("high" +:+ newline))] [] 5 in
  let lines := @SyslogChannel_lines (λ r, r) exProcess (mkSyslog "h:514" "" "" "" 0) 0 d in
  length lines = 1%nat ∧ Forall framed lines.
Proof.
  refine (@syslog_one_frame_per_finding (λ r, r) exProcess (mkSyslog "h:514" "" "" "" 0) 0
    (mkDigest "loglight" [n_Finding (exEvent "opened" "fp1" ("high" +:+ newline))] [] 5) _ _ _).
  - intros t. apply has_char_no_byte; [unfold is_byte; lia|]. vm_compute. reflexivity.
  - apply has_char_no_byte; [unfold is_byte; lia|]. vm_compute. reflexivity.
  - apply has_char_no_byte; [unfold is_byte; lia|]. vm_compute. reflexivity.
Defined.

(** The attempts of [sendWithRetry], from the first one. *)
Lemma sendWithRetry_from send left : ∀ attempt err,
  (∃ k, (k < left)%nat ∧ send (attempt + k)%nat = None ∧
     (∀ j, (j < k)%nat → is_Some (send (attempt + j)%nat)) ∧
     sendWithRetry send left attempt err = (attempt + S k, None)%nat) ∨
  ((∀ j, (j < left)%nat → is_Some (send (attempt + j)%nat)) ∧
     sendWithRetry send left attempt err =
       ((attempt + left)%nat,
        match left with O => Some err | S k => send (attempt + k)%nat end)).
Proof.
  induction left as [|left IH]; intros attempt err; simpl.
  { right. split; [lia|]. by rewrite Nat.add_0_r. }
  destruct (send attempt) as [e|] eqn:Hs.
  - destruct (IH (S attempt) e) as [(k & Hk & Hn & Hj & Heq)|(Hj & Heq)].
    + left. exists (S k). replace (attempt + S k)%nat with (S attempt + k)%nat by lia.
      split; [lia|]. split; [done|]. split; [|rewrite Heq; f_equal; lia].
      intros [|j] ?; [rewrite Nat.add_0_r, Hs; by eexists|].
      replace (attempt + S j)%nat with (S attempt + j)%nat by lia. apply Hj. lia.
    + right. split.
      * intros [|j] ?; [rewrite Nat.add_0_r, Hs; by eexists|].
        replace (attempt + S j)%nat with (S attempt + j)%nat by lia. apply Hj. lia.
      * rewrite Heq. destruct left as [|left].
        { rewrite !Nat.add_0_r, Hs. f_equal; lia. }
        replace (attempt + S left)%nat with (S attempt + left)%nat by lia. f_equal; lia.
  - left. exists O. rewrite Nat.add_0_r. split; [lia|]. split; [done|].
    split; [lia|]. f_equal. lia.
Qed.

(** Delivery of a digest to a channel: attempts are made until the first that
    succeeds, and no further; only when every one of the [Retries] attempts has
    failed is an error reported, and it is the last one. At least one attempt is
    always made, whatever the configuration. *)
Theorem sendWithRetry_spec cfg send :
  let n := Z.to_nat (Retries (withDefaults cfg)) in
  (0 < n)%nat ∧
  ((∃ k, (k < n)%nat ∧ send k = None ∧ (∀ j, (j < k)%nat → is_Some (send j)) ∧
      sendWithRetry send n 0 "" = (S k, None)) ∨
   ((∀ j, (j < n)%nat → is_Some (send j)) ∧
      sendWithRetry send n 0 "" = (n, send (n - 1)%nat))).
Proof.
  intros n. assert (0 < n)%nat as Hn.
  { subst n. simpl. unfold positive_or. case_ifs; to_prop; lia. }
  split; [done|]. destruct (sendWithRetry_from send n 0 "") as [Hs|(Hj & Heq)]; [by left|].
  right. split; [done|]. rewrite Heq. destruct n as [|k]; [lia|].
  by replace (S k - 1)%nat with k by lia.
Qed.
