(* ===== verification/Hfs.v ===== *)
(** Digests as Hexward Finding Schema events: [src/notify/hfs.go] and
    [src/hfsbridge/hfsbridge.go]. The schema itself ([hfs.New]) and the sinks are
    the shared library's: parameters. *)
From S2P Require Import Prelude Text Core Notify.
Local Open Scope Z_scope.

(** [hfs.Source] as the bridge fills it. *)
Record HfsSource := mkHfsSource {
  hs_ID : string;
  hs_Fingerprint : string;
  hs_Check : string;
  hs_Title : string;
  hs_Target : string;
  hs_Severity : string;
  hs_Status : string;
  hs_Remediation : string;
  hs_FirstSeen : Z;
  hs_LastSeen : Z;
  hs_ResolvedAt : option Z;
  hs_GroupID : option string;
  hs_Evidence : evidence;
}.

Definition Source (f : Finding) : HfsSource := {|
  hs_ID := f_ID f;
  hs_Fingerprint := f_Fingerprint f;
  hs_Check := f_Check f;
  hs_Title := f_Title f;
  hs_Target := f_Target f;
  hs_Severity := f_Severity f;
  hs_Status := f_Status f;
  hs_Remediation := f_Remediation f;
  hs_FirstSeen := f_FirstSeen f;
  hs_LastSeen := f_LastSeen f;
  hs_ResolvedAt := f_ResolvedAt f;
  hs_GroupID := f_GroupID f;
  hs_Evidence := f_Evidence f |}.

(** [hfs.Meta], whose fields [main] sets. *)
Record Meta := mkMeta { mt_Product : string; mt_Version : string; mt_Host : string }.

Section Events.
(** [hfs.Event], [hfs.Options] and [hfs.New]. *)
Context {Ev Options : Type} (hfs_New : string → Meta → HfsSource → Z → Options → Ev).
(** [Sink.Send], whose state is whatever it wrote so far. *)
Context {Out : Type} (sink_Send : list Ev → Out → Out * option string).

Definition with_product (meta : Meta) (module : string) : Meta :=
  if is_empty (mt_Product meta) then mkMeta module (mt_Version meta) (mt_Host meta) else meta.

Definition Events (clock : Z) (meta : Meta) (d : Digest) (opt : Options) : list Ev :=
  let meta := with_product meta (dg_Module d) in
  let at_ := if time_IsZero (dg_At d) then clock else dg_At d in
  map (λ f, hfs_New KindOpened meta (Source f) at_ opt) (dg_Opened d) ++
  map (λ f, hfs_New KindResolved meta (Source f) at_ opt) (dg_Resolved d).

Definition HFSChannel_Send (clock : Z) (meta : Meta) (opt : Options) (d : Digest) (o : Out) :
    Out * option string :=
  if Empty d then (o, None) else sink_Send (Events clock meta d opt) o.

(** Nothing of a finding is lost on the way to the schema: the source determines
    every field but the module. *)
Lemma Source_inj f f' : f_Module f = f_Module f' → Source f = Source f' → f = f'.
Proof. destruct f, f'. intros Hm [= -> -> -> -> -> -> -> -> -> -> -> -> ->]. by cbn in Hm; subst. Qed.

(** A digest becomes one event per finding, opened ones first in the digest's
    order, all with one time that is never zero on a running clock; a digest
    without findings reaches no sink. *)
Theorem events_of_digest clock meta opt d o : clock ≠ 0 →
  let meta' := with_product meta (dg_Module d) in
  ∃ at_, at_ ≠ 0 ∧
    Events clock meta d opt =
      map (λ kf : string * Finding, hfs_New (fst kf) meta' (Source (snd kf)) at_ opt)
        (map (pair KindOpened) (dg_Opened d) ++ map (pair KindResolved) (dg_Resolved d)) ∧
    (dg_Opened d = [] ∧ dg_Resolved d = [] ↔ Events clock meta d opt = []) ∧
    (Events clock meta d opt = [] → HFSChannel_Send clock meta opt d o = (o, None)).
Proof.
  intros Hc meta'. exists (if time_IsZero (dg_At d) then clock else dg_At d).
  unfold HFSChannel_Send, Events, Empty, time_IsZero. fold meta'.
  split_and!.
  - destruct (Z.eqb_spec (dg_At d) 0); done.
  - by rewrite map_app, !map_map.
  - destruct (dg_Opened d), (dg_Resolved d); cbn; split; naive_solver.
  - destruct (dg_Opened d), (dg_Resolved d); cbn; done.
Qed.
End Events.

Lemma events_of_digest_witness :
  let New := λ (k : string) (m : Meta) (s : HfsSource) (t : Z) (u : unit), (k, mt_Product m, t) in
  let d := mkDigest "loglight" [] [] 0 in
  ∃ at_, at_ ≠ 0 ∧ Events New 7 (mkMeta "" "0.2.4" "h") d tt = [] ∧
    HFSChannel_Send New (λ es n, ((n + length es)%nat, None)) 7 (mkMeta "" "0.2.4" "h") tt d 0%nat
      = (0%nat, None).
Proof.
  intros New d.
  destruct (events_of_digest New (λ es n, ((n + length es)%nat, None)) 7 (mkMeta "" "0.2.4" "h") tt d 0%nat)
    as (at_ & Hat & He & Hemp & Hs); [discriminate|].
  exists at_. split; [exact Hat|]. split; [reflexivity|]. apply Hs. reflexivity.
Defined.
