(* ===== verification/Loglight.v ===== *)
(** The product's own data: ingest sources, detection records, their store and
    the polled collector: [src/loglight/loglight.go], [src/loglight/memstore.go]
    and [src/loglight/sources.go]. *)
From S2P Require Import Prelude Text Float Core Ingest.
Local Open Scope Z_scope.

Definition Version : string := "0.2.4".
Definition ModuleID : string := "loglight".

(** How long after its last occurrence a detection keeps being re-emitted. *)
Definition ActiveWindow : Z := 30 * Minute.

(** * Data *)

Record SourceConfig := mkSource {
  sc_Name : string;
  sc_Type : string;
  sc_Params : gmap string string;
  sc_Enabled : bool;
  sc_CreatedAt : Z;
}.

Record DetectionRecord := mkDetRecord {
  dr_Key : string;
  dr_SourceID : string;
  dr_Check : string;
  dr_Severity : string;
  dr_Actor : string;
  dr_Target : string;
  dr_Title : string;
  dr_Detail : string;
  dr_Evidence : list string;
  dr_Fix : string;
  dr_Count : Z;
  dr_FirstAt : Z;
  dr_LastAt : Z;
}.

Definition set_FirstAt (t : Z) (d : DetectionRecord) : DetectionRecord :=
  mkDetRecord (dr_Key d) (dr_SourceID d) (dr_Check d) (dr_Severity d) (dr_Actor d) (dr_Target d)
    (dr_Title d) (dr_Detail d) (dr_Evidence d) (dr_Fix d) (dr_Count d) t (dr_LastAt d).

(** * The store interface *)

Class LogStoreOps (L : Type) := {
  PutSource : SourceConfig → M L string unit;
  GetSource : string → M L string (option SourceConfig);
  ListSources : M L string (list SourceConfig);
  DeleteSource : string → M L string unit;
  UpsertDetection : DetectionRecord → M L string unit;
  ListDetections : string → M L string (list DetectionRecord);
  PruneDetections : Z → M L string unit;
}.

(** Source names without the separator of the detection keys. *)
Definition valid_source (s : string) : Prop := has_char (Ascii.ascii_of_nat 0) s = false.

(** A recurrence updates a record in place. A store may keep what identifies the
    detection from the first occurrence, and keeps the earliest sighting. *)
Record recurrence (old new merged : DetectionRecord) : Prop := {
  rec_Key : dr_Key merged = dr_Key new;
  rec_SourceID : dr_SourceID merged = dr_SourceID new;
  rec_Check : dr_Check merged = dr_Check new ∨ dr_Check merged = dr_Check old;
  rec_Severity : dr_Severity merged = dr_Severity new;
  rec_Title : dr_Title merged = dr_Title new;
  rec_Count : dr_Count merged = dr_Count new;
  rec_FirstAt : dr_FirstAt merged = Z.min (dr_FirstAt old) (dr_FirstAt new);
  rec_LastAt : dr_LastAt merged = dr_LastAt new;
}.

(** A stored source is the saved one, except that a store may keep the creation
    time it has. *)
Record same_source (c c' : SourceConfig) : Prop := {
  same_Name : sc_Name c' = sc_Name c;
  same_Type : sc_Type c' = sc_Type c;
  same_Params : sc_Params c' = sc_Params c;
  same_Enabled : sc_Enabled c' = sc_Enabled c;
}.

(** Parameters that JSON can carry as they are. *)
Definition utf8_params (ps : gmap string string) : Prop :=
  map_Forall (λ k v, utf8_ValidString k = true ∧ utf8_ValidString v = true) ps.

Definition set_lines (ls : list string) (d : DetectionRecord) : DetectionRecord :=
  mkDetRecord (dr_Key d) (dr_SourceID d) (dr_Check d) (dr_Severity d) (dr_Actor d) (dr_Target d)
    (dr_Title d) (dr_Detail d) ls (dr_Fix d) (dr_Count d) (dr_FirstAt d) (dr_LastAt d).

(** A stored detection is the upserted one; its evidence lines may have been
    through an encoder. *)
Definition same_detection (d d' : DetectionRecord) : Prop := d' = set_lines (dr_Evidence d') d.

(** What the pipeline, the collector and the console rely on. Deleting a
    source may delete its detections with it. *)
Class LogStoreSpec (L : Type) `{LogStoreOps L} := {
  log_inv : L → Prop;
  log_source : L → string → option SourceConfig;
  log_det : L → string → string → option DetectionRecord;
  log_det_key : ∀ l s k d, log_inv l → valid_source s →
    log_det l s k = Some d → dr_SourceID d = s ∧ dr_Key d = k;
  log_source_name : ∀ l n c, log_inv l → log_source l n = Some c → sc_Name c = n;
  GetSource_spec : ∀ l s, log_inv l → GetSource s l = (l, Ok (log_source l s));
  ListSources_spec : ∀ l, log_inv l →
    ∃ cs, ListSources l = (l, Ok cs) ∧ NoDup (map sc_Name cs) ∧
      ∀ c, c ∈ cs ↔ log_source l (sc_Name c) = Some c;
  PutSource_spec : ∀ l c, log_inv l → utf8_params (sc_Params c) →
    ∃ l' c', PutSource c l = (l', Ok tt) ∧ log_inv l' ∧ same_source c c' ∧
      (∀ n, log_source l' n = if decide (n = sc_Name c) then Some c' else log_source l n) ∧
      ∀ s k, valid_source s → log_det l' s k = log_det l s k;
  DeleteSource_spec : ∀ l n, log_inv l →
    ∃ l', DeleteSource n l = (l', Ok tt) ∧ log_inv l' ∧
      (∀ m, log_source l' m = if decide (m = n) then None else log_source l m) ∧
      ∀ s k, valid_source s → log_det l' s k = log_det l s k ∨ s = n ∧ log_det l' s k = None;
  UpsertDetection_spec : ∀ l d, log_inv l → valid_source (dr_SourceID d) →
    ∃ l' d', UpsertDetection d l = (l', Ok tt) ∧ log_inv l' ∧
      (match log_det l (dr_SourceID d) (dr_Key d) with
       | None => same_detection d d'
       | Some o => recurrence o d d'
       end) ∧
      (∀ s, log_source l' s = log_source l s) ∧
      ∀ s k, valid_source s →
        log_det l' s k =
          if decide (s = dr_SourceID d ∧ k = dr_Key d) then Some d' else log_det l s k;
  ListDetections_spec : ∀ l s, log_inv l → valid_source s → s ≠ "" →
    ∃ ds, ListDetections s l = (l, Ok ds) ∧ NoDup (map dr_Key ds) ∧
      ∀ d, d ∈ ds ↔ log_det l s (dr_Key d) = Some d;
  PruneDetections_spec : ∀ l before, log_inv l →
    ∃ l', PruneDetections before l = (l', Ok tt) ∧ log_inv l' ∧
      (∀ s, log_source l' s = log_source l s) ∧
      ∀ s k, valid_source s →
        log_det l' s k = match log_det l s k with
                         | Some d => if time_Before (dr_LastAt d) before then None else Some d
                         | None => None
                         end;
}.

(** * The in-memory store *)

Record MemStore := mkMemStore {
  lm_sources : gmap string SourceConfig;
  lm_dets : gmap string DetectionRecord;
}.

Definition NewMemStore : MemStore := mkMemStore ∅ ∅.

Definition detKey (sourceID key : string) : string := sourceID +:+ nul +:+ key.

Section MemStore.
Context `{MapRange} `{SortSlice}.

Definition MemStore_PutSource (s : SourceConfig) : M MemStore string unit :=
  λ m, (mkMemStore (<[sc_Name s := s]> (lm_sources m)) (lm_dets m), Ok tt).

Definition MemStore_GetSource (name : string) : M MemStore string (option SourceConfig) :=
  λ m, (m, Ok (lm_sources m !! name)).

Definition MemStore_ListSources : M MemStore string (list SourceConfig) :=
  λ m, (m, Ok (sort_slice (λ a b, String.ltb (sc_Name a) (sc_Name b))
                 (snd <$> range_map (lm_sources m)))).

Definition MemStore_DeleteSource (name : string) : M MemStore string unit :=
  λ m, (mkMemStore (delete name (lm_sources m)) (lm_dets m), Ok tt).

Definition MemStore_UpsertDetection (d : DetectionRecord) : M MemStore string unit :=
  λ m,
    let k := detKey (dr_SourceID d) (dr_Key d) in
    let d :=
      match lm_dets m !! k with
      | Some existing =>
        if time_Before (dr_FirstAt existing) (dr_FirstAt d)
        then set_FirstAt (dr_FirstAt existing) d else d
      | None => d
      end in
    (mkMemStore (lm_sources m) (<[k := d]> (lm_dets m)), Ok tt).

Definition MemStore_ListDetections (sourceID : string) : M MemStore string (list DetectionRecord) :=
  λ m, (m, Ok (sort_slice (λ a b, time_After (dr_LastAt a) (dr_LastAt b))
    (filter (λ d, sourceID = "" ∨ dr_SourceID d = sourceID) (snd <$> range_map (lm_dets m))))).

Definition MemStore_PruneDetections (before : Z) : M MemStore string unit :=
  λ m, (mkMemStore (lm_sources m)
          (filter (λ kd, time_Before (dr_LastAt (snd kd)) before = false) (lm_dets m)), Ok tt).

#[export] Instance MemStore_ops : LogStoreOps MemStore := {
  PutSource := MemStore_PutSource;
  GetSource := MemStore_GetSource;
  ListSources := MemStore_ListSources;
  DeleteSource := MemStore_DeleteSource;
  UpsertDetection := MemStore_UpsertDetection;
  ListDetections := MemStore_ListDetections;
  PruneDetections := MemStore_PruneDetections;
}.
End MemStore.

(** * Findings *)

(** [Time.Format(time.RFC3339)], in the location the time carries. *)
Class TimeFormat := format_RFC3339 : Z → string.

Section findings.
Context `{TimeFormat}.

Definition detection_evidence (d : DetectionRecord) : gmap string any :=
  let ev : gmap string any :=
    <["actor" := AString (dr_Actor d)]> (<["count" := AInt (dr_Count d)]>
    (<["first_seen" := AString (format_RFC3339 (dr_FirstAt d))]>
    {["last_seen" := AString (format_RFC3339 (dr_LastAt d))]})) in
  let ev := if is_empty (dr_Target d) then ev else <["target" := AString (dr_Target d)]> ev in
  let ev := if (length (dr_Evidence d) =? 0)%nat then ev
            else <["evidence" := AStrings (dr_Evidence d)]> ev in
  if is_empty (dr_Detail d) then ev else <["detail" := AString (dr_Detail d)]> ev.

Definition detectionFinding (d : DetectionRecord) : Finding :=
  let sev := if Severity_Valid (dr_Severity d) then dr_Severity d else SeverityMedium in
  let fix_ := if is_empty (strings_TrimSpace (dr_Fix d))
              then "Investigate the actor and affected host." else dr_Fix d in
  collectorFinding (Fingerprint ModuleID (dr_SourceID d) (dr_Check d) (dr_Key d))
    (dr_SourceID d) (dr_Check d) (dr_Title d) sev fix_ (Some (detection_evidence d)).
End findings.

Definition parseRateFinding (s : SourceConfig) (rate : float64) : Finding :=
  collectorFinding (Fingerprint ModuleID (sc_Name s) "ingest.parse_rate" "")
    (sc_Name s) "ingest.parse_rate" ("Low parse rate on source " +:+ sc_Name s) SeverityLow
    "Many lines from this source aren't being parsed — check the source type and format. Unparsed lines are stored but not analysed."
    (Some (<["parse_rate" := AFloat rate]> {["type" := AString (sc_Type s)]})).

(** * The collector *)

Definition Describe : ModuleInfo :=
  mkModuleInfo ModuleID "Loglight" Version "source" (5 * Minute) 1.

Definition ValidateTarget (raw : string) : result IngestError Target :=
  let name := strings_TrimSpace raw in
  if is_empty name then Err (mkIngestError "target" "empty source name")
  else Ok (mkTarget raw name None).

Section Collect.
Context {L : Type} `{LogStoreOps L} `{TimeFormat}.
Context (parseFor : option (string → float64)).

(** The loop over the detections. [ctxErr i] is what [ctx.Err()] says before the
    [i]-th of them. *)
Fixpoint collect_loop (ctxErr : nat → option string) (cutoff : Z) (i : nat)
    (dets : list DetectionRecord) (out : list Finding) : result string (list Finding) :=
  match dets with
  | [] => Ok out
  | d :: rest =>
    match ctxErr i with
    | Some e => Err e
    | None =>
      collect_loop ctxErr cutoff (S i) rest
        (if time_Before (dr_LastAt d) cutoff then out else out ++ [detectionFinding d])
    end
  end.

Definition rate_finding (canonical : string) (src : SourceConfig) : list Finding :=
  match parseFor with
  | None => []
  | Some rate =>
    if f_ltb (rate canonical) (f_const 1 2) then [parseRateFinding src (rate canonical)] else []
  end.

Definition Collect (ctxErr : nat → option string) (now : Z) (t : Target) :
    M L string (list Finding) :=
  src ← GetSource (t_Canonical t);
  match src with
  | None => mret []
  | Some src =>
    dets ← ListDetections (t_Canonical t);
    out ← mlift (collect_loop ctxErr (time_Add now (- ActiveWindow)) 0 dets []);
    mret (out ++ rate_finding (t_Canonical t) src)
  end.

(** [Diff] defers to the core. *)
Definition Diff (previous current : list Finding) : list Change := [].
End Collect.

(** * Building a source *)

(** [strconv.Quote], the [%q] verb. *)
Class Quoter := strconv_Quote : string → string.

Definition param (params : gmap string string) (k : string) : string := map_get "" params k.

Definition validateSource `{Quoter} (typ : string) (params : gmap string string) : option string :=
  if str_eqb typ "syslog" || str_eqb typ "windows" then
    if is_empty (param params "udp") && is_empty (param params "tcp")
    then Some (sprint ["a "; typ; " source needs a udp and/or tcp listen address (e.g. 0.0.0.0:5514)"])
    else None
  else if str_eqb typ "file" then
    if is_empty (param params "path") then Some "a file source needs a path" else None
  else if str_eqb typ "docker" then
    if is_empty (param params "container")
    then Some "a docker source needs a container name or id" else None
  else if str_eqb typ "journald" then None
  else if str_eqb typ "netflow" then
    if is_empty (param params "udp")
    then Some "a netflow source needs a udp listen address (e.g. 0.0.0.0:2055)" else None
  else Some ("unknown source type " +:+ strconv_Quote typ).

(** The runnable sources, with the fields [BuildSourceWith] sets. *)
Inductive Source :=
| SyslogSource (SourceID UDPAddr TCPAddr Kind : string)
| FileSource (SourceID Path Host App : string)
| CommandSource (SourceID Kind App Name : string) (Args : list string)
| UDPSource (SourceID Addr : string) (tapped : bool).

Definition Source_ID (s : Source) : string :=
  match s with
  | SyslogSource id _ _ _ | FileSource id _ _ _ | CommandSource id _ _ _ _ | UDPSource id _ _ => id
  end.

(** The [Type] methods. *)
Definition Source_Type (s : Source) : string :=
  match s with
  | SyslogSource _ _ _ k => if is_empty k then SourceSyslog else k
  | FileSource _ _ _ _ => SourceFile
  | CommandSource _ k _ _ _ => k
  | UDPSource _ _ _ => SourceNetflow
  end.

Definition NewJournaldSource (id unit : string) : Source :=
  CommandSource id SourceJournald "" "journalctl"
    (["-f"; "-o"; "cat"; "--no-pager"] ++ (if is_empty unit then [] else ["-u"; unit])).

Definition NewDockerSource (id container : string) : Source :=
  CommandSource id SourceDocker container "docker" ["logs"; "-f"; "--since"; "0m"; container].

(** [tapped] tells whether the traffic graph listens ([deps.OnFlow]). *)
Definition BuildSourceWith `{Quoter} (s : SourceConfig) (tapped : bool) : result string Source :=
  match validateSource (sc_Type s) (sc_Params s) with
  | Some e => Err e
  | None =>
    let p := param (sc_Params s) in
    if str_eqb (sc_Type s) "syslog" then Ok (SyslogSource (sc_Name s) (p "udp") (p "tcp") SourceSyslog)
    else if str_eqb (sc_Type s) "windows" then
      Ok (SyslogSource (sc_Name s) (p "udp") (p "tcp") SourceWindows)
    else if str_eqb (sc_Type s) "file" then
      Ok (FileSource (sc_Name s) (p "path") (p "host") (p "app"))
    else if str_eqb (sc_Type s) "journald" then Ok (NewJournaldSource (sc_Name s) (p "unit"))
    else if str_eqb (sc_Type s) "docker" then Ok (NewDockerSource (sc_Name s) (p "container"))
    else if str_eqb (sc_Type s) "netflow" then Ok (UDPSource (sc_Name s) (p "udp") tapped)
    else Err ("unknown source type " +:+ strconv_Quote (sc_Type s))
  end.

Definition BuildSource `{Quoter} (s : SourceConfig) : result string Source :=
  BuildSourceWith s false.

(** * Lemmas *)

Lemma detKey_inj s k s' k' :
  valid_source s → valid_source s' → detKey s k = detKey s' k' → s = s' ∧ k = k'.
Proof. unfold detKey, nul. rewrite !append_cons, !append_nil_l. apply append_sep_inj. Qed.

(** Every detection sits under its own key. *)
Definition dets_inv (ds : gmap string DetectionRecord) : Prop :=
  map_Forall (λ k d, k = detKey (dr_SourceID d) (dr_Key d) ∧ valid_source (dr_SourceID d)) ds.

Definition sources_inv (ss : gmap string SourceConfig) : Prop := map_Forall (λ n c, sc_Name c = n) ss.

Definition MemStore_inv (m : MemStore) : Prop := dets_inv (lm_dets m) ∧ sources_inv (lm_sources m).

Section MemStoreSpec.
Context `{MapRange} `{SortSlice}.

Lemma elem_of_dets (m : gmap string DetectionRecord) d :
  d ∈ snd <$> range_map m ↔ ∃ k, m !! k = Some d.
Proof.
  rewrite list_elem_of_fmap. split.
  - intros ([k d'] & -> & Hin). exists k. by apply elem_of_range_map.
  - intros [k Hk]. exists (k, d). by rewrite elem_of_range_map.
Qed.

Lemma dets_NoDup m s : dets_inv (lm_dets m) →
  NoDup (map dr_Key (filter (λ d, s = "" ∨ dr_SourceID d = s) (snd <$> range_map (lm_dets m)))) ∨ s = "".
Proof.
  intros Hm. destruct (decide (s = "")) as [->|Hs]; [by right|left].
  rewrite range_map_perm.
  assert (∀ l, NoDup l.*1 →
    (∀ k d, (k, d) ∈ l → k = detKey (dr_SourceID d) (dr_Key d)) →
    NoDup (map dr_Key (filter (λ d, s = "" ∨ dr_SourceID d = s) (snd <$> l)))) as Hl.
  { induction l as [|[k d] l IH]; intros Hnd Hk; [constructor|].
    simpl in *. apply NoDup_cons in Hnd as [Hni Hnd].
    specialize (IH Hnd ltac:(intros; apply Hk; by right)).
    destruct (decide (dr_SourceID d = s)) as [Hd|Hd];
      [rewrite filter_cons_True by auto|rewrite filter_cons_False by tauto; done].
    simpl. apply NoDup_cons. split; [|done].
    intros (d' & Hkey & Hin)%list_elem_of_fmap.
    apply list_elem_of_filter in Hin as [[?|Hd'] Hin]; [done|].
    apply list_elem_of_fmap in Hin as ([k' d''] & -> & Hin). simpl in *.
    apply Hni. rewrite list_elem_of_fmap. exists (k', d''). split; [|done]. simpl.
    rewrite (Hk k d) by left. rewrite (Hk k' d'') by (by right). congruence. }
  apply Hl; [apply NoDup_fst_map_to_list|].
  intros k d Hin. apply elem_of_map_to_list in Hin. by destruct (Hm _ _ Hin).
Qed.

Lemma upsert_recurrence (o d : DetectionRecord) :
  dr_Key o = dr_Key d → dr_SourceID o = dr_SourceID d →
  recurrence o d (if time_Before (dr_FirstAt o) (dr_FirstAt d)
                  then set_FirstAt (dr_FirstAt o) d else d).
Proof.
  intros Hk Hs. unfold time_Before. destruct (Z.ltb_spec (dr_FirstAt o) (dr_FirstAt d));
    split; simpl; try done; try lia; by left.
Qed.

Lemma sources_NoDup ss : sources_inv ss → NoDup (map sc_Name (snd <$> range_map ss)).
Proof.
  intros Hs. rewrite range_map_perm.
  assert (∀ l : list (string * SourceConfig), (∀ k c, (k, c) ∈ l → sc_Name c = k) →
    map sc_Name (snd <$> l) = l.*1) as Hl.
  { induction l as [|[k c] l IH]; intros Hk; [done|]. simpl. f_equal; [by apply Hk; left|].
    apply IH. intros. apply Hk. by right. }
  rewrite Hl; [apply NoDup_fst_map_to_list|].
  intros k c Hin. by apply Hs, elem_of_map_to_list.
Qed.

#[export] Program Instance MemStore_spec : LogStoreSpec MemStore := {|
  log_inv := MemStore_inv;
  log_source m s := lm_sources m !! s;
  log_det m s k := lm_dets m !! detKey s k;
|}.
Next Obligation.
  intros m s k d [Hm _] Hs Hd. destruct (Hm _ _ Hd) as [Hk Hv].
  destruct (detKey_inj _ _ _ _ Hs Hv Hk). naive_solver.
Qed.
Next Obligation. intros m n c [_ Hs] Hc. by apply Hs. Qed.
Next Obligation. done. Qed.
Next Obligation.
  intros m [_ Hs]. eexists. split; [done|]. split.
  - rewrite sort_slice_perm. by apply sources_NoDup.
  - intros c. rewrite sort_slice_perm, list_elem_of_fmap. split.
    + intros ([k c'] & -> & Hin). apply elem_of_range_map in Hin. simpl. by rewrite (Hs _ _ Hin).
    + intros Hc. exists (sc_Name c, c). by rewrite elem_of_range_map.
Qed.
Next Obligation.
  intros m c [Hd Hs] _. eexists _, c. split_and!; [done|..|done].
  - split; [done|]. by apply map_Forall_insert_2.
  - done.
  - intros n. simpl. case_decide as Hn; [subst; by rewrite lookup_insert_eq|].
    by rewrite lookup_insert_ne.
Qed.
Next Obligation.
  intros m n [Hd Hs]. eexists. split_and!; [done|..|by left].
  - split; [done|]. by apply map_Forall_delete.
  - intros n'. simpl. case_decide as Hn; [subst; by rewrite lookup_delete_eq|].
    by rewrite lookup_delete_ne.
Qed.
Next Obligation.
  intros m d [Hm Hs0] Hd.
  set (d' := match lm_dets m !! detKey (dr_SourceID d) (dr_Key d) with
             | Some o => if time_Before (dr_FirstAt o) (dr_FirstAt d)
                         then set_FirstAt (dr_FirstAt o) d else d
             | None => d end).
  exists (mkMemStore (lm_sources m) (<[detKey (dr_SourceID d) (dr_Key d) := d']> (lm_dets m))), d'.
  split; [done|].
  assert (dr_SourceID d' = dr_SourceID d ∧ dr_Key d' = dr_Key d) as [Hs Hk].
  { subst d'. by repeat case_match. }
  split; [|split; [|split]].
  - split; [|done]. apply map_Forall_insert_2; [|done]. by rewrite Hs, Hk.
  - subst d'. simpl. destruct (lm_dets m !! _) as [o|] eqn:Ho; [|by destruct d].
    destruct (Hm _ _ Ho) as [Heq Hv]. destruct (detKey_inj _ _ _ _ Hd Hv Heq).
    apply (upsert_recurrence o d); congruence.
  - done.
  - intros s k Hs'. simpl. case_decide as He.
    + destruct He as [-> ->]. by rewrite lookup_insert_eq.
    + rewrite lookup_insert_ne; [done|]. intros Heq.
      apply detKey_inj in Heq; [naive_solver|done|done].
Qed.
Next Obligation.
  intros m s [Hm Hs0] Hv Hs. eexists. split; [done|]. split.
  - destruct (dets_NoDup m s Hm) as [Hnd|]; [|done]. by rewrite sort_slice_perm.
  - intros d. rewrite sort_slice_perm, list_elem_of_filter, elem_of_dets. split.
    + intros [[?|Hd] [k Hk]]; [done|]. destruct (Hm _ _ Hk) as [-> _]. by rewrite Hd in Hk.
    + intros Hd. destruct (Hm _ _ Hd) as [Heq Hv']. destruct (detKey_inj _ _ _ _ Hv Hv' Heq).
      eauto.
Qed.
Next Obligation.
  intros m before [Hm Hs]. eexists. split; [done|]. split_and!; [|done|].
  - split; [|done]. cbn [lm_dets]. intros k d [Hk _]%map_lookup_filter_Some. by apply Hm.
  - intros s k _. cbn. rewrite map_lookup_filter. destruct (lm_dets m !! detKey s k) as [d|]; [|done].
    destruct (time_Before (dr_LastAt d) before) eqn:Hb; simplify_option_eq; congruence.
Qed.
End MemStoreSpec.

(** ** The collector *)

Section collect_lemmas.
Context `{TimeFormat}.

Lemma collect_loop_ok ctxErr cutoff dets : (∀ i, ctxErr i = None) → ∀ i out,
  collect_loop ctxErr cutoff i dets out =
    Ok (out ++ map detectionFinding (filter (λ d, cutoff <= dr_LastAt d) dets)).
Proof.
  intros Hc. induction dets as [|d dets IH]; intros i out; simpl; [by rewrite app_nil_r|].
  rewrite Hc, IH, filter_cons. unfold time_Before.
  destruct (Z.ltb_spec (dr_LastAt d) cutoff); case_decide; try lia; [done|].
  by rewrite <- app_assoc.
Qed.

(** The findings of a detection are well formed, whatever severity and fix it
    carries. *)
Lemma detectionFinding_ingestible d :
  dr_SourceID d ≠ "" → dr_Check d ≠ "" → dr_Title d ≠ "" → ingestible (detectionFinding d).
Proof.
  intros Hs Hc Ht. unfold ingestible, detectionFinding. simpl.
  split_and!; try done; [apply Fingerprint_nonempty|..].
  - destruct (is_empty (strings_TrimSpace (dr_Fix d))) eqn:Hfix; [done|].
    intros Hfx. by rewrite Hfx in Hfix.
  - by destruct (Severity_Valid (dr_Severity d)) eqn:Hsv.
Qed.
End collect_lemmas.
