(* ===== verification/Sqlite.v ===== *)
(** The stores of a production install: [src/store/sqlite.go] and
    [src/loglight/sqlite.go]. Both write the tables of one database. A statement
    may fail as a whole; the JSON texts of the evidence and parameter columns are
    kept as texts. The instances at the end show that the database keeps the same
    contracts as the in-memory stores. *)
From S2P Require Import Prelude Text Float Core Table Store Reconcile Ingest Loglight.
Local Open Scope Z_scope.

(** * Rows *)

(** A row of [findings]; the order of the fields is that of [findingCols]. *)
Record findingRow := mkFindingRow {
  fr_id : string;
  fr_fingerprint : string;
  fr_module : string;
  fr_target : string;
  fr_check_id : string;
  fr_title : string;
  fr_severity : string;
  fr_status : string;
  fr_remediation : string;
  fr_evidence : option string;
  fr_group_id : option string;
  fr_first_seen : Z;
  fr_last_seen : Z;
  fr_resolved_at : option Z;
  fr_absent_streak : Z;
}.

Record targetRow := mkTargetRow { tr_module : string; tr_raw : string; tr_canonical : string }.

Record sourceRow := mkSourceRow {
  sr_name : string;
  sr_type : string;
  sr_params : string;
  sr_enabled : Z;
  sr_created_at : Z;
}.

Record detectionRow := mkDetectionRow {
  tr_source_id : string;
  tr_key : string;
  tr_check_id : string;
  tr_severity : string;
  tr_actor : string;
  tr_target : string;
  tr_title : string;
  tr_detail : string;
  tr_evidence : string;
  tr_fix : string;
  tr_count : Z;
  tr_first_at : Z;
  tr_last_at : Z;
}.

Record Database := mkDatabase {
  db_findings : list findingRow;
  db_targets : list targetRow;
  db_sources : list sourceRow;
  db_detections : list detectionRow;
}.

(** Right after the migrations of both stores. *)
Definition migrated : Database := mkDatabase [] [] [] [].

(** ** Opening a file *)

(** The tables that the file has; none when it is new. *)
Record File := mkFile {
  fi_findings : option (list findingRow);
  fi_targets : option (list targetRow);
  fi_sources : option (list sourceRow);
  fi_detections : option (list detectionRow);
}.

Definition emptyFile : File := mkFile None None None None.

(** [CREATE TABLE IF NOT EXISTS]; [exec] is the error of the statement. *)
Definition create_table {R} (t : option (list R)) : option (list R) :=
  match t with Some rows => Some rows | None => Some [] end.

Definition migrate (exec : option string) (f : File) : result string File :=
  match exec with
  | Some e => Err e
  | None => Ok (mkFile (create_table (fi_findings f)) (create_table (fi_targets f)) (fi_sources f) (fi_detections f))
  end.

Definition NewSQLiteStore (exec : option string) (f : File) : result string File :=
  match migrate exec f with Err e => Err ("sqlite migrate: " +:+ e) | Ok f => Ok f end.

Definition NewSQLiteLogStore (exec : option string) (f : File) : result string File :=
  match exec with
  | Some e => Err e
  | None => Ok (mkFile (fi_findings f) (fi_targets f) (create_table (fi_sources f)) (create_table (fi_detections f)))
  end.

(** The rows of a file that has every table. *)
Definition tables (f : File) : option Database :=
  match f with
  | mkFile (Some l) (Some t) (Some s) (Some d) => Some (mkDatabase l t s d)
  | _ => None
  end.

Definition open_file (exec1 exec2 : option string) (f : File) : result string File :=
  f ← NewSQLiteStore exec1 f; NewSQLiteLogStore exec2 f.

Definition file_of (d : Database) : File :=
  mkFile (Some (db_findings d)) (Some (db_targets d)) (Some (db_sources d)) (Some (db_detections d)).

(** The schema can be applied at every start: a file that the program has used opens
    with the rows it had, a new one opens empty, and a file that was opened once is
    not changed by opening it again. *)
Lemma open_keeps_rows (d : Database) :
  open_file None None (file_of d) = Ok (file_of d) ∧ tables (file_of d) = Some d.
Proof. by destruct d. Qed.

Lemma open_new : (f ← open_file None None emptyFile; match tables f with Some d => Ok d | None => Err "" end) = Ok migrated.
Proof. done. Qed.

Lemma open_twice f f' : open_file None None f = Ok f' →
  is_Some (tables f') ∧ ∀ e1 e2, match open_file e1 e2 f' with Ok f'' => f'' = f' | Err _ => e1 ≠ None ∨ e2 ≠ None end.
Proof.
  destruct f as [[l|] [t|] [s|] [d|]]; intros [= <-]; (split; [by eexists|]);
    intros [e1|] [e2|]; cbn; auto.
Qed.

Definition set_findings (l : list findingRow) (d : Database) : Database :=
  mkDatabase l (db_targets d) (db_sources d) (db_detections d).
Definition set_targets (l : list targetRow) (d : Database) : Database :=
  mkDatabase (db_findings d) l (db_sources d) (db_detections d).
Definition set_sources (l : list sourceRow) (d : Database) : Database :=
  mkDatabase (db_findings d) (db_targets d) l (db_detections d).
Definition set_detections (l : list detectionRow) (d : Database) : Database :=
  mkDatabase (db_findings d) (db_targets d) (db_sources d) l.

Definition DB : Type := Conn Database.

(** The unique keys. *)
Definition finding_key (r : findingRow) : string * string := (fr_module r, fr_fingerprint r).
Definition target_key (r : targetRow) : string * string := (tr_module r, tr_canonical r).
Definition detection_key (r : detectionRow) : string * string := (tr_source_id r, tr_key r).

(** * JSON columns *)

(** [json.Unmarshal] into a nil [map[string]any], and the codecs of a
    [map[string]string] and of a [[]string]. *)
Class JSONDecoder := {
  json_Unmarshal : string → option evidence;
  params_Marshal : gmap string string → string;
  params_Unmarshal : string → option (gmap string string);
  lines_Marshal : list string → string;
  lines_Unmarshal : string → option (list string);
}.

(** What is relied on: plain values are encodable; what was written reads back as
    evidence that survives the same way; valid UTF-8 parameters read back as they
    were. *)
Class JSONRoundtrip `{JSONEncoder} `{JSONDecoder} := {
  marshal_plain : ∀ ev, map_Forall (λ _ v, plain v = true) ev → is_Some (json_Marshal ev);
  marshal_nonempty : ∀ ev b, json_Marshal ev = Some b → b ≠ "";
  reread : ∀ ev b, json_Marshal ev = Some b → ∃ ev' b',
    json_Unmarshal b = Some (Some ev') ∧ json_Marshal ev' = Some b' ∧
    json_Unmarshal b' = Some (Some ev');
  params_reread : ∀ ps, utf8_params ps →
    params_Unmarshal (params_Marshal ps) = Some ps ∧ strings_TrimSpace (params_Marshal ps) ≠ "";
}.

(** * Findings *)

Section Findings.
Context `{JSONEncoder} `{JSONDecoder} `{RowOrder} `{SortSlice}.

Definition marshalEvidence (ev : evidence) : result string (option string) :=
  match ev with
  | None => Ok None
  | Some ev => match json_Marshal ev with None => Err "marshal evidence" | Some b => Ok (Some b) end
  end.

(** The evidence column as it is read: unreadable text does not hide the finding. *)
Definition scan_evidence (col : option string) : evidence :=
  match col with
  | None => None
  | Some s =>
    if is_empty s then None
    else match json_Unmarshal s with
         | Some ev => ev
         | None => Some {["_error" := AString "stored evidence unreadable"]}
         end
  end.

Definition scanRecord (r : findingRow) : Record :=
  mkRecord
    (mkFinding (fr_fingerprint r) (fr_target r) (fr_check_id r) (fr_title r) (fr_severity r)
       (fr_remediation r) (scan_evidence (fr_evidence r)) (fr_id r) (fr_module r) (fr_status r)
       (fr_group_id r) (fr_first_seen r) (fr_last_seen r) (fr_resolved_at r))
    (fr_absent_streak r).

Definition scanRecords (rows : list findingRow) : list Record := map scanRecord rows.

Definition SQLite_ListByTarget (module target : string) : M DB string (list Record) :=
  query (λ d, scanRecords (visit
    (filter (λ r, fr_module r = module ∧ fr_target r = target) (db_findings d)))).

Definition SQLite_ListOpen (module : string) : M DB string (list Record) :=
  query (λ d, scanRecords (visit
    (filter (λ r, fr_module r = module ∧ fr_status r = StatusOpen) (db_findings d)))).

Definition SQLite_Get (module fingerprint : string) : M DB string (option Record) :=
  query (λ d, scanRecord <$> row_at finding_key (module, fingerprint) (db_findings d)).

(** The row of the [VALUES] clause. *)
Definition finding_row (r : Record) (ev : option string) : findingRow :=
  let f := r_Finding r in
  mkFindingRow (f_ID f) (f_Fingerprint f) (f_Module f) (f_Target f) (f_Check f) (f_Title f)
    (f_Severity f) (f_Status f) (f_Remediation f) ev (f_GroupID f) (f_FirstSeen f) (f_LastSeen f)
    (f_ResolvedAt f) (r_AbsentStreak r).

(** [DO UPDATE SET]: the columns of [excluded] that replace those of the row. *)
Definition update_finding (old excluded : findingRow) : findingRow :=
  mkFindingRow (fr_id old) (fr_fingerprint old) (fr_module old) (fr_target old) (fr_check_id old)
    (fr_title excluded) (fr_severity excluded) (fr_status excluded) (fr_remediation excluded)
    (fr_evidence excluded) (fr_group_id excluded) (fr_first_seen old) (fr_last_seen excluded)
    (fr_resolved_at excluded) (fr_absent_streak excluded).

(** A new row whose id is taken violates the primary key. *)
Definition insert_finding (row : findingRow) (d : Database) : result string (Database * unit) :=
  match row_at finding_key (finding_key row) (db_findings d), row_at fr_id (fr_id row) (db_findings d) with
  | None, Some _ => Err "UNIQUE constraint failed: findings.id"
  | _, _ => Ok (set_findings (upsert finding_key update_finding row (db_findings d)) d, tt)
  end.

Definition SQLite_Upsert (r : Record) : M DB string unit :=
  ev ← mlift (marshalEvidence (f_Evidence (r_Finding r)));
  exec (insert_finding (finding_row r ev)).

Definition SQLite_ListAll (module : string) : M DB string (list Record) :=
  query (λ d, scanRecords (sort_slice (λ a b, time_After (fr_last_seen a) (fr_last_seen b))
    (filter (λ r, fr_module r = module) (db_findings d)))).

(** The rows a retention job removes: resolved before [cutoff]. *)
Definition prunable (cutoff : Z) (r : findingRow) : bool :=
  str_eqb (fr_status r) StatusResolved &&
  match fr_resolved_at r with Some t => t <? cutoff | None => false end.

(** [PruneResolvedBefore] answers how many rows are gone. *)
Definition PruneResolvedBefore (cutoff : Z) : M DB string Z :=
  exec (λ d, Ok (set_findings (filter (λ r, prunable cutoff r = false) (db_findings d)) d,
                 Z.of_nat (length (filter (λ r, prunable cutoff r = true) (db_findings d))))).

(** ** Saved targets *)

Definition SQLite_SaveTarget (module raw canonical : string) : M DB string unit :=
  update (λ d, set_targets (upsert target_key (λ old _, old) (mkTargetRow module raw canonical)
                              (db_targets d)) d).

Definition SQLite_DeleteTarget (module canonical : string) : M DB string unit :=
  update (λ d, set_targets (filter (λ r, target_key r ≠ (module, canonical)) (db_targets d)) d).

Definition SQLite_ListSavedTargets (module : string) : M DB string (list string) :=
  query (λ d, map tr_raw (filter (λ r, tr_module r = module) (db_targets d))).

#[export] Instance SQLite_ops : StoreOps DB := {
  ListByTarget := SQLite_ListByTarget;
  Upsert := SQLite_Upsert;
  Get := SQLite_Get;
  ListOpen := SQLite_ListOpen;
  ListAll := SQLite_ListAll;
}.

#[export] Instance SQLite_target_ops : TargetStoreOps DB := {
  ts_SaveTarget := SQLite_SaveTarget;
  ts_DeleteTarget := SQLite_DeleteTarget;
  ts_ListSavedTargets := SQLite_ListSavedTargets;
}.
End Findings.

(** * Sources and detections *)

Section Log.
Context `{JSONDecoder} `{RowOrder} `{SortSlice} (clock : Z).

Definition scanSource (r : sourceRow) : SourceConfig :=
  mkSource (sr_name r) (sr_type r)
    (if is_empty (strings_TrimSpace (sr_params r)) then ∅
     else default ∅ (params_Unmarshal (sr_params r)))
    (negb (sr_enabled r =? 0)) (sr_created_at r).

Definition source_row (c : SourceConfig) : sourceRow :=
  mkSourceRow (sc_Name c) (sc_Type c) (params_Marshal (sc_Params c)) (if sc_Enabled c then 1 else 0)
    (if time_IsZero (sc_CreatedAt c) then clock else sc_CreatedAt c).

Definition update_source (old excluded : sourceRow) : sourceRow :=
  mkSourceRow (sr_name old) (sr_type excluded) (sr_params excluded) (sr_enabled excluded)
    (sr_created_at old).

Definition SQLite_PutSource (c : SourceConfig) : M DB string unit :=
  update (λ d, set_sources (upsert sr_name update_source (source_row c) (db_sources d)) d).

Definition SQLite_GetSource (name : string) : M DB string (option SourceConfig) :=
  query (λ d, scanSource <$> row_at sr_name name (db_sources d)).

Definition SQLite_ListSources : M DB string (list SourceConfig) :=
  query (λ d, map scanSource (sort_slice (λ a b, String.ltb (sr_name a) (sr_name b)) (db_sources d))).

(** The source first, then its detections. *)
Definition SQLite_DeleteSource (name : string) : M DB string unit :=
  _ ← update (λ d, set_sources (filter (λ r, sr_name r ≠ name) (db_sources d)) d);
  update (λ d, set_detections (filter (λ r, tr_source_id r ≠ name) (db_detections d)) d).

Definition scanDetection (r : detectionRow) : DetectionRecord :=
  mkDetRecord (tr_key r) (tr_source_id r) (tr_check_id r) (tr_severity r) (tr_actor r) (tr_target r)
    (tr_title r) (tr_detail r)
    (if is_empty (strings_TrimSpace (tr_evidence r)) then []
     else default [] (lines_Unmarshal (tr_evidence r)))
    (tr_fix r) (tr_count r) (tr_first_at r) (tr_last_at r).

Definition detection_row (d : DetectionRecord) : detectionRow :=
  mkDetectionRow (dr_SourceID d) (dr_Key d) (dr_Check d) (dr_Severity d) (dr_Actor d) (dr_Target d)
    (dr_Title d) (dr_Detail d) (lines_Marshal (dr_Evidence d)) (dr_Fix d) (dr_Count d)
    (dr_FirstAt d) (dr_LastAt d).

Definition update_detection (old excluded : detectionRow) : detectionRow :=
  mkDetectionRow (tr_source_id old) (tr_key old) (tr_check_id old) (tr_severity excluded)
    (tr_actor old) (tr_target old) (tr_title excluded) (tr_detail excluded) (tr_evidence excluded)
    (tr_fix old) (tr_count excluded) (Z.min (tr_first_at old) (tr_first_at excluded))
    (tr_last_at excluded).

Definition SQLite_UpsertDetection (d : DetectionRecord) : M DB string unit :=
  update (λ db, set_detections
    (upsert detection_key update_detection (detection_row d) (db_detections db)) db).

Definition SQLite_ListDetections (sourceID : string) : M DB string (list DetectionRecord) :=
  query (λ d, map scanDetection (sort_slice (λ a b, time_After (tr_last_at a) (tr_last_at b))
    (filter (λ r, sourceID = "" ∨ tr_source_id r = sourceID) (db_detections d)))).

Definition SQLite_PruneDetections (before : Z) : M DB string unit :=
  update (λ d, set_detections
    (filter (λ r, time_Before (tr_last_at r) before = false) (db_detections d)) d).

#[export] Instance SQLite_log_ops : LogStoreOps DB := {
  PutSource := SQLite_PutSource;
  GetSource := SQLite_GetSource;
  ListSources := SQLite_ListSources;
  DeleteSource := SQLite_DeleteSource;
  UpsertDetection := SQLite_UpsertDetection;
  ListDetections := SQLite_ListDetections;
  PruneDetections := SQLite_PruneDetections;
}.
End Log.

(** * The contracts *)

Section FindingsSpec.
Context `{JSONEncoder} `{JSONDecoder} `{!JSONRoundtrip} `{RowOrder} `{SortSlice}.

(** The text of every evidence column was written by the encoder. *)
Definition evidence_ok (r : findingRow) : Prop :=
  ∀ s, fr_evidence r = Some s → ∃ ev, json_Marshal ev = Some s.

Record findings_inv (c : DB) : Prop := {
  fi_healthy : healthy c;
  fi_keyed : keyed finding_key (db_findings (cn_data c));
  fi_evidence : Forall evidence_ok (db_findings (cn_data c));
}.

Definition finding_at (c : DB) (m fp : string) : option Record :=
  scanRecord <$> row_at finding_key (m, fp) (db_findings (cn_data c)).

(** What an evidence column gives back. *)
Definition reread_evidence (ev : evidence) : evidence :=
  match marshalEvidence ev with Ok col => scan_evidence col | Err _ => ev end.

Lemma scan_written ev b : json_Marshal ev = Some b → ∃ ev',
  scan_evidence (Some b) = Some ev' ∧ marshalEvidence (Some ev') = Ok (json_Marshal ev') ∧
  reread_evidence (Some ev') = Some ev'.
Proof.
  intros Hb. destruct (reread ev b Hb) as (ev' & b' & Hu & Hm' & Hu').
  assert (∀ s e, json_Marshal e = Some s → is_empty s = false) as Hne.
  { intros s e He. apply is_empty_false. by eapply marshal_nonempty. }
  exists ev'. unfold reread_evidence, marshalEvidence, scan_evidence. rewrite Hm'.
  by rewrite (Hne b ev Hb), Hu, (Hne b' ev' Hm'), Hu'.
Qed.

Lemma finding_at_evidence c m fp r : findings_inv c → finding_at c m fp = Some r →
  is_ok (marshalEvidence (r_Evidence r)) = true ∧ reread_evidence (r_Evidence r) = r_Evidence r.
Proof.
  intros [_ _ Hev] (row & Hrow & ->)%fmap_Some. apply row_at_Some in Hrow as [Hin _].
  rewrite Forall_forall in Hev. specialize (Hev row Hin). unfold r_Evidence, scanRecord. cbn.
  destruct (fr_evidence row) as [s|] eqn:Hs; [|done].
  destruct (Hev s Hs) as [ev Hm]. destruct (scan_written ev s Hm) as (ev' & -> & -> & ->). done.
Qed.

Lemma finding_listing c m (P : findingRow → Prop) (Q : Record → Prop) `{∀ r, Decision (P r)} l :
  findings_inv c → (∀ r, fr_module r = m → P r ↔ Q (scanRecord r)) →
  l ≡ₚ filter (λ r, fr_module r = m ∧ P r) (db_findings (cn_data c)) →
  NoDup (map r_Fingerprint (scanRecords l)) ∧
  ∀ r, r ∈ scanRecords l ↔ finding_at c m (r_Fingerprint r) = Some r ∧ Q r.
Proof.
  intros [_ Hk _] HPQ Hl.
  destruct (listing finding_key scanRecord (λ r, fr_module r = m ∧ P r) r_Fingerprint
    (db_findings (cn_data c)) l Hl Hk) as [Hnd Hin].
  { intros r r' [Hr _] [Hr' _] Hfp. unfold finding_key. unfold r_Fingerprint in Hfp. cbn in Hfp. congruence. }
  split; [exact Hnd|]. intros r. unfold scanRecords. rewrite Hin. unfold finding_at. split.
  - intros (row & Hrow & [Hm HP] & ->). split; [|by apply HPQ].
    rewrite (proj2 (row_at_elem finding_key (m, _) _ row Hk)); [done|]. split; [done|].
    unfold finding_key. by rewrite Hm.
  - intros [(row & Hrow & ->)%fmap_Some HQ]. exists row.
    apply row_at_Some in Hrow as [Hrow [= Hm]]. split_and!; [done|done|by apply HPQ|done].
Qed.

(** What an upsert over a row leaves: identity and first sighting are kept. *)
Definition merge_finding (old r : Record) : Record :=
  let f := r_Finding r in let o := r_Finding old in
  mkRecord
    (mkFinding (f_Fingerprint o) (f_Target o) (f_Check o) (f_Title f) (f_Severity f)
       (f_Remediation f) (reread_evidence (f_Evidence f)) (f_ID o) (f_Module o) (f_Status f)
       (f_GroupID f) (f_FirstSeen o) (f_LastSeen f) (f_ResolvedAt f))
    (r_AbsentStreak r).

Lemma Upsert_ok c r : findings_inv c → is_ok (marshalEvidence (r_Evidence r)) = true →
  (finding_at c (r_Module r) (r_Fingerprint r) = None →
   ∀ m fp o, finding_at c m fp = Some o → f_ID (r_Finding o) ≠ f_ID (r_Finding r)) →
  ∃ c', SQLite_Upsert r c = (c', Ok tt) ∧ findings_inv c' ∧
    ∀ m fp, finding_at c' m fp =
      if decide (m = r_Module r ∧ fp = r_Fingerprint r)
      then Some (match finding_at c m fp with
                 | Some o => merge_finding o r | None => with_evidence reread_evidence r end)
      else finding_at c m fp.
Proof.
  destruct c as [d fs]. intros [Hh Hk Hev] Hst Hid. unfold healthy in Hh. cbn in Hh, Hk, Hev. subst fs.
  unfold SQLite_Upsert, mbind, M_mbind, mlift.
  change (f_Evidence (r_Finding r)) with (r_Evidence r).
  destruct (marshalEvidence (r_Evidence r)) as [col|e] eqn:Hm; [|done]. clear Hst.
  set (row := finding_row r col). set (rows := db_findings d) in *.
  assert (insert_finding row d =
    Ok (set_findings (upsert finding_key update_finding row rows) d, tt)) as Hins.
  { unfold insert_finding. destruct (row_at finding_key (finding_key row) _) as [o|] eqn:Ho; [done|].
    destruct (row_at fr_id (fr_id row) _) as [x|] eqn:Hx; [|done].
    apply row_at_Some in Hx as [Hin Hxid]. exfalso.
    assert (finding_at (mkConn d []) (r_Module r) (r_Fingerprint r) = None) as Hnone.
    { unfold finding_at. cbn. change (r_Module r, r_Fingerprint r) with (finding_key row). by rewrite Ho. }
    apply (Hid Hnone (fr_module x) (fr_fingerprint x) (scanRecord x)); [|exact Hxid].
    unfold finding_at. cbn. change (fr_module x, fr_fingerprint x) with (finding_key x).
    by rewrite (proj2 (row_at_elem finding_key (finding_key x) _ x Hk)). }
  exists (mkConn (set_findings (upsert finding_key update_finding row rows) d) []).
  split; [by apply exec_healthy|]. split; [split|].
  - done.
  - apply keyed_upsert; [done|exact Hk].
  - apply Forall_upsert; [| |exact Hev].
    + intros s Hs. cbn in Hs. destruct (r_Evidence r) as [ev|]; cbn in Hm; [|congruence].
      destruct (json_Marshal ev) as [b|] eqn:Hb; [|done]. exists ev. congruence.
    + intros o _ s Hs. cbn in Hs. destruct (r_Evidence r) as [ev|]; cbn in Hm; [|congruence].
      destruct (json_Marshal ev) as [b|] eqn:Hb; [|done]. exists ev. congruence.
  - intros m fp. unfold finding_at. cbn [cn_data set_findings db_findings].
    rewrite row_at_upsert by done. fold rows.
    assert (scan_evidence col = reread_evidence (r_Evidence r)) as Hcol.
    { unfold reread_evidence. by rewrite Hm. }
    destruct (decide (m = r_Module r ∧ fp = r_Fingerprint r)) as [[-> ->]|Hne].
    + rewrite decide_True by done. change (r_Module r, r_Fingerprint r) with (finding_key row).
      destruct (row_at finding_key (finding_key row) rows) as [o|]; cbn;
        unfold scanRecord; cbn; rewrite Hcol; done.
    + rewrite decide_False; [done|]. intros Heq. apply Hne. by injection Heq.
Qed.

#[export] Program Instance SQLite_spec : StoreSpec DB := {|
  store_inv := findings_inv;
  lookup_rec := finding_at;
  storable ev := is_ok (marshalEvidence ev) = true;
  norm_evidence := reread_evidence;
  upsert_merge o r :=
    match o with Some o => merge_finding o r | None => with_evidence reread_evidence r end;
|}.
Next Obligation. done. Qed.
Next Obligation.
  intros ev Hev. destruct (marshal_plain ev Hev) as [b Hb]. unfold marshalEvidence. by rewrite Hb.
Qed.
Next Obligation. done. Qed.
Next Obligation.
  intros [[] ?] [[] ?] (Hi & Hm & Hf & Ht & Hc & Hs). unfold r_Module, r_Fingerprint, r_Target in *.
  cbn in *. by subst.
Qed.
Next Obligation. done. Qed.
Next Obligation. intros o r. split; cbn; auto. Qed.
Next Obligation. intros c m fp r Hc _ Hr. by eapply finding_at_evidence. Qed.
Next Obligation.
  intros c m fp r Hc _ (row & Hrow & ->)%fmap_Some. apply row_at_Some in Hrow as [_ [= <- <-]]. done.
Qed.
Next Obligation.
  intros c m t Hc _. eexists. split; [by apply query_healthy, Hc|].
  by apply (finding_listing c m (λ r, fr_target r = t) (λ r, r_Target r = t)); [| |apply visit_perm].
Qed.
Next Obligation.
  intros c r Hc _ Hst Hid. destruct (Upsert_ok c r Hc Hst Hid) as (c' & Hu & Hc' & Hl).
  exists c'. split_and!; [exact Hu|exact Hc'|]. intros m fp _. rewrite (Hl m fp). by destruct (finding_at c m fp).
Qed.
Next Obligation.
  intros c m fp Hc _.
  exact (query_healthy (λ d, scanRecord <$> row_at finding_key (m, fp) (db_findings d)) c (fi_healthy c Hc)).
Qed.
Next Obligation.
  intros c m Hc _. eexists. split; [by apply query_healthy, Hc|].
  by apply (finding_listing c m (λ r, fr_status r = StatusOpen) (λ r, r_Status r = StatusOpen));
    [| |apply visit_perm].
Qed.
Next Obligation.
  intros c m Hc _. eexists. split; [by apply query_healthy, Hc|].
  destruct (finding_listing c m (λ _, True) (λ _, True)
    (sort_slice (λ a b, time_After (fr_last_seen a) (fr_last_seen b))
      (filter (λ r, fr_module r = m) (db_findings (cn_data c))))) as [Hnd Hin]; [done|done| |].
  { rewrite sort_slice_perm. by rewrite (list_filter_iff _ (λ r, fr_module r = m ∧ True)) by (intros; tauto). }
  split; [done|]. intros r. rewrite Hin. tauto.
Qed.

#[export] Instance SQLite_json : StoreJSON DB.
Proof. intros ev [b Hb]. cbn. unfold marshalEvidence. by rewrite Hb. Qed.
End FindingsSpec.

(** ** Saved targets *)

Definition targets_at (c : DB) (m : string) : list memTarget :=
  map (λ r, mkMemTarget (tr_raw r) (tr_canonical r)) (filter (λ r, tr_module r = m) (db_targets (cn_data c))).

Lemma upsert_nothing {R K} `{EqDecision K} (key : R → K) r rows :
  upsert key (λ old _, old) r rows = rows ++ (if decide (key r ∈ map key rows) then [] else [r]).
Proof.
  unfold upsert. destruct (row_at key (key r) rows) as [o|] eqn:Ho.
  - apply row_at_Some in Ho as [Hin He]. rewrite decide_True, app_nil_r.
    + rewrite (map_ext _ id); [apply map_id|]. intros x. by case_decide.
    + rewrite <-He. by apply list_elem_of_fmap_2.
  - apply row_at_None in Ho. by rewrite decide_False.
Qed.

#[export] Program Instance SQLite_target_spec : TargetStoreSpec DB := {|
  ts_inv := healthy;
  ts_saved := targets_at;
|}.
Next Obligation.
  intros [d fs] m raw c Hh. unfold healthy in Hh. cbn in Hh. subst fs.
  eexists. split_and!; [by apply exec_healthy|done|]. intros mo. unfold targets_at. cbn.
  rewrite upsert_nothing. set (row := mkTargetRow m raw c). rewrite filter_app, map_app. f_equal.
  assert (target_key row ∈ map target_key (db_targets d) ↔
    c ∈ map mt_canonical (targets_at (mkConn d []) m)) as Hmem.
  { unfold targets_at. cbn. rewrite map_map. cbn. rewrite !list_elem_of_fmap. split.
    - intros (x & [= -> ->] & Hx). exists x. split; [done|]. by apply list_elem_of_filter.
    - intros (x & -> & [<- Hx]%list_elem_of_filter). by exists x. }
  unfold targets_at in Hmem. cbn in Hmem.
  destruct (decide (target_key row ∈ _)) as [Hd|Hd]; destruct (decide (mo = m ∧ _)) as [Hd'|Hd']; try done.
  - destruct Hd' as [_ Hn]. by apply Hmem in Hd.
  - destruct Hd' as [-> _]. by rewrite filter_cons_True.
  - destruct (decide (m = mo)) as [<-|]; [|by rewrite filter_cons_False].
    destruct Hd'. split; [done|]. by rewrite <-Hmem.
Qed.
Next Obligation.
  intros [d fs] m c Hh. unfold healthy in Hh. cbn in Hh. subst fs.
  eexists. split_and!; [by apply exec_healthy|done|]. intros mo. unfold targets_at. cbn.
  rewrite list_filter_filter. destruct (decide (mo = m)) as [->|Hm].
  - induction (db_targets d) as [|x l IH]; [done|]. rewrite !filter_cons. unfold target_key.
    destruct (decide (tr_module x = m)) as [Hx|Hx].
    + destruct (decide (tr_canonical x = c)) as [Hc|Hc].
      * rewrite decide_False by (intros [_ Hn]; apply Hn; congruence). cbn [map].
        rewrite filter_cons_False by (cbn; tauto). exact IH.
      * rewrite decide_True by (split; [done|congruence]). cbn [map].
        rewrite filter_cons_True by done. f_equal. exact IH.
    + rewrite decide_False by tauto. exact IH.
  - f_equal. apply list_filter_iff. intros x. unfold target_key. split; [tauto|].
    intros Hx. split; [done|]. congruence.
Qed.
Next Obligation.
  intros c m Hc. change (SQLite_ListSavedTargets m c = (c, Ok (map mt_raw (targets_at c m)))).
  unfold SQLite_ListSavedTargets. rewrite query_healthy by done. unfold targets_at. by rewrite map_map.
Qed.

(** ** Sources and detections *)

Section LogSpec.
Context `{JSONEncoder} `{JSONDecoder} `{!JSONRoundtrip} `{SortSlice} (clock : Z).

#[local] Instance log_ops : LogStoreOps DB := SQLite_log_ops clock.

Record sources_db_inv (c : DB) : Prop := {
  si_healthy : healthy c;
  si_sources : keyed sr_name (db_sources (cn_data c));
  si_detections : keyed detection_key (db_detections (cn_data c));
}.

Definition source_at (c : DB) (n : string) : option SourceConfig :=
  scanSource <$> row_at sr_name n (db_sources (cn_data c)).

Definition detection_at (c : DB) (s k : string) : option DetectionRecord :=
  scanDetection <$> row_at detection_key (s, k) (db_detections (cn_data c)).

(** A source reads back as it was saved, but for the creation time. *)
Lemma scan_source_row c : utf8_params (sc_Params c) → same_source c (scanSource (source_row clock c)).
Proof.
  intros Hu. destruct (params_reread _ Hu) as [Hr Hne]. split; cbn; try done.
  - destruct (is_empty _) eqn:He; [|by rewrite Hr]. unfold is_empty, str_eqb in He.
    by apply bool_decide_eq_true in He.
  - by destruct (sc_Enabled c).
Qed.

Lemma update_recurrence o d : detection_key o = detection_key (detection_row d) →
  recurrence (scanDetection o) d (scanDetection (update_detection o (detection_row d))).
Proof. intros [= Hs Hk]. split; cbn; try done. by right. Qed.

#[export] Program Instance SQLite_log_spec : LogStoreSpec DB := {|
  log_inv := sources_db_inv;
  log_source := source_at;
  log_det := detection_at;
|}.
Next Obligation.
  intros c s k d Hc _ (r & Hr & ->)%fmap_Some. apply row_at_Some in Hr as [_ [= <- <-]]. done.
Qed.
Next Obligation. intros c n s Hc (r & Hr & ->)%fmap_Some. by apply row_at_Some in Hr as [_ <-]. Qed.
Next Obligation.
  intros c n Hc.
  exact (query_healthy (λ d, scanSource <$> row_at sr_name n (db_sources d)) c (si_healthy c Hc)).
Qed.
Next Obligation.
  intros c [Hh Hk _]. eexists. split; [by apply query_healthy|].
  destruct (listing sr_name scanSource (λ _, True) sc_Name (db_sources (cn_data c))
    (sort_slice (λ a b, String.ltb (sr_name a) (sr_name b)) (db_sources (cn_data c)))) as [Hnd Hin];
    [|done|done|].
  { rewrite sort_slice_perm. clear. induction (db_sources (cn_data c)) as [|r l IH]; [done|].
    rewrite filter_cons_True by done. by constructor. }
  split; [done|]. intros s. rewrite Hin. split.
  - intros (r & Hr & _ & ->). unfold source_at.
    by rewrite (proj2 (row_at_elem sr_name (sr_name r) _ r Hk)).
  - intros (r & Hr & ->)%fmap_Some. apply row_at_Some in Hr as [Hr _]. eauto.
Qed.
Next Obligation.
  intros [d fs] c [Hh Hk Hd] Hu. unfold healthy in Hh. cbn in Hh, Hk, Hd. subst fs.
  exists (mkConn (set_sources (upsert sr_name update_source (source_row clock c) (db_sources d)) d) []).
  exists (scanSource (match row_at sr_name (sc_Name c) (db_sources d) with
                      | Some o => update_source o (source_row clock c)
                      | None => source_row clock c end)).
  split_and!; [by apply exec_healthy| | | |done].
  - split; [done| |done]. by apply keyed_upsert.
  - destruct (scan_source_row c Hu) as [Hn Ht Hp He].
    destruct (row_at sr_name (sc_Name c) (db_sources d)) as [o|] eqn:Ho; [|done].
    apply row_at_Some in Ho as [_ Ho]. by split.
  - intros n. unfold source_at. cbn [cn_data db_sources set_sources].
    rewrite row_at_upsert by done. cbn [sr_name source_row].
    by destruct (decide (n = sc_Name c)).
Qed.
Next Obligation.
  intros [d fs] n [Hh Hk Hd]. unfold healthy in Hh. cbn in Hh, Hk, Hd. subst fs.
  eexists (mkConn (set_detections _ (set_sources _ d)) []). split_and!; [done| | |].
  - split; [done| |]; by apply keyed_filter.
  - intros m. unfold source_at. cbn [cn_data db_sources set_sources set_detections].
    rewrite row_at_filter by done.
    destruct (row_at sr_name m (db_sources d)) as [r|] eqn:Hr; [|by case_decide].
    apply row_at_Some in Hr as [_ <-]. destruct (decide (sr_name r = n)) as [He|He].
    + by rewrite decide_False by auto.
    + by rewrite decide_True.
  - intros s k _. unfold detection_at. cbn [cn_data db_detections set_sources set_detections].
    rewrite row_at_filter by done.
    destruct (row_at detection_key (s, k) (db_detections d)) as [r|] eqn:Hr; [|by left].
    apply row_at_Some in Hr as [_ [= Hs' _]].
    destruct (decide (tr_source_id r ≠ n)) as [He|He]; [by left|right].
    split; [|done]. apply dec_stable. intros Hsn. apply He. congruence.
Qed.
Next Obligation.
  intros [db fs] d [Hh Hk Hd] Hv. unfold healthy in Hh. cbn in Hh, Hk, Hd. subst fs.
  exists (mkConn (set_detections
    (upsert detection_key update_detection (detection_row d) (db_detections db)) db) []).
  exists (scanDetection (match row_at detection_key (dr_SourceID d, dr_Key d) (db_detections db) with
                         | Some o => update_detection o (detection_row d)
                         | None => detection_row d end)).
  split_and!; [by apply exec_healthy| | |done|].
  - split; [done|done|]. by apply keyed_upsert.
  - unfold detection_at. cbn [cn_data].
    destruct (row_at detection_key (dr_SourceID d, dr_Key d) (db_detections db)) as [o|] eqn:Ho; [|done].
    apply row_at_Some in Ho as [_ Ho]. by apply update_recurrence.
  - intros s k _. unfold detection_at. cbn [cn_data db_detections set_detections].
    rewrite row_at_upsert by done. change (detection_key (detection_row d)) with (dr_SourceID d, dr_Key d).
    destruct (decide (s = dr_SourceID d ∧ k = dr_Key d)) as [[-> ->]|Hne].
    + by rewrite decide_True.
    + rewrite decide_False; [done|]. intros [= ? ?]. auto.
Qed.
Next Obligation.
  intros c s [Hh _ Hk] Hv Hs. eexists. split; [by apply query_healthy|].
  destruct (listing detection_key scanDetection (λ r, s = "" ∨ tr_source_id r = s) dr_Key
    (db_detections (cn_data c))
    (sort_slice (λ a b, time_After (tr_last_at a) (tr_last_at b))
      (filter (λ r, s = "" ∨ tr_source_id r = s) (db_detections (cn_data c))))) as [Hnd Hin];
    [by rewrite sort_slice_perm|done| |].
  { intros r r' [?|Hr] [?|Hr'] He; try done. unfold detection_key. cbn in He. congruence. }
  split; [done|]. intros d. rewrite Hin. unfold detection_at. split.
  - intros (r & Hr & [?|Hrs] & ->); [done|].
    rewrite (proj2 (row_at_elem detection_key (s, _) _ r Hk)); [done|].
    split; [done|]. unfold detection_key. cbn. congruence.
  - intros (r & Hr & ->)%fmap_Some. apply row_at_Some in Hr as [Hr [= Hrs]]. eauto 10.
Qed.
Next Obligation.
  intros [d fs] before [Hh Hk Hd]. unfold healthy in Hh. cbn in Hh, Hk, Hd. subst fs.
  eexists (mkConn (set_detections _ d) []). split_and!; [done| |done|].
  - split; [done|done|]. by apply keyed_filter.
  - intros s k _. unfold detection_at. cbn [cn_data db_detections set_detections].
    rewrite row_at_filter by done.
    destruct (row_at detection_key (s, k) (db_detections d)) as [r|]; [|done]. cbn.
    by destruct (time_Before (tr_last_at r) before).
Qed.
End LogSpec.
