(* ===== verification/Pipeline.v ===== *)
(** Path A, from an event to a stored and announced finding
    ([src/loglight/pipeline.go]), and how it fits with path B, the polled
    collector and the reconcile engine. *)
From S2P Require Import Prelude Text Float Core Store Reconcile Ingest.
From S2P Require Import Detect Correlate Notify Loglight.
Local Open Scope Z_scope.

(** * State *)

(** What a [Pipeline] points to. [pl_Disp] is [None] when there is no channel. *)
Record Pipeline (L W : Type) := mkPipeline {
  pl_Detect : Detect.Engine;
  pl_Corr : Correlator;
  pl_Log : L;
  pl_Store : W;
  pl_Disp : option Dispatcher;
}.
Arguments mkPipeline {L W} _ _ _ _ _.
Arguments pl_Detect {L W} _.
Arguments pl_Corr {L W} _.
Arguments pl_Log {L W} _.
Arguments pl_Store {L W} _.
Arguments pl_Disp {L W} _.

Definition fixFor (k : string) : string :=
  if str_eqb k KindBruteForce then
    "Block the source IP and confirm no login succeeded. Enforce rate-limiting / fail2ban and key-only auth."
  else if str_eqb k KindScan then
    "Confirm the source is authorised. Block it at the perimeter if not; ensure only intended ports are exposed."
  else if str_eqb k KindExfil then
    "Investigate the outbound transfer from this host now — unexpected large egress can be data exfiltration."
  else if str_eqb k KindNewAdmin then
    "Verify this account/privilege grant was authorised and change-controlled. If not, disable it and investigate."
  else if str_eqb k KindAuthSpike then
    "Likely credential stuffing — enable rate-limiting/MFA and watch for any success from the same sources."
  else if str_eqb k KindBeacon then
    "Isolate the host and inspect the process making these connections — a fixed-interval call-out to one external endpoint is the classic C2 heartbeat. Block the destination at the firewall."
  else if str_eqb k KindNewService then
    "Confirm this service was installed deliberately and is change-controlled. If nobody owns it, treat it as a possible backdoor: stop it and investigate the host."
  else "Investigate the actor and affected host.".

(** The record of a detection. *)
Definition detectionRecord (sourceID : string) (d : Detection) : DetectionRecord :=
  mkDetRecord (d_Key d) sourceID ("detect." +:+ d_Kind d) (d_Severity d) (d_Actor d) (d_Target d)
    (d_Title d) (d_Detail d) (d_Evidence d) (fixFor (d_Kind d)) (d_Count d)
    (d_FirstAt d) (d_LastAt d).

Section Pipeline.
Context {L W : Type} `{LogStoreOps L} `{StoreOps W} `{TimeFormat} `{MapRange}.
Context (newID : Z → M W string string).
Context (hasStore : bool).      (* [p.Store != nil] *)
Context (clock : Z).            (* [time.Now()] when a digest is flushed *)

Abbreviation P := (Pipeline L W).

(** The record of an incident. *)
Definition incidentRecord (sourceID : string) (inc : Incident) : DetectionRecord :=
  mkDetRecord (in_Key inc) sourceID "incident.killchain" (in_Severity inc) (in_Actor inc)
    (in_Target inc) (in_Title inc) (in_Detail inc)
    (map (λ m, sprint [format_RFC3339 (mb_At m); "  ["; mb_Stage m; "]  "; mb_Note m])
         (in_Members inc))
    "Treat as a possible compromise: isolate the host, rotate the affected credential, and review the session."
    (Z.of_nat (length (in_Members inc))) (in_FirstAt inc) (in_LastAt inc).

(** The row that is upserted: open, with no group, resolution or absence. *)
Definition openRecord (f : Finding) (id : string) (rec : DetectionRecord) : Record :=
  mkRecord
    (mkFinding (f_Fingerprint f) (f_Target f) (f_Check f) (f_Title f) (f_Severity f)
       (f_Remediation f) (f_Evidence f) id ModuleID StatusOpen None
       (dr_FirstAt rec) (dr_LastAt rec) None) 0.

Definition emit (f : Finding) (p : P) : P * list Digest :=
  match pl_Disp p with
  | None => (p, [])
  | Some di =>
    let '(di, ds) := Enqueue clock (mkNEvent Notify.KindOpened ModuleID f) di in
    (mkPipeline (pl_Detect p) (pl_Corr p) (pl_Log p) (pl_Store p) (Some di), ds)
  end.

(** The error of [UpsertDetection] is dropped; a failing id or upsert ends the
    call before anything is announced. *)
Definition persistAndEmit (rec : DetectionRecord) (p : P) : P * list Digest :=
  let '(log, _) := UpsertDetection rec (pl_Log p) in
  let f := detectionFinding rec in
  let '(st, idr) := newID (dr_LastAt rec) (pl_Store p) in
  let p := mkPipeline (pl_Detect p) (pl_Corr p) log st (pl_Disp p) in
  match idr with
  | Err _ => (p, [])
  | Ok id =>
    if hasStore then
      let '(st, r) := Upsert (openRecord f id rec) (pl_Store p) in
      let p := mkPipeline (pl_Detect p) (pl_Corr p) (pl_Log p) st (pl_Disp p) in
      match r with Err _ => (p, []) | Ok _ => emit f p end
    else emit f p
  end.

Definition recordDetection (sourceID : string) (d : Detection) (p : P) : P * list Digest :=
  persistAndEmit (detectionRecord sourceID d) p.

Definition recordIncident (sourceID : string) (inc : Incident) (p : P) : P * list Digest :=
  persistAndEmit (incidentRecord sourceID inc) p.

Definition set_Corr (c : Correlator) (p : P) : P :=
  mkPipeline (pl_Detect p) c (pl_Log p) (pl_Store p) (pl_Disp p).

(** Record the incident a correlator call returned, if any. *)
Definition on_incident (sourceID : string) (r : Correlator * option Incident) (p : P) :
    P * list Digest :=
  let p := set_Corr (fst r) p in
  match snd r with
  | None => (p, [])
  | Some inc => recordIncident sourceID inc p
  end.

(** The body of the loop over the detections of one event. *)
Definition handle_detection (sourceID : string) (d : Detection) (p : P) : P * list Digest :=
  let p := set_Corr (ObserveDetection d (pl_Corr p)) p in
  let '(p, ds) := recordDetection sourceID d p in
  let '(p, ds') := on_incident sourceID (ObserveSentinelFinding d (pl_Corr p)) p in
  (p, ds ++ ds').

Fixpoint handle_detections (sourceID : string) (dets : list Detection) (p : P) : P * list Digest :=
  match dets with
  | [] => (p, [])
  | d :: rest =>
    let '(p, ds) := handle_detection sourceID d p in
    let '(p, ds') := handle_detections sourceID rest p in
    (p, ds ++ ds')
  end.

Definition Handle (e : Event) (p : P) : P * list Digest :=
  let '(en, dets) := Engine_Observe e (pl_Detect p) in
  let p := mkPipeline en (pl_Corr p) (pl_Log p) (pl_Store p) (pl_Disp p) in
  let '(p, ds) := handle_detections (e_SourceID e) dets p in
  if str_eqb (e_Auth e) AuthSuccess then
    let '(p, ds') := on_incident (e_SourceID e)
      (ObserveSuccess (Actor e) (e_Host e) (e_User e) (e_Timestamp e) (e_Raw e) (pl_Corr p)) p in
    (p, ds ++ ds')
  else (p, ds).
End Pipeline.

(** * Lemmas *)

Section PipelineLemmas.
Context {L W : Type} `{LogStoreSpec L} `{StoreSpec W} `{TimeFormat} `{MapRange}.
Context (newID : Z → M W string string).
Hypothesis newID_ok : fresh_ids newID.

Lemma ModuleID_valid : valid_module ModuleID.
Proof. reflexivity. Qed.

Lemma detection_evidence_storable rec : storable W (Some (detection_evidence rec)).
Proof.
  apply storable_plain. unfold detection_evidence.
  assert (∀ (b : bool) k v (m : gmap string any), plain v = true → map_Forall (λ _ v, plain v = true) m →
    map_Forall (λ _ v, plain v = true) (if b then m else <[k := v]> m)) as Hif.
  { intros [] k v m Hv Hm; [done|]. by apply map_Forall_insert_2. }
  repeat (apply Hif; [done|]). do 3 (apply map_Forall_insert_2; [done|]). by apply map_Forall_singleton.
Qed.

(** Working stores make [persistAndEmit] write both records and announce. *)
Lemma persistAndEmit_ok clock rec (p : Pipeline L W) :
  log_inv (pl_Log p) → store_inv (pl_Store p) → valid_source (dr_SourceID rec) →
  let f := detectionFinding rec in
  ∃ l' w' id,
    persistAndEmit newID true clock rec p =
      emit clock f (mkPipeline (pl_Detect p) (pl_Corr p) l' w' (pl_Disp p)) ∧
    log_inv l' ∧ store_inv w' ∧
    (∀ s, log_source l' s = log_source (pl_Log p) s) ∧
    (∃ d', log_det l' (dr_SourceID rec) (dr_Key rec) = Some d' ∧
       match log_det (pl_Log p) (dr_SourceID rec) (dr_Key rec) with
       | None => same_detection rec d' | Some o => recurrence o rec d' end) ∧
    lookup_rec w' ModuleID (f_Fingerprint f) =
      Some (upsert_merge (lookup_rec (pl_Store p) ModuleID (f_Fingerprint f)) (openRecord f id rec)) ∧
    ∀ fp, fp ≠ f_Fingerprint f → lookup_rec w' ModuleID fp = lookup_rec (pl_Store p) ModuleID fp.
Proof.
  intros Hl Hw Hs f. unfold persistAndEmit.
  destruct (UpsertDetection_spec (pl_Log p) rec Hl Hs) as (l' & d' & -> & Hl' & Hd & Hsrc & Hdet).
  destruct (newID_ok (dr_LastAt rec) (pl_Store p) Hw) as (w1 & id & -> & Hw1 & Hsame & Hfree).
  cbn [pl_Store pl_Detect pl_Corr pl_Log pl_Disp].
  destruct (Upsert_spec w1 (openRecord (detectionFinding rec) id rec) Hw1 ModuleID_valid)
    as (w' & -> & Hw' & Hlk).
  { apply detection_evidence_storable. }
  { intros _ m fp o. rewrite Hsame. apply Hfree. }
  exists l', w', id. split; [done|]. split_and!; [done..| | |].
  - exists d'. rewrite Hdet by done. split; [by rewrite decide_True|done].
  - subst f. rewrite Hlk by exact ModuleID_valid. rewrite decide_True by done. by rewrite Hsame.
  - intros fp Hne. rewrite Hlk by exact ModuleID_valid. rewrite decide_False by naive_solver. by rewrite Hsame.
Qed.

Lemma emit_state clock f (p : Pipeline L W) :
  pl_Log (emit clock f p).1 = pl_Log p ∧ pl_Store (emit clock f p).1 = pl_Store p.
Proof. unfold emit. by repeat case_match. Qed.
End PipelineLemmas.
