(* ===== verification/Shape.v ===== *)
(** The shape of what the product stores: every record the pipeline writes makes
    a finding that the reconcile engine accepts. *)
From S2P Require Import Prelude Text Float Core Store Reconcile Ingest Regexp.
From S2P Require Import Detect Correlate Notify Loglight Pipeline.
Local Open Scope Z_scope.

(** * Detections and incidents *)

Record well_formed (d : Detection) : Prop := {
  wf_Title : d_Title d ≠ "";
  wf_Severity : Severity_Valid (d_Severity d) = true;
}.

Lemma sprint_nonempty s l : s ≠ "" → sprint (s :: l) ≠ "".
Proof.
  intros Hs. destruct s as [|c s]; [done|]. unfold sprint. cbn. destruct l; by rewrite ?append_cons.
Qed.

Ltac shape_tac :=
  intros Ho; det_cases Ho; injection Ho as _ <-;
  (split; cbn [d_Title d_Severity]; [by apply sprint_nonempty|reflexivity]).

Lemma brute_shape e s s' d : bruteForce_observe e s = (s', Some d) → well_formed d.
Proof. unfold bruteForce_observe. shape_tac. Qed.

Lemma scan_shape e s s' d : scan_observe e s = (s', Some d) → well_formed d.
Proof. unfold scan_observe. shape_tac. Qed.

Lemma exfil_shape e s s' d : exfil_observe e s = (s', Some d) → well_formed d.
Proof. unfold exfil_observe. shape_tac. Qed.

Lemma newAdmin_shape e s s' d : newAdmin_observe e s = (s', Some d) → well_formed d.
Proof. unfold newAdmin_observe. shape_tac. Qed.

Lemma authSpike_shape e s s' d : authSpike_observe e s = (s', Some d) → well_formed d.
Proof. unfold authSpike_observe. shape_tac. Qed.

Lemma beacon_shape e s s' d : beacon_observe e s = (s', Some d) → well_formed d.
Proof. unfold beacon_observe. shape_tac. Qed.

Lemma newService_shape e s s' d : newService_observe e s = (s', Some d) → well_formed d.
Proof. unfold newService_observe. shape_tac. Qed.

(** The product and the severity of another product's finding come from the
    message, and are checked. *)
Lemma sentinel_shape e s s' d : sentinelFinding_observe e s = (s', Some d) → well_formed d.
Proof.
  unfold sentinelFinding_observe. intros Ho. det_cases Ho; injection Ho as _ <-; split;
    cbn [d_Title d_Severity]; try done; by apply sprint_nonempty.
Qed.

Lemma Engine_Observe_shape ev e : Forall well_formed (snd (Engine_Observe ev e)).
Proof.
  unfold Engine_Observe.
  destruct (bruteForce_observe ev _) as [b1 r1] eqn:H1.
  destruct (scan_observe ev _) as [b2 r2] eqn:H2.
  destruct (exfil_observe ev _) as [b3 r3] eqn:H3.
  destruct (newAdmin_observe ev _) as [b4 r4] eqn:H4.
  destruct (authSpike_observe ev _) as [b5 r5] eqn:H5.
  destruct (sentinelFinding_observe ev _) as [b6 r6] eqn:H6.
  destruct (beacon_observe ev _) as [b7 r7] eqn:H7.
  destruct (newService_observe ev _) as [b8 r8] eqn:H8. cbn [snd].
  apply Forall_forall. intros d Hd. apply list_elem_of_omap in Hd as (r & Hr & Hid). cbn in Hid. subst r.
  repeat (apply elem_of_cons in Hr as [<-|Hr]); [..|by apply elem_of_nil in Hr].
  - by eapply brute_shape.
  - by eapply scan_shape.
  - by eapply exfil_shape.
  - by eapply newAdmin_shape.
  - by eapply authSpike_shape.
  - by eapply sentinel_shape.
  - by eapply beacon_shape.
  - by eapply newService_shape.
Qed.

Record incident_formed (i : Incident) : Prop := {
  if_Title : in_Title i ≠ "";
  if_Severity : Severity_Valid (in_Severity i) = true;
}.

Lemma ObserveSentinelFinding_shape d c c' i :
  ObserveSentinelFinding d c = (c', Some i) → incident_formed i.
Proof.
  unfold ObserveSentinelFinding. intros Ho. repeat case_match; try discriminate Ho;
    injection Ho as _ <-; (split; cbn [in_Title in_Severity]; [by apply sprint_nonempty|reflexivity]).
Qed.

Lemma ObserveSuccess_shape a h u t raw c c' i :
  ObserveSuccess a h u t raw c = (c', Some i) → incident_formed i.
Proof.
  unfold ObserveSuccess. intros Ho. repeat case_match; try discriminate Ho;
    injection Ho as _ <-; (split; cbn [in_Title in_Severity]; [done|reflexivity]).
Qed.

(** * The log store *)

(** A record from which a valid finding is made, of the severity it says. *)
Record record_ok (d : DetectionRecord) : Prop := {
  rk_Check : dr_Check d ≠ "";
  rk_Title : dr_Title d ≠ "";
  rk_Severity : Severity_Valid (dr_Severity d) = true;
}.

Lemma detectionRecord_ok source d : well_formed d → record_ok (detectionRecord source d).
Proof. intros [Ht Hs]. by split. Qed.

Lemma recurrence_ok o d d' : recurrence o d d' → record_ok o → record_ok d → record_ok d'.
Proof.
  intros [_ _ Hc Hs Ht _ _ _] [Hoc _ _] [Hdc Hdt Hds].
  split; [destruct Hc as [->| ->]; done|by rewrite Ht|by rewrite Hs].
Qed.

(** ** What every write preserves *)

Section invariant.
Context {L W : Type} `{LogStoreOps L} `{StoreOps W} `{TimeFormat} `{MapRange}.
Context (newID : Z → M W string string) (hasStore : bool) (clock : Z).

Abbreviation P := (Pipeline L W).

(** A property of the two stores that the writing of a well-formed record of a
    named source preserves. *)
Context (I : P → Prop).
Hypothesis I_same : ∀ p q : P, pl_Log q = pl_Log p → pl_Store q = pl_Store p → I p → I q.
Context (source : string).
Hypothesis I_persist : ∀ rec (p : P), dr_SourceID rec = source → record_ok rec → I p →
  I (persistAndEmit newID hasStore clock rec p).1.

Lemma on_incident_inv r (p : P) : (∀ i, snd r = Some i → incident_formed i) →
  I p → I (on_incident newID hasStore clock source r p).1.
Proof.
  intros Hi Hp. unfold on_incident. destruct (snd r) as [i|]; [|by apply (I_same p)].
  destruct (Hi i eq_refl) as [Ht Hs]. apply I_persist; [done|by split|by apply (I_same p)].
Qed.

Lemma handle_detections_inv ds : Forall well_formed ds → ∀ p : P,
  I p → I (handle_detections newID hasStore clock source ds p).1.
Proof.
  induction 1 as [|d ds Hd _ IH]; intros p Hp; cbn [handle_detections]; [done|].
  unfold handle_detection.
  pose proof (I_persist (detectionRecord source d) (set_Corr (ObserveDetection d (pl_Corr p)) p)
    eq_refl (detectionRecord_ok source d Hd)) as Hone.
  unfold recordDetection. destruct (persistAndEmit _ _ _ _ _) as [p1 ds1]. cbn [fst] in Hone.
  specialize (Hone (I_same p (set_Corr (ObserveDetection d (pl_Corr p)) p) eq_refl eq_refl Hp)).
  pose proof (on_incident_inv (ObserveSentinelFinding d (pl_Corr p1)) p1) as Htwo.
  destruct (on_incident _ _ _ _ _ p1) as [p2 ds2]. cbn [fst] in Htwo.
  specialize (IH p2). destruct (handle_detections _ _ _ _ _ p2) as [p3 ds3]. cbn [fst] in *.
  apply IH, Htwo; [|done]. intros i Hi.
  eapply (ObserveSentinelFinding_shape d (pl_Corr p1)). rewrite <-Hi. apply surjective_pairing.
Qed.

Lemma Handle_inv e (p : P) : e_SourceID e = source → I p → I (Handle newID hasStore clock e p).1.
Proof.
  intros He Hp. unfold Handle. rewrite He. pose proof (Engine_Observe_shape e (pl_Detect p)) as Hs.
  destruct (Engine_Observe e (pl_Detect p)) as [en ds]. cbn [snd] in Hs.
  pose proof (handle_detections_inv ds Hs
    (mkPipeline en (pl_Corr p) (pl_Log p) (pl_Store p) (pl_Disp p))
    (I_same p (mkPipeline en (pl_Corr p) (pl_Log p) (pl_Store p) (pl_Disp p)) eq_refl eq_refl Hp)) as Hone.
  destruct (handle_detections _ _ _ _ _ _) as [p1 ds1]. cbn [fst] in Hone.
  destruct (str_eqb (e_Auth e) AuthSuccess); [|done].
  pose proof (on_incident_inv
    (ObserveSuccess (Actor e) (e_Host e) (e_User e) (e_Timestamp e) (e_Raw e) (pl_Corr p1)) p1) as Htwo.
  destruct (on_incident _ _ _ _ _ p1) as [p2 ds2]. apply Htwo; [|done]. intros i Hi.
  eapply (ObserveSuccess_shape (Actor e) (e_Host e) (e_User e) (e_Timestamp e) (e_Raw e) (pl_Corr p1)).
  rewrite <-Hi. apply surjective_pairing.
Qed.
End invariant.

Lemma emit_log {L W} `{MapRange} clock f (p : Pipeline L W) : pl_Log (emit clock f p).1 = pl_Log p.
Proof. unfold emit. by repeat case_match. Qed.

Section pipeline.
Context {L W : Type} `{LogStoreSpec L} `{StoreOps W} `{TimeFormat} `{MapRange}.
Context (newID : Z → M W string string) (hasStore : bool) (clock : Z).

Definition log_ok (p : Pipeline L W) : Prop :=
  log_inv (pl_Log p) ∧
  ∀ s k d, valid_source s → log_det (pl_Log p) s k = Some d → record_ok d.

Lemma log_ok_same (p q : Pipeline L W) : pl_Log q = pl_Log p → log_ok p → log_ok q.
Proof. unfold log_ok. by intros ->. Qed.

(** Whatever the finding store and the id source do. *)
Lemma persistAndEmit_log rec (p : Pipeline L W) : valid_source (dr_SourceID rec) → record_ok rec → log_ok p →
  log_ok (persistAndEmit newID hasStore clock rec p).1.
Proof.
  intros Hv Hrec [Hl Hok].
  destruct (UpsertDetection_spec (pl_Log p) rec Hl Hv) as (l' & d' & Hup & Hl' & Hd & _ & Hdet).
  assert (∀ q : Pipeline L W, pl_Log q = l' → log_ok q) as Hq.
  { intros q Hq. unfold log_ok. rewrite Hq. split; [done|]. intros s k d Hs Hk.
    rewrite Hdet in Hk by done. destruct (decide _) as [[-> ->]|]; [|by eapply Hok].
    injection Hk as <-. destruct (log_det (pl_Log p) _ _) as [o|] eqn:Ho; [|rewrite Hd; destruct Hrec; by split].
    eapply recurrence_ok; [done| |done]. by eapply Hok. }
  unfold persistAndEmit. rewrite Hup. destruct (newID _ _) as [st [id|e]]; [|by apply Hq].
  destruct hasStore; [destruct (Upsert _ _) as [st' [[]|e]]; [|by apply Hq]|];
    apply Hq; by rewrite emit_log.
Qed.

Lemma Handle_log e (p : Pipeline L W) : valid_source (e_SourceID e) → log_ok p →
  log_ok (Handle newID hasStore clock e p).1.
Proof.
  intros Hv. apply (Handle_inv newID hasStore clock log_ok) with (source := e_SourceID e); [..|done].
  - intros p' q Hl _. by apply log_ok_same.
  - intros rec p' Hs. apply persistAndEmit_log. by rewrite Hs.
Qed.
End pipeline.

(** * Properties *)

(** C13: What the pipeline stores always makes a valid finding. Whatever events it
    handles, and whatever the finding store, the ids and the channels do, every
    record of the log store, of any source with a name, turns into a finding that
    passes the ingest check of the reconcile engine, with the severity the
    detector or the correlator gave it: no scan of a source is ever refused for a
    malformed finding, and the fallback severity is never used. *)
Theorem stored_findings_ingestible {L W} `{LogStoreSpec L} `{StoreOps W} `{TimeFormat} `{MapRange}
    newID hasStore clock (evs : list Event) (p : Pipeline L W) :
  Forall (λ e, valid_source (e_SourceID e)) evs → log_ok p →
  let p' := foldl (λ p e, (Handle newID hasStore clock e p).1) p evs in
  log_ok p' ∧
  ∀ s k d, valid_source s → s ≠ "" → log_det (pl_Log p') s k = Some d →
    ValidateForIngest (detectionFinding d) = None ∧ f_Severity (detectionFinding d) = dr_Severity d.
Proof.
  intros Hev Hp p'. assert (log_ok p') as Hp'.
  { subst p'. revert p Hp. induction Hev as [|e evs He _ IH]; intros p Hp; cbn [foldl]; [done|].
    by apply IH, Handle_log. }
  split; [done|]. intros s k d Hs Hne Hd. destruct Hp' as [Hl Hok].
  destruct (Hok s k d Hs Hd) as [Hc Ht Hsev]. destruct (log_det_key _ _ _ _ Hl Hs Hd) as [Hsrc _].
  split.
  - apply ValidateForIngest_None, detectionFinding_ingestible; [by rewrite Hsrc|done|done].
  - unfold detectionFinding. cbn [f_Severity collectorFinding]. by rewrite Hsev.
Qed.

Definition exFailure (t : Z) : Event := failure t "9.9.9.9".

(** With the default configuration eight failures are a brute force. *)
Lemma stored_findings_ingestible_witness :
  let _ := canonical_range in let _ := canonical_sort in let F : TimeFormat := λ _, "" in
  let p := mkPipeline (Detect.NewEngine zeroConfig) (Correlate.New 0 0) Loglight.NewMemStore
             Store.NewMemStore None in
  let p' := foldl (λ p e, (Handle (λ _ w, (w, Ok "id")) false 0 e p).1) p
              (map exFailure (seqZ 1 20)) in
  log_ok p' ∧
  match log_det (pl_Log p') "s" "brute|9.9.9.9" with
  | Some d => ValidateForIngest (detectionFinding d) = None
  | None => False
  end.
Proof.
  intros R S F p p'.
  destruct (stored_findings_ingestible (λ _ w, (w, Ok "id")) false 0 (map exFailure (seqZ 1 20)) p)
    as [Hp Hd].
  - apply (bool_decide_unpack _). vm_compute. exact I.
  - split; [split; [apply map_Forall_empty|apply map_Forall_empty]|]. intros s k d _ Hk. discriminate Hk.
  - split; [exact Hp|].
    destruct (log_det (pl_Log p') "s" "brute|9.9.9.9") as [d|] eqn:Hk.
    + exact (proj1 (Hd "s" "brute|9.9.9.9" d eq_refl ltac:(discriminate) Hk)).
    + assert (is_Some (log_det (pl_Log p') "s" "brute|9.9.9.9")) as [d Hs]; [|by rewrite Hk in Hs].
      apply (bool_decide_unpack _). vm_compute. exact I.
Defined.
