(* ===== verification/Sched.v ===== *)
(** The scheduler: [src/sched/scheduler.go]. The goroutines of the code run the
    operations modelled here, each of which holds the scheduler's lock: a run of
    the scheduler is a sequence of them. *)
From S2P Require Import Prelude Text Float Core Store Reconcile.
Local Open Scope Z_scope.

(** * Configuration *)

Record Config := mkConfig {
  Workers : Z;
  ScanTimeout : Z;
  JitterFraction : float64;
  RetryBase : Z;
  RetryMax : Z;
  IntervalOverride : Z;
}.

Definition positive_or (d v : Z) : Z := if v <=? 0 then d else v.

Definition withDefaults (c : Config) : Config := {|
  Workers := positive_or 8 (Workers c);
  ScanTimeout := positive_or (30 * Second) (ScanTimeout c);
  JitterFraction :=
    if f_leb (JitterFraction c) f_zero || f_ltb (f_of_int 1) (JitterFraction c)
    then f_const 1 10 else JitterFraction c;
  RetryBase := positive_or (30 * Second) (RetryBase c);
  RetryMax := positive_or (15 * Minute) (RetryMax c);
  IntervalOverride := IntervalOverride c |}.

(** * The scheduler *)

(** The part of [core.Collector] that registration uses. *)
Record Collector := mkCollector {
  cl_Describe : ModuleInfo;
  cl_ValidateTarget : string → result IngestError Target;
}.

Record registration := mkReg {
  rg_collector : Collector;
  rg_info : ModuleInfo;
  rg_targets : gmap string Target;
}.

(** [ctx] after [Start]: still running, or cancelled. *)
Inductive run_state := NotStarted | Running | Cancelled.

Record Scheduler := mkScheduler {
  sd_cfg : Config;
  sd_modules : gmap string registration;
  sd_state : run_state;
}.

Definition New (cfg : Config) : Scheduler := mkScheduler (withDefaults cfg) ∅ NotStarted.

Definition set_modules (ms : gmap string registration) (s : Scheduler) : Scheduler :=
  mkScheduler (sd_cfg s) ms (sd_state s).

Definition Register (c : Collector) (s : Scheduler) : Scheduler * option string :=
  let info := cl_Describe c in
  if is_empty (m_ID info) then (s, Some "collector ModuleInfo.ID must not be empty")
  else
    match sd_modules s !! m_ID info with
    | Some _ => (s, Some ("module already registered: " +:+ m_ID info))
    | None => (set_modules (<[m_ID info := mkReg c info ∅]> (sd_modules s)) s, None)
    end.

Definition set_targets (id : string) (ts : gmap string Target) (s : Scheduler) : Scheduler :=
  set_modules (alter (λ reg, mkReg (rg_collector reg) (rg_info reg) ts) id (sd_modules s)) s.

(** The scheduler, the target or the error, and the scan that is started at
    once when the scheduler runs. *)
Definition AddTarget (moduleID raw : string) (s : Scheduler) :
    Scheduler * result string Target * option (registration * Target) :=
  match sd_modules s !! moduleID with
  | None => (s, Err ("unknown module: " +:+ moduleID), None)
  | Some reg =>
    match cl_ValidateTarget (rg_collector reg) raw with
    | Err e => (s, Err (IngestError_Error e), None)
    | Ok t =>
      (set_targets moduleID (<[t_Canonical t := t]> (rg_targets reg)) s, Ok t,
       match sd_state s with Running => Some (reg, t) | _ => None end)
    end
  end.

Definition RemoveTarget (moduleID canonical : string) (s : Scheduler) : Scheduler :=
  match sd_modules s !! moduleID with
  | None => s
  | Some reg => set_targets moduleID (delete canonical (rg_targets reg)) s
  end.

(** [Start]: the modules whose loops are launched, or the error. *)
Definition Start `{MapRange} (s : Scheduler) : Scheduler * result string (list string) :=
  match sd_state s with
  | NotStarted =>
    (mkScheduler (sd_cfg s) (sd_modules s) Running, Ok (fst <$> range_map (sd_modules s)))
  | _ => (s, Err "scheduler already started")
  end.

(** [Stop] cancels the context, if [Start] made one. *)
Definition Stop (s : Scheduler) : Scheduler :=
  match sd_state s with
  | NotStarted => s
  | _ => mkScheduler (sd_cfg s) (sd_modules s) Cancelled
  end.

Definition snapshotTargets `{MapRange} (reg : registration) : list Target :=
  snd <$> range_map (rg_targets reg).

Definition ListTargets `{MapRange} (moduleID : string) (s : Scheduler) : list Target :=
  match sd_modules s !! moduleID with
  | None => []
  | Some reg => snapshotTargets reg
  end.

(** [ScanNow]: the targets scanned, each once; the result is that of
    [ctx.Err()] after the sweep. *)
Definition ScanNow `{MapRange} (moduleID : string) (s : Scheduler) :
    result string (list Target) :=
  match sd_modules s !! moduleID with
  | None => Err ("unknown module: " +:+ moduleID)
  | Some reg => Ok (snapshotTargets reg)
  end.

(** * One scan *)

Record Result := mkResult {
  rs_Module : string;
  rs_Target : Target;
  rs_Reconcile : ReconcileResult;
  rs_Duration : Z;
}.

Section scanOne.
Context {L W : Type} `{StoreOps W} `{JSONEncoder}.
Context (newID : Z → M W string string).
Context (collect : Target → M L string (list Finding)).

(** [slot] is the error of the context if it ends before a worker is free. The
    result is what [OnResult] receives. *)
Definition scanOne (slot : option string) (start now finish : Z) (info : ModuleInfo) (t : Target) :
    M (L * W) string Result :=
  λ '(l, w),
    match slot with
    | Some e => ((l, w), Err e)
    | None =>
      match collect t l with
      | (l, Err e) => ((l, w), Err e)
      | (l, Ok findings) =>
        match Reconcile now newID info (t_Canonical t) findings w with
        | (w, Err (_, e)) => ((l, w), Err e)
        | (w, Ok res) => ((l, w), Ok (mkResult (m_ID info) t res (time_Sub finish start)))
        end
      end
    end.
End scanOne.

(** * The module loop *)

(** The interval between sweeps. *)
Definition loop_interval (cfg : Config) (info : ModuleInfo) : Z :=
  let interval := if 0 <? IntervalOverride cfg then IntervalOverride cfg else m_DefaultInterval info in
  if interval <=? 0 then Hour else interval.

(** Doubles from [RetryBase], in [int64]; [left] is the number of doublings. *)
Fixpoint backoff_loop (max : Z) (left : nat) (d : Z) : Z :=
  match left with
  | O => if max <? d then max else d
  | S left' =>
    let d := int64 (d * 2) in
    if max <=? d then max else backoff_loop max left' d
  end.

Definition backoffFor (cfg : Config) (consecutive : Z) : Z :=
  backoff_loop (RetryMax cfg) (Z.to_nat (consecutive - 1)) (RetryBase cfg).

(** [r] is the next [Float64] of the generator. *)
Definition jittered (cfg : Config) (r : float64) (d : Z) : Z :=
  let f := f_add (f_of_int 1) (f_mul (JitterFraction cfg) (f_sub r (f_const 1 2))) in
  f_to_int64 (f_mul (f_of_int d) f).

(** The loop's own tables. *)
Record loopState := mkLoop {
  lp_failures : gmap string Z;
  lp_nextOK : gmap string Z;
}.

Definition newLoop : loopState := mkLoop ∅ ∅.

(** The targets a sweep at [now] scans. *)
Definition sweep `{MapRange} (now : Z) (reg : registration) (st : loopState) : list Target :=
  filter (λ t, time_Before now (map_get 0 (lp_nextOK st) (t_Canonical t)) = false)
    (snapshotTargets reg).

Record ScanError := mkScanError {
  se_Module : string;
  se_Target : Target;
  se_Err : string;
  se_Attempt : Z;
  se_NextTry : Z;
}.

(** What the goroutine of one target does with the outcome of its scan.
    [canceled] is [errors.Is(err, context.Canceled)]. *)
Definition after_scan (cfg : Config) (moduleID : string) (canceled : string → bool) (now : Z)
    (t : Target) (err : option string) (st : loopState) : loopState * option ScanError :=
  let reset := mkLoop (<[t_Canonical t := 0]> (lp_failures st)) (<[t_Canonical t := 0]> (lp_nextOK st)) in
  match err with
  | Some e =>
    if canceled e then (reset, None)
    else
      let n := map_get 0 (lp_failures st) (t_Canonical t) + 1 in
      let backoff := backoffFor cfg n in
      (mkLoop (<[t_Canonical t := n]> (lp_failures st))
         (<[t_Canonical t := time_Add now backoff]> (lp_nextOK st)),
       Some (mkScanError moduleID t e n backoff))
  | None => (reset, None)
  end.

(** [moduleLoop]: its tables, the time its timer is set to, and whether the
    context is done. *)
Record moduleLoop := mkModuleLoop {
  ml_tables : loopState;
  ml_wake : Z;
  ml_done : bool;
}.

Inductive loop_input :=
| Woke (now : Z) (r : float64) (reg : registration)  (* the timer fires; the targets as they are then *)
| Booked (now : Z) (t : Target) (err : option string)  (* a scan has ended *)
| CtxDone.

(** The targets that a step starts to scan. The timer is set anew after each sweep. *)
Definition swept `{MapRange} (cfg : Config) (info : ModuleInfo) (now : Z) (r : float64) (reg : registration)
    (st : loopState) : moduleLoop * list Target :=
  (mkModuleLoop st (time_Add now (jittered cfg r (loop_interval cfg info))) false, sweep now reg st).

Definition loop_step `{MapRange} (cfg : Config) (info : ModuleInfo) (moduleID : string)
    (canceled : string → bool) (l : moduleLoop) (i : loop_input) : moduleLoop * list Target :=
  match i with
  | Woke now r reg =>
    if ml_done l || time_Before now (ml_wake l) then (l, []) else swept cfg info now r reg (ml_tables l)
  | Booked now t err =>
    (mkModuleLoop (after_scan cfg moduleID canceled now t err (ml_tables l)).1 (ml_wake l) (ml_done l), [])
  | CtxDone => (mkModuleLoop (ml_tables l) (ml_wake l) true, [])
  end.

(** The first sweep is made at once. *)
Definition loop_start `{MapRange} (cfg : Config) (info : ModuleInfo) (now : Z) (r : float64)
    (reg : registration) : moduleLoop * list Target :=
  swept cfg info now r reg newLoop.

(** * Lemmas *)

Section backoff.
Context (cfg : Config).

(** Bounds under which the doubling cannot leave [int64]: about 146 years. *)
Definition sane_retry : Prop := 0 < RetryBase cfg < 2 ^ 62 ∧ 0 < RetryMax cfg <= 2 ^ 62.

Lemma backoff_loop_spec left : sane_retry → ∀ d, 0 < d < 2 ^ 62 →
  backoff_loop (RetryMax cfg) left d = Z.min (RetryMax cfg) (d * 2 ^ Z.of_nat left).
Proof.
  intros [_ Hmax]. induction left as [|left IH]; intros d Hd; cbn [backoff_loop].
  - change (2 ^ Z.of_nat 0) with 1. destruct (Z.ltb_spec (RetryMax cfg) d); lia.
  - rewrite int64_small by int_lia. rewrite Nat2Z.inj_succ, Z.pow_succ_r by lia.
    pose proof (Z.pow_pos_nonneg 2 (Z.of_nat left) ltac:(lia) ltac:(lia)).
    destruct (Z.leb_spec (RetryMax cfg) (d * 2)); [nia|].
    rewrite IH by lia. f_equal. lia.
Qed.

(** The backoff in closed form. *)
Definition backoff_spec (n : nat) : Z :=
  Z.min (RetryMax cfg) (RetryBase cfg * 2 ^ (Z.of_nat n - 1)).

Lemma backoffFor_closed n : sane_retry → (0 < n)%nat → backoffFor cfg (Z.of_nat n) = backoff_spec n.
Proof.
  intros Hs Hn. unfold backoffFor, backoff_spec. rewrite backoff_loop_spec by (done || apply Hs).
  repeat f_equal. lia.
Qed.
End backoff.

(** ** Logs of scans *)

Section loop.
Context (cfg : Config) (moduleID : string) (canceled : string → bool).

(** A finished scan: its target, the time its outcome was booked, and its error. *)
Abbreviation scan := (Target * Z * option string)%type.

Definition of_target (c : string) (s : scan) : Prop := t_Canonical s.1.1 = c.

#[global] Instance of_target_dec c s : Decision (of_target c s).
Proof. unfold of_target. apply _. Defined.

Definition fails (s : scan) : Prop :=
  match s.2 with Some e => canceled e = false | None => False end.

Definition loop_run (log : list scan) (st : loopState) : loopState :=
  foldl (λ st s, (after_scan cfg moduleID canceled s.1.2 s.1.1 s.2 st).1) st log.

(** The entry of one target in the tables. *)
Definition entry (c : string) (st : loopState) : Z * Z :=
  (map_get 0 (lp_failures st) c, map_get 0 (lp_nextOK st) c).

Lemma after_scan_other c s st : ¬ of_target c s →
  entry c (after_scan cfg moduleID canceled s.1.2 s.1.1 s.2 st).1 = entry c st.
Proof.
  unfold of_target, after_scan, entry. intros Hc.
  repeat case_match; cbn; by rewrite !map_get_insert_ne.
Qed.

Lemma after_scan_own c s st : of_target c s →
  (fails s ∧ entry c (after_scan cfg moduleID canceled s.1.2 s.1.1 s.2 st).1 =
     ((entry c st).1 + 1, s.1.2 + backoffFor cfg ((entry c st).1 + 1))) ∨
  (¬ fails s ∧ entry c (after_scan cfg moduleID canceled s.1.2 s.1.1 s.2 st).1 = (0, 0)).
Proof.
  unfold of_target, after_scan, entry, fails. intros <-.
  destruct (s.2) as [e|]; [destruct (canceled e) eqn:He|]; cbn; rewrite !map_get_insert_eq.
  - right. by split.
  - left. by split.
  - right. split; [tauto|done].
Qed.

(** Other targets' scans do not matter. *)
Lemma loop_run_own c log st :
  entry c (loop_run log st) = entry c (loop_run (filter (of_target c) log) st).
Proof.
  induction log as [|s log IH] using rev_ind; [done|].
  rewrite filter_app. unfold loop_run in *. rewrite !foldl_app. cbn [foldl].
  rewrite filter_cons. case_decide as Hc.
  - cbn [filter list_filter foldl]. pose proof (λ st, after_scan_own c s st Hc) as Ho.
    destruct (Ho (foldl (λ st s, (after_scan cfg moduleID canceled s.1.2 s.1.1 s.2 st).1) st log))
      as [[Hf ->]|[Hf ->]];
    destruct (Ho (foldl (λ st s, (after_scan cfg moduleID canceled s.1.2 s.1.1 s.2 st).1) st
      (filter (of_target c) log))) as [[Hf' ->]|[Hf' ->]]; try done.
    by rewrite IH.
  - cbn. by rewrite after_scan_other.
Qed.

(** After a success, or at the start, [fs] failures in a row. *)
Lemma loop_run_failures c fs : ∀ st, entry c st = (0, 0) →
  Forall (λ s, of_target c s ∧ fails s) fs →
  entry c (loop_run fs st) =
    (Z.of_nat (length fs),
     match last fs with
     | None => 0
     | Some s => s.1.2 + backoffFor cfg (Z.of_nat (length fs))
     end).
Proof.
  induction fs as [|s fs IH] using rev_ind; intros st Hst Hfs; [done|].
  apply Forall_app in Hfs as [Hfs Hs]. apply Forall_cons in Hs as [[Hc Hf] _].
  unfold loop_run in *. rewrite foldl_app, last_snoc, length_app. cbn [foldl length].
  specialize (IH st Hst Hfs).
  edestruct (after_scan_own c s) as [[_ ->]|[? _]]; [done| |done]. rewrite IH. cbn [fst].
  by replace (Z.of_nat (length fs) + 1) with (Z.of_nat (length fs + 1)) by lia.
Qed.

Lemma loop_run_reset c pre : Forall (of_target c) pre →
  (∀ s, last pre = Some s → ¬ fails s) → entry c (loop_run pre newLoop) = (0, 0).
Proof.
  destruct pre as [|s pre _] using rev_ind; intros Hpre Hl; [done|].
  apply Forall_app in Hpre as [_ Hs]. apply Forall_cons in Hs as [Hs _].
  specialize (Hl s (last_snoc _ _)). unfold loop_run. rewrite foldl_app. cbn [foldl].
  edestruct (after_scan_own c s) as [[? _]|[_ ->]]; done.
Qed.

Lemma loop_run_gate c log pre fs : sane_retry cfg →
  filter (of_target c) log = pre ++ fs →
  (∀ s, last pre = Some s → ¬ fails s) → Forall fails fs →
  map_get 0 (lp_nextOK (loop_run log newLoop)) c =
    match last fs with None => 0 | Some s => s.1.2 + backoff_spec cfg (length fs) end.
Proof.
  intros Hs Hf Hpre Hfs. change (map_get 0 (lp_nextOK (loop_run log newLoop)) c)
    with (entry c (loop_run log newLoop)).2.
  rewrite loop_run_own, Hf.
  assert (Forall (of_target c) (pre ++ fs)) as Hall.
  { rewrite <- Hf. apply Forall_forall. by intros s [? _]%list_elem_of_filter. }
  apply Forall_app in Hall as [Hp Hc].
  replace (loop_run (pre ++ fs) newLoop) with (loop_run fs (loop_run pre newLoop))
    by (unfold loop_run; by rewrite foldl_app).
  rewrite (loop_run_failures c fs); [|by apply loop_run_reset|].
  - cbn [snd]. destruct fs as [|s fs _] using rev_ind; [done|].
    rewrite last_snoc, backoffFor_closed; [done|done|]. rewrite length_app. simpl. lia.
  - apply Forall_and. by split.
Qed.
End loop.

(** ** The loop goes on *)

Section alive.
Context `{MapRange} (cfg : Config) (info : ModuleInfo) (moduleID : string) (canceled : string → bool).

Abbreviation lstep := (loop_step cfg info moduleID canceled).

Lemma backoff_loop_max max left : ∀ d, backoff_loop max left d <= max.
Proof.
  induction left as [|left IH]; intros d; cbn [backoff_loop].
  - destruct (Z.ltb_spec max d); lia.
  - destruct (Z.leb_spec max (int64 (d * 2))); [lia|apply IH].
Qed.

(** No target is put off beyond [RetryMax] after the last scan that ended. *)
Definition gates (T : Z) (st : loopState) : Prop := ∀ c, map_get 0 (lp_nextOK st) c <= Z.max 0 (T + RetryMax cfg).

Lemma after_scan_gates T now t err st : now <= T → gates T st →
  gates T (after_scan cfg moduleID canceled now t err st).1.
Proof.
  intros Hn Hg c. specialize (Hg c). unfold after_scan.
  pose proof (backoff_loop_max (RetryMax cfg)
    (Z.to_nat (map_get 0 (lp_failures st) (t_Canonical t) + 1 - 1)) (RetryBase cfg)) as Hb.
  repeat case_match; cbn; destruct (decide (c = t_Canonical t)) as [->|Hne];
    rewrite ?map_get_insert_eq, ?map_get_insert_ne by done; unfold time_Add, backoffFor in *; lia.
Qed.

Definition booked_by (T : Z) (i : loop_input) : Prop := match i with Booked now _ _ => now <= T | _ => True end.

Lemma loop_gates T ins : Forall (booked_by T) ins → ∀ l, gates T (ml_tables l) →
  gates T (ml_tables (foldl (λ l i, (lstep l i).1) l ins)).
Proof.
  induction 1 as [|i ins Hi _ IH]; intros l Hl; cbn [foldl]; [done|]. apply IH.
  destruct i as [now r reg|now t err|]; cbn [loop_step]; [by case_match| |done].
  by apply after_scan_gates.
Qed.

(** A source is never given up: whatever its scans have come to, and whatever the
    order of the inputs, the first time the timer fires [RetryMax] or more after
    the last outcome every target that is registered then is scanned. *)
Lemma sweep_reaches_all T ins now0 r0 reg0 now r reg :
  let l := foldl (λ l i, (lstep l i).1) (loop_start cfg info now0 r0 reg0).1 ins in
  Forall (booked_by T) ins → CtxDone ∉ ins → 0 <= now → T + RetryMax cfg <= now → ml_wake l <= now →
  (lstep l (Woke now r reg)).2 = snapshotTargets reg.
Proof.
  intros l Hb Hc H0 Hnow Hw.
  assert (gates T (ml_tables l)) as Hg.
  { apply loop_gates; [done|]. intros c. cbn. unfold map_get. rewrite lookup_empty. cbn. lia. }
  assert (ml_done l = false) as Hd.
  { subst l. clear -Hc. assert (ml_done (loop_start cfg info now0 r0 reg0).1 = false) as H0 by done. revert Hc H0.
    generalize (loop_start cfg info now0 r0 reg0).1.
    induction ins as [|i ins IH]; intros l Hc H0; [done|]. apply not_elem_of_cons in Hc as [Hi Hc].
    cbn [foldl]. apply IH; [done|]. destruct i; cbn [loop_step]; [by case_match|done|done]. }
  cbn [loop_step]. rewrite Hd. unfold time_Before. rewrite (proj2 (Z.ltb_ge _ _)) by done. cbn [orb snd swept].
  unfold sweep. apply filter_true, Forall_true. intros t. unfold time_Before. apply Z.ltb_ge. specialize (Hg (t_Canonical t)). lia.
Qed.
End alive.

(** ** Registration *)

Lemma ListTargets_set `{MapRange} id ts s reg : sd_modules s !! id = Some reg →
  ListTargets id (set_targets id ts s) = snd <$> range_map ts.
Proof.
  intros Hr. unfold ListTargets, set_targets, set_modules. cbn.
  by rewrite lookup_alter_eq, Hr.
Qed.

Lemma elem_of_targets `{MapRange} (ts : gmap string Target) t :
  t ∈ snd <$> range_map ts ↔ ∃ c, ts !! c = Some t.
Proof.
  rewrite list_elem_of_fmap. split.
  - intros ([k t'] & -> & Hin). exists k. by apply elem_of_range_map.
  - intros [k Hk]. exists (k, t). by rewrite elem_of_range_map.
Qed.

(** * Properties *)

(** C23: A dead host slows only itself. Take any log of finished scans of a module,
    and split the scans of one target at its last success (or cancelled scan):
    the target is left out of a sweep exactly until its last failure plus
    [min(RetryMax, RetryBase * 2^(k-1))], where [k] is the number of failures in
    a row since, and is in every sweep when there are none. Scans of other
    targets do not matter, and the doubling never overflows. *)
Theorem retry_backoff_isolated `{MapRange} cfg moduleID canceled log c pre fs reg t now :
  sane_retry cfg →
  filter (of_target c) log = pre ++ fs →
  (∀ s, last pre = Some s → ¬ fails canceled s) → Forall (fails canceled) fs →
  t ∈ snapshotTargets reg → t_Canonical t = c →
  t ∈ sweep now reg (loop_run cfg moduleID canceled log newLoop) ↔
    match last fs with None => 0 | Some s => s.1.2 + backoff_spec cfg (length fs) end <= now.
Proof.
  intros Hs Hf Hpre Hfs Ht Hc. unfold sweep. rewrite list_elem_of_filter, Hc.
  rewrite (loop_run_gate cfg moduleID canceled c log pre fs) by done.
  unfold time_Before. rewrite Z.ltb_ge. tauto.
Qed.

Definition exTarget (c : string) : Target := mkTarget c c None.
Definition exReg : registration :=
  mkReg (mkCollector (mkModuleInfo "m" "M" "1" "k" Minute 1) (λ r, Ok (exTarget r)))
    (mkModuleInfo "m" "M" "1" "k" Minute 1) {["a" := exTarget "a"]}.
Definition exCfg : Config := withDefaults (mkConfig 0 0 f_zero 0 0 0).

Lemma retry_backoff_isolated_witness :
  exTarget "a" ∈ @sweep canonical_range (200 * Second) exReg
    (loop_run exCfg "m" (λ _, false)
      [(exTarget "a", 10, None); (exTarget "a", 20 * Second, Some "down");
       (exTarget "b", 30, None); (exTarget "a", 90 * Second, Some "down")] newLoop) ↔
    90 * Second + backoff_spec exCfg 2 <= 200 * Second.
Proof.
  apply (@retry_backoff_isolated canonical_range exCfg "m" (λ _, false) _ "a"
    [(exTarget "a", 10, None)]
    [(exTarget "a", 20 * Second, Some "down"); (exTarget "a", 90 * Second, Some "down")]
    exReg (exTarget "a") (200 * Second)).
  - vm_compute. split; split; reflexivity || discriminate.
  - reflexivity.
  - intros s [= <-] Hf. exact Hf.
  - repeat constructor.
  - apply elem_of_targets. exists "a". reflexivity.
  - reflexivity.
Defined.
