(* ===== verification/Stores.v ===== *)
(** The production store against the in-memory one, and what a failing database
    does to a scan: theorems over [Reconcile.v], [Sqlite.v] and the scheduler. *)
From S2P Require Import Prelude Text Float Core Table Store Reconcile Ingest Loglight Sqlite.
From S2P Require Sched.
Local Open Scope Z_scope.

(** * Two stores under the same scans *)

(** What the user sees of a record: everything but the identifier and the
    evidence, which a store may re-encode. *)
Definition visible (r : Record) : Record :=
  let f := r_Finding r in
  mkRecord
    (mkFinding (f_Fingerprint f) (f_Target f) (f_Check f) (f_Title f) (f_Severity f)
       (f_Remediation f) None "" (f_Module f) (f_Status f) (f_GroupID f) (f_FirstSeen f)
       (f_LastSeen f) (f_ResolvedAt f))
    (r_AbsentStreak r).

Lemma visible_fields r r' : visible r = visible r' →
  r_Fingerprint r = r_Fingerprint r' ∧ r_Target r = r_Target r' ∧ r_Status r = r_Status r' ∧
  r_AbsentStreak r = r_AbsentStreak r'.
Proof. destruct r as [[] ?], r' as [[] ?]. by intros [= -> -> -> -> -> -> -> -> -> -> -> -> ->]. Qed.

Lemma visible_stored W `{StoreSpec W} r : visible (stored W r) = visible r.
Proof. by destruct r as [[] ?]. Qed.

Lemma visible_refresh f now r r' :
  visible r = visible r' → visible (refreshRecord r f now) = visible (refreshRecord r' f now).
Proof.
  destruct r as [[] ?], r' as [[] ?]. intros [= -> -> -> -> -> -> -> -> -> -> -> -> ->].
  unfold visible, refreshRecord. cbn. by case_ifs.
Qed.

Lemma visible_age mo now r r' :
  visible r = visible r' → visible (ageRecord mo now r) = visible (ageRecord mo now r').
Proof.
  destruct r as [[] ?], r' as [[] ?]. intros [= -> -> -> -> -> -> -> -> -> -> -> -> ->].
  unfold ageRecord, settled, r_Status. cbn. repeat case_match; done.
Qed.

Section agree.
Context `{JSONEncoder}.
Context {W1 W2 : Type} `{StoreSpec W1} `{!StoreJSON W1} `{StoreSpec W2} `{!StoreJSON W2}.

(** The two stores hold the same findings of a module. *)
Definition agree (m : string) (w1 : W1) (w2 : W2) : Prop :=
  ∀ fp, visible <$> lookup_rec w1 m fp = visible <$> lookup_rec w2 m fp.

(** Two results announce, resolve and reject the same. *)
Definition same_result (r1 r2 : ReconcileResult) : Prop :=
  map f_Fingerprint (NewlyOpen r1) = map f_Fingerprint (NewlyOpen r2) ∧
  map fst (Rejected r1) = map fst (Rejected r2) ∧
  ∀ fp, fp ∈ map f_Fingerprint (Resolved r1) ↔ fp ∈ map f_Fingerprint (Resolved r2).

Lemma agree_lookup m w1 w2 fp r1 : agree m w1 w2 → lookup_rec w1 m fp = Some r1 →
  ∃ r2, lookup_rec w2 m fp = Some r2 ∧ visible r1 = visible r2.
Proof.
  intros Ha Hr. specialize (Ha fp). rewrite Hr in Ha. cbn in Ha.
  destruct (lookup_rec w2 m fp) as [r2|]; [|done]. exists r2. split; [done|]. by apply (inj Some) in Ha.
Qed.

Lemma agree_announced m w1 w2 fp : agree m w1 w2 →
  announced (lookup_rec w1 m fp) = announced (lookup_rec w2 m fp).
Proof.
  intros Ha. specialize (Ha fp).
  destruct (lookup_rec w1 m fp) as [r1|], (lookup_rec w2 m fp) as [r2|]; try done.
  apply (inj Some) in Ha as Hv. destruct (visible_fields _ _ Hv) as (_ & _ & Hs & _). cbn. unfold reopened. by rewrite Hs.
Qed.

(** One scan takes agreeing stores to agreeing stores. *)
Lemma scan_agree now mo target fresh w1 w2 w1' w2' r1 r2 :
  agree (m_ID mo) w1 w2 →
  scan_spec now mo target fresh w1 w1' r1 → scan_spec now mo target fresh w2 w2' r2 →
  agree (m_ID mo) w1' w2' ∧ same_result r1 r2.
Proof.
  intros Ha [_ Hrep1 Habs1 _ Hop1 Hrej1 Hres1] [_ Hrep2 Habs2 _ Hop2 Hrej2 Hres2].
  split; [intros fp|split_and!].
  - destruct (reported fresh fp) as [f|] eqn:Hf.
    + specialize (Hrep1 fp f Hf). specialize (Hrep2 fp f Hf). pose proof (Ha fp) as Hv.
      destruct (lookup_rec w1 (m_ID mo) fp) as [o1|], (lookup_rec w2 (m_ID mo) fp) as [o2|]; try done;
        cbn in Hrep1, Hrep2.
      * rewrite Hrep1, Hrep2. cbn [fmap option_fmap option_map]. f_equal. rewrite !visible_stored.
        apply visible_refresh. by apply (inj Some) in Hv.
      * destruct Hrep1 as [id1 ->], Hrep2 as [id2 ->]. cbn [fmap option_fmap option_map].
        by rewrite !visible_stored.
    + rewrite (Habs1 fp Hf), (Habs2 fp Hf). pose proof (Ha fp) as Hv.
      destruct (lookup_rec w1 (m_ID mo) fp) as [o1|], (lookup_rec w2 (m_ID mo) fp) as [o2|]; try done.
      apply (inj Some) in Hv. cbn [fmap option_fmap option_map]. f_equal.
      destruct (visible_fields _ _ Hv) as (_ & Ht & _ & _). rewrite Ht.
      case_decide; [by apply visible_age|done].
  - rewrite Hop1, Hop2. apply filter_ext_in. intros fp _. by rewrite (agree_announced _ _ _ fp Ha).
  - by rewrite Hrej1, Hrej2.
  - intros fp. rewrite Hres1, Hres2. split; intros [Hn (r & Hr & Ht & He)]; (split; [done|]).
    + destruct (agree_lookup _ _ _ _ _ Ha Hr) as (r' & Hr' & Hv). exists r'.
      destruct (visible_fields _ _ Hv) as (_ & Ht' & Hs' & Ha').
      split_and!; [done|congruence|]. unfold expires, settled in *. by rewrite <-Hs', <-Ha'.
    + pose proof (Ha fp) as Hv. rewrite Hr in Hv. cbn in Hv.
      destruct (lookup_rec w1 (m_ID mo) fp) as [r'|]; [|done]. apply (inj Some) in Hv. exists r'.
      destruct (visible_fields _ _ Hv) as (_ & Ht' & Hs' & Ha').
      split_and!; [done|congruence|]. unfold expires, settled in *. by rewrite Hs', Ha'.
Qed.

(** Scans of one target that report its findings, each once. *)
Definition clean_scans (target : string) (scans : list (Z * list Finding)) : Prop :=
  Forall (λ s, NoDup (valid_fps (snd s)) ∧ Forall (λ f, f_Target f = target) (snd s)) scans.

Lemma own_agree mo target scans w1 w2 :
  agree (m_ID mo) w1 w2 → own_fingerprints mo target scans w1 → own_fingerprints mo target scans w2.
Proof.
  intros Ha Hown s fp r2 Hs Hfp Hr. pose proof (Ha fp) as Hv. rewrite Hr in Hv.
  destruct (lookup_rec w1 (m_ID mo) fp) as [r1|] eqn:Hr1; [|done]. apply (inj Some) in Hv.
  destruct (visible_fields _ _ Hv) as (_ & <- & _). by eapply Hown.
Qed.

Lemma own_scan now mo target fresh scans (w w' : W1) res :
  scan_spec now mo target fresh w w' res → Forall (λ f, f_Target f = target) fresh →
  own_fingerprints mo target ((now, fresh) :: scans) w → own_fingerprints mo target scans w'.
Proof.
  intros Hs Htgt Hown s fp r Hin Hfp Hr.
  assert (∀ s' o, s' ∈ (now, fresh) :: scans → fp ∈ valid_fps (snd s') →
    lookup_rec w (m_ID mo) fp = Some o → r_Target o = target) as Ho by (intros; by eapply Hown).
  destruct (reported fresh fp) as [f|] eqn:Hf.
  - pose proof (scan_reported _ _ _ _ _ _ _ Hs fp f Hf) as Hrep.
    eapply (afterReport_Target (W := W1)); [exact Hrep|exact Hr|..].
    + apply reported_Some in Hf as (Hin' & _). rewrite Forall_forall in Htgt. auto.
    + intros o Hl. eapply (Ho s); [by right|done|done].
  - rewrite (scan_absent _ _ _ _ _ _ _ Hs fp Hf) in Hr. apply fmap_Some in Hr as (o & Hl & ->).
    case_decide; rewrite ?ageRecord_Target; [done|]. eapply (Ho s); [by right|done|done].
Qed.

Lemma run_agree mo target newID1 newID2 scans : fresh_ids newID1 → fresh_ids newID2 →
  valid_module (m_ID mo) → clean_scans target scans → ∀ (w1 : W1) (w2 : W2),
  store_inv w1 → store_inv w2 → agree (m_ID mo) w1 w2 → own_fingerprints mo target scans w1 →
  ∃ w1' l1 w2' l2,
    run_scans newID1 mo target scans w1 = (w1', Ok l1) ∧
    run_scans newID2 mo target scans w2 = (w2', Ok l2) ∧
    Forall2 same_result l1 l2 ∧ agree (m_ID mo) w1' w2'.
Proof.
  intros Hid1 Hid2 Hm. induction 1 as [|[now fresh] scans [Hnd Htgt] _ IH]; intros w1 w2 Hw1 Hw2 Ha Hown.
  { exists w1, [], w2, []. by repeat constructor. }
  cbn [fst snd] in *. pose proof (own_agree _ _ _ _ _ Ha Hown) as Hown2.
  destruct (Reconcile_ok now newID1 Hid1 mo target fresh w1 Hw1 Hm) as (w1' & r1 & Hr1 & Hs1).
  { split; [done|]. intros fp r Hin. eapply (Hown (now, fresh)); [by left|done]. }
  destruct (Reconcile_ok now newID2 Hid2 mo target fresh w2 Hw2 Hm) as (w2' & r2 & Hr2 & Hs2).
  { split; [done|]. intros fp r Hin. eapply (Hown2 (now, fresh)); [by left|done]. }
  destruct (scan_agree _ _ _ _ _ _ _ _ _ _ Ha Hs1 Hs2) as [Ha' Hsame].
  destruct (IH w1' w2') as (v1 & l1 & v2 & l2 & Hl1 & Hl2 & Hall & Ha2);
    [apply Hs1|apply Hs2|done|by eapply own_scan|].
  exists v1, (r1 :: l1), v2, (r2 :: l2). cbn [run_scans]. unfold mbind, M_mbind.
  rewrite Hr1, Hr2, Hl1, Hl2. split_and!; [done|done|by constructor|done].
Qed.
End agree.

(** * A database that fails during a scan *)

Lemma exec_None {D A} (stmt : D → result string (D * A)) d fs :
  exec stmt (mkConn d (None :: fs)) =
    (mkConn (cn_data (exec stmt (mkConn d [])).1) fs, (exec stmt (mkConn d [])).2).
Proof. unfold exec. cbn. by destruct (stmt d) as [[d' a]|e]. Qed.

Section interrupted.
Context `{JSONEncoder} `{JSONDecoder} `{!JSONRoundtrip} `{RowOrder} `{SortSlice}.
Context (gen : Z → Database → string).
Hypothesis gen_fresh : ∀ t d r, r ∈ db_findings d → fr_id r ≠ gen t d.

(** A generator of identifiers that does not touch the connection. *)
Definition genID (t : Z) : M DB string string := λ c, (c, Ok (gen t (cn_data c))).

Lemma genID_fresh : fresh_ids genID.
Proof.
  intros t c Hc. eexists _, _. split_and!; [done..|].
  intros m fp o (r & Hr & ->)%fmap_Some. apply row_at_Some in Hr as [Hin _]. cbn. by apply gen_fresh.
Qed.

Definition good (d : Database) : Prop := findings_inv (mkConn d []).
Definition finding_in (d : Database) : string → string → option Record := finding_at (mkConn d []).

Lemma Upsert_None r d fs : storable DB (r_Evidence r) →
  SQLite_Upsert r (mkConn d (None :: fs)) =
    (mkConn (cn_data (SQLite_Upsert r (mkConn d [])).1) fs, (SQLite_Upsert r (mkConn d [])).2).
Proof.
  intros Hs. unfold SQLite_Upsert, mbind, M_mbind, mlift. cbn in Hs. unfold r_Evidence in Hs.
  destruct (marshalEvidence _) as [col|e]; [|done]. apply exec_None.
Qed.

Lemma Upsert_Some r d e fs : storable DB (r_Evidence r) →
  SQLite_Upsert r (mkConn d (Some e :: fs)) = (mkConn d fs, Err e).
Proof.
  intros Hs. unfold SQLite_Upsert, mbind, M_mbind, mlift. cbn in Hs. unfold r_Evidence in Hs.
  by destruct (marshalEvidence _) as [col|e'].
Qed.

(** The record of a new finding of [l]. *)
Definition fresh_record (l : list Finding) (mo : ModuleInfo) (now : Z) (r : option Record) : Prop :=
  ∃ f id, f ∈ l ∧ r = Some (stored DB (newRecord (m_ID mo) (capEvidence f) id now)).

(** The first loop up to the upsert that fails. *)
Lemma fresh_interrupted now mo byFP e f0 post pre : valid_module (m_ID mo) →
  ValidateForIngest f0 = None → byFP !! f_Fingerprint f0 = None →
  Forall (λ f, ValidateForIngest f = None ∧ byFP !! f_Fingerprint f = None) pre →
  ∀ seen res d, good d → NoDup (map f_Fingerprint pre) →
  Forall (λ f, finding_in d (m_ID mo) (f_Fingerprint f) = None) pre →
  ∃ d' res',
    Reconcile_fresh now genID mo byFP (pre ++ f0 :: post) seen res
        (mkConn d (map (λ _, None) pre ++ [Some e])) = (mkConn d' [], Err (res', e)) ∧
    good d' ∧
    (∀ fp, fp ∈ map f_Fingerprint pre → fresh_record pre mo now (finding_in d' (m_ID mo) fp)) ∧
    ∀ m fp, m ≠ m_ID mo ∨ fp ∉ map f_Fingerprint pre → finding_in d' m fp = finding_in d m fp.
Proof.
  intros Hm Hv0 Hb0. induction 1 as [|f pre [Hv Hb] _ IH]; intros seen res d Hd Hnd Hnew.
  - exists d, res. split; [|split_and!; [done|by intros ? ?%not_elem_of_nil|done]].
    cbn [app map Reconcile_fresh]. rewrite Hv0, capEvidence_Fingerprint, Hb0.
    unfold mbind, M_mbind, orReturn. cbn [genID]. cbn [Upsert SQLite_ops].
    rewrite Upsert_Some; [done|]. apply capEvidence_storable; exact _.
  - cbn [map] in Hnd. apply NoDup_cons in Hnd as [Hni Hnd]. apply Forall_cons in Hnew as [Hn Hnew].
    set (r := newRecord (m_ID mo) (capEvidence f) (gen now d) now).
    assert (storable DB (r_Evidence r)) as Hst by (apply capEvidence_storable; exact _).
    assert (r_Fingerprint r = f_Fingerprint f) as Hfp by exact (capEvidence_Fingerprint f).
    destruct (Upsert_ok (mkConn d []) r Hd Hst) as ([d1 fs1] & Hu & Hd1 & Hl).
    { intros _ m fp o (x & Hx & ->)%fmap_Some. apply row_at_Some in Hx as [Hx _]. by apply gen_fresh. }
    assert (fs1 = []) as -> by exact (fi_healthy _ Hd1).
    assert (∀ m fp, finding_in d1 m fp = if decide (m = m_ID mo ∧ fp = f_Fingerprint f)
      then Some (stored DB r) else finding_in d m fp) as Hl1.
    { intros m fp. unfold finding_in. rewrite Hl, Hfp. change (r_Module r) with (m_ID mo).
      destruct (decide _) as [[-> ->]|]; [|done]. unfold finding_in in Hn. by rewrite Hn. }
    destruct (IH ({[f_Fingerprint f]} ∪ seen) (addNewlyOpen (r_Finding r) res) d1 Hd1 Hnd)
      as (d' & res' & Hrun & Hd' & Hpre & Hframe).
    { eapply Forall_impl; [apply Forall_and; split; [exact Hnew|apply Forall_forall; intros x Hx; exact Hx]|].
      intros x [Hx Hin]. cbn in Hx |- *. rewrite Hl1, decide_False; [exact Hx|].
      intros [_ He]. apply Hni. rewrite <-He. by apply list_elem_of_fmap_2. }
    exists d', res'. split_and!; [|done|..].
    + cbn [app map Reconcile_fresh]. rewrite Hv, capEvidence_Fingerprint, Hb.
      unfold mbind, M_mbind, orReturn. cbn [genID cn_data]. fold r. cbn [Upsert SQLite_ops].
      rewrite Upsert_None by done. rewrite Hu. cbn [fst snd cn_data]. exact Hrun.
    + intros fp Hin. destruct (decide (fp ∈ map f_Fingerprint pre)) as [Hp|Hp].
      { destruct (Hpre fp Hp) as (g & id & Hg & Heq). exists g, id. split; [by right|done]. }
      cbn [map] in Hin. apply elem_of_cons in Hin as [->|?]; [|done].
      exists f, (gen now d). split; [by left|]. rewrite Hframe by auto. by rewrite Hl1, decide_True.
    + intros m fp Hor. cbn [map] in Hor. rewrite not_elem_of_cons in Hor.
      rewrite Hframe by tauto. rewrite Hl1, decide_False; tauto.
Qed.

(** The query that opens a scan sees what is stored. *)
Lemma ListByTarget_None m t d fs : good d → valid_module m → ∃ l,
  SQLite_ListByTarget m t (mkConn d (None :: fs)) = (mkConn d fs, Ok l) ∧
  NoDup (map r_Fingerprint l) ∧
  ∀ r, r ∈ l ↔ finding_in d m (r_Fingerprint r) = Some r ∧ r_Target r = t.
Proof.
  intros Hd Hm. pose proof (ListByTarget_spec (W := DB) (mkConn d []) m t) as Hlist.
  destruct (Hlist Hd Hm) as (l & Hl & Hnd & Hin). clear Hlist.
  exists l. split; [|done]. cbn [ListByTarget SQLite_ops] in Hl. unfold SQLite_ListByTarget, query in *.
  rewrite exec_None, Hl. done.
Qed.

(** A scan whose upsert of [f0] fails. *)
Lemma Reconcile_interrupted now mo target e f0 post pre d :
  good d → valid_module (m_ID mo) → scan_ok mo target (pre ++ f0 :: post) (mkConn d []) →
  Forall (λ f, ValidateForIngest f = None ∧ finding_in d (m_ID mo) (f_Fingerprint f) = None) (pre ++ [f0]) →
  ∃ d' res',
    Reconcile now genID mo target (pre ++ f0 :: post) (mkConn d (None :: map (λ _, None) pre ++ [Some e]))
      = (mkConn d' [], Err (res', e)) ∧
    good d' ∧
    (∀ fp, fp ∈ map f_Fingerprint pre → fresh_record pre mo now (finding_in d' (m_ID mo) fp)) ∧
    ∀ m fp, m ≠ m_ID mo ∨ fp ∉ map f_Fingerprint pre → finding_in d' m fp = finding_in d m fp.
Proof.
  intros Hd Hm [Hnd _] Hall. apply Forall_app in Hall as [Hpre Hf0]. apply Forall_cons_1 in Hf0 as [Hf0 _].
  destruct (ListByTarget_None (m_ID mo) target d (map (λ _, None) pre ++ [Some e]) Hd Hm)
    as (ex & Hl & Hexnd & Hex).
  assert (∀ fp, finding_in d (m_ID mo) fp = None → byFingerprint ex !! fp = None) as Hby.
  { intros fp Hn. destruct (byFingerprint ex !! fp) as [r|] eqn:Hr; [|done].
    apply (byFingerprint_spec ex Hexnd) in Hr as [[Hr _]%Hex <-]. congruence. }
  destruct (fresh_interrupted now mo (byFingerprint ex) e f0 post pre Hm (proj1 Hf0) (Hby _ (proj2 Hf0)))
    with (seen := (∅ : gset string)) (res := emptyResult) (d := d) as (d' & res' & Hrun & Hrest).
  - eapply Forall_impl; [exact Hpre|]. intros f [Hv Hn]. auto.
  - done.
  - eapply sublist_NoDup; [exact Hnd|]. clear -Hpre. unfold valid_fps.
    apply (fmap_sublist f_Fingerprint). rewrite filter_app. apply sublist_inserts_r.
    induction Hpre as [|f pre [Hv _] _ IH]; [done|]. rewrite filter_cons_True; [by constructor|].
    unfold is_valid. by rewrite Hv.
  - eapply Forall_impl; [exact Hpre|]. by intros f [_ Hn].
  - exists d', res'. split; [|exact Hrest]. unfold Reconcile, mbind, M_mbind.
    unfold orReturn at 1. cbn [ListByTarget SQLite_ops]. rewrite Hl. by rewrite Hrun.
Qed.
End interrupted.

(** * Properties *)

(** C15: The production database and the in-memory store cannot be told apart by
    scans. From any two states that hold the same findings, whatever the encoder
    does to evidence and whatever identifiers are drawn, the same sequence of
    scans of a target announces, resolves and rejects the same findings on both,
    scan by scan, and leaves the same findings, statuses, times and absence
    streaks. *)
Theorem sqlite_agrees_with_memstore `{JSONEncoder} `{JSONDecoder} `{!JSONRoundtrip} `{RowOrder}
    `{SortSlice} `{MapRange} (newID1 : Z → M Store.MemStore string string) (newID2 : Z → M DB string string)
    mo target scans (m : Store.MemStore) (c : DB) :
  fresh_ids newID1 → fresh_ids newID2 → valid_module (m_ID mo) → clean_scans target scans →
  Store.MemStore_inv m → findings_inv c → agree (m_ID mo) m c → own_fingerprints mo target scans m →
  ∃ m' l1 c' l2,
    run_scans newID1 mo target scans m = (m', Ok l1) ∧
    run_scans newID2 mo target scans c = (c', Ok l2) ∧
    Forall2 same_result l1 l2 ∧ agree (m_ID mo) m' c'.
Proof. intros Hi1 Hi2 Hm Hc Hs1 Hs2 Ha Ho. by apply run_agree. Qed.

(** C16: A scan that the database interrupts loses its alerts. When the upsert of
    one new finding fails, the scan ends with the error and no result is
    delivered, but the findings before it are already stored as open. The next
    scan of the same findings, on a database that works again, announces the one
    that failed, and never announces the ones that were stored. *)
Theorem interrupted_scan_loses_alerts `{JSONEncoder} `{JSONDecoder} `{!JSONRoundtrip} `{RowOrder}
    `{SortSlice} {L} (gen : Z → Database → string)
    (gen_fresh : ∀ t d r, r ∈ db_findings d → fr_id r ≠ gen t d)
    (collect : Target → M L string (list Finding)) info t (l : L) e f0 post pre d start now finish :
  collect t l = (l, Ok (pre ++ f0 :: post)) →
  findings_inv (mkConn d []) → valid_module (m_ID info) →
  scan_ok info (t_Canonical t) (pre ++ f0 :: post) (mkConn d []) →
  Forall (λ f, f_Target f = t_Canonical t) (pre ++ f0 :: post) →
  Forall (λ f, ValidateForIngest f = None ∧
               finding_at (mkConn d []) (m_ID info) (f_Fingerprint f) = None) (pre ++ [f0]) →
  ∃ d',
    Sched.scanOne (genID gen) collect None start now finish info t
        (l, mkConn d (None :: map (λ _, None) pre ++ [Some e])) = ((l, mkConn d' []), Err e) ∧
    (∀ fp, fp ∈ map f_Fingerprint pre → ∃ r,
       finding_at (mkConn d' []) (m_ID info) fp = Some r ∧ r_Status r = StatusOpen) ∧
    ∀ start' now' finish', ∃ c2 res,
      Sched.scanOne (genID gen) collect None start' now' finish' info t (l, mkConn d' []) =
        ((l, c2), Ok res) ∧
      f_Fingerprint f0 ∈ map f_Fingerprint (NewlyOpen (Sched.rs_Reconcile res)) ∧
      ∀ fp, fp ∈ map f_Fingerprint pre →
        fp ∉ map f_Fingerprint (NewlyOpen (Sched.rs_Reconcile res)).
Proof.
  intros Hcol Hd Hm Hok Htgt Hnew.
  destruct (Reconcile_interrupted gen gen_fresh now info (t_Canonical t) e f0 post pre d Hd Hm Hok Hnew)
    as (d' & res' & Hrun & Hd' & Hpre & Hframe).
  assert (∀ fp, fp ∈ map f_Fingerprint pre → ∃ r, finding_at (mkConn d' []) (m_ID info) fp = Some r ∧
    r_Status r = StatusOpen ∧ r_Target r = t_Canonical t) as Hopen.
  { intros fp Hfp. destruct (Hpre fp Hfp) as (f & id & Hin & Hr). eexists. split_and!; [exact Hr|done|].
    cbn. assert (f_Target f = t_Canonical t) as Ht.
    { eapply Forall_forall in Htgt; [exact Htgt|]. apply elem_of_app. by left. }
    unfold r_Target. cbn. by destruct (capEvidence_cases f) as [->|[ev ->]]. }
  exists d'. split; [|split].
  - unfold Sched.scanOne. rewrite Hcol. by rewrite Hrun.
  - intros fp Hfp. destruct (Hopen fp Hfp) as (r & Hr & Hs & _). eauto.
  - intros start' now' finish'.
    destruct (Reconcile_ok now' (genID gen) (genID_fresh gen gen_fresh) info (t_Canonical t)
      (pre ++ f0 :: post) (mkConn d' [])) as (c2 & res & Hrun2 & Hspec); [exact Hd'|done| |].
    { destruct Hok as [Hnd Hown]. split; [done|]. intros fp r Hfp Hr.
      destruct (decide (fp ∈ map f_Fingerprint pre)) as [Hin|Hin].
      - destruct (Hopen fp Hin) as (r' & Hr' & _ & Ht). cbn in Hr. congruence.
      - eapply Hown; [exact Hfp|]. pose proof (Hframe (m_ID info) fp (or_intror Hin)) as Hf.
        unfold finding_in in Hf. cbn [lookup_rec SQLite_spec] in Hr |- *. by rewrite <-Hf. }
    exists c2, (Sched.mkResult (m_ID info) t res (time_Sub finish' start')).
    split; [unfold Sched.scanOne; rewrite Hcol; by rewrite Hrun2|]. cbn [Sched.rs_Reconcile].
    rewrite (scan_NewlyOpen _ _ _ _ _ _ _ Hspec). setoid_rewrite list_elem_of_filter. split.
    + apply Forall_app in Hnew as [Hvpre Hf0]. apply Forall_cons_1 in Hf0 as [[Hv Hn] _]. split.
      * cbn [lookup_rec SQLite_spec]. change (finding_at (mkConn d' [])) with (finding_in d').
        rewrite Hframe; [unfold finding_in; by rewrite Hn|]. right. intros Hin.
        destruct Hok as [Hnd _]. unfold valid_fps in Hnd. rewrite filter_app, map_app in Hnd.
        apply NoDup_app in Hnd as (_ & Hdis & _). apply (Hdis (f_Fingerprint f0)).
        -- apply list_elem_of_fmap in Hin as (f & Hf & Hin). rewrite Hf. apply list_elem_of_fmap_2.
           apply list_elem_of_filter. split; [|done].
           eapply Forall_forall in Hvpre as [Hvf _]; [|exact Hin]. unfold is_valid. by rewrite Hvf.
        -- rewrite filter_cons_True by (unfold is_valid; by rewrite Hv). by left.
      * apply list_elem_of_fmap_2. apply list_elem_of_filter.
        split; [unfold is_valid; by rewrite Hv|]. apply elem_of_app. right. by left.
    + intros fp Hfp [Ha _]. destruct (Hopen fp Hfp) as (r & Hr & Hs & _).
      cbn [lookup_rec SQLite_spec] in Ha. rewrite Hr in Ha. cbn in Ha. unfold reopened in Ha.
      by rewrite Hs in Ha.
Qed.

(** ** An example database *)

(** A codec for the examples: evidence is written as one fixed object, parameters
    digit by digit. *)
Fixpoint digits_of (p : positive) : string :=
  match p with
  | xH => "1"
  | xO p => String "0" (digits_of p)
  | xI p => String "2" (digits_of p)
  end.

Fixpoint of_digits (s : string) : option positive :=
  match s with
  | EmptyString => None
  | String c s =>
    if Ascii.eqb c "1" then Some xH
    else if Ascii.eqb c "0" then xO <$> of_digits s
    else xI <$> of_digits s
  end.

Lemma of_digits_of p : of_digits (digits_of p) = Some p.
Proof. induction p as [p IH|p IH|]; cbn; by rewrite ?IH. Qed.

Lemma digits_of_plain p : Forall (λ x, 33 <= x < 128) (bytes_of_string (digits_of p)).
Proof. induction p as [p IH|p IH|]; cbn; repeat constructor; vm_compute; try done; lia. Qed.

Definition exDecoder : JSONDecoder := {|
  json_Unmarshal _ := Some (Some ∅);
  params_Marshal ps := digits_of (encode ps);
  params_Unmarshal s := of_digits s ≫= decode;
  lines_Marshal _ := "[]";
  lines_Unmarshal _ := Some [] |}.

Lemma exRoundtrip : @JSONRoundtrip noMarshal exDecoder.
Proof.
  split.
  - by eexists.
  - by intros ev b [= <-].
  - intros ev b _. by exists ∅, "{}".
  - intros ps _. change (params_Marshal ps) with (digits_of (encode ps)). split.
    + cbn [params_Unmarshal exDecoder]. rewrite of_digits_of. apply decode_encode.
    + rewrite TrimSpace_plain by apply digits_of_plain. by destruct (encode ps).
Qed.

(** Ids longer than those in use. *)
Definition exGen (t : Z) (d : Database) : string := foldr (λ r id, fr_id r +:+ id) "01" (db_findings d).

Lemma exGen_fresh t d r : r ∈ db_findings d → fr_id r ≠ exGen t d.
Proof.
  intros Hr He. assert (String.length (fr_id r) < String.length (exGen t d))%nat; [|rewrite <-He in *; lia].
  unfold exGen. clear He. induction (db_findings d) as [|x l IH]; [by apply not_elem_of_nil in Hr|].
  cbn [foldr]. rewrite str_length_app. apply elem_of_cons in Hr as [->|Hr].
  - assert (0 < String.length (foldr (λ r id, fr_id r +:+ id) "01" l))%nat; [|lia].
    clear. induction l as [|x l IH]; cbn [foldr]; [cbn; lia|]. rewrite str_length_app. lia.
  - specialize (IH Hr). lia.
Qed.

Lemma migrated_inv `{JSONEncoder} : findings_inv (mkConn migrated []).
Proof. split; [done|constructor|constructor]. Qed.

Definition exFinding2 : Finding :=
  collectorFinding "fp2" "auth" "detect.scan" "Second scan" "medium" "Block it" None.

Lemma sqlite_agrees_with_memstore_witness :
  let J := noMarshal in let D := exDecoder in let R := exRoundtrip in let O := rowid_order in
  let S := canonical_sort in let M := canonical_range in
  ∃ m' l1 c' l2,
    run_scans freshID exMod "auth" [(200, [exFinding]); (300, [exFinding2]); (400, [])] Store.NewMemStore
      = (m', Ok l1) ∧
    run_scans (genID exGen) exMod "auth" [(200, [exFinding]); (300, [exFinding2]); (400, [])]
      (mkConn migrated []) = (c', Ok l2) ∧
    Forall2 same_result l1 l2 ∧ agree "loglight" m' c'.
Proof.
  intros J D R O S M.
  apply (sqlite_agrees_with_memstore freshID (genID exGen) exMod "auth"
    [(200, [exFinding]); (300, [exFinding2]); (400, [])] Store.NewMemStore (mkConn migrated [])).
  - apply freshID_fresh.
  - apply genID_fresh. exact exGen_fresh.
  - reflexivity.
  - repeat constructor; try apply not_elem_of_nil.
  - exact Store.MemStore_inv_empty.
  - exact migrated_inv.
  - intros fp. reflexivity.
  - intros s fp r _ _ Hr. discriminate Hr.
Defined.

Definition exCollect (t : Target) : M unit string (list Finding) := λ u, (u, Ok [exFinding; exFinding2]).

Lemma interrupted_scan_loses_alerts_witness :
  let J := noMarshal in let D := exDecoder in let R := exRoundtrip in let O := rowid_order in
  let S := canonical_sort in
  ∃ d',
    Sched.scanOne (genID exGen) exCollect None 200 200 200 exMod (mkTarget "auth" "auth" None)
        (tt, mkConn migrated [None; None; Some "disk I/O error"]) =
      ((tt, mkConn d' []), Err "disk I/O error") ∧
    (∀ fp, fp ∈ ["fp1"] → ∃ r,
       finding_at (mkConn d' []) "loglight" fp = Some r ∧ r_Status r = StatusOpen) ∧
    ∀ start' now' finish', ∃ c2 res,
      Sched.scanOne (genID exGen) exCollect None start' now' finish' exMod
        (mkTarget "auth" "auth" None) (tt, mkConn d' []) = ((tt, c2), Ok res) ∧
      "fp2" ∈ map f_Fingerprint (NewlyOpen (Sched.rs_Reconcile res)) ∧
      ∀ fp, fp ∈ ["fp1"] → fp ∉ map f_Fingerprint (NewlyOpen (Sched.rs_Reconcile res)).
Proof.
  intros J D R O S.
  apply (interrupted_scan_loses_alerts exGen exGen_fresh exCollect exMod (mkTarget "auth" "auth" None) tt
    "disk I/O error" exFinding2 [] [exFinding] migrated 200 200 200).
  - reflexivity.
  - exact migrated_inv.
  - reflexivity.
  - split; [|intros fp r _ Hr; discriminate Hr].
    apply (bool_decide_unpack _). vm_compute. exact I.
  - repeat constructor.
  - repeat constructor.
Defined.
