(* ===== verification/System.v ===== *)
(** The two write paths together: the bridge from scan results to notifications
    ([src/notify/bridge.go]), one poll of the backstop collector through the
    scheduler, and the life of a detection from the event to its resolution. *)
From S2P Require Import Prelude Text Float Core Store Reconcile Ingest.
From S2P Require Import Detect Correlate Notify Sched Loglight Pipeline.
Local Open Scope Z_scope.

(** * The bridge *)

Fixpoint enqueue_all `{MapRange} (now : Z) (kind module : string) (fs : list Finding)
    (d : Dispatcher) : Dispatcher * list Digest :=
  match fs with
  | [] => (d, [])
  | f :: rest =>
    let '(d, ds) := Enqueue now (mkNEvent kind module f) d in
    let '(d, ds') := enqueue_all now kind module rest d in
    (d, ds ++ ds')
  end.

(** The callback that [BindScheduler] installs. *)
Definition BindScheduler `{MapRange} (now : Z) (r : Sched.Result) (d : Dispatcher) :
    Dispatcher * list Digest :=
  let '(d, ds) := enqueue_all now KindOpened (rs_Module r) (NewlyOpen (rs_Reconcile r)) d in
  let '(d, ds') := enqueue_all now KindResolved (rs_Module r) (Resolved (rs_Reconcile r)) d in
  (d, ds ++ ds').

(** * One poll of a source *)

Section System.
Context {L W : Type} `{LogStoreSpec L} `{StoreSpec W} `{TimeFormat} `{JSONEncoder} `{!StoreJSON W}.
Context (newID : Z → M W string string).
Context (parseFor : option (string → float64)).

(** The scheduler scans the source at [now], with a worker and a live context. *)
Definition poll (now : Z) (source : string) : M (L * W) string Sched.Result :=
  scanOne newID (Collect parseFor (λ _, None) now) None now now now Describe
    (mkTarget source source None).

(** What a poll of the source may report. *)
Definition may_report (l : L) (source fp : string) : Prop :=
  (∃ k d, log_det l source k = Some d ∧ fp = f_Fingerprint (detectionFinding d)) ∨
  fp = Fingerprint ModuleID source "ingest.parse_rate" "".

(** The stores agree: fingerprints of the source's findings do not collide, and
    findings stored under them are the source's. *)
Record consistent (source : string) (l : L) (w : W) : Prop := {
  no_collision : ∀ k k' d d', log_det l source k = Some d → log_det l source k' = Some d' →
    f_Fingerprint (detectionFinding d) = f_Fingerprint (detectionFinding d') → k = k';
  no_rate_collision : ∀ k d, log_det l source k = Some d →
    f_Fingerprint (detectionFinding d) ≠ Fingerprint ModuleID source "ingest.parse_rate" "";
  owned : ∀ fp r, may_report l source fp → lookup_rec w ModuleID fp = Some r → r_Target r = source;
}.

(** The findings of a poll. *)
Definition poll_findings (now : Z) (source : string) (sc : SourceConfig)
    (ds : list DetectionRecord) : list Finding :=
  map detectionFinding (filter (λ d, now - ActiveWindow <= dr_LastAt d) ds) ++
  rate_finding parseFor source sc.

Lemma Collect_ok now source sc l :
  log_inv l → valid_source source → source ≠ "" → log_source l source = Some sc →
  ∃ ds, Collect parseFor (λ _, None) now (mkTarget source source None) l =
      (l, Ok (poll_findings now source sc ds)) ∧
    NoDup (map dr_Key ds) ∧ ∀ d, d ∈ ds ↔ log_det l source (dr_Key d) = Some d.
Proof.
  intros Hl Hv Hne Hsc. destruct (ListDetections_spec l source Hl Hv Hne) as (ds & Hds & Hnd & Hin).
  exists ds. split; [|done]. unfold Collect, mbind, M_mbind, mret, M_mret, mlift.
  rewrite GetSource_spec by done. cbn [t_Canonical]. rewrite Hsc, Hds.
  rewrite collect_loop_ok by done. done.
Qed.

Lemma rate_fps source sc f : sc_Name sc = source → f ∈ rate_finding parseFor source sc →
  f_Fingerprint f = Fingerprint ModuleID source "ingest.parse_rate" "".
Proof.
  intros <-. unfold rate_finding. repeat case_match; [|by intros ?%not_elem_of_nil..].
  by intros ->%list_elem_of_singleton.
Qed.

Lemma poll_findings_ok now source sc ds l w :
  consistent source l w → sc_Name sc = source →
  NoDup (map dr_Key ds) → (∀ d, d ∈ ds ↔ log_det l source (dr_Key d) = Some d) →
  scan_ok Describe source (poll_findings now source sc ds) w.
Proof.
  intros [Hc Hrc Ho] Hn Hnd Hin. set (act := filter (λ d, now - ActiveWindow <= dr_LastAt d) ds).
  assert (∀ d, d ∈ act → log_det l source (dr_Key d) = Some d) as Hact.
  { intros d [_ Hd]%list_elem_of_filter. by apply Hin. }
  assert (NoDup (map f_Fingerprint (poll_findings now source sc ds))) as Hndf.
  { unfold poll_findings. fold act. rewrite map_app. apply NoDup_app. split_and!.
    - assert (NoDup (map dr_Key act)) as Hk.
      { eapply sublist_NoDup; [exact Hnd|]. apply (fmap_sublist dr_Key), sublist_filter. }
      clearbody act. clear Hnd. induction act as [|d act IH]; [constructor|].
      simpl in *. apply NoDup_cons in Hk as [Hni Hk]. apply NoDup_cons. split.
      + intros (f & Hf & (d' & -> & Hd')%list_elem_of_fmap)%list_elem_of_fmap.
        apply Hni. apply list_elem_of_fmap. exists d'. split; [|done].
        eapply Hc; [apply Hact; by left|apply Hact; by right|done].
      + apply IH; [intros; apply Hact; by right|done].
    - intros fp (f & -> & (d & -> & Hd)%list_elem_of_fmap)%list_elem_of_fmap.
      intros (f' & Hf' & Hr)%list_elem_of_fmap. rewrite (rate_fps source sc f') in Hf' by done.
      by eapply Hrc; [apply Hact|].
    - unfold rate_finding. repeat case_match; try constructor; try apply not_elem_of_nil; constructor. }
  split.
  - eapply sublist_NoDup; [exact Hndf|]. apply (fmap_sublist f_Fingerprint), sublist_filter.
  - intros fp r Hfp Hr. eapply Ho; [|exact Hr]. unfold valid_fps in Hfp.
    apply list_elem_of_fmap in Hfp as (f & -> & [_ Hf]%list_elem_of_filter).
    apply elem_of_app in Hf as [(d & -> & Hd)%list_elem_of_fmap|Hf].
    + left. exists (dr_Key d), d. split; [by apply Hact|done].
    + right. by eapply rate_fps.
Qed.
End System.

(** * The life of a detection *)

Section Lifecycle.
Context {L W : Type} `{LogStoreSpec L} `{StoreSpec W} `{TimeFormat} `{JSONEncoder} `{!StoreJSON W} `{MapRange}.
Context (newID : Z → M W string string).
Context (parseFor : option (string → float64)).
Hypothesis newID_ok : fresh_ids newID.

(** The fingerprint under which a detection of a source is stored. *)
Definition det_fp (source : string) (d : Detection) : string :=
  Fingerprint ModuleID source ("detect." +:+ d_Kind d) (d_Key d).

(** A poll reports a detection of the log exactly while it is active. *)
Lemma poll_reports now source sc ds d l w :
  consistent source l w → sc_Name sc = source → source ≠ "" →
  (∀ d, d ∈ ds ↔ log_det l source (dr_Key d) = Some d) →
  d ∈ ds → dr_SourceID d = source → dr_Check d ≠ "" → dr_Title d ≠ "" →
  reported (poll_findings parseFor now source sc ds) (f_Fingerprint (detectionFinding d)) = None ↔
    dr_LastAt d < now - ActiveWindow.
Proof.
  intros [Hc Hrc _] Hn Hne Hin Hd Hs Hch Hti. rewrite reported_None. unfold poll_findings.
  split.
  - intros Hno. destruct (Z.lt_ge_cases (dr_LastAt d) (now - ActiveWindow)) as [|Hge]; [done|].
    destruct Hno. apply list_elem_of_fmap. exists (detectionFinding d). split; [done|].
    apply list_elem_of_filter. split.
    + unfold is_valid. rewrite (proj2 (ValidateForIngest_None _)); [done|].
      apply detectionFinding_ingestible; congruence.
    + apply elem_of_app. left. apply list_elem_of_fmap. exists d. split; [done|].
      by apply list_elem_of_filter.
  - intros Hlt (f & Hfp & [_ Hf]%list_elem_of_filter)%list_elem_of_fmap.
    apply elem_of_app in Hf as [(d' & -> & [Hge Hd']%list_elem_of_filter)%list_elem_of_fmap|Hf].
    + apply Hin in Hd as Hl. apply Hin in Hd' as Hl'.
      assert (dr_Key d = dr_Key d') as Hk by (eapply Hc; eauto).
      rewrite Hk in Hl. simplify_eq. lia.
    + apply (rate_fps parseFor source sc f Hn) in Hf. apply Hin in Hd.
      eapply Hrc; [exact Hd|congruence].
Qed.

(** One poll of a consistent state. *)
Lemma poll_ok now source sc l w :
  log_inv l → store_inv w → valid_source source → source ≠ "" →
  log_source l source = Some sc → sc_Name sc = source → consistent source l w →
  ∃ ds w' res, poll newID parseFor now source (l, w) =
      ((l, w'), Ok (Sched.mkResult ModuleID (mkTarget source source None) res 0)) ∧
    (∀ d, d ∈ ds ↔ log_det l source (dr_Key d) = Some d) ∧
    Reconcile.scan_spec now Describe source (poll_findings parseFor now source sc ds) w w' res.
Proof.
  intros Hl Hw Hv Hne Hsc Hn Hc.
  destruct (Collect_ok parseFor now source sc l Hl Hv Hne Hsc) as (ds & Hcol & Hnd & Hin).
  destruct (Reconcile_ok now newID newID_ok Describe source (poll_findings parseFor now source sc ds) w Hw)
    as (w' & res & Hrun & Hs); [done|by eapply poll_findings_ok|].
  exists ds, w', res. split; [|done]. unfold poll, scanOne. rewrite Hcol.
  cbn [t_Canonical]. rewrite Hrun. unfold time_Sub. by rewrite Z.sub_diag.
Qed.

(** What the poll makes of one stored detection whose finding is open. *)
Lemma poll_open now source sc d l w r :
  log_inv l → store_inv w → valid_source source → source ≠ "" →
  log_source l source = Some sc → sc_Name sc = source → consistent source l w →
  log_det l source (dr_Key d) = Some d → dr_Check d ≠ "" → dr_Title d ≠ "" →
  let fp := f_Fingerprint (detectionFinding d) in
  lookup_rec w ModuleID fp = Some r → r_Status r = StatusOpen → r_AbsentStreak r = 0 →
  ∃ w' res r', poll newID parseFor now source (l, w) =
      ((l, w'), Ok (Sched.mkResult ModuleID (mkTarget source source None) res 0)) ∧
    lookup_rec w' ModuleID fp = Some r' ∧
    fp ∉ map f_Fingerprint (NewlyOpen res) ∧
    if decide (now - ActiveWindow <= dr_LastAt d)
    then r_Status r' = StatusOpen ∧ fp ∉ map f_Fingerprint (Resolved res)
    else r_Status r' = StatusResolved ∧ fp ∈ map f_Fingerprint (Resolved res).
Proof.
  intros Hl Hw Hv Hne Hsc Hn Hc Hd Hch Hti fp Hr Hst Hstreak.
  destruct (poll_ok now source sc l w) as (ds & w' & res & Hrun & Hin & Hs); [done..|].
  destruct (log_det_key l source _ d Hl Hv Hd) as [Hsrc _].
  apply Hin in Hd as Hdin.
  pose proof (poll_reports now source sc ds d l w Hc Hn Hne Hin Hdin Hsrc Hch Hti) as Hrep.
  assert (reopened r = false) as Hre by (unfold reopened; by rewrite Hst).
  assert (r_Target r = source) as Htg by (eapply (owned _ _ _ Hc); [left; eauto|exact Hr]).
  assert (fp ∉ map f_Fingerprint (NewlyOpen res)) as Hno.
  { rewrite (scan_NewlyOpen _ _ _ _ _ _ _ Hs), list_elem_of_filter. cbn [m_ID Describe].
    fold fp in Hr. rewrite Hr. cbn [announced]. rewrite Hre. by intros [[] _]. }
  fold fp in Hrep. destruct (reported _ fp) as [f|] eqn:Hf.
  - pose proof (scan_reported _ _ _ _ _ _ _ Hs fp f Hf) as Hafter. cbn [m_ID Describe] in Hafter.
    rewrite Hr in Hafter. cbn in Hafter.
    eexists w', res, _. split_and!; [done|exact Hafter|done|].
    rewrite decide_True; [split|].
    + unfold reopened, r_Status in Hre. unfold r_Status in Hst |- *. cbn. by rewrite Hre, Hst.
    + intros [Hn' _]%(scan_Resolved _ _ _ _ _ _ _ Hs). congruence.
    + destruct (Z.lt_ge_cases (dr_LastAt d) (now - ActiveWindow)) as [Hlt|]; [|done].
      apply Hrep in Hlt. done.
  - pose proof (scan_absent _ _ _ _ _ _ _ Hs fp Hf) as Hafter. cbn [m_ID Describe] in Hafter.
    rewrite Hr in Hafter. cbn [fmap option_fmap option_map] in Hafter.
    rewrite decide_True in Hafter by done.
    eexists w', res, _. split_and!; [done|exact Hafter|done|].
    rewrite decide_False by (pose proof (proj1 Hrep eq_refl); lia).
    assert (settled r = false) as Hset by (unfold settled; by rewrite Hst). split.
    + unfold ageRecord. by rewrite Hset, Hstreak.
    + apply (scan_Resolved _ _ _ _ _ _ _ Hs). split; [done|]. exists r.
      split_and!; [done|done|]. unfold expires. by rewrite Hset, Hstreak.
Qed.

(** Path A leaves an open record behind, whatever was stored before. *)
Lemma recordDetection_ok clock source d (p : Pipeline L W) :
  log_inv (pl_Log p) → store_inv (pl_Store p) → valid_source source →
  (∀ o, log_det (pl_Log p) source (d_Key d) = Some o → dr_Check o = "detect." +:+ d_Kind d) →
  ∃ p' ds d' r,
    recordDetection newID true clock source d p = (p', ds) ∧
    log_inv (pl_Log p') ∧ store_inv (pl_Store p') ∧
    (∀ s, log_source (pl_Log p') s = log_source (pl_Log p) s) ∧
    log_det (pl_Log p') source (d_Key d) = Some d' ∧
    dr_Key d' = d_Key d ∧ dr_LastAt d' = d_LastAt d ∧ dr_Title d' = d_Title d ∧
    dr_Check d' = "detect." +:+ d_Kind d ∧
    f_Fingerprint (detectionFinding d') = det_fp source d ∧
    lookup_rec (pl_Store p') ModuleID (det_fp source d) = Some r ∧
    r_Status r = StatusOpen ∧ r_AbsentStreak r = 0 ∧
    (pl_Disp p', ds) =
      (let '(q, ds) := emit clock (detectionFinding (detectionRecord source d)) p in (pl_Disp q, ds)).
Proof.
  intros Hl Hw Hv Hch. unfold recordDetection.
  destruct (persistAndEmit_ok newID newID_ok clock (detectionRecord source d) p Hl Hw Hv)
    as (l' & w' & id & Hrun & Hl' & Hw' & Hsrc & (d' & Hd' & Hrec) & Hr & _).
  destruct (emit_state clock (detectionFinding (detectionRecord source d))
    (mkPipeline (pl_Detect p) (pl_Corr p) l' w' (pl_Disp p))) as [Helog Est].
  rewrite Hrun. destruct (emit clock _ (mkPipeline _ _ _ _ _)) as [p' ds] eqn:He.
  cbn in Helog, Est. subst l' w'.
  assert (dr_Key d' = d_Key d ∧ dr_LastAt d' = d_LastAt d ∧ dr_Title d' = d_Title d ∧
    dr_Check d' = "detect." +:+ d_Kind d) as (Hk & Hla & Hti & Hc).
  { cbn in Hrec. destruct (log_det (pl_Log p) source (d_Key d)) as [o|] eqn:Ho; [|by rewrite Hrec].
    split_and!; [apply Hrec..|]. destruct (rec_Check _ _ _ Hrec) as [->| ->]; [done|]. by rewrite Hch. }
  destruct (log_det_key _ _ _ _ Hl' Hv Hd') as [Hs _].
  eexists p', ds, d', _. split_and!; [done..| |exact Hr| | |].
  - unfold det_fp. cbn. by rewrite Hs, Hk, Hc.
  - destruct (lookup_rec (pl_Store p) ModuleID _); [apply upsert_merge_updates|].
    by rewrite upsert_merge_new.
  - destruct (lookup_rec (pl_Store p) ModuleID _); [apply upsert_merge_updates|].
    by rewrite upsert_merge_new.
  - clear -He. unfold emit in *. cbn in He. destruct (pl_Disp p) as [di|] eqn:Ed.
    + destruct (Enqueue _ _ _). apply (f_equal (λ x, (pl_Disp x.1, x.2))) in He. by cbn in *.
    + apply (f_equal (λ x, (pl_Disp x.1, x.2))) in He. cbn in *. by rewrite Ed.
Qed.
End Lifecycle.

(** * Properties *)


(** ** An example system *)

Definition exFormat : TimeFormat := λ _, "2026-01-02T15:04:05Z".
Definition exSource : SourceConfig := mkSource "edge" "syslog" {["udp" := "0.0.0.0:5514"]} true 5.
Definition exDetection : Detection :=
  mkDetection KindScan "medium" "203.0.113.9" "web" "" "Port scan from 203.0.113.9" "" 20
    (1000 * Second) (1001 * Second) [] "scan|203.0.113.9".
Definition exPipeline : Pipeline Loglight.MemStore Store.MemStore :=
  mkPipeline (Detect.NewEngine zeroConfig) (Correlate.New 0 0)
    (Loglight.mkMemStore {["edge" := exSource]} ∅) Store.NewMemStore
    (Some (NewDispatcher (Notify.mkConfig 0 0 "" 0 0))).

Definition exAfter : Pipeline Loglight.MemStore Store.MemStore :=
  let R := canonical_range in let S := canonical_sort in let F := exFormat in
  (recordDetection freshID true 0 "edge" exDetection exPipeline).1.

Lemma exAfter_store :
  let F := exFormat in
  let rec := detectionRecord "edge" exDetection in
  let r := openRecord (detectionFinding rec) "01" rec in
  pl_Store exAfter = Store.mkMemStore (<[key (r_Module r) (r_Fingerprint r) := r]> ∅) None.
Proof. reflexivity. Qed.

Lemma exAfter_dets :
  let rec := detectionRecord "edge" exDetection in
  lm_dets (pl_Log exAfter) = <[detKey (dr_SourceID rec) (dr_Key rec) := rec]> ∅.
Proof. reflexivity. Qed.

Lemma exAfter_consistent :
  let R := canonical_range in let S := canonical_sort in let F := exFormat in
  consistent "edge" (pl_Log exAfter) (pl_Store exAfter).
Proof.
  intros R S F.
  assert (∀ k d, log_det (pl_Log exAfter) "edge" k = Some d →
    k = "scan|203.0.113.9" ∧ d = detectionRecord "edge" exDetection) as Hdet.
  { intros k d. cbn [log_det MemStore_spec]. rewrite exAfter_dets.
    intros [[Hk Hd]|[_ Hn]]%lookup_insert_Some; [|done].
    by destruct (detKey_inj "edge" "scan|203.0.113.9" "edge" k eq_refl eq_refl Hk). }
  split.
  - intros k k' d d' [-> _]%Hdet [-> _]%Hdet _. done.
  - intros k d [-> ->]%Hdet He.
    assert (str_eqb (f_Fingerprint (detectionFinding (detectionRecord "edge" exDetection)))
      (Fingerprint ModuleID "edge" "ingest.parse_rate" "") = false) as Hno by (vm_compute; reflexivity).
    apply bool_decide_eq_false in Hno. exact (Hno He).
  - intros fp r _. cbn [lookup_rec Store.MemStore_spec]. rewrite exAfter_store. cbn [ms_recs].
    by intros [[_ <-]|[_ Hn]]%lookup_insert_Some.
Qed.


(** C19: Path A does not know the user's triage. When a detection recurs, the
    pipeline upserts its finding as open and enqueues an opened event, also when
    the user has suppressed or acknowledged that finding, although the reconcile
    engine on path B keeps such a finding as it is and stays silent. *)
Theorem recurrence_reopens_triaged {L W} `{LogStoreSpec L} `{StoreSpec W} `{TimeFormat} `{MapRange}
    (newID : Z → M W string string)
    (newID_ok : fresh_ids newID)
    clock source d di old (p : Pipeline L W) :
  log_inv (pl_Log p) → store_inv (pl_Store p) → valid_source source →
  (∀ o, log_det (pl_Log p) source (d_Key d) = Some o → dr_Check o = "detect." +:+ d_Kind d) →
  lookup_rec (pl_Store p) ModuleID (det_fp source d) = Some old →
  r_Status old = StatusSuppressed ∨ r_Status old = StatusAcknowledged →
  pl_Disp p = Some di →
  ∃ p' ds r, recordDetection newID true clock source d p = (p', ds) ∧
    lookup_rec (pl_Store p') ModuleID (det_fp source d) = Some r ∧ r_Status r = StatusOpen ∧
    (pl_Disp p', ds) =
      (let '(di', ds) := Enqueue clock
         (mkNEvent KindOpened ModuleID (detectionFinding (detectionRecord source d))) di in
       (Some di', ds)).
Proof.
  intros Hl Hw Hv Hch _ _ Hdi.
  destruct (recordDetection_ok newID newID_ok clock source d p Hl Hw Hv Hch)
    as (q & ds & d' & r & Hrun & _ & _ & _ & _ & _ & _ & _ & _ & _ & Hr & Hst & _ & Hd).
  exists q, ds, r. split_and!; [done..|]. rewrite Hd. unfold emit. rewrite Hdi.
  by destruct (Enqueue _ _ _).
Qed.

Definition exOld (fp : string) : Record :=
  mkRecord (mkFinding fp "edge" "detect.scan" "Port scan" "medium" "r"
    None "00" ModuleID StatusSuppressed None 1 1 None) 0.

Definition exSuppressed (fp : string) : Pipeline Loglight.MemStore Store.MemStore :=
  mkPipeline (pl_Detect exPipeline) (pl_Corr exPipeline) (pl_Log exPipeline)
    (Store.mkMemStore {[key ModuleID fp := exOld fp]} None) (pl_Disp exPipeline).

Lemma exSuppressed_inv fp : Store.MemStore_inv (pl_Store (exSuppressed fp)).
Proof. apply map_Forall_singleton. done. Qed.

Lemma exSuppressed_lookup `{MapRange} fp :
  lookup_rec (pl_Store (exSuppressed fp)) ModuleID fp = Some (exOld fp).
Proof. apply lookup_singleton_eq. Qed.

Lemma recurrence_reopens_triaged_witness :
  let R := canonical_range in let S := canonical_sort in let F := exFormat in
  ∃ p' ds r, recordDetection freshID true 0 "edge" exDetection
      (exSuppressed (det_fp "edge" exDetection)) = (p', ds) ∧
    lookup_rec (pl_Store p') ModuleID (det_fp "edge" exDetection) = Some r ∧
    r_Status r = StatusOpen ∧
    (pl_Disp p', ds) =
      (let '(di', ds) := Enqueue 0
         (mkNEvent KindOpened ModuleID (detectionFinding (detectionRecord "edge" exDetection)))
         (NewDispatcher (Notify.mkConfig 0 0 "" 0 0)) in
       (Some di', ds)).
Proof.
  intros R S F.
  apply (recurrence_reopens_triaged freshID freshID_fresh 0 "edge" exDetection
    (NewDispatcher (Notify.mkConfig 0 0 "" 0 0)) (exOld (det_fp "edge" exDetection))
    (exSuppressed (det_fp "edge" exDetection))).
  - split; [apply map_Forall_empty|by apply map_Forall_singleton].
  - apply exSuppressed_inv.
  - reflexivity.
  - intros o Ho. discriminate Ho.
  - apply exSuppressed_lookup.
  - left. reflexivity.
  - reflexivity.
Defined.
