(* ===== verification/AiClient.v ===== *)
(** The AI Assist client ([src/internal/aiclient]): what of a finding leaves the
    process ([evidence.go]), the request and its retries ([client.go]), and the
    severity guard over the answer ([guard.go]). *)
From S2P Require Import Prelude Text Core Regexp.
Local Open Scope Z_scope.

(** * Evidence *)

Definition maxEvidenceKeys : nat := 24.
Definition maxEvidenceString : nat := 400.
Definition maxEvidenceList : nat := 12.
Definition maxEvidenceDepth : Z := 3.

Definition secretKeyMarkers : list string :=
  ["password"; "passwd"; "passphrase"; "secret"; "token"; "apikey";
   "api_key"; "api-key"; "private"; "credential"; "cookie"; "session";
   "authorization"; "bearer"; "license_key"; "licence_key"; "signature"].

Definition isSecretKey `{UnicodeTables} (k : string) : bool :=
  existsb (strings_Contains (strings_ToLower k)) secretKeyMarkers.

Definition truncateRunes (s : string) (n : nat) : string :=
  let r := runes s in
  if (length r <=? n)%nat then s else string_of_runes (take n r) +:+ "…".

Section Sanitize.
Context `{UnicodeTables} `{SortSlice}.

(** The entries of a map that are forwarded: those without a secret-like key,
    the first in key order. *)
Definition keep_entries (l : list (string * any)) : list (string * any) :=
  take maxEvidenceKeys
    (sort_slice (λ a b, String.ltb (fst a) (fst b)) (filter (λ e, isSecretKey (fst e) = false) l)).

Fixpoint sanitizeValue (v : any) (depth : Z) : any :=
  match v with
  | ANil | ABool _ | AInt _ | AFloat _ => v
  | AString s => AString (truncateRunes s maxEvidenceString)
  | AMap m =>
    if maxEvidenceDepth <=? depth then AString "[omitted: nested too deep]"
    else AMap (keep_entries (map (λ e, (fst e, sanitizeValue (snd e) (depth + 1))) m))
  | AList l =>
    if maxEvidenceDepth <=? depth then AString "[omitted: nested too deep]"
    else AList (take maxEvidenceList (map (λ x, sanitizeValue x (depth + 1)) l))
  | AStrings l =>
    AList (take maxEvidenceList (map (λ s, AString (truncateRunes s maxEvidenceString)) l))
  | AOther None => AString "[omitted: not serialisable]"
  | AOther (Some g) => sanitizeValue g depth
  end.

Definition sanitizeMap (m : list (string * any)) (depth : Z) : list (string * any) :=
  keep_entries (map (λ e, (fst e, sanitizeValue (snd e) depth)) m).

(** An empty result is the nil map. *)
Definition SanitizeEvidence (ev : evidence) : evidence :=
  match sanitizeMap (map_to_list (default ∅ ev)) 1 with
  | [] => None
  | out => Some (list_to_map out)
  end.
End Sanitize.

(** * Packets *)

Definition CanonicalDisclaimer : string := "AI-generated summary — verify against raw findings".
Definition FeatureRuleHawkExplainFinding : string := "rulehawk.explain_finding".
Definition FeatureAuditLightWhyDisappeared : string := "auditlight.why_disappeared".
Definition FeatureExplainFinding : string := "hexward.explain_finding".

Record CoreFinding := mkCoreFinding {
  cf_Fingerprint : string;
  cf_Module : string;
  cf_Check : string;
  cf_Title : string;
  cf_Target : string;
  cf_Severity : string;
  cf_Status : string;
  cf_Remediation : string;
  cf_Evidence : evidence;
}.

Record EvidencePacket := mkPacket {
  ep_Feature : string;
  ep_Product : string;
  ep_Finding : string;
  ep_Language : string;
}.

(** The payloads of the two other features; this product sends neither. *)
Record RuleHawkFinding := mkRuleHawk {
  rh_ID : string;
  rh_Kind : string;
  rh_RuleIndex : Z;
  rh_RuleText : string;
  rh_ShadowsRuleIndex : Z;
  rh_ShadowedRuleText : string;
}.

Definition CoverageFixed : string := "fixed".
Definition CoverageNoLongerDetected : string := "no_longer_detected".
Definition CoverageCheckFailed : string := "check_failed".
Definition CoverageTargetSkipped : string := "target_skipped".

Record AuditLightDisappearance := mkDisappearance {
  ad_FindingID : string;
  ad_Description : string;
  ad_LastSeenRun : string;
  ad_CurrentRun : string;
  ad_Status : string;
  ad_Detail : string;
}.

Record Explanation := mkExplanation {
  ex_Explanation : string;
  ex_WhatToVerify : list string;
  ex_Disclaimer : string;
}.

Record chatMessage := mkMessage { cm_Role : string; cm_Content : string }.

Record chatCompletionRequest := mkChat {
  cr_Model : string;
  cr_Messages : list chatMessage;
  cr_Grammar : string;
  cr_MaxTokens : Z;
  cr_NoThinking : bool;         (* [chat_template_kwargs: {enable_thinking: false}] *)
}.

(** A parsed completion: the message of its error, if it has one, and the
    contents of its choices. *)
Record chatCompletionResponse := mkChatResponse {
  cc_Error : option string;
  cc_Choices : list string;
}.

(** [encoding/json] on the types above; the decoders answer [None] for text that
    does not parse. *)
Class AiJSON := {
  marshal_finding : CoreFinding → result string string;
  marshal_packet : EvidencePacket → result string string;
  marshal_request : chatCompletionRequest → result string string;
  parse_severity : string → option string;
  parse_completion : string → option chatCompletionResponse;
  parse_explanation : string → option Explanation;
}.

Definition replace_byte (x y : Z) (s : string) : string :=
  string_of_bytes (map (λ b, if b =? x then y else b) (bytes_of_string s)).

Definition NormalizeLanguage `{UnicodeTables} (lang : string) : string :=
  let l := replace_byte 95 45 (strings_ToLower (strings_TrimSpace lang)) in
  if str_eqb l "id" || str_eqb l "in" || str_eqb l "ind" || strings_HasPrefix l "id-"
     || str_eqb l "indonesian" || str_eqb l "bahasa" || str_eqb l "bahasa indonesia"
  then "id" else "en".

Definition NewFindingPacket `{UnicodeTables} `{SortSlice} `{AiJSON}
    (product language : string) (f : CoreFinding) : result string EvidencePacket :=
  if is_empty (strings_TrimSpace product) then Err "aiclient: product is required"
  else if is_empty (strings_TrimSpace (cf_Check f)) || is_empty (strings_TrimSpace (cf_Title f))
       || is_empty (strings_TrimSpace (cf_Severity f))
  then Err "aiclient: finding needs check, title and severity"
  else
    let f := mkCoreFinding (cf_Fingerprint f) (cf_Module f) (cf_Check f)
      (truncateRunes (cf_Title f) maxEvidenceString) (truncateRunes (cf_Target f) maxEvidenceString)
      (cf_Severity f) (cf_Status f) (truncateRunes (cf_Remediation f) (2 * maxEvidenceString))
      (SanitizeEvidence (cf_Evidence f)) in
    match marshal_finding f with
    | Err e => Err ("aiclient: marshal finding: " +:+ e)
    | Ok raw => Ok (mkPacket FeatureExplainFinding product raw (NormalizeLanguage language))
    end.

(** * The severity guard *)

Definition severityWords : list string :=
  ["critical"; "high"; "medium"; "moderate"; "low"; "info"; "informational"].

(** [[^.!?]+[.!?]*\s*] *)
Definition sentenceSplit : regexp :=
  seqs [Plus (Class (λ r, negb (one_of ".!?" r))); Star (Class (one_of ".!?")); Star (Class re_space)].

Definition same_severity (engine w : string) : bool :=
  str_eqb w engine
  || ((str_eqb engine "info" || str_eqb engine "informational")
      && (str_eqb w "info" || str_eqb w "informational"))
  || ((str_eqb engine "medium" || str_eqb engine "moderate")
      && (str_eqb w "medium" || str_eqb w "moderate")).

Definition conflicting (engine : string) : list string :=
  filter (λ w, same_severity engine w = false) severityWords.

(** [(?i)\b(alt)[\s-]+(severity|risk|priority)\b
    |\b(severity|risk|priority)\s+(is|of|level\s+is|rating\s+is)?\s*(alt)\b] *)
Definition conflict_re (engine : string) : regexp :=
  let alt := alts (map lit_i (conflicting engine)) in
  let what := alts [lit_i "severity"; lit_i "risk"; lit_i "priority"] in
  let spaces := Plus (Class re_space) in
  Alt (seqs [WordB; alt; Plus (Class (λ r, re_space r || (r =? 45))); what; WordB])
      (seqs [WordB; what; spaces;
             Opt (alts [lit_i "is"; lit_i "of"; seqs [lit_i "level"; spaces; lit_i "is"];
                        seqs [lit_i "rating"; spaces; lit_i "is"]]);
             Star (Class re_space); alt; WordB]).

Definition dropConflictingSeverity `{UnicodeTables} (text engineSeverity : string) : string :=
  let engine := strings_ToLower (strings_TrimSpace engineSeverity) in
  if is_empty engine || is_empty text then text
  else
    let kept := filter (λ s, MatchString (conflict_re engine) s = false)
                  (FindAllString sentenceSplit text) in
    let out := strings_TrimSpace (sprint kept) in
    if is_empty out then text else out.

(** * The client *)

Record Client := mkClient {
  cl_baseURL : string;
  cl_model : string;
  cl_timeout : Z;
  cl_maxRetries : Z;
  cl_retryBackoff : Z;
  cl_grammar : string;
  cl_maxTokens : Z;
  cl_apiKey : string;
  cl_noThinking : bool;
}.

(** The functional options. *)
Inductive AiOption :=
| WithModel (m : string)
| WithTimeout (d : Z)
| WithMaxRetries (n : Z)
| WithRetryBackoff (d : Z)
| WithGrammar (g : string)
| WithMaxTokens (n : Z)
| WithAPIKey (k : string)
| WithDisableThinking.

Definition apply_option (o : AiOption) (c : Client) : Client :=
  let '(mkClient u m t r b g x k n) := c in
  match o with
  | WithModel v => mkClient u (if is_empty v then m else v) t r b g x k n
  | WithTimeout v => mkClient u m (if 0 <? v then v else t) r b g x k n
  | WithMaxRetries v => mkClient u m t (if 0 <=? v then v else r) b g x k n
  | WithRetryBackoff v => mkClient u m t r (if 0 <? v then v else b) g x k n
  | WithGrammar v => mkClient u m t r b v x k n
  | WithMaxTokens v => mkClient u m t r b g (if 0 <? v then v else x) k n
  | WithAPIKey v => mkClient u m t r b g x (strings_TrimSpace v) n
  | WithDisableThinking => mkClient u m t r b g x k true
  end.

Definition defaultTimeout : Z := 20 * Second.
Definition defaultMaxRetries : Z := 2.
Definition defaultRetryBackoff : Z := 400 * Millisecond.
Definition defaultModel : string := "hexward-ai".
Definition defaultMaxTokens : Z := 512.
Definition DefaultBaseURL : string := "http://127.0.0.1:8435".

Definition New (baseURL : string) (opts : list AiOption) : Client :=
  let u := if is_empty baseURL then DefaultBaseURL else baseURL in
  foldl (λ c o, apply_option o c)
    (mkClient (strings_TrimRight u [47]) defaultModel defaultTimeout defaultMaxRetries defaultRetryBackoff
       "" defaultMaxTokens "" false) opts.

(** The errors of the package. [Retryable] is [retryableError]; [Unavailable]
    wraps [ErrUnavailable] after the attempts are spent. *)
Inductive ai_error :=
| Invalid (msg : string)                  (* a field of the packet is missing, or JSON fails *)
| InvalidRequest (status : Z) (body : string)
| InvalidResponse (msg : string)
| Retryable (msg : string)
| Unavailable (attempts : Z) (last : ai_error)
| Cancelled (msg : string).

Definition isRetryable (e : ai_error) : bool :=
  match e with Retryable _ => true | _ => false end.

Definition truncate (s : string) (n : nat) : string :=
  if (String.length s <=? n)%nat then s else str_take n s +:+ "…".

(** What happens on the wire to the [n]-th attempt: the request cannot be built,
    there is no answer, the body cannot be read, or an answer arrives. *)
Inductive wire :=
| BuildError (e : string)
| NoAnswer (e : string)
| ReadError (e : string)
| Answer (status : Z) (body : string).

(** Text with its double quotes written as back quotes. *)
Definition quoted (s : string) : string := replace_byte 96 34 s.

Definition newline : string := String (ascii_of_byte 10) EmptyString.

Definition systemPrompt : string := quoted (String.concat newline [
  "You are the Hexward AI Assist narrator. You will receive one JSON evidence packet describing a single security finding that a Hexward product's own deterministic engine already produced.";
  "";
  "Rules you must follow exactly:";
  "1. Use ONLY the fields inside the evidence packet. Do not state any fact (an ID, a rule number, an IP address, a hostname, a CVE identifier, a date, or any other specific value) that is not present in the packet. Do not calculate, convert, round or re-express numbers and dates (no `that is about 11 years`); quote them exactly as the packet gives them. If something relevant is not in the packet, say plainly that the evidence does not contain it.";
  "2. You narrate; you do not decide. Never invent a new finding, never change or imply a different severity, never claim something is fixed, safe, or dangerous beyond what the packet already states.";
  "3. If the feature is hexward.explain_finding: explain in plain language what the finding means, using only its check, title, target, severity, status, remediation and evidence fields, and why it matters to the owner of that target. Keep the explanation to at most four sentences. In what_to_verify give two to four concrete checks a person can actually perform before acting (for example: confirm who owns the target, confirm the change window, re-run the check after the fix) — do not simply restate evidence values as list items. You may restate the packet's own remediation text; never invent a different fix, command, or configuration.";
  "4. If the feature is rulehawk.explain_finding: explain in plain language why the rule relationship in the packet matters, and list what a human should verify before touching the rule. Never draft a replacement rule or CLI command.";
  "5. If the feature is auditlight.why_disappeared: explain, using only the packet's `status` field and its plain meaning (fixed / no_longer_detected / check_failed / target_skipped), which of those happened and what that means for how much the report can be trusted. Never claim `fixed` for any other status value.";
  "6. Respond with a single JSON object matching the required schema exactly: {`explanation`: string, `what_to_verify`: [string, ...], `disclaimer`: string}. No prose outside the JSON object."
]).

Definition languageInstruction (lang : string) : string :=
  quoted (if str_eqb lang "id"
  then "Write the `explanation` and every `what_to_verify` item in Bahasa Indonesia. Keep rule text, hostnames, IP addresses, identifiers and other field values exactly as they appear in the packet — do not translate them."
  else "Write the `explanation` and every `what_to_verify` item in English.").

(** The engine's severity of a generic packet; empty for anything else. *)
Definition findingSeverity `{AiJSON} (evidence : EvidencePacket) : string :=
  if str_eqb (ep_Feature evidence) FeatureExplainFinding then
    match parse_severity (ep_Finding evidence) with
    | None => ""
    | Some sev => strings_TrimSpace sev
    end
  else "".

(** [quote] is [strconv.Quote]. *)
Definition severityInstruction `{AiJSON} (quote : string → string) (evidence : EvidencePacket) : string :=
  let sev := findingSeverity evidence in
  if is_empty sev then ""
  else sprint ["The engine rated this finding "; quote sev; ". If you mention severity, use exactly that word; never call it higher or lower. "].

Section Explain.
Context `{UnicodeTables} `{AiJSON}.
Context (quote : string → string).

(** What the wire answers to the request of the [n]-th attempt, and what
    [ctx.Done()] says while the client waits before it. *)
Context (send : Client → string → nat → wire).
Context (ctxErr : nat → option string).

Definition doRequest (c : Client) (rq : chatCompletionRequest) (n : nat) : result ai_error Explanation :=
  match marshal_request rq with
  | Err e => Err (Invalid ("aiclient: marshal request: " +:+ e))
  | Ok body =>
    match send c body n with
    | BuildError e => Err (Invalid ("aiclient: build request: " +:+ e))
    | NoAnswer e => Err (Retryable (sprint ["aiclient: request to "; cl_baseURL c; ": "; e]))
    | ReadError e => Err (Retryable ("aiclient: read response body: " +:+ e))
    | Answer status resp =>
      if 500 <=? status then Err (Retryable (sprint ["HTTP "; dec status; ": "; truncate resp 300]))
      else if 400 <=? status then Err (InvalidRequest status (truncate resp 300))
      else
        match parse_completion resp with
        | None => Err (InvalidResponse ("not valid JSON: " +:+ truncate resp 300))
        | Some parsed =>
          match cc_Error parsed, cc_Choices parsed with
          | Some msg, _ => Err (Retryable ("sidecar reported an error: " +:+ msg))
          | None, [] => Err (InvalidResponse "response had no choices")
          | None, content :: _ =>
            match parse_explanation content with
            | None => Err (InvalidResponse ("model content was not the required JSON schema: " +:+ truncate content 300))
            | Some exp =>
              if is_empty (strings_TrimSpace (ex_Explanation exp))
              then Err (InvalidResponse "empty explanation field") else Ok exp
            end
          end
        end
    end
  end.

(** The explanation as it is handed back. *)
Definition finish (sev : string) (exp : Explanation) : Explanation :=
  mkExplanation
    (if is_empty sev then ex_Explanation exp else dropConflictingSeverity (ex_Explanation exp) sev)
    (ex_WhatToVerify exp) CanonicalDisclaimer.

(** The retry loop from attempt [n], with [left] attempts to go. *)
Fixpoint attempts (c : Client) (rq : chatCompletionRequest) (sev : string)
    (left n : nat) (lastErr : ai_error) : result ai_error Explanation :=
  match left with
  | O => Err (Unavailable (cl_maxRetries c + 1) lastErr)
  | S left' =>
    match (if (0 <? n)%nat then ctxErr n else None) with
    | Some e => Err (Cancelled e)
    | None =>
      match doRequest c rq n with
      | Ok exp => Ok (finish sev exp)
      | Err e => if isRetryable e then attempts c rq sev left' (S n) e else Err e
      end
    end
  end.

Definition request_of (c : Client) (payload lang sevInstr : string) : chatCompletionRequest :=
  mkChat (cl_model c)
    [mkMessage "system" (sprint [systemPrompt; newline; "7. "; languageInstruction lang]);
     mkMessage "user" (sprint [payload; newline; newline; sevInstr; languageInstruction lang])]
    (cl_grammar c) (cl_maxTokens c) (cl_noThinking c).

Definition Explain (c : Client) (evidence : EvidencePacket) : result ai_error Explanation :=
  if is_empty (ep_Feature evidence) then Err (Invalid "aiclient: EvidencePacket.Feature is required")
  else if is_empty (ep_Product evidence) then Err (Invalid "aiclient: EvidencePacket.Product is required")
  else if is_empty (ep_Finding evidence) then Err (Invalid "aiclient: EvidencePacket.Finding is required")
  else
    let evidence := mkPacket (ep_Feature evidence) (ep_Product evidence) (ep_Finding evidence)
                      (NormalizeLanguage (ep_Language evidence)) in
    match marshal_packet evidence with
    | Err e => Err (Invalid ("aiclient: marshal evidence packet: " +:+ e))
    | Ok payload =>
      attempts c (request_of c payload (ep_Language evidence) (severityInstruction quote evidence))
        (findingSeverity evidence) (Z.to_nat (cl_maxRetries c + 1)) 0 (Invalid "")
    end.
End Explain.

Definition IsUnavailable (e : ai_error) : bool :=
  match e with Unavailable _ _ => true | _ => false end.

(** * What leaves the process *)

(** A forwarded value with at most [n] levels of maps and lists below it: no
    secret-like key anywhere, bounded maps, lists and strings. *)
Inductive clean `{UnicodeTables} : nat → any → Prop :=
| clean_nil n : clean n ANil
| clean_bool n b : clean n (ABool b)
| clean_int n z : clean n (AInt z)
| clean_float n f : clean n (AFloat f)
| clean_string n s : str_len s <= 1603 → clean n (AString s)
| clean_strings n l : (length l <= maxEvidenceList)%nat →
    Forall (λ v, ∃ s, v = AString s ∧ str_len s <= 1603) l → clean n (AList l)
| clean_list n l : (length l <= maxEvidenceList)%nat → Forall (clean n) l → clean (S n) (AList l)
| clean_map n m : (length m <= maxEvidenceKeys)%nat →
    Forall (λ e, isSecretKey (fst e) = false ∧ clean n (snd e)) m → clean (S n) (AMap m).

Lemma truncateRunes_len s n : str_len (truncateRunes s n) <= 4 * Z.of_nat n + 3.
Proof.
  unfold truncateRunes. destruct (Nat.leb_spec (length (runes s)) n) as [Hl|Hl].
  - pose proof (str_len_runes s). lia.
  - pose proof (str_len_of_runes (take n (runes s))) as Hr. rewrite length_take in Hr.
    unfold str_len in *. rewrite str_length_app. change (String.length "…") with 3%nat. lia.
Qed.

Section sanitize.
Context `{UnicodeTables} `{SortSlice}.

Lemma Forall_keep (P : string * any → Prop) l :
  Forall P l → Forall (λ e, isSecretKey (fst e) = false ∧ P e) (keep_entries l).
Proof.
  intros Hl. unfold keep_entries. apply Forall_take. rewrite sort_slice_perm.
  apply Forall_forall. intros e [Hk He]%list_elem_of_filter. rewrite Forall_forall in Hl. auto.
Qed.

Lemma length_keep l : (length (keep_entries l) <= maxEvidenceKeys)%nat.
Proof. unfold keep_entries. rewrite length_take. lia. Qed.

Lemma clean_truncated n s : clean n (AString (truncateRunes s maxEvidenceString)).
Proof. constructor. pose proof (truncateRunes_len s maxEvidenceString). unfold maxEvidenceString in *. lia. Qed.

Lemma clean_omitted n : clean n (AString "[omitted: nested too deep]").
Proof. by constructor. Qed.

Lemma sanitizeValue_clean v : ∀ depth,
  clean (Z.to_nat (maxEvidenceDepth - depth)) (sanitizeValue v depth).
Proof.
  induction v as [| | | |s|l|l IH|m IH| |v IH] using any_nested_ind; intros depth;
    cbn [sanitizeValue]; try by constructor.
  - apply clean_truncated.
  - apply clean_strings; [rewrite length_take; lia|]. apply Forall_take, Forall_forall.
    intros x (s & -> & _)%list_elem_of_fmap. eexists. split; [done|].
    pose proof (truncateRunes_len s maxEvidenceString). unfold maxEvidenceString in *. lia.
  - destruct (Z.leb_spec maxEvidenceDepth depth); [apply clean_omitted|].
    replace (Z.to_nat (maxEvidenceDepth - depth)) with (S (Z.to_nat (maxEvidenceDepth - (depth + 1)))) by lia.
    apply clean_list; [rewrite length_take; lia|]. apply Forall_take, Forall_fmap.
    eapply Forall_impl; [exact IH|]. intros x Hx. apply Hx.
  - destruct (Z.leb_spec maxEvidenceDepth depth); [apply clean_omitted|].
    replace (Z.to_nat (maxEvidenceDepth - depth)) with (S (Z.to_nat (maxEvidenceDepth - (depth + 1)))) by lia.
    apply clean_map; [apply length_keep|].
    apply (Forall_keep (λ e, clean (Z.to_nat (maxEvidenceDepth - (depth + 1))) (snd e))), Forall_fmap.
    eapply Forall_impl; [exact IH|]. intros x Hx. apply Hx.
  - apply IH.
Qed.

Lemma elem_of_sanitized ev out : SanitizeEvidence ev = Some out →
  (size out <= maxEvidenceKeys)%nat ∧
  map_Forall (λ k v, isSecretKey k = false ∧ clean 2 v) out.
Proof.
  unfold SanitizeEvidence. set (l := sanitizeMap _ 1).
  assert (Forall (λ e, isSecretKey (fst e) = false ∧ clean 2 (snd e)) l ∧
    (length l <= maxEvidenceKeys)%nat) as [Hl Hlen].
  { split; [|apply length_keep]. apply (Forall_keep (λ e, clean 2 (snd e))), Forall_fmap.
    apply Forall_forall. intros e _. apply (sanitizeValue_clean (snd e) 1). }
  clearbody l. intros Hout.
  assert (out = list_to_map l) as -> by (destruct l; congruence). clear Hout. split.
  - etransitivity; [|exact Hlen]. clear -l. induction l as [|[k v] l IH]; [done|].
    rewrite list_to_map_cons, map_size_insert. case_match; simpl; lia.
  - intros k v Hk. apply elem_of_list_to_map_2 in Hk. rewrite Forall_forall in Hl.
    by apply (Hl (k, v)).
Qed.
End sanitize.

(** * The attempts *)

Section attempts.
Context `{UnicodeTables} `{AiJSON}.
Context (send : Client → string → nat → wire) (ctxErr : nat → option string).

(** How a run of attempts from the [n]-th ends. *)
Definition attempts_spec (c : Client) (rq : chatCompletionRequest) (sev : string) (n left : nat)
    (last : ai_error) (r : result ai_error Explanation) : Prop :=
  (∃ k, (k < left)%nat ∧
     (∀ j, (j < k)%nat → ∃ e, doRequest send c rq (n + j) = Err e ∧ isRetryable e = true) ∧
     match doRequest send c rq (n + k) with
     | Ok exp => r = Ok (finish sev exp)
     | Err e => isRetryable e = false ∧ r = Err e
     end) ∨
  ((∀ j, (j < left)%nat → ∃ e, doRequest send c rq (n + j) = Err e ∧ isRetryable e = true) ∧
   ∃ e, r = Err (Unavailable (cl_maxRetries c + 1) e)).

Lemma attempts_ok c rq sev : (∀ i, ctxErr i = None) → ∀ left n last,
  attempts_spec c rq sev n left last (attempts send ctxErr c rq sev left n last).
Proof.
  intros Hctx. induction left as [|left IH]; intros n last; cbn [attempts].
  { right. split; [lia|]. by eexists. }
  replace (if (0 <? n)%nat then ctxErr n else None) with (@None string)
    by (destruct (0 <? n)%nat; by rewrite ?Hctx).
  destruct (doRequest send c rq n) as [exp|e] eqn:Hd.
  - left. exists O. split; [lia|]. split; [lia|]. by rewrite Nat.add_0_r, Hd.
  - destruct (isRetryable e) eqn:He.
    + assert (∀ j, (∀ i, (i < j)%nat → ∃ e, doRequest send c rq (S n + i) = Err e ∧ isRetryable e = true) →
        ∀ i, (i < S j)%nat → ∃ e, doRequest send c rq (n + i) = Err e ∧ isRetryable e = true) as Hshift.
      { intros j Hj [|i] Hi; [rewrite Nat.add_0_r; eauto|].
        replace (n + S i)%nat with (S n + i)%nat by lia. apply Hj. lia. }
      destruct (IH (S n) e) as [(k & Hk & Hj & Hr)|[Hj Hr]].
      * left. exists (S k). split; [lia|]. split; [by apply Hshift|].
        by replace (n + S k)%nat with (S n + k)%nat by lia.
      * right. split; [by apply Hshift|done].
    + left. exists O. split; [lia|]. split; [lia|]. rewrite Nat.add_0_r, Hd. done.
Qed.
End attempts.

(** Whatever comes back, an explanation ends with the canonical disclaimer. *)
Lemma Explain_disclaimer `{UnicodeTables} `{AiJSON} quote send ctxErr c evidence exp :
  Explain quote send ctxErr c evidence = Ok exp → ex_Disclaimer exp = CanonicalDisclaimer.
Proof.
  assert (∀ rq sev left n last, attempts send ctxErr c rq sev left n last = Ok exp →
    ex_Disclaimer exp = CanonicalDisclaimer) as Ha.
  { intros rq sev. induction left as [|left IH]; intros n last; cbn [attempts]; [done|].
    destruct (if (0 <? n)%nat then ctxErr n else None); [done|].
    destruct (doRequest send c rq n) as [e|e]; [by intros [= <-]|].
    destruct (isRetryable e); [apply IH|done]. }
  unfold Explain. repeat case_match; try done. apply Ha.
Qed.

(** * Properties *)


Definition exEvidence : evidence :=
  Some {["actor" := AString "203.0.113.9"; "api_token" := AString "s3cr3t";
         "req" := AMap [("Cookie", AString "sid=1"); ("path", AString "/login")]]}.


(** C34: [Explain] makes at most [maxRetries + 1] attempts and stops at the first
    that gives an answer or an error that is not worth retrying. An answer always
    carries the canonical disclaimer, whatever the model wrote there. The sidecar
    is reported unavailable only when every attempt failed in a retryable way. *)
Theorem Explain_attempts `{UnicodeTables} `{AiJSON} quote send ctxErr c evidence payload :
  (∀ i, ctxErr i = None) →
  ep_Feature evidence ≠ "" → ep_Product evidence ≠ "" → ep_Finding evidence ≠ "" →
  marshal_packet (mkPacket (ep_Feature evidence) (ep_Product evidence) (ep_Finding evidence)
    (NormalizeLanguage (ep_Language evidence))) = Ok payload →
  let ev := mkPacket (ep_Feature evidence) (ep_Product evidence) (ep_Finding evidence)
    (NormalizeLanguage (ep_Language evidence)) in
  let rq := request_of c payload (ep_Language ev) (severityInstruction quote ev) in
  let r := Explain quote send ctxErr c evidence in
  attempts_spec send c rq (findingSeverity ev) 0 (Z.to_nat (cl_maxRetries c + 1)) (Invalid "") r ∧
  (∀ exp, r = Ok exp → ex_Disclaimer exp = CanonicalDisclaimer).
Proof.
  intros Hctx Hf Hp Hn Hm ev rq r.
  assert (r = attempts send ctxErr c rq (findingSeverity ev) (Z.to_nat (cl_maxRetries c + 1)) 0 (Invalid "")) as Hr.
  { subst r. unfold Explain, is_empty, str_eqb.
    rewrite !bool_decide_eq_false_2 by done. subst ev rq. by rewrite Hm. }
  rewrite Hr. pose proof (attempts_ok send ctxErr c rq (findingSeverity ev) Hctx
    (Z.to_nat (cl_maxRetries c + 1)) 0 (Invalid "")) as Hok.
  split; [exact Hok|]. intros exp Hexp.
  destruct Hok as [(k & _ & _ & Hk)|[_ [e He]]]; [|congruence].
  destruct (doRequest send c rq (0 + k)); [|destruct Hk; congruence].
  rewrite Hexp in Hk. by injection Hk as ->.
Qed.

Definition exJSON : AiJSON := {|
  marshal_finding f := Ok (cf_Title f); marshal_packet p := Ok (ep_Finding p);
  marshal_request r := Ok (cr_Model r); parse_severity s := Some "low";
  parse_completion s := Some (mkChatResponse None [s]);
  parse_explanation s := Some (mkExplanation s [] "model text") |}.
Definition exSend (c : Client) (body : string) (n : nat) : wire :=
  match n with O => NoAnswer "connection refused" | _ => Answer 200 "A scan. This is a critical risk." end.

Lemma Explain_attempts_witness :
  let U : UnicodeTables := λ r, r in let J := exJSON in
  let p := mkPacket FeatureExplainFinding "loglight" "{}" "en" in
  let r := Explain (λ s, s) exSend (λ _, None) (New "" []) p in
  attempts_spec exSend (New "" [])
    (request_of (New "" []) "{}" "en" (severityInstruction (λ s, s) p)) (findingSeverity p) 0 3 (Invalid "") r ∧
  (∀ exp, r = Ok exp → ex_Disclaimer exp = CanonicalDisclaimer).
Proof.
  intros U J p r.
  apply (Explain_attempts (λ s, s) exSend (λ _, None) (New "" []) p "{}").
  - reflexivity.
  - discriminate.
  - discriminate.
  - discriminate.
  - reflexivity.
Defined.

(** The guard at work: the sentence with the wrong severity is dropped. *)
Example guard_drops :
  let U : UnicodeTables := λ r, r in
  dropConflictingSeverity "A scan was seen. This is a Critical risk. Check the host." "low"
  = "A scan was seen. Check the host.".
Proof. vm_compute. reflexivity. Qed.
