(* ===== verification/License.v ===== *)
(** Offline licences: [src/license/license.go]. Signatures, JSON and the date
    format of the notice are parameters; base64 is executable. *)
From S2P Require Import Prelude Text.
Local Open Scope Z_scope.

(** * Tiers and limits *)

Definition TierFree : string := "free".
Definition TierPro : string := "pro".
Definition TierTeam : string := "team".

Record Limits := mkLimits {
  MaxTargets : Z;               (* 0 = unlimited *)
  RetentionDays : Z;            (* 0 = unlimited *)
  Channels : list string;
  MultiUser : bool;
  CustomInterval : bool;
  ScanNow : bool;
}.

Definition TierLimits : gmap string Limits :=
  <[TierFree := mkLimits 10 7 ["webhook"] false false false]>
  (<[TierPro := mkLimits 100 365 ["webhook"; "email"; "slack"; "telegram"] false true true]>
  {[TierTeam := mkLimits 0 0 ["webhook"; "email"; "slack"; "telegram"; "pagerduty"; "teams"] true true true]}).

Definition noLimits : Limits := mkLimits 0 0 [] false false false.

(** A tier that the table does not know has the free limits. *)
Definition limitsFor (t : string) : Limits :=
  match TierLimits !! t with
  | Some l => l
  | None => default noLimits (TierLimits !! TierFree)
  end.

Definition freeLimits : Limits := default noLimits (TierLimits !! TierFree).

(** * Licences and keys *)

Record License := mkLicense {
  li_Product : string;
  li_Tier : string;
  li_Email : string;
  li_IssuedAt : Z;
  li_ExpiresAt : Z;
  li_KeyID : string;
}.

Class Ed25519 := {
  ed25519_Sign : bytes → bytes → bytes;              (* private key, message *)
  ed25519_Verify : bytes → bytes → bytes → bool;     (* public key, message, signature *)
}.

Class LicenseJSON := {
  marshal_license : License → result string bytes;
  unmarshal_license : bytes → option License;
}.

Definition PublicKeySize : nat := 32.
Definition prefix : string := "SNTL1-".

(** ** [base64.RawURLEncoding] *)

Definition enc6 (n : Z) : Z :=
  if n <? 26 then 65 + n
  else if n <? 52 then 71 + n
  else if n <? 62 then n - 4
  else if n =? 62 then 45 else 95.

Definition dec6 (c : Z) : option Z :=
  if is_upper c then Some (c - 65)
  else if is_lower c then Some (c - 71)
  else if is_digit c then Some (c + 4)
  else if c =? 45 then Some 62
  else if c =? 95 then Some 63 else None.

Fixpoint b64_encode (b : bytes) : bytes :=
  match b with
  | [] => []
  | [x] => [enc6 (x / 4); enc6 (x mod 4 * 16)]
  | [x; y] => [enc6 (x / 4); enc6 (x mod 4 * 16 + y / 16); enc6 (y mod 16 * 4)]
  | x :: y :: z :: t =>
    enc6 (x / 4) :: enc6 (x mod 4 * 16 + y / 16) :: enc6 (y mod 16 * 4 + z / 64) :: enc6 (z mod 64)
      :: b64_encode t
  end.

(** Groups of four digits; the last may have two or three, whose spare bits are
    ignored. *)
Fixpoint b64_quanta (l : list Z) : option bytes :=
  match l with
  | [] => Some []
  | [_] => None
  | [a; b] => Some [a * 4 + b / 16]
  | [a; b; c] => Some [a * 4 + b / 16; b mod 16 * 16 + c / 4]
  | a :: b :: c :: d :: t =>
    (λ r, a * 4 + b / 16 :: b mod 16 * 16 + c / 4 :: c mod 4 * 64 + d :: r) <$> b64_quanta t
  end.

(** Line ends inside the text are skipped. *)
Definition b64_decode (b : bytes) : option bytes :=
  mapM dec6 (filter (λ c, c ≠ 10 ∧ c ≠ 13) b) ≫= b64_quanta.

Definition EncodeToString (b : bytes) : string := string_of_bytes (b64_encode b).
Definition DecodeString (s : string) : option bytes := b64_decode (bytes_of_string s).

(** * Issuing and verifying *)

Section License.
Context `{Ed25519} `{LicenseJSON}.

Definition Sign (priv : bytes) (lic : License) : result string string :=
  if is_empty (li_Product lic) || is_empty (li_Tier lic) then Err "license needs product and tier"
  else
    match marshal_license lic with
    | Err e => Err e
    | Ok payload =>
      let sig := ed25519_Sign priv payload in
      Ok (sprint [prefix; EncodeToString payload; "."; EncodeToString sig])
    end.

Inductive lic_error := ErrMalformed | ErrBadSignature | ErrWrongProduct (product : string).

(** The returns of [Verify]: a licence, the expired licence, or an error. *)
Inductive verdict :=
| Valid (lic : License)
| Expired (lic : License)
| Refused (e : lic_error).

Definition Verify (pub : bytes) (product key : string) (now : Z) : verdict :=
  if negb (strings_HasPrefix key prefix) then Refused ErrMalformed
  else
    match cut_at "."%char (strings_TrimPrefix (strings_TrimSpace key) prefix) with
    | None => Refused ErrMalformed
    | Some (part0, part1) =>
      match DecodeString part0 with
      | None => Refused ErrMalformed
      | Some payload =>
        match DecodeString part1 with
        | None => Refused ErrMalformed
        | Some sig =>
          if negb (length pub =? PublicKeySize)%nat then Refused ErrBadSignature
          else if negb (ed25519_Verify pub payload sig) then Refused ErrBadSignature
          else
            match unmarshal_license payload with
            | None => Refused ErrMalformed
            | Some lic =>
              if negb (str_eqb (li_Product lic) product) then Refused (ErrWrongProduct (li_Product lic))
              else if time_After now (li_ExpiresAt lic) then Expired lic
              else Valid lic
            end
        end
      end
    end.

(** * Activation *)

Record Activation := mkActivation {
  ac_Tier : string;
  ac_Limits : Limits;
  ac_License : option License;
  ac_Notice : string;
}.

(** [format_date] is [Time.Format] with the layout of the notice. *)
Definition Activate (format_date : Z → string) (pub : bytes) (product key : string) (now : Z) :
    Activation :=
  let free notice := mkActivation TierFree freeLimits None notice in
  if negb (length pub =? PublicKeySize)%nat then
    free (if is_empty (strings_TrimSpace key) then ""
          else "This is the free edition, which cannot activate license keys. Download the licensed build to use your key — your key is fine.")
  else if is_empty (strings_TrimSpace key) then free ""
  else
    match Verify pub product key now with
    | Valid lic => mkActivation (li_Tier lic) (limitsFor (li_Tier lic)) (Some lic) ""
    | Expired lic =>
      free (sprint ["License expired on "; format_date (li_ExpiresAt lic);
                    " — running on free limits. Renew to restore your tier."])
    | Refused _ => free "License key is not valid for this product — running on free limits."
    end.
End License.

Definition CanAddTarget (a : Activation) (current : Z) : bool :=
  (MaxTargets (ac_Limits a) =? 0) || (current <? MaxTargets (ac_Limits a)).

Definition AllowsChannel (a : Activation) (name : string) : bool :=
  existsb (λ c, str_eqb c name) (Channels (ac_Limits a)).

(** [now.AddDate(0, 0, -days)] in UTC: days of 24 hours. *)
Definition RetentionCutoff (a : Activation) (now : Z) : Z :=
  if RetentionDays (ac_Limits a) =? 0 then 0
  else now - RetentionDays (ac_Limits a) * (24 * Hour).

(** * Lemmas *)

Definition sixbits : list Z := seqZ 0 64.

Lemma dec6_enc6 n : 0 <= n < 64 → dec6 (enc6 n) = Some n.
Proof.
  intros Hn. unfold enc6, dec6, is_upper, is_lower, is_digit.
  repeat case_match; to_prop; try lia; try (f_equal; lia);
    repeat match goal with H : _ && _ = false |- _ => apply andb_false_iff in H end; to_prop; lia.
Qed.

Lemma enc6_range n : 0 <= n < 64 → 45 <= enc6 n <= 122 ∧ enc6 n ≠ 46.
Proof. intros Hn. unfold enc6. repeat case_match; to_prop; lia. Qed.

(** The digits of an encoding. *)
Fixpoint b64_digits (b : bytes) : list Z :=
  match b with
  | [] => []
  | [x] => [x / 4; x mod 4 * 16]
  | [x; y] => [x / 4; x mod 4 * 16 + y / 16; y mod 16 * 4]
  | x :: y :: z :: t =>
    x / 4 :: x mod 4 * 16 + y / 16 :: y mod 16 * 4 + z / 64 :: z mod 64 :: b64_digits t
  end.

(** Induction three bytes at a time. *)
Lemma triple_ind (P : bytes → Prop) :
  P [] → (∀ x, P [x]) → (∀ x y, P [x; y]) → (∀ x y z t, P t → P (x :: y :: z :: t)) → ∀ b, P b.
Proof.
  intros H0 H1 H2 H3. fix IH 1. intros [|x [|y [|z t]]]; [done|apply H1|apply H2|apply H3, IH].
Qed.

Lemma b64_encode_digits b : b64_encode b = map enc6 (b64_digits b).
Proof. induction b as [| | |x y z t IH] using triple_ind; [done..|]. cbn. by rewrite IH. Qed.

Lemma b64_digits_range b : wf_bytes b → Forall (λ d, 0 <= d < 64) (b64_digits b).
Proof.
  unfold wf_bytes, is_byte.
  induction b as [|x|x y|x y z t IH] using triple_ind; intros Hb; [constructor|..];
    repeat (apply Forall_cons in Hb as [? Hb]); cbn [b64_digits]; repeat constructor;
    try (Z.div_mod_to_equations; lia).
  by apply IH.
Qed.

Lemma b64_quanta_digits b : wf_bytes b → b64_quanta (b64_digits b) = Some b.
Proof.
  unfold wf_bytes, is_byte.
  induction b as [|x|x y|x y z t IH] using triple_ind; intros Hb; [done|..];
    repeat (apply Forall_cons in Hb as [? Hb]); cbn [b64_digits b64_quanta].
  - do 2 f_equal. Z.div_mod_to_equations; lia.
  - repeat f_equal; Z.div_mod_to_equations; lia.
  - rewrite IH by done. cbn. repeat f_equal; Z.div_mod_to_equations; lia.
Qed.

Lemma b64_encode_range b : wf_bytes b → Forall (λ c, 45 <= c <= 122 ∧ c ≠ 46) (b64_encode b).
Proof.
  intros Hb. rewrite b64_encode_digits. apply Forall_fmap.
  eapply Forall_impl; [by apply b64_digits_range|]. intros d Hd. by apply enc6_range.
Qed.

Lemma b64_roundtrip b : wf_bytes b → b64_decode (b64_encode b) = Some b.
Proof.
  intros Hb. unfold b64_decode.
  rewrite filter_true by (eapply Forall_impl; [by apply b64_encode_range|]; simpl; lia).
  replace (mapM dec6 (b64_encode b)) with (Some (b64_digits b)); [by apply b64_quanta_digits|].
  symmetry. rewrite b64_encode_digits. apply mapM_Some. pose proof (b64_digits_range b Hb) as Hd.
  induction Hd as [|d l Hd _ IH]; constructor; [by apply dec6_enc6|done].
Qed.

Lemma EncodeToString_bytes b : wf_bytes b → bytes_of_string (EncodeToString b) = b64_encode b.
Proof.
  intros Hb. apply bytes_of_string_of_bytes.
  eapply Forall_impl; [by apply b64_encode_range|]. unfold is_byte. simpl. lia.
Qed.

Lemma DecodeString_EncodeToString b : wf_bytes b → DecodeString (EncodeToString b) = Some b.
Proof. intros Hb. unfold DecodeString. rewrite EncodeToString_bytes by done. by apply b64_roundtrip. Qed.

Lemma has_char_bytes c s : has_char c s = false ↔ byte_of_ascii c ∉ bytes_of_string s.
Proof.
  unfold bytes_of_string. induction s as [|x s IH]; cbn [has_char].
  - split; [by intros _ ?%not_elem_of_nil|done].
  - cbn. rewrite not_elem_of_cons. destruct (Ascii.eqb_spec x c) as [->|Hne]; [naive_solver|].
    rewrite IH. split; [|tauto]. intros Hn. split; [|done].
    intros Hx. apply Hne. rewrite <- (ascii_of_byte_of_ascii x), <- Hx. apply ascii_of_byte_of_ascii.
Qed.

Lemma key_shape a b : wf_bytes a → wf_bytes b →
  let key := sprint [prefix; EncodeToString a; "."; EncodeToString b] in
  strings_HasPrefix key prefix = true ∧
  cut_at "."%char (strings_TrimPrefix (strings_TrimSpace key) prefix)
    = Some (EncodeToString a, EncodeToString b).
Proof.
  intros Ha Hb key.
  assert (key = prefix +:+ (EncodeToString a +:+ String "."%char (EncodeToString b))) as Hk.
  { subst key. unfold sprint. cbn [String.concat]. by rewrite !append_nil_l, append_cons, append_nil_l. }
  assert (Forall (λ x, 33 <= x < 128) (bytes_of_string key)) as Hplain.
  { rewrite Hk, !bytes_of_string_app. change (String "."%char (EncodeToString b))
      with ("." +:+ EncodeToString b). rewrite bytes_of_string_app, !EncodeToString_bytes by done.
    repeat (apply Forall_app; split); try (repeat constructor; vm_compute; done);
      (eapply Forall_impl; [by apply b64_encode_range|]; simpl; lia). }
  rewrite TrimSpace_plain by done. rewrite Hk. split; [apply HasPrefix_app|].
  rewrite TrimPrefix_app. apply cut_at_app. apply has_char_bytes.
  rewrite EncodeToString_bytes by done. intros Hin.
  pose proof (b64_encode_range a Ha) as Hr. rewrite Forall_forall in Hr.
  by destruct (Hr _ Hin) as [_ []].
Qed.

(** What an activation rests on: the free tier, or a licence for this product, in
    date, from a payload that the issuer key verifies. *)
Definition backed `{Ed25519} `{LicenseJSON} (pub : bytes) (product : string) (now : Z)
    (act : Activation) : Prop :=
  (ac_License act = None ∧ ac_Tier act = TierFree ∧ ac_Limits act = freeLimits) ∨
  ∃ lic payload sig,
    ac_License act = Some lic ∧ ac_Tier act = li_Tier lic ∧ ac_Limits act = limitsFor (li_Tier lic) ∧
    length pub = PublicKeySize ∧ ed25519_Verify pub payload sig = true ∧
    unmarshal_license payload = Some lic ∧ li_Product lic = product ∧ now <= li_ExpiresAt lic.

Lemma Activate_backed `{Ed25519} `{LicenseJSON} format_date pub product key now :
  backed pub product now (Activate format_date pub product key now).
Proof.
  unfold Activate, backed.
  destruct (Nat.eqb_spec (length pub) PublicKeySize) as [Hl|Hl]; cbn [negb]; [|by left].
  destruct (is_empty (strings_TrimSpace key)); [by left|].
  destruct (Verify pub product key now) as [lic|lic|e] eqn:Hv; [right|by left|by left].
  unfold Verify in Hv. repeat case_match; try discriminate. injection Hv as ->.
  repeat match goal with H : negb _ = false |- _ => apply negb_false_iff in H end.
  eexists lic, _, _. split_and!; try done.
  - unfold str_eqb in *. by eapply bool_decide_eq_true.
  - unfold time_After in *. by apply Z.ltb_ge.
Qed.

(** * Properties *)

(** C30: A key that the seller signs is accepted by the product. For any signature
    scheme whose verification accepts its own signatures and any JSON codec that
    reads back what it wrote, the text of the key survives base64 and the cut at
    the point, and [Verify] returns the very licence that was signed, as valid up
    to its expiry and as expired after it; [Activate] then grants its tier. *)
Theorem license_roundtrip `{Ed25519} `{LicenseJSON} format_date priv pub lic payload key now :
  marshal_license lic = Ok payload → wf_bytes payload →
  unmarshal_license payload = Some lic →
  wf_bytes (ed25519_Sign priv payload) →
  ed25519_Verify pub payload (ed25519_Sign priv payload) = true →
  length pub = PublicKeySize →
  Sign priv lic = Ok key →
  Verify pub (li_Product lic) key now =
    (if time_After now (li_ExpiresAt lic) then Expired lic else Valid lic) ∧
  (now <= li_ExpiresAt lic →
   ac_Tier (Activate format_date pub (li_Product lic) key now) = li_Tier lic ∧
   ac_License (Activate format_date pub (li_Product lic) key now) = Some lic).
Proof.
  intros Hm Hp Hu Hs Hv Hl Hk. unfold Sign in Hk. rewrite Hm in Hk.
  destruct (is_empty (li_Product lic) || is_empty (li_Tier lic)); [done|].
  injection Hk as <-. destruct (key_shape payload (ed25519_Sign priv payload) Hp Hs) as [Hpre Hcut].
  set (key := sprint _) in *.
  assert (Verify pub (li_Product lic) key now =
    (if time_After now (li_ExpiresAt lic) then Expired lic else Valid lic)) as Hver.
  { unfold Verify. rewrite Hpre, Hcut, !DecodeString_EncodeToString by done. cbn [negb].
    rewrite Hl, Nat.eqb_refl, Hv, Hu. unfold str_eqb. by rewrite bool_decide_eq_true_2. }
  split; [done|]. intros Hnow. unfold Activate. rewrite Hl, Nat.eqb_refl. cbn [negb].
  destruct (is_empty (strings_TrimSpace key)) eqn:He.
  - exfalso. unfold is_empty, str_eqb in He. apply bool_decide_eq_true in He.
    rewrite He in Hcut. done.
  - rewrite Hver. unfold time_After. rewrite (proj2 (Z.ltb_ge _ _)) by done. done.
Qed.

Definition exEd : Ed25519 := {| ed25519_Sign k m := k; ed25519_Verify p m s := bool_decide (s = p) |}.
Definition exLicense : License := mkLicense "loglight" "pro" "a@b.c" 1 1000 "k1".
Definition exLicenseJSON : LicenseJSON := {|
  marshal_license l := Ok (bytes_of_string "{}"); unmarshal_license b := Some exLicense |}.
Definition exPub : bytes := repeat 200 32.

Lemma license_roundtrip_witness :
  let E := exEd in let J := exLicenseJSON in
  let key := sprint [prefix; EncodeToString (bytes_of_string "{}"); "."; EncodeToString exPub] in
  Verify exPub "loglight" key 500 = Valid exLicense ∧
  (500 <= 1000 →
   ac_Tier (Activate (λ _, "") exPub "loglight" key 500) = "pro" ∧
   ac_License (Activate (λ _, "") exPub "loglight" key 500) = Some exLicense).
Proof.
  intros E J key.
  apply (license_roundtrip (λ _, "") exPub exPub exLicense (bytes_of_string "{}") key 500).
  - reflexivity.
  - apply bytes_of_string_wf.
  - reflexivity.
  - apply (bool_decide_unpack _). vm_compute. exact I.
  - reflexivity.
  - reflexivity.
  - reflexivity.
Defined.

(** C21: A licensing problem never stops the product and never grants more than a
    signature does. Whatever the key text, the issuer key, the clock and the
    codecs, activation either has no licence and exactly the free tier with its
    limits, or it has a licence for this product, not expired, that was decoded
    from a payload whose signature the issuer key verifies, and the tier is the
    one that licence names. *)
Theorem Activate_sound `{Ed25519} `{LicenseJSON} format_date pub product key now :
  backed pub product now (Activate format_date pub product key now).
Proof. apply Activate_backed. Qed.
