(* ===== verification/Web.v ===== *)
(** The dashboard's API: [src/web/server.go] and [src/web/ai.go]. A handler is a
    function from the decoded request and the server's state to the new state
    and the response; [None] as a request body is JSON that does not decode. *)
From S2P Require Import Prelude Text Core Store License Verify AiClient Hfs.
From S2P Require Sched.
Local Open Scope Z_scope.

(** * Responses *)

Record summaryResponse := mkSummary {
  sm_Product : string;
  sm_Tier : string;
  sm_Notice : string;
  sm_Counts : gmap string Z;
  sm_OpenTotal : Z;
  sm_Targets : Z;
  sm_MaxTargets : Z;
  sm_CanScanNow : bool;
  sm_TargetKind : string;
}.

Record challengeView := mkChallengeView {
  cv_domain : string; cv_state : string; cv_dns_record : string; cv_dns_value : string;
  cv_http_url : string; cv_http_contents : string; cv_instructions : string;
}.

Record findingJSON := mkFindingJSON {
  fj_Fingerprint : string; fj_Target : string; fj_Check : string; fj_Title : string;
  fj_Severity : string; fj_Status : string; fj_Remediation : string; fj_Evidence : evidence;
  fj_FirstSeen : Z; fj_LastSeen : Z;
}.

Record aiStatusResponse := mkAIStatus {
  as_Enabled : bool; as_Reason : string; as_Language : string; as_Keyed : bool;
}.

Record explainResponse := mkExplain {
  er_Available : bool; er_Reason : string; er_Explanation : string;
  er_WhatToVerify : list string; er_Disclaimer : string;
}.

Inductive payload :=
| PField (k v : string)
| PSummary (s : summaryResponse)
| PVerification (applicable : bool) (l : list challengeView)
| PFindings (l : list findingJSON)
| PTargets (l : list (string * string))
| PLicense (tier notice : string) (grant : option (string * Z))
| PLines (l : list string)
| PAIStatus (s : aiStatusResponse)
| PExplain (e : explainResponse).

Inductive response :=
| OK (p : payload)
| HttpError (code : Z) (msg : string).

Definition StatusBadRequest : Z := 400.
Definition StatusPaymentRequired : Z := 402.
Definition StatusForbidden : Z := 403.
Definition StatusNotFound : Z := 404.
Definition StatusConflict : Z := 409.
Definition StatusInternalServerError : Z := 500.

(** * The server *)

Record AIAssist := mkAI {
  ai_Client : Client;
  ai_Endpoint : string;
  ai_Keyed : bool;
  ai_Language : string;
}.

Record Server (W T : Type) := mkServer {
  sv_Module : ModuleInfo;
  sv_Store : W;
  sv_Scheduler : Sched.Scheduler;
  sv_Targets : option T;
  sv_TierLimits : option (gmap string Limits);
  sv_Verify : option ChallengeStore;
  sv_IssuerPub : bytes;
  sv_LicenseFile : string;
  sv_activation : Activation;
  sv_AI : option AIAssist;
  sv_ExportMeta : Meta;
  sv_ExportEvidence : string;
}.
Arguments mkServer {W T} _ _ _ _ _ _ _ _ _ _ _ _.
Arguments sv_Module {W T} _.
Arguments sv_Store {W T} _.
Arguments sv_Scheduler {W T} _.
Arguments sv_Targets {W T} _.
Arguments sv_TierLimits {W T} _.
Arguments sv_Verify {W T} _.
Arguments sv_IssuerPub {W T} _.
Arguments sv_LicenseFile {W T} _.
Arguments sv_activation {W T} _.
Arguments sv_AI {W T} _.
Arguments sv_ExportMeta {W T} _.
Arguments sv_ExportEvidence {W T} _.

Definition canAdd (l : Limits) (current : Z) : bool :=
  (MaxTargets l =? 0) || (current <? MaxTargets l).

Section Server.
Context {W T : Type} `{StoreOps W} `{TargetStoreOps T} `{MapRange}.
Context `{Ed25519} `{LicenseJSON}.
Context (format_date : Z → string).

Abbreviation S := (Server W T).

Definition set_Store (w : W) (s : S) : S :=
  mkServer (sv_Module s) w (sv_Scheduler s) (sv_Targets s) (sv_TierLimits s) (sv_Verify s)
    (sv_IssuerPub s) (sv_LicenseFile s) (sv_activation s) (sv_AI s)
    (sv_ExportMeta s) (sv_ExportEvidence s).

Definition set_Scheduler (sc : Sched.Scheduler) (s : S) : S :=
  mkServer (sv_Module s) (sv_Store s) sc (sv_Targets s) (sv_TierLimits s) (sv_Verify s)
    (sv_IssuerPub s) (sv_LicenseFile s) (sv_activation s) (sv_AI s)
    (sv_ExportMeta s) (sv_ExportEvidence s).

Definition set_Targets (t : option T) (s : S) : S :=
  mkServer (sv_Module s) (sv_Store s) (sv_Scheduler s) t (sv_TierLimits s) (sv_Verify s)
    (sv_IssuerPub s) (sv_LicenseFile s) (sv_activation s) (sv_AI s)
    (sv_ExportMeta s) (sv_ExportEvidence s).

Definition set_activation (a : Activation) (s : S) : S :=
  mkServer (sv_Module s) (sv_Store s) (sv_Scheduler s) (sv_Targets s) (sv_TierLimits s) (sv_Verify s)
    (sv_IssuerPub s) (sv_LicenseFile s) a (sv_AI s)
    (sv_ExportMeta s) (sv_ExportEvidence s).

(** [file] is the content of the licence file, if it can be read. *)
Definition NewServer (mo : ModuleInfo) (st : W) (sc : Sched.Scheduler) (pub : bytes)
    (licenseFile : string) (file : option string) (now : Z) : S :=
  let key :=
    if is_empty licenseFile then ""
    else match file with Some b => strings_TrimSpace b | None => "" end in
  mkServer mo st sc None None None pub licenseFile
    (Activate format_date pub (m_ID mo) key now) None (mkMeta "" "" "") "".

(** The limits in force: the product's own table if it knows the tier. *)
Definition effLimits (s : S) : Limits :=
  match sv_TierLimits s with
  | None => ac_Limits (sv_activation s)
  | Some t => default (ac_Limits (sv_activation s)) (t !! ac_Tier (sv_activation s))
  end.

Definition ListTargets (s : S) : list Target :=
  Sched.ListTargets (m_ID (sv_Module s)) (sv_Scheduler s).

(** ** Findings *)

Definition count_severities (open : list Record) : gmap string Z :=
  foldl (λ c r, let k := f_Severity (r_Finding r) in <[k := map_get 0 c k + 1]> c) ∅ open.

Definition handleSummary (s : S) : S * response :=
  let '(w, r) := ListOpen (m_ID (sv_Module s)) (sv_Store s) in
  let s := set_Store w s in
  match r with
  | Err _ => (s, HttpError StatusInternalServerError "store error")
  | Ok open =>
    let lim := effLimits s in
    (s, OK (PSummary {|
       sm_Product := m_Name (sv_Module s); sm_Tier := ac_Tier (sv_activation s);
       sm_Notice := ac_Notice (sv_activation s); sm_Counts := count_severities open;
       sm_OpenTotal := Z.of_nat (length open); sm_Targets := Z.of_nat (length (ListTargets s));
       sm_MaxTargets := MaxTargets lim; sm_CanScanNow := ScanNow lim;
       sm_TargetKind := m_TargetKind (sv_Module s) |}))
  end.

Definition handleVerification (quote : string → string) (s : S) : S * response :=
  match sv_Verify s with
  | None => (s, OK (PVerification false []))
  | Some cs =>
    (s, OK (PVerification true
       (map (λ c, mkChallengeView (ch_Domain c) (ch_State c) (DNSRecordName c) (DNSRecordValue c)
                    (HTTPURL c) (HTTPFileContents c) (Instructions quote c))
            (MemStore_List (m_ID (sv_Module s)) cs))))
  end.

(** Resolved findings older than a day are left out. *)
Definition stale (now : Z) (r : Record) : bool :=
  str_eqb (r_Status r) StatusResolved
  && match f_ResolvedAt (r_Finding r) with
     | None => true
     | Some t => 24 * Hour <? time_Sub now t
     end.

Definition toFindingJSON (r : Record) : findingJSON :=
  let f := r_Finding r in
  mkFindingJSON (f_Fingerprint f) (f_Target f) (f_Check f) (f_Title f) (f_Severity f) (f_Status f)
    (f_Remediation f) (f_Evidence f) (f_FirstSeen f) (f_LastSeen f).

Definition handleFindings (now : Z) (s : S) : S * response :=
  let '(w, r) := ListAll (m_ID (sv_Module s)) (sv_Store s) in
  let s := set_Store w s in
  match r with
  | Err _ => (s, HttpError StatusInternalServerError "store error")
  | Ok recs => (s, OK (PFindings (map toFindingJSON (filter (λ r, stale now r = false) recs))))
  end.

Definition set_Status (st : string) (r : Record) : Record :=
  let f := r_Finding r in
  mkRecord (mkFinding (f_Fingerprint f) (f_Target f) (f_Check f) (f_Title f) (f_Severity f)
    (f_Remediation f) (f_Evidence f) (f_ID f) (f_Module f) st (f_GroupID f)
    (f_FirstSeen f) (f_LastSeen f) (f_ResolvedAt f)) (r_AbsentStreak r).

(** The request is a fingerprint and a status. *)
Definition handleFindingStatus (req : option (string * string)) (s : S) : S * response :=
  match req with
  | None => (s, HttpError StatusBadRequest "invalid JSON")
  | Some (fp, next) =>
    if str_eqb next StatusAcknowledged || str_eqb next StatusSuppressed || str_eqb next StatusOpen then
      let '(w, r) := Get (m_ID (sv_Module s)) fp (sv_Store s) in
      let s := set_Store w s in
      match r with
      | Ok (Some rec) =>
        let '(w, r) := Upsert (set_Status next rec) (sv_Store s) in
        let s := set_Store w s in
        match r with
        | Err _ => (s, HttpError StatusInternalServerError "store error")
        | Ok _ => (s, OK (PField "ok" "true"))
        end
      | _ => (s, HttpError StatusNotFound "finding not found")
      end
    else (s, HttpError StatusBadRequest "status must be acknowledged, suppressed, or open")
  end.

(** The product's own metadata, or the module's. *)
Definition export_meta (s : S) : Meta :=
  let meta := sv_ExportMeta s in
  if is_empty (mt_Product meta)
  then mkMeta (m_ID (sv_Module s)) (m_Version (sv_Module s)) (mt_Host meta) else meta.

(** [query] is the [format] parameter; [snapshot] is [hfs.Marshal] of the snapshot
    event that [hfs.New] makes of a source with this evidence mode: a finding it
    fails on is skipped. *)
Definition handleFindingsExport (snapshot : string → Meta → HfsSource → Z → option string)
    (query : string) (now : Z) (s : S) : S * response :=
  if negb (is_empty query) && negb (str_eqb query "hfs")
  then (s, HttpError StatusBadRequest "format must be hfs")
  else
    let '(w, r) := ListAll (m_ID (sv_Module s)) (sv_Store s) in
    let s := set_Store w s in
    match r with
    | Err _ => (s, HttpError StatusInternalServerError "store error")
    | Ok recs =>
      let line r := snapshot (sv_ExportEvidence s) (export_meta s) (Source (r_Finding r)) now in
      (s, OK (PLines (omap line (filter (λ r, stale now r = false) recs))))
    end.

(** ** Targets *)

Definition handleListTargets (s : S) : S * response :=
  (s, OK (PTargets (map (λ t, (t_Raw t, t_Canonical t)) (ListTargets s)))).

Definition handleAddTarget (req : option string) (s : S) : S * response :=
  match req with
  | None => (s, HttpError StatusBadRequest "invalid JSON")
  | Some raw =>
    let current := Z.of_nat (length (ListTargets s)) in
    if negb (canAdd (effLimits s) current)
    then (s, HttpError StatusPaymentRequired
      "target limit reached for your tier — Pro and Team: https://whop.com/nizar-tuanku/loglight?utm_source=app")
    else
      let '(sc, r, _) := Sched.AddTarget (m_ID (sv_Module s)) raw (sv_Scheduler s) in
      let s := set_Scheduler sc s in
      match r with
      | Err e => (s, HttpError StatusBadRequest e)
      | Ok t =>
        match sv_Targets s with
        | None => (s, OK (PField "canonical" (t_Canonical t)))
        | Some ts =>
          let '(ts, r) := ts_SaveTarget (m_ID (sv_Module s)) (t_Raw t) (t_Canonical t) ts in
          let s := set_Targets (Some ts) s in
          match r with
          | Err _ => (s, HttpError StatusInternalServerError "target added but could not be persisted")
          | Ok _ => (s, OK (PField "canonical" (t_Canonical t)))
          end
        end
      end
  end.

Definition handleRemoveTarget (canonical : string) (s : S) : S * response :=
  if is_empty canonical then (s, HttpError StatusBadRequest "canonical query parameter required")
  else
    let s := set_Scheduler (Sched.RemoveTarget (m_ID (sv_Module s)) canonical (sv_Scheduler s)) s in
    match sv_Targets s with
    | None => (s, OK (PField "ok" "true"))
    | Some ts =>
      let '(ts, _) := ts_DeleteTarget (m_ID (sv_Module s)) canonical ts in
      (set_Targets (Some ts) s, OK (PField "ok" "true"))
    end.

(** The response and the targets scanned; [ctxErr] is the request's context
    after the sweep. *)
Definition handleScanNow (ctxErr : option string) (s : S) : S * response * list Target :=
  if negb (ScanNow (effLimits s))
  then (s, HttpError StatusPaymentRequired
    "on-demand scans are a Pro feature — scheduled scans continue as normal. Pro and Team: https://whop.com/nizar-tuanku/loglight?utm_source=app", [])
  else
    match Sched.ScanNow (m_ID (sv_Module s)) (sv_Scheduler s) with
    | Err e => (s, HttpError StatusInternalServerError e, [])
    | Ok ts =>
      match ctxErr with
      | Some e => (s, HttpError StatusInternalServerError e, ts)
      | None => (s, OK (PField "ok" "true"), ts)
      end
    end.

(** ** Licence *)

Definition handleGetLicense (s : S) : S * response :=
  let act := sv_activation s in
  (s, OK (PLicense (ac_Tier act) (ac_Notice act)
    ((λ l, (li_Email l, li_ExpiresAt l)) <$> ac_License act))).

(** The state, the response, and the text written to the licence file.
    [writeErr] is whether writing it fails. *)
Definition handleSetLicense (writeErr : bool) (now : Z) (req : option string) (s : S) :
    S * response * option string :=
  match req with
  | None => (s, HttpError StatusBadRequest "invalid JSON", None)
  | Some raw =>
    let key := strings_TrimSpace raw in
    let act := Activate format_date (sv_IssuerPub s) (m_ID (sv_Module s)) key now in
    if str_eqb (ac_Tier act) TierFree && negb (is_empty key)
    then (s, HttpError StatusBadRequest (ac_Notice act), None)
    else
      let activated := (set_activation act s, OK (PField "tier" (ac_Tier act))) in
      if is_empty (sv_LicenseFile s) then (activated, None)
      else if writeErr
      then (s, HttpError StatusInternalServerError "could not persist license key", None)
      else (activated, Some (key +:+ String (ascii_of_byte 10) EmptyString))
  end.

(** ** AI Assist *)

(** The parts of a URL that [NewAIAssist] looks at, from [url.Parse]. *)
Class URLParser := url_Parse : string → option (string * string).

Record AIConfig := mkAIConfig {
  ag_URL : string;
  ag_KeyFile : string;
  ag_Language : string;
  ag_NoThinking : bool;
}.

(** [readKey] is the outcome of reading the key file. *)
Definition NewAIAssist `{UnicodeTables} `{URLParser} (quote : string → string)
    (readKey : result string string) (cfg : AIConfig) : result string (option AIAssist) :=
  let raw := strings_TrimSpace (ag_URL cfg) in
  if is_empty raw then Ok None
  else
    match url_Parse raw with
    | Some (scheme, host) =>
      if (str_eqb scheme "http" || str_eqb scheme "https") && negb (is_empty host) then
        let opts := [WithTimeout (120 * Second); WithMaxRetries 0; WithMaxTokens 300] in
        let think := if ag_NoThinking cfg then [WithDisableThinking] else [] in
        let endpoint := strings_TrimRight raw [47] in
        let lang := NormalizeLanguage (ag_Language cfg) in
        if is_empty (ag_KeyFile cfg)
        then Ok (Some (mkAI (AiClient.New endpoint (opts ++ think)) endpoint false lang))
        else
          match readKey with
          | Err e => Err ("read ai-assist-key-file: " +:+ e)
          | Ok b =>
            let key := strings_TrimSpace b in
            if is_empty key then Err (sprint ["ai-assist-key-file "; ag_KeyFile cfg; " is empty"])
            else Ok (Some (mkAI (AiClient.New endpoint (opts ++ [WithAPIKey key] ++ think)) endpoint true lang))
          end
      else Err ("ai-assist-url must be an http(s) base URL such as http://127.0.0.1:8435, got " +:+ quote raw)
    | None => Err ("ai-assist-url must be an http(s) base URL such as http://127.0.0.1:8435, got " +:+ quote raw)
    end.

Definition aiAllowed (s : S) : bool * string :=
  match sv_AI s with
  | None => (false, "AI Assist is off. Start with -ai-assist-url to enable it.")
  | Some ai =>
    let t := ac_Tier (sv_activation s) in
    if ai_Keyed ai && negb (str_eqb t TierPro) && negb (str_eqb t TierTeam)
    then (false, "A dedicated AI host or your own endpoint (API key) needs a Pro or Team licence. The free edition works with a hexward-ai sidecar on the same host.")
    else (true, "")
  end.

Definition handleAIStatus (s : S) : S * response :=
  let '(ok, reason) := aiAllowed s in
  (s, OK (PAIStatus
    match sv_AI s with
    | None => mkAIStatus ok reason "" false
    | Some ai => mkAIStatus ok reason (ai_Language ai) (ai_Keyed ai)
    end)).

Definition unavailable (reason : string) : response := OK (PExplain (mkExplain false reason "" [] "")).

Definition packet_finding (s : S) (r : Record) : CoreFinding :=
  let f := r_Finding r in
  mkCoreFinding (f_Fingerprint f) (m_ID (sv_Module s)) (f_Check f) (f_Title f) (f_Target f)
    (f_Severity f) (f_Status f) (f_Remediation f) (f_Evidence f).

(** [send] is the wire to the sidecar; [ctxErr] the request's context between
    attempts. *)
Definition handleExplainFinding `{UnicodeTables} `{SortSlice} `{AiJSON} (quote : string → string)
    (send : Client → string → nat → wire) (ctxErr : nat → option string)
    (req : option string) (s : S) : S * response :=
  match req with
  | None => (s, HttpError StatusBadRequest "fingerprint is required")
  | Some fp =>
    if is_empty (strings_TrimSpace fp) then (s, HttpError StatusBadRequest "fingerprint is required")
    else
      let '(w, r) := Get (m_ID (sv_Module s)) fp (sv_Store s) in
      let s := set_Store w s in
      match r with
      | Err _ => (s, HttpError StatusInternalServerError "store error")
      | Ok None => (s, HttpError StatusNotFound "no such finding")
      | Ok (Some rec) =>
        match aiAllowed s, sv_AI s with
        | (true, _), Some ai =>
          match NewFindingPacket (m_ID (sv_Module s)) (ai_Language ai) (packet_finding s rec) with
          | Err _ => (s, unavailable "This finding has no title or severity to explain.")
          | Ok packet =>
            match Explain quote send ctxErr (ai_Client ai) packet with
            | Err _ => (s, unavailable "The AI Assist sidecar did not answer. The finding is unaffected.")
            | Ok exp =>
              (s, OK (PExplain (mkExplain true "" (ex_Explanation exp) (ex_WhatToVerify exp) (ex_Disclaimer exp))))
            end
          end
        | (_, reason), _ => (s, unavailable reason)
        end
      end
  end.

(** ** The routes *)

Definition registerAI : list (string * string) := [("GET", "/api/ai"); ("POST", "/api/findings/explain")].

(** The patterns of the mux; a literal one goes before the static pages. *)
Definition Handler_patterns (ExtraRoutes : list (string * string)) : list (string * string) :=
  [("GET", "/api/summary"); ("GET", "/api/findings"); ("GET", "/api/findings/export");
   ("POST", "/api/findings/status"); ("GET", "/api/targets"); ("POST", "/api/targets");
   ("DELETE", "/api/targets"); ("POST", "/api/scan"); ("GET", "/api/license"); ("POST", "/api/license");
   ("GET", "/api/verification")] ++ ExtraRoutes ++ registerAI ++ [("GET", "/")].

(** A decoded request, with what the outside world does while it is served. *)
Inductive api_request :=
| GetSummary
| GetFindings (now : Z)
| GetExport (query : string) (now : Z)
| PostStatus (req : option (string * string))
| GetTargets
| PostTarget (req : option string)
| DeleteTarget (canonical : string)
| PostScan (ctxErr : option string)
| GetLicense
| PostLicense (writeErr : bool) (now : Z) (req : option string)
| GetVerification
| GetAI
| PostExplain (send : Client → string → nat → wire) (ctxErr : nat → option string) (req : option string).

(** [Handler]: the mux. *)
Definition Handler `{UnicodeTables} `{SortSlice} `{AiJSON} (quote : string → string)
    (snapshot : string → Meta → HfsSource → Z → option string)
    (rq : api_request) (s : S) : S * response :=
  match rq with
  | GetSummary => handleSummary s
  | GetFindings now => handleFindings now s
  | GetExport query now => handleFindingsExport snapshot query now s
  | PostStatus req => handleFindingStatus req s
  | GetTargets => handleListTargets s
  | PostTarget req => handleAddTarget req s
  | DeleteTarget c => handleRemoveTarget c s
  | PostScan ctxErr => (handleScanNow ctxErr s).1
  | GetLicense => handleGetLicense s
  | PostLicense writeErr now req => (handleSetLicense writeErr now req s).1
  | GetVerification => handleVerification quote s
  | GetAI => handleAIStatus s
  | PostExplain send ctxErr req => handleExplainFinding quote send ctxErr req s
  end.
End Server.
