(* ===== verification/Api.v ===== *)
(** What the dashboard's API may change: the theorems about [src/web/server.go]
    and [src/web/ai.go], for any implementation of the store. *)
From S2P Require Import Prelude Text Float Core Store License Verify AiClient Hfs Web.
From S2P Require Sched.
Local Open Scope Z_scope.

Section Api.
Context {W T : Type} `{StoreSpec W} `{TargetStoreOps T} `{MapRange} `{SortSlice}.
Context `{Ed25519} `{LicenseJSON} `{UnicodeTables} `{AiJSON}.
Context (format_date : Z → string) (quote : string → string).
Context (snapshot : string → Hfs.Meta → HfsSource → Z → option string).

Abbreviation S := (Server W T).
Abbreviation handler := (Handler format_date quote snapshot).

(** * Who writes what *)

(** The requests that can change anything. *)
Definition writes (rq : api_request) : bool :=
  match rq with
  | PostStatus _ | PostTarget _ | DeleteTarget _ | PostLicense _ _ _ => true
  | _ => false
  end.

Definition good (s : S) : Prop := store_inv (sv_Store s) ∧ valid_module (m_ID (sv_Module s)).

Lemma set_Store_same (s : S) : set_Store (sv_Store s) s = s.
Proof. by destruct s. Qed.

(** Every other request leaves the whole server as it is. *)
Lemma readonly_same rq (s : S) : good s → writes rq = false → (handler rq s).1 = s.
Proof.
  intros [Hi Hm] Hw. destruct rq; try done; cbn [Handler].
  - unfold handleSummary. destruct (ListOpen_spec _ _ Hi Hm) as (l & -> & _). apply set_Store_same.
  - unfold handleFindings. destruct (ListAll_spec _ _ Hi Hm) as (l & -> & _). apply set_Store_same.
  - unfold handleFindingsExport. destruct (_ && _); [done|].
    destruct (ListAll_spec _ _ Hi Hm) as (l & -> & _). apply set_Store_same.
  - unfold handleScanNow. destruct (negb _); [done|]. destruct (Sched.ScanNow _ _); [|done].
    by destruct ctxErr.
  - unfold handleVerification. by destruct (sv_Verify s).
  - unfold handleAIStatus. by destruct (aiAllowed s).
  - unfold handleExplainFinding. destruct req as [fp|]; [|done]. destruct (is_empty _); [done|].
    rewrite (Get_spec _ _ fp Hi Hm), set_Store_same. repeat case_match; done.
Qed.

(** ** Triage *)

Definition triage_status (st : string) : Prop := st ∈ [StatusAcknowledged; StatusSuppressed; StatusOpen].

(** All that triage may change of a record. *)
Definition triaged (r r' : Record) : Prop := r' = r ∨ ∃ st, triage_status st ∧ r' = set_Status st r.

#[export] Instance triaged_refl : Reflexive triaged.
Proof. by left. Qed.

#[export] Instance triaged_trans : Transitive triaged.
Proof.
  intros r1 r2 r3 [->|(st & Hst & ->)] [->|(st' & Hst' & ->)];
    [by left|right; by eexists|right; by eexists|right; exists st'; by split].
Qed.

Lemma set_Status_identity st r : same_identity r (set_Status st r).
Proof. by split_and!. Qed.

(** The status request writes the record back with its new status. *)
Lemma handleFindingStatus_spec fp st (s : S) : good s → triage_status st →
  match lookup_rec (sv_Store s) (m_ID (sv_Module s)) fp with
  | None => handleFindingStatus (Some (fp, st)) s = (s, HttpError StatusNotFound "finding not found")
  | Some r => ∃ w',
      handleFindingStatus (Some (fp, st)) s = (set_Store w' s, OK (PField "ok" "true")) ∧
      store_inv w' ∧ ∀ m fp', valid_module m →
        lookup_rec w' m fp' =
          if decide (m = m_ID (sv_Module s) ∧ fp' = fp) then Some (set_Status st r)
          else lookup_rec (sv_Store s) m fp'
  end.
Proof.
  intros [Hi Hm] Hst. unfold handleFindingStatus.
  assert (str_eqb st StatusAcknowledged || str_eqb st StatusSuppressed || str_eqb st StatusOpen = true)
    as ->.
  { unfold str_eqb. rewrite !orb_true_iff, !bool_decide_eq_true.
    unfold triage_status in Hst. set_solver. }
  rewrite (Get_spec _ _ fp Hi Hm), set_Store_same.
  destruct (lookup_rec _ _ fp) as [r|] eqn:Hr; [|done].
  destruct (lookup_rec_key _ _ _ _ Hi Hm Hr) as [Hrm Hrf].
  destruct (stored_same _ _ _ r (set_Status st r) Hi Hm Hr eq_refl) as [Hsto Hsame].
  destruct (Upsert_spec (sv_Store s) (set_Status st r)) as (w' & -> & Hi' & Hl);
    [done|change (valid_module (r_Module r)); by rewrite Hrm|done| |].
  { change (r_Module (set_Status st r)) with (r_Module r).
    change (r_Fingerprint (set_Status st r)) with (r_Fingerprint r). rewrite Hrm, Hrf, Hr. done. }
  exists w'. split_and!; [done|done|]. intros m fp' Hm'. rewrite Hl by done.
  change (r_Module (set_Status st r)) with (r_Module r).
  change (r_Fingerprint (set_Status st r)) with (r_Fingerprint r). rewrite Hrm, Hrf.
  destruct (decide _) as [[-> ->]|]; [|done].
  f_equal. rewrite Hr. etrans; [apply upsert_merge_same, set_Status_identity|exact Hsame].
Qed.

(** * Sequences of requests *)

Definition serve (s : S) (rq : api_request) : S := (handler rq s).1.

(** The findings of [s'] are those of [s], triaged. *)
Definition only_triaged (s s' : S) : Prop :=
  ∀ m fp, valid_module m →
    option_Forall2 triaged (lookup_rec (sv_Store s) m fp) (lookup_rec (sv_Store s') m fp).

Lemma only_triaged_same (s s' : S) : sv_Store s' = sv_Store s → only_triaged s s'.
Proof. intros Hs m fp _. rewrite Hs. by destruct (lookup_rec _ m fp); constructor. Qed.

(** What no request changes, and what only some do. *)
Record frame (rq : api_request) (s s' : S) : Prop := {
  fr_good : good s';
  fr_module : sv_Module s' = sv_Module s;
  fr_tiers : sv_TierLimits s' = sv_TierLimits s;
  fr_triage : only_triaged s s';
  fr_store : (∀ req, rq ≠ PostStatus req) → sv_Store s' = sv_Store s;
  fr_license : (∀ e now req, rq ≠ PostLicense e now req) → sv_activation s' = sv_activation s;
}.

Lemma frame_same rq (s s' : S) : good s → sv_Store s' = sv_Store s → sv_Module s' = sv_Module s →
  sv_TierLimits s' = sv_TierLimits s →
  ((∀ e now req, rq ≠ PostLicense e now req) → sv_activation s' = sv_activation s) → frame rq s s'.
Proof.
  intros [Hi Hm] Hs Hmo Ht Ha. split; try done; [split; congruence|by apply only_triaged_same].
Qed.

Lemma handleFindingStatus_frame req (s : S) : good s →
  frame (PostStatus req) s (handleFindingStatus req s).1.
Proof.
  intros Hg. destruct req as [[fp st]|]; [|by apply frame_same].
  destruct (decide (triage_status st)) as [Hst|Hst].
  - pose proof (handleFindingStatus_spec fp st s Hg Hst) as Hs.
    destruct (lookup_rec (sv_Store s) (m_ID (sv_Module s)) fp) as [r|] eqn:Hr.
    2:{ rewrite Hs. by apply frame_same. }
    destruct Hs as (w' & -> & Hi' & Hl). cbn [fst]. split; try done.
    + split; [done|]. apply Hg.
    + intros m fp' Hm. cbn. rewrite (Hl m fp' Hm). destruct (decide _) as [[-> ->]|].
      * rewrite Hr. constructor. right. by exists st.
      * by destruct (lookup_rec _ m fp'); constructor.
    + intros Hn. by destruct (Hn (Some (fp, st))).
  - assert (str_eqb st StatusAcknowledged || str_eqb st StatusSuppressed || str_eqb st StatusOpen = false)
      as Hf.
    { unfold str_eqb. rewrite !orb_false_iff, !bool_decide_eq_false.
      unfold triage_status in Hst. set_solver. }
    unfold handleFindingStatus. rewrite Hf. by apply frame_same.
Qed.

Lemma handleAddTarget_frame req (s : S) : good s →
  frame (PostTarget req) s (handleAddTarget req s).1.
Proof.
  intros Hg. unfold handleAddTarget. destruct req as [raw|]; [|by apply frame_same].
  destruct (negb _); [by apply frame_same|].
  destruct (Sched.AddTarget _ _ _) as [[sc [t|e]] sn]; [|by apply frame_same].
  cbn [set_Scheduler sv_Targets]. destruct (sv_Targets s) as [ts|]; [|by apply frame_same].
  destruct (ts_SaveTarget _ _ _ ts) as [ts' [[]|e]]; by apply frame_same.
Qed.

Lemma handleRemoveTarget_frame c (s : S) : good s →
  frame (DeleteTarget c) s (handleRemoveTarget c s).1.
Proof.
  intros Hg. unfold handleRemoveTarget. destruct (is_empty c); [by apply frame_same|].
  cbn [set_Scheduler sv_Targets]. destruct (sv_Targets s) as [ts|]; [|by apply frame_same].
  destruct (ts_DeleteTarget _ _ ts) as [ts' r]. by apply frame_same.
Qed.

Lemma handleSetLicense_frame e now req (s : S) : good s →
  frame (PostLicense e now req) s (handleSetLicense format_date e now req s).1.1.
Proof.
  intros Hg. assert (∀ s' : S, sv_Store s' = sv_Store s → sv_Module s' = sv_Module s →
    sv_TierLimits s' = sv_TierLimits s → frame (PostLicense e now req) s s') as Hf.
  { intros. apply frame_same; try done. intros Hn. by destruct (Hn e now req). }
  unfold handleSetLicense. destruct req as [raw|]; [|by apply Hf].
  repeat case_match; by apply Hf.
Qed.

Lemma serve_frame rq (s : S) : good s → frame rq s (serve s rq).
Proof.
  intros Hg. unfold serve. destruct (writes rq) eqn:Hw.
  - destruct rq; try done; cbn [Handler].
    + by apply handleFindingStatus_frame.
    + by apply handleAddTarget_frame.
    + by apply handleRemoveTarget_frame.
    + by apply handleSetLicense_frame.
  - rewrite readonly_same by done. by apply frame_same.
Qed.

Lemma only_triaged_trans (s1 s2 s3 : S) :
  only_triaged s1 s2 → only_triaged s2 s3 → only_triaged s1 s3.
Proof.
  intros H12 H23 m fp Hm. specialize (H12 m fp Hm). specialize (H23 m fp Hm).
  destruct H12 as [r1 r2 Hr|]; inversion H23; subst; constructor. by etransitivity.
Qed.

Lemma serve_all_triage rqs : ∀ s, good s →
  good (foldl serve s rqs) ∧ only_triaged s (foldl serve s rqs) ∧
  ((∀ req, PostStatus req ∉ rqs) → sv_Store (foldl serve s rqs) = sv_Store s).
Proof.
  induction rqs as [|rq rqs IH]; intros s Hg; cbn [foldl].
  { split_and!; [done|by apply only_triaged_same|done]. }
  destruct (serve_frame rq s Hg) as [Hg' _ _ Ht Hs _]. destruct (IH _ Hg') as (Hg2 & Ht2 & Hs2).
  split_and!; [done|by eapply only_triaged_trans|]. intros Hn.
  rewrite Hs2 by set_solver. apply Hs. intros req ->. apply (Hn req). by left.
Qed.

(** * The target cap *)

Lemma length_targets (ts : gmap string Target) : length (snd <$> range_map ts) = size ts.
Proof. rewrite length_fmap, range_map_perm. apply length_map_to_list. Qed.

Lemma AddTarget_grows m raw sc : 
  (length (Sched.ListTargets m (Sched.AddTarget m raw sc).1.1) <= length (Sched.ListTargets m sc) + 1)%nat.
Proof.
  unfold Sched.AddTarget. destruct (Sched.sd_modules sc !! m) as [reg|] eqn:Hr; [|cbn; lia].
  destruct (Sched.cl_ValidateTarget _ _) as [t|e]; [|cbn; lia]. cbn [fst].
  rewrite (Sched.ListTargets_set m _ sc reg Hr), length_targets.
  unfold Sched.ListTargets, Sched.snapshotTargets. rewrite Hr, length_targets, map_size_insert.
  destruct (Sched.rg_targets reg !! t_Canonical t); cbn; lia.
Qed.

Lemma RemoveTarget_shrinks m c sc :
  (length (Sched.ListTargets m (Sched.RemoveTarget m c sc)) <= length (Sched.ListTargets m sc))%nat.
Proof.
  unfold Sched.RemoveTarget. destruct (Sched.sd_modules sc !! m) as [reg|] eqn:Hr; [|done].
  rewrite (Sched.ListTargets_set m _ sc reg Hr), length_targets.
  unfold Sched.ListTargets, Sched.snapshotTargets. rewrite Hr, length_targets, map_size_delete.
  destruct (Sched.rg_targets reg !! c); cbn; lia.
Qed.

Definition target_count (s : S) : Z := Z.of_nat (length (ListTargets s)).

Lemma serve_targets rq (s : S) : good s → MaxTargets (effLimits s) ≠ 0 →
  target_count (serve s rq) <= Z.max (MaxTargets (effLimits s)) (target_count s).
Proof.
  intros Hg Hmax. unfold serve. destruct (writes rq) eqn:Hw; [|rewrite readonly_same by done; lia].
  destruct rq; try done; cbn [Handler].
  - assert (∀ r, target_count (handleFindingStatus r s).1 = target_count s) as ->; [|lia].
    clear req Hw. intros req. unfold handleFindingStatus.
    destruct req as [[fp st]|]; [|done]. destruct (_ || _); [|done].
    destruct (Get _ fp _) as [w [[r|]|e]]; [|done|done].
    by destruct (Upsert _ _) as [w' [[]|e]].
  - unfold handleAddTarget. destruct req as [raw|]; [|cbn [fst]; lia].
    destruct (canAdd (effLimits s) (Z.of_nat (length (ListTargets s)))) eqn:Hc; [|cbn; lia].
    cbn [negb]. unfold canAdd in Hc. apply orb_true_iff in Hc as [Hc|Hc]; to_prop; [done|].
    pose proof (AddTarget_grows (m_ID (sv_Module s)) raw (sv_Scheduler s)) as Hgr.
    assert (∀ s' : S, sv_Module s' = sv_Module s →
      sv_Scheduler s' = (Sched.AddTarget (m_ID (sv_Module s)) raw (sv_Scheduler s)).1.1 →
      target_count s' <= Z.max (MaxTargets (effLimits s)) (target_count s)) as Hs.
    { intros s' Hm Hsc. unfold target_count, ListTargets in *. rewrite Hm, Hsc. lia. }
    destruct (Sched.AddTarget _ _ _) as [[sc [t|e]] sn]; [|by apply Hs].
    cbn [set_Scheduler sv_Targets]. destruct (sv_Targets s) as [ts|]; [|by apply Hs].
    destruct (ts_SaveTarget _ _ _ ts) as [ts' [[]|e]]; by apply Hs.
  - unfold handleRemoveTarget. destruct (is_empty canonical); [cbn [fst]; lia|].
    pose proof (RemoveTarget_shrinks (m_ID (sv_Module s)) canonical (sv_Scheduler s)) as Hsh.
    cbn [set_Scheduler sv_Targets]. destruct (sv_Targets s) as [ts|];
      [destruct (ts_DeleteTarget _ _ ts) as [ts' r]|]; unfold target_count, ListTargets in *; cbn in *; lia.
  - assert (target_count (handleSetLicense format_date writeErr now req s).1.1 = target_count s) as ->;
      [|lia].
    unfold handleSetLicense. destruct req as [raw|]; [|done]. by repeat case_match.
Qed.

Lemma serve_all_targets rqs : ∀ s, good s → MaxTargets (effLimits s) ≠ 0 →
  (∀ e now req, PostLicense e now req ∉ rqs) →
  target_count (foldl serve s rqs) <= Z.max (MaxTargets (effLimits s)) (target_count s).
Proof.
  induction rqs as [|rq rqs IH]; intros s Hg Hmax Hl; cbn [foldl]; [lia|].
  pose proof (serve_targets rq s Hg Hmax) as Hone.
  destruct (serve_frame rq s Hg) as [Hg' _ Ht _ _ Ha].
  assert (effLimits (serve s rq) = effLimits s) as He.
  { unfold effLimits. rewrite Ht, Ha; [done|]. intros e now req ->. apply (Hl e now req). by left. }
  pose proof (IH (serve s rq) Hg') as Hall. rewrite He in Hall.
  specialize (Hall Hmax ltac:(set_solver)). lia.
Qed.
End Api.

(** * Properties *)

Section properties.
Context {W T : Type} `{StoreSpec W} `{TargetStoreOps T} `{MapRange} `{SortSlice}.
Context `{Ed25519} `{LicenseJSON} `{UnicodeTables} `{AiJSON}.
Context (format_date : Z → string) (quote : string → string).
Context (snapshot : string → Hfs.Meta → HfsSource → Z → option string).

Abbreviation run := (foldl (serve format_date quote snapshot)).


(** The target cap of the tier holds at all times: as long as the licence does
    not change, no sequence of requests leads to more targets than the limit in
    force, or than there were to begin with. *)
Theorem targets_within_cap (s : Server W T) (rqs : list api_request) :
  good s → MaxTargets (effLimits s) ≠ 0 → (∀ e now req, PostLicense e now req ∉ rqs) →
  target_count (run s rqs) <= Z.max (MaxTargets (effLimits s)) (target_count s).
Proof. apply serve_all_targets. Qed.

(** Pasting a licence key is safe. A refused key changes nothing and writes
    nothing. An accepted one changes the activation only, to one that a signature
    of the issuer backs, or to the free tier for an empty key; and the file that
    is written activates the same when the product starts again. *)
Theorem set_license_safe (s : Server W T) (writeErr : bool) (now : Z) (req : option string) :
  let '(s', r, file) := handleSetLicense format_date writeErr now req s in
  match r with
  | HttpError _ _ => s' = s ∧ file = None
  | OK _ => ∃ raw act, req = Some raw ∧ s' = set_activation act s ∧
      backed (sv_IssuerPub s) (m_ID (sv_Module s)) now act ∧
      (strings_TrimSpace raw ≠ "" → is_Some (ac_License act)) ∧
      ∀ f, file = Some f → ∀ st sc,
        sv_activation (NewServer (T:=T) format_date (sv_Module s) (st : W) sc (sv_IssuerPub s)
          (sv_LicenseFile s) (Some f) now) = act
  end.
Proof.
  unfold handleSetLicense. destruct req as [raw|]; [|done].
  set (key := strings_TrimSpace raw).
  set (act := Activate format_date (sv_IssuerPub s) (m_ID (sv_Module s)) key now).
  pose proof (Activate_backed format_date (sv_IssuerPub s) (m_ID (sv_Module s)) key now) as Hb.
  fold act in Hb.
  destruct (str_eqb (ac_Tier act) TierFree && negb (is_empty key)) eqn:Hr; [done|].
  assert (key ≠ "" → is_Some (ac_License act)) as Hlic.
  { intros Hk. destruct Hb as [(_ & Ht & _)|(lic & _ & _ & Hl & _)]; [|by eexists].
    unfold is_empty, str_eqb in Hr. by rewrite Ht, bool_decide_eq_true_2, bool_decide_eq_false_2 in Hr. }
  destruct (is_empty (sv_LicenseFile s)) eqn:Hf.
  - exists raw, act. split_and!; done.
  - destruct writeErr; [done|]. exists raw, act. split_and!; try done.
    intros f [= <-] st sc. unfold NewServer. cbn [sv_activation]. rewrite Hf.
    by rewrite (TrimSpace_newline raw : strings_TrimSpace (key +:+ _) = key).
Qed.

(** C32: AI Assist only narrates. Asking for an explanation changes nothing at all
    and always gets an answer: an HTTP error, a reason why there is none, or an
    explanation of a finding that exists, with the canonical disclaimer; and an
    endpoint that needs an API key is only ever asked on a Pro or Team licence. *)
Theorem explain_is_gated (s : Server W T) (send : Client → string → nat → wire)
    (ctxErr : nat → option string) (req : option string) :
  good s →
  let '(s', r) := handleExplainFinding quote send ctxErr req s in
  s' = s ∧
  match r with
  | OK (PExplain e) => er_Available e = true →
      er_Disclaimer e = CanonicalDisclaimer ∧
      (∃ fp, req = Some fp ∧ is_Some (lookup_rec (sv_Store s) (m_ID (sv_Module s)) fp)) ∧
      ∃ ai, sv_AI s = Some ai ∧
        (ai_Keyed ai = true → ac_Tier (sv_activation s) ∈ [TierPro; TierTeam])
  | OK _ => False
  | HttpError code _ => code = StatusBadRequest ∨ code = StatusNotFound
  end ∧
  ((aiAllowed s).1 = false → ∀ send', handleExplainFinding quote send' ctxErr req s = (s', r)).
Proof.
  intros [Hi Hm]. unfold handleExplainFinding. destruct req as [fp|]; [|by split_and!; [|left|]].
  destruct (is_empty _); [by split_and!; [|left|]|].
  rewrite (Get_spec _ _ fp Hi Hm), set_Store_same.
  destruct (lookup_rec _ _ fp) as [rec|] eqn:Hr; [|by split_and!; [|right|]].
  unfold aiAllowed. destruct (sv_AI s) as [ai|] eqn:Hai; [|done].
  destruct (ai_Keyed ai && _ && _) eqn:Hk; [done|].
  destruct (NewFindingPacket _ _ _) as [packet|e]; [|done].
  destruct (Explain quote send ctxErr (ai_Client ai) packet) as [exp|e] eqn:He; [|done].
  split_and!; [done| |done]. intros _. cbn [er_Disclaimer].
  split_and!; [by eapply Explain_disclaimer|by exists fp|].
  exists ai. split; [done|]. intros Hkey. rewrite Hkey in Hk. cbn [andb] in Hk.
  unfold str_eqb in Hk.
  destruct (decide (ac_Tier (sv_activation s) = TierPro)) as [->|Hp]; [by left|].
  destruct (decide (ac_Tier (sv_activation s) = TierTeam)) as [->|Ht]; [by right; left|].
  by rewrite !bool_decide_eq_false_2 in Hk.
Qed.
End properties.

(** ** Concrete inputs *)

Definition exModule : ModuleInfo := mkModuleInfo "demo" "Demo" "1" "host" Hour 1.
Definition exCollector : Sched.Collector :=
  Sched.mkCollector exModule (λ raw, Ok (mkTarget raw raw None)).

Definition exFinding : Finding :=
  mkFinding "fp" "t" "check" "An open port" "low" "Close it." None "id" "demo" StatusOpen None 1 2 None.
Definition exStore : Store.MemStore :=
  Store.mkMemStore {[Store.key "demo" "fp" := mkRecord exFinding 0]} None.

Definition exServer : Server Store.MemStore Store.MemStore :=
  mkServer exModule exStore
    (Sched.Register exCollector (Sched.New (Sched.mkConfig 0 0 f_zero 0 0 0))).1 (Some Store.NewMemStore)
    (Some {[TierFree := mkLimits 1 3 [] false false false]}) None [] "" (mkActivation TierFree freeLimits None "")
    (Some (mkAI (AiClient.New "http://127.0.0.1:8435" [WithMaxRetries 0]) "http://127.0.0.1:8435" false "en")) (Hfs.mkMeta "" "" "") "".

Definition exWire (c : Client) (body : string) (n : nat) : wire := Answer 200 "A port is open.".
Definition exTables : UnicodeTables := λ r, r.

Lemma exServer_good : let _ := canonical_range in good exServer.
Proof.
  intros R. split; [|reflexivity].
  intros k r Hk. unfold exServer, exStore in Hk. cbn [sv_Store ms_recs] in Hk.
  apply lookup_singleton_Some in Hk as [<- <-]. split; reflexivity.
Qed.

Section examples.
#[local] Instance exR : MapRange := canonical_range.
#[local] Instance exS : SortSlice := canonical_sort.
#[local] Instance exE : Ed25519 := exEd.
#[local] Instance exJ : LicenseJSON := exLicenseJSON.
#[local] Instance exU : UnicodeTables := exTables.
#[local] Instance exA : AiJSON := exJSON.

Abbreviation ex_run := (foldl (serve (λ _, "") (λ s, s) (λ _ _ _ _, None)) exServer).


Lemma targets_within_cap_witness :
  let rqs := [PostTarget (Some "a"); PostTarget (Some "b"); DeleteTarget "a"; PostTarget (Some "c")] in
  target_count (ex_run rqs) <= 1 ∧ ListTargets (ex_run rqs) = [mkTarget "c" "c" None].
Proof.
  intros rqs. split; [|vm_compute; reflexivity].
  etransitivity.
  - apply (targets_within_cap (λ _, "") (λ s, s) (λ _ _ _ _, None) exServer rqs exServer_good).
    + discriminate.
    + subst rqs. set_solver.
  - vm_compute. discriminate.
Defined.

Lemma explain_is_gated_witness :
  let '(s', r) := handleExplainFinding (λ s, s) exWire (λ _, None) (Some "fp") exServer in
  s' = exServer ∧ ∃ e, r = OK (PExplain e) ∧ er_Available e = true ∧
    er_Disclaimer e = CanonicalDisclaimer.
Proof.
  pose proof (explain_is_gated (λ s, s) exServer exWire (λ _, None) (Some "fp") exServer_good) as Hx.
  destruct (handleExplainFinding _ _ _ _ _) as [s' r] eqn:Hh.
  destruct Hx as (Hs & Hr & _). split; [exact Hs|].
  assert (match r with OK (PExplain e) => er_Available e | _ => false end = true) as Hav.
  { change r with (s', r).2. rewrite <-Hh. vm_compute. reflexivity. }
  destruct r as [[]|]; try discriminate Hav. eexists. split; [reflexivity|].
  split; [exact Hav|]. exact (proj1 (Hr Hav)).
Defined.
End examples.
