(* ===== verification/Console.v ===== *)
(** The source console: [src/loglight/console.go]. The callbacks that the program
    wires in, which start and stop a source, are parameters that act on the same
    state as the store. *)
From S2P Require Import Prelude Text Float Core Loglight Traffic.
Local Open Scope Z_scope.

Record sourceView := mkSourceView { vw_Source : SourceConfig; vw_ParseRate : float64 }.

Record incidentView := mkIncidentView {
  iv_key : string; iv_source : string; iv_check : string; iv_severity : string;
  iv_actor : string; iv_target : string; iv_title : string; iv_detail : string;
  iv_evidence : list string; iv_count : Z; iv_first_at : string; iv_last_at : string;
  iv_incident : bool;
}.

Inductive payload :=
| PSources (l : list sourceView) (types : list (string * string))
| PSaved (name type : string)
| PDeleted (name : string)
| PIncidents (l : list incidentView)
| PTraffic (data : MapData).

Inductive response :=
| OK (p : payload)
| HttpErr (code : Z) (msg : string).

Definition SourceTypes : list (string * string) :=
  [("syslog", "Syslog (UDP/TCP)"); ("file", "File tail"); ("journald", "systemd journald");
   ("docker", "Docker container"); ("windows", "Windows Event (via syslog forwarder)");
   ("netflow", "NetFlow / IPFIX (router flow export)")].

(** The patterns that [Register] adds to the mux: a method and a path. *)
Definition Register (traffic : bool) : list (string * string) :=
  [("GET", "/api/loglight/sources"); ("POST", "/api/loglight/source");
   ("DELETE", "/api/loglight/source"); ("GET", "/api/loglight/incidents")] ++
  (if traffic then [("GET", "/api/loglight/trafficmap")] else []).

Record saveRequest := mkSave {
  sq_Name : string;
  sq_Type : string;
  sq_Params : option (gmap string string);     (* [None] is the nil map *)
}.

Section Console.
Context {S : Type} `{LogStoreOps S} `{Quoter} `{TimeFormat}.
Context (Caps : option (S → Z)) (ParseRate : option (S → string → float64)).
Context (OnSaved : option (SourceConfig → M S string unit)) (OnDelete : option (string → S → S)).

Definition handleList (s : S) : S * response :=
  let '(s, r) := ListSources s in
  match r with
  | Err e => (s, HttpErr 500 e)
  | Ok srcs =>
    (s, OK (PSources
      (map (λ c, mkSourceView c
         (match ParseRate with None => f_of_int 1 | Some p => p s (sc_Name c) end)) srcs)
      SourceTypes))
  end.

(** The cap is checked for new names only. An error of [GetSource] counts as a
    new name, and one of [ListSources] as no sources. *)
Definition over_cap (name : string) (s : S) : S * bool :=
  let '(s, r) := GetSource name s in
  let exists_ := match r with Ok (Some _) => true | _ => false end in
  match Caps with
  | None => (s, false)
  | Some caps =>
    if exists_ then (s, false)
    else
      let max := caps s in
      if max =? 0 then (s, false)
      else
        let '(s, r) := ListSources s in
        let n := match r with Ok l => length l | Err _ => 0%nat end in
        (s, max <=? Z.of_nat n)
  end.

Definition handleSave (now : Z) (req : option saveRequest) (s : S) : S * response :=
  match req with
  | None => (s, HttpErr 400 "invalid JSON")
  | Some rq =>
    let name := strings_TrimSpace (sq_Name rq) in
    if is_empty name then (s, HttpErr 400 "a source name is required")
    else
      let params := default ∅ (sq_Params rq) in
      match validateSource (sq_Type rq) params with
      | Some e => (s, HttpErr 400 e)
      | None =>
        let '(s, over) := over_cap name s in
        if over then (s, HttpErr 403 "source limit reached for your tier — upgrade to add more")
        else
          let src := mkSource name (sq_Type rq) params true now in
          let '(s, r) := PutSource src s in
          match r with
          | Err e => (s, HttpErr 500 e)
          | Ok _ =>
            match OnSaved with
            | None => (s, OK (PSaved name (sq_Type rq)))
            | Some f =>
              let '(s, r) := f src s in
              match r with
              | Err e => (s, HttpErr 409 e)
              | Ok _ => (s, OK (PSaved name (sq_Type rq)))
              end
            end
          end
      end
  end.

Definition handleDelete (query : string) (s : S) : S * response :=
  let name := strings_TrimSpace query in
  if is_empty name then (s, HttpErr 400 "name is required")
  else
    let s := match OnDelete with None => s | Some f => f name s end in
    let '(s, r) := DeleteSource name s in
    match r with
    | Err e => (s, HttpErr 500 e)
    | Ok _ => (s, OK (PDeleted name))
    end.

(** [Traffic] reads the map, and flushes the graph first. The route only exists
    when it is set. *)
Definition handleTrafficMap (Traffic : M S string MapData) (s : S) : S * response :=
  let '(s, r) := Traffic s in
  match r with
  | Err e => (s, HttpErr 500 e)
  | Ok data => (s, OK (PTraffic data))
  end.

Definition toIncidentView (d : DetectionRecord) : incidentView :=
  mkIncidentView (dr_Key d) (dr_SourceID d) (dr_Check d) (dr_Severity d) (dr_Actor d) (dr_Target d)
    (dr_Title d) (dr_Detail d) (dr_Evidence d) (dr_Count d) (format_RFC3339 (dr_FirstAt d))
    (format_RFC3339 (dr_LastAt d)) (strings_HasPrefix (dr_Check d) "incident.").

(** The loop over the sources; a source whose detections cannot be read shows
    none. *)
Fixpoint live_incidents (cutoff : Z) (srcs : list SourceConfig) (s : S) : S * list incidentView :=
  match srcs with
  | [] => (s, [])
  | c :: rest =>
    let '(s, r) := ListDetections (sc_Name c) s in
    let dets := match r with Ok l => l | Err _ => [] end in
    let '(s, more) := live_incidents cutoff rest s in
    (s, map toIncidentView (filter (λ d, time_Before (dr_LastAt d) cutoff = false) dets) ++ more)
  end.

Definition handleIncidents (now : Z) (s : S) : S * response :=
  let '(s, r) := ListSources s in
  match r with
  | Err e => (s, HttpErr 500 e)
  | Ok srcs =>
    let '(s, live) := live_incidents (time_Add now (- ActiveWindow)) srcs s in
    (s, OK (PIncidents live))
  end.
End Console.
