(* ===== verification/Main.v ===== *)
(** The program itself: the wiring of [src/cmd/loglight/main.go] between the
    console, the ingest engine, the scheduler and the saved targets, and the
    channel flags of [src/cmd/loglight/channels.go]. *)
From S2P Require Import Prelude Text Float Core Store License Ingest Loglight Traffic Console.
From S2P Require Sched Web.
Local Open Scope Z_scope.

(** * The wired system *)

(** What the callbacks of [main] act on. *)
Record App (L T : Type) := mkApp {
  ap_Log : L;
  ap_Sched : Sched.Scheduler;
  ap_Ingest : IngestEngine Source;
  ap_Targets : T;
}.
Arguments mkApp {L T} _ _ _ _.
Arguments ap_Log {L T} _.
Arguments ap_Sched {L T} _.
Arguments ap_Ingest {L T} _.
Arguments ap_Targets {L T} _.

(** A store operation on the whole. *)
Definition on_log {L T A} (m : M L string A) : M (App L T) string A :=
  λ a, let '(l, r) := m (ap_Log a) in (mkApp l (ap_Sched a) (ap_Ingest a) (ap_Targets a), r).

#[export] Instance App_log_ops {L T} `{LogStoreOps L} : LogStoreOps (App L T) := {
  PutSource s := on_log (PutSource s);
  GetSource n := on_log (GetSource n);
  ListSources := on_log ListSources;
  DeleteSource n := on_log (DeleteSource n);
  UpsertDetection d := on_log (UpsertDetection d);
  ListDetections s := on_log (ListDetections s);
  PruneDetections t := on_log (PruneDetections t);
}.

Section App.
Context {L T : Type} `{LogStoreOps L} `{TargetStoreOps T} `{Quoter}.

Abbreviation A := (App L T).

Definition set_Sched (sc : Sched.Scheduler) (a : A) : A :=
  mkApp (ap_Log a) sc (ap_Ingest a) (ap_Targets a).
Definition set_Ingest (e : IngestEngine Source) (a : A) : A :=
  mkApp (ap_Log a) (ap_Sched a) e (ap_Targets a).
Definition set_Targets (t : T) (a : A) : A :=
  mkApp (ap_Log a) (ap_Sched a) (ap_Ingest a) t.

(** [startSource]: a source that cannot be read or built is not started. *)
Definition startSource (name : string) (a : A) : A :=
  let '(a, r) := GetSource name a in
  match r with
  | Ok (Some src) =>
    match BuildSourceWith src true with
    | Ok s => set_Ingest (Add Source_ID s (ap_Ingest a)) a
    | Err _ => a
    end
  | _ => a
  end.

(** One saved target at start-up. *)
Definition restore_one (raw : string) (a : A) : A :=
  let '(sc, r, _) := Sched.AddTarget ModuleID raw (ap_Sched a) in
  let a := set_Sched sc a in
  match r with
  | Err _ => a
  | Ok _ => startSource raw a
  end.

Definition restore (a : A) : A :=
  let '(t, r) := ts_ListSavedTargets ModuleID (ap_Targets a) in
  let a := set_Targets t a in
  match r with
  | Err _ => a
  | Ok saved => foldl (λ a raw, restore_one raw a) a saved
  end.

(** The [OnSaved] callback. *)
Definition OnSaved (s : SourceConfig) : M A string unit :=
  λ a,
    match BuildSourceWith s true with
    | Err e => (a, Err e)
    | Ok src =>
      let '(sc, r, _) := Sched.AddTarget ModuleID (sc_Name s) (ap_Sched a) in
      let a := set_Sched sc a in
      match r with
      | Err e => (a, Err e)
      | Ok _ =>
        let a := set_Ingest (Add Source_ID src (ap_Ingest a)) a in
        let '(t, r) := ts_SaveTarget ModuleID (sc_Name s) (sc_Name s) (ap_Targets a) in
        (set_Targets t a, r)
      end
    end.

(** The [OnDelete] callback; the error of [DeleteTarget] is dropped. *)
Definition OnDelete (name : string) (a : A) : A :=
  let a := set_Ingest (Remove name (ap_Ingest a)) a in
  let a := set_Sched (Sched.RemoveTarget ModuleID name (ap_Sched a)) a in
  let '(t, _) := ts_DeleteTarget ModuleID name (ap_Targets a) in
  set_Targets t a.

(** The console as [main] builds it; [caps] is the source limit of the tier. *)
Definition save (caps : Z) (now : Z) (req : option saveRequest) (a : A) : A * Console.response :=
  handleSave (Some (λ _, caps)) (Some OnSaved) now req a.

Definition remove (query : string) (a : A) : A * Console.response :=
  handleDelete (Some OnDelete) query a.

(** The tick of [pruneLoop]. *)
Definition prune_tick (now : Z) (a : A) : A := (PruneDetections (time_Add now (- (2 * ActiveWindow))) a).1.
End App.

(** * Tiers *)

Definition loglightTierLimits : gmap string Limits :=
  let basic := ["webhook"; "syslog"; "file"; "splunk-hec"] in
  let pro := basic ++ ["email"; "slack"; "telegram"] in
  <[TierFree := mkLimits 1 3 basic false false false]>
  (<[TierPro := mkLimits 10 30 pro false true true]>
  {[TierTeam := mkLimits 0 0 (pro ++ ["pagerduty"; "teams"]) true true true]}).

(** * The severity overlay of the traffic map *)

Definition severity_rank (s : string) : Z :=
  if str_eqb s "critical" then 4 else if str_eqb s "high" then 3
  else if str_eqb s "medium" then 2 else if str_eqb s "low" then 1 else 0.

Definition worst_step (ip : string) (worst : string) (d : DetectionRecord) : string :=
  if negb (str_eqb (dr_Actor d) ip) && negb (str_eqb (dr_Target d) ip) then worst
  else if severity_rank worst <? severity_rank (dr_Severity d) then dr_Severity d else worst.

Definition worstDetectionSeverity {L} `{LogStoreOps L} (ip : string) (l : L) : string :=
  match ListDetections "" l with
  | (_, Err _) => ""
  | (_, Ok dets) => foldl (worst_step ip) "" dets
  end.

(** * The traffic map *)

(** [now.AddDate(0, 0, -days)], in UTC. *)
Definition days_before (now days : Z) : Z := now - days * (24 * Hour).

(** The start of the map's window: the tier's retention, or everything. *)
Definition traffic_since (now days : Z) : Z := if 0 <? days then days_before now days else 0.

(** The [Traffic] callback, on the graph and the log store. *)
Definition traffic_map {L} `{LogStoreOps L} {RE : KeyRange edgeKey} {RL : KeyRange (string * string)}
    {RP : KeyRange Z} {RN : MapRange} {SS : SortSlice} (now days : Z) (db query : option string) :
    M (L * Graph) string MapData :=
  λ '(l, g),
    let '(g, r) := Snapshot now (traffic_since now days) db query
                     (Some (λ ip, worstDetectionSeverity ip l)) g in
    ((l, g), r).

(** The tick of [trafficPruneLoop]; the error is dropped. *)
Definition traffic_prune_tick (now days : Z) (db : option string) (g : Graph) : Graph :=
  if 0 <? days then (Prune db (days_before now days) g).1 else g.

(** * Channel flags *)

Record channelFlags := mkFlags {
  fl_webhook : string;
  fl_webhookFormat : string;
  fl_webhookSecretFile : string;
  fl_syslogAddr : string;
  fl_syslogNetwork : string;
  fl_syslogFormat : string;
  fl_syslogRFC : Z;
  fl_syslogCAFile : string;
  fl_exportFile : string;
  fl_hecURL : string;
  fl_hecTokenFile : string;
  fl_hecIndex : string;
  fl_hecCAFile : string;
  fl_evidence : string;
}.

(** The defaults that [registerChannelFlags] gives the flags. *)
Definition registerChannelFlags : channelFlags :=
  mkFlags "" "v1" "" "" "udp" "kv" 5424 "" "" "" "" "" "" "redacted".

(** The sinks of the shared library, as they are configured; [tls] is the CA file
    and the host of a TLS configuration. *)
Inductive sink :=
| SinkWebhook (url secret : string)
| SinkSyslog (addr network format : string) (rfc : Z) (tls : option (string * string))
| SinkFile (path : string)
| SinkHEC (url token index : string) (tls : option (string * string)).

Inductive channel :=
| WebhookCh (url secret : string)
| SyslogCh (addr network : string)
| HFSCh (s : sink) (evidence : string).

(** What the flags need of the shared library and of the standard library. *)
Class SinkLibrary := {
  ParseEvidenceMode : string → option string;
  ReadSecretFile : string → result string string;
  TLSConfig_error : string → string → option string;     (* CA file, host *)
  Syslog_Validate : sink → option string;
  HEC_Endpoint_error : sink → option string;
  net_SplitHost : string → string;
}.

Section Flags.
Context `{Quoter} `{SinkLibrary}.

Definition with_prefix {A} (p : string) (r : result string A) : result string A :=
  match r with Ok a => Ok a | Err e => Err (p +:+ e) end.

Definition unless {A} (e : option string) (a : A) : result string A :=
  match e with Some e => Err e | None => Ok a end.

Definition build_webhook (c : channelFlags) (mode : string) : result string (list channel) :=
  if is_empty (fl_webhook c) then Ok []
  else
    secret ← (if is_empty (fl_webhookSecretFile c) then Ok ""
              else with_prefix "-webhook-secret-file: " (ReadSecretFile (fl_webhookSecretFile c)));
    if is_empty (fl_webhookFormat c) || str_eqb (fl_webhookFormat c) "v1"
    then Ok [WebhookCh (fl_webhook c) secret]
    else if str_eqb (fl_webhookFormat c) "v2"
    then Ok [HFSCh (SinkWebhook (fl_webhook c) secret) mode]
    else Err (sprint ["-webhook-format "; strconv_Quote (fl_webhookFormat c); ": want v1 or v2"]).

Definition build_syslog (c : channelFlags) (mode : string) : result string (list channel) :=
  if is_empty (fl_syslogAddr c) then Ok []
  else if is_empty (fl_syslogFormat c) || str_eqb (fl_syslogFormat c) "kv" then
    if negb (str_eqb (fl_syslogNetwork c) "udp") && negb (str_eqb (fl_syslogNetwork c) "tcp")
    then Err (sprint ["-syslog-network "; strconv_Quote (fl_syslogNetwork c);
                      " with -syslog-format kv: want udp or tcp (tls needs json or cef)"])
    else Ok [SyslogCh (fl_syslogAddr c) (fl_syslogNetwork c)]
  else if str_eqb (fl_syslogFormat c) "json" || str_eqb (fl_syslogFormat c) "cef" then
    let host := net_SplitHost (fl_syslogAddr c) in
    tls ← (if str_eqb (fl_syslogNetwork c) "tls"
           then with_prefix "-syslog-ca-file: "
                  (unless (TLSConfig_error (fl_syslogCAFile c) host) (Some (fl_syslogCAFile c, host)))
           else Ok None);
    let s := SinkSyslog (fl_syslogAddr c) (fl_syslogNetwork c) (fl_syslogFormat c) (fl_syslogRFC c) tls in
    unless (Syslog_Validate s) [HFSCh s mode]
  else Err (sprint ["-syslog-format "; strconv_Quote (fl_syslogFormat c); ": want kv, json or cef"]).

Definition build_file (c : channelFlags) (mode : string) : list channel :=
  if is_empty (fl_exportFile c) then [] else [HFSCh (SinkFile (fl_exportFile c)) mode].

Definition build_hec (c : channelFlags) (mode : string) : result string (list channel) :=
  if is_empty (fl_hecURL c) then Ok []
  else if is_empty (fl_hecTokenFile c) then Err "-hec-url needs -hec-token-file"
  else
    tok ← with_prefix "-hec-token-file: " (ReadSecretFile (fl_hecTokenFile c));
    _ ← with_prefix "-hec-url: "
          (unless (HEC_Endpoint_error (SinkHEC (fl_hecURL c) tok (fl_hecIndex c) None)) tt);
    tls ← (if is_empty (fl_hecCAFile c) then Ok None
           else with_prefix "-hec-ca-file: "
                  (unless (TLSConfig_error (fl_hecCAFile c) "") (Some (fl_hecCAFile c, ""))));
    Ok [HFSCh (SinkHEC (fl_hecURL c) tok (fl_hecIndex c) tls) mode].

Definition build (c : channelFlags) : result string (list channel) :=
  match ParseEvidenceMode (fl_evidence c) with
  | None => Err (sprint ["-export-evidence "; strconv_Quote (fl_evidence c); ": want redacted or none"])
  | Some mode =>
    web ← build_webhook c mode;
    sys ← build_syslog c mode;
    hec ← build_hec c mode;
    Ok (web ++ sys ++ build_file c mode ++ hec)
  end.
End Flags.

(** Two equal patterns make [HandleFunc] panic; the routes of the program have none,
    so the handler can be built. *)
Lemma patterns_distinct traffic : NoDup (Web.Handler_patterns (Console.Register traffic)).
Proof. destruct traffic; apply (bool_decide_unpack _); vm_compute; exact I. Qed.
