(* ===== verification/Wiring.v ===== *)
(** How the console, the ingest engine, the scheduler and the saved targets stay
    in step: the theorems about the wiring of [src/cmd/loglight/main.go]. The
    stores are any implementations of their interfaces. *)
From S2P Require Import Prelude Text Float Core Store License Ingest Loglight Console Main.
From S2P Require Sched.
Local Open Scope Z_scope.

(** * Building what was validated *)

Section build.
Context `{Quoter}.

Lemma validated_builds c tapped : validateSource (sc_Type c) (sc_Params c) = None →
  ∃ s, BuildSourceWith c tapped = Ok s ∧ Source_ID s = sc_Name c.
Proof.
  unfold BuildSourceWith. intros Hv. rewrite Hv. unfold validateSource in Hv.
  destruct (str_eqb (sc_Type c) "syslog"); [by eexists|].
  destruct (str_eqb (sc_Type c) "windows"); [by eexists|].
  destruct (str_eqb (sc_Type c) "file"); [by eexists|].
  destruct (str_eqb (sc_Type c) "docker"); [|destruct (str_eqb (sc_Type c) "journald")];
    [destruct (str_eqb (sc_Type c) "journald"); by eexists|by eexists|].
  destruct (str_eqb (sc_Type c) "netflow"); [by eexists|done].
Qed.

Lemma BuildSourceWith_ID c tapped s : BuildSourceWith c tapped = Ok s → Source_ID s = sc_Name c.
Proof.
  intros Hb. destruct (validateSource (sc_Type c) (sc_Params c)) as [e|] eqn:Hv.
  - unfold BuildSourceWith in Hb. by rewrite Hv in Hb.
  - destruct (validated_builds c tapped Hv) as (s' & Hb' & Hid). rewrite Hb in Hb'. by injection Hb' as <-.
Qed.

Lemma BuildSourceWith_same c c' tapped : same_source c c' →
  BuildSourceWith c' tapped = BuildSourceWith c tapped.
Proof. intros [Hn Ht Hp He]. unfold BuildSourceWith. by rewrite Hn, Ht, Hp. Qed.
End build.

(** * The state of a running system *)

(** The collector that [main] registers. *)
Definition module_collector : Sched.Collector := Sched.mkCollector Describe ValidateTarget.

(** The source a stored configuration runs as. *)
Definition running_source `{Quoter} (c : SourceConfig) : option Source :=
  match BuildSourceWith c true with Ok s => Some s | Err _ => None end.

Section wired.
Context {L T : Type} `{LogStoreSpec L} `{TargetStoreSpec T} `{Quoter}.

Abbreviation A := (App L T).

Definition source_of (a : A) (n : string) : option SourceConfig := log_source (ap_Log a) n.

Definition sources (a : A) : list SourceConfig :=
  match (ListSources (ap_Log a)).2 with Ok cs => cs | Err _ => [] end.

(** What is stored is what is scheduled, saved and running. *)
Record wired (a : A) : Prop := {
  w_log : log_inv (ap_Log a);
  w_ts : ts_inv (ap_Targets a);
  w_name : ∀ n c, source_of a n = Some c →
    n ≠ "" ∧ strings_TrimSpace n = n ∧ validateSource (sc_Type c) (sc_Params c) = None;
  w_sched : ∃ reg, Sched.sd_modules (ap_Sched a) !! ModuleID = Some reg ∧
    Sched.rg_collector reg = module_collector ∧
    ∀ n, Sched.rg_targets reg !! n = (λ _, mkTarget n n None) <$> source_of a n;
  w_saved : NoDup (ts_saved (ap_Targets a) ModuleID) ∧
    ∀ x, x ∈ ts_saved (ap_Targets a) ModuleID ↔
      ∃ n, is_Some (source_of a n) ∧ x = mkMemTarget n n;
  w_running : ∀ n, ig_running (ap_Ingest a) !! n = source_of a n ≫= running_source;
}.

Lemma sources_spec a : log_inv (ap_Log a) →
  ListSources a = (a, Ok (sources a)) ∧ NoDup (map sc_Name (sources a)) ∧
  ∀ n, n ∈ map sc_Name (sources a) ↔ is_Some (source_of a n).
Proof.
  intros Ha. destruct (ListSources_spec _ Ha) as (cs & Hl & Hnd & Hin).
  unfold sources. cbn. unfold on_log. rewrite Hl. split_and!; [by destruct a|done|].
  intros n. rewrite (list_elem_of_fmap sc_Name cs n). split.
  - intros (c & -> & Hc). exists c. by apply Hin.
  - intros [c Hc]. pose proof (log_source_name _ _ _ Ha Hc) as Hn. exists c. split; [done|].
    apply Hin. by rewrite Hn.
Qed.

Lemma length_sources a a' (extra : list string) : log_inv (ap_Log a) → log_inv (ap_Log a') →
  (∀ n, is_Some (source_of a' n) → n ∈ extra ∨ is_Some (source_of a n)) →
  (length (sources a') <= length extra + length (sources a))%nat.
Proof.
  intros Ha Ha' Hs. destruct (sources_spec a Ha) as (_ & Hnd & Hin).
  destruct (sources_spec a' Ha') as (_ & Hnd' & Hin').
  rewrite <-(length_map sc_Name (sources a')), <-(length_map sc_Name (sources a)), <-length_app.
  apply submseteq_length, NoDup_submseteq; [done|].
  intros n Hn%Hin'. rewrite elem_of_app, Hin. by apply Hs.
Qed.

Lemma ValidateTarget_trimmed n : n ≠ "" → strings_TrimSpace n = n →
  ValidateTarget n = Ok (mkTarget n n None).
Proof.
  intros Hne Ht. unfold ValidateTarget. rewrite Ht. destruct (is_empty n) eqn:He; [|done].
  unfold is_empty, str_eqb in He. by apply bool_decide_eq_true in He.
Qed.

Lemma running_source_ID c s : running_source c = Some s →
  validateSource (sc_Type c) (sc_Params c) = None → Source_ID s = sc_Name c.
Proof.
  unfold running_source. intros Hr Hv. destruct (validated_builds c true Hv) as (s' & Hb & Hid).
  rewrite Hb in Hr. congruence.
Qed.

Lemma GetSource_app a n : log_inv (ap_Log a) → GetSource n a = (a, Ok (source_of a n)).
Proof.
  intros Ha. cbn. unfold on_log. rewrite (GetSource_spec _ n Ha). by destruct a.
Qed.

Lemma over_cap_app caps n a : log_inv (ap_Log a) →
  over_cap (Some (λ _, caps)) n a =
    (a, bool_decide (source_of a n = None ∧ caps ≠ 0 ∧ caps <= Z.of_nat (length (sources a)))).
Proof.
  intros Ha. unfold over_cap. rewrite GetSource_app by done.
  destruct (sources_spec a Ha) as (Hl & _ & _).
  destruct (source_of a n) as [c|]; cbn match beta.
  { by rewrite bool_decide_eq_false_2 by naive_solver. }
  destruct (Z.eqb_spec caps 0); [by rewrite bool_decide_eq_false_2 by naive_solver|].
  rewrite Hl. f_equal. destruct (Z.leb_spec caps (Z.of_nat (length (sources a)))); symmetry;
    [apply bool_decide_eq_true|apply bool_decide_eq_false]; naive_solver lia.
Qed.

(** No detection appears or changes. *)
Definition dets_kept (a a' : A) : Prop :=
  ∀ s k, valid_source s →
    log_det (ap_Log a') s k = log_det (ap_Log a) s k ∨ log_det (ap_Log a') s k = None.

(** Storing [c] and then calling [OnSaved] keeps the parts in step. *)
Lemma OnSaved_wired a c : wired a → sc_Name c ≠ "" → strings_TrimSpace (sc_Name c) = sc_Name c →
  validateSource (sc_Type c) (sc_Params c) = None → utf8_params (sc_Params c) →
  ∃ a1 a2 c', PutSource c a = (a1, Ok tt) ∧ OnSaved c a1 = (a2, Ok tt) ∧ wired a2 ∧
    same_source c c' ∧ dets_kept a a2 ∧
    ∀ n, source_of a2 n = if decide (n = sc_Name c) then Some c' else source_of a n.
Proof.
  intros [Hlog Hts Hname (reg & Hreg & Hcol & Htg) [Hnd Hsaved] Hrun] Hne Htrim Hval Hutf.
  destruct (PutSource_spec _ c Hlog Hutf) as (l' & c' & Hput & Hlog' & Hsame & Hsrc & Hdets).
  destruct (validated_builds c true Hval) as (s & Hb & Hid).
  destruct (SaveTarget_spec _ ModuleID (sc_Name c) (sc_Name c) Hts) as (t' & Hsv & Hts' & Hsaved').
  assert (is_Some (source_of a (sc_Name c)) ↔
    sc_Name c ∈ map mt_canonical (ts_saved (ap_Targets a) ModuleID)) as Hmem.
  { rewrite (list_elem_of_fmap mt_canonical (ts_saved (ap_Targets a) ModuleID) (sc_Name c)).
    setoid_rewrite Hsaved. split; [intros Hc; by eexists (mkMemTarget _ _); eauto|].
    by intros (x & Hx & n & Hn & ->); cbn in Hx; subst. }
  eexists (mkApp l' (ap_Sched a) (ap_Ingest a) (ap_Targets a)), _, c'.
  split; [cbn; unfold on_log; by rewrite Hput|]. split.
  { unfold OnSaved. rewrite Hb. unfold Sched.AddTarget. cbn. rewrite Hreg, Hcol. cbn.
    rewrite ValidateTarget_trimmed by done. cbn. rewrite Hsv. done. }
  split; [|split; [done|split]].
  2:{ intros s' k Hs'. left. cbn. by apply Hdets. }
  2:{ intros n. unfold source_of. cbn. apply Hsrc. }
  unfold source_of in *. split; unfold source_of; cbn [ap_Log ap_Sched ap_Ingest ap_Targets set_Targets set_Ingest set_Sched]; try done.
  - intros n d. rewrite Hsrc. destruct (decide (n = sc_Name c)) as [Hn|Hn]; [|apply Hname].
    intros [= <-]. destruct Hsame as [Hsn Hst Hsp _]. by rewrite Hn, Hst, Hsp.
  - eexists. split; [cbn; by rewrite lookup_alter_eq, Hreg|]. cbn. split; [done|].
    intros n. rewrite Hsrc. destruct (decide (n = sc_Name c)) as [Hn|Hn]; [subst; by rewrite lookup_insert_eq|].
    rewrite lookup_insert_ne by done. apply Htg.
  - rewrite Hsaved'. split.
    + destruct (decide _) as [[_ Hd]|_]; [|by rewrite app_nil_r].
      apply NoDup_app. split_and!; [done| |apply NoDup_singleton].
      intros x Hx Hx'%list_elem_of_singleton. subst x. apply Hd.
      apply (list_elem_of_fmap_2 mt_canonical _ _ Hx).
    + intros x. rewrite elem_of_app, Hsaved. setoid_rewrite Hsrc. clear Hsaved'.
      destruct (decide (ModuleID = ModuleID ∧ _)) as [Hd|Hd].
      * rewrite list_elem_of_singleton. split.
        -- intros [(n & Hn & ->)| ->]; eexists; (split; [|done]); destruct (decide _); by eauto.
        -- intros (n & Hn & ->). destruct (decide _); [right; by subst|left; eauto].
      * assert (is_Some (log_source (ap_Log a) (sc_Name c))) as Hc.
        { apply Hmem. apply dec_stable. naive_solver. }
        split; [|].
        -- intros [(n & Hn & ->)|[]%elem_of_nil]. eexists; (split; [|done]); destruct (decide _); by eauto.
        -- intros (n & Hn & ->). left. destruct (decide _); [subst|]; eauto.
  - intros n. unfold source_of. cbn. rewrite Hsrc, Hid. destruct (decide (n = sc_Name c)) as [Hn|Hn].
    + subst. rewrite lookup_insert_eq. cbn. unfold running_source.
      by rewrite (BuildSourceWith_same c c'), Hb.
    + rewrite lookup_insert_ne by done. apply Hrun.
Qed.

(** One save: everything or nothing. *)
Definition saved_as (caps : Z) (a a' : A) (r : Console.response) : Prop :=
  match r with
  | OK (PSaved n typ) =>
    (∃ c s, source_of a' n = Some c ∧ sc_Type c = typ ∧ BuildSourceWith c true = Ok s ∧
       ig_running (ap_Ingest a') !! n = Some s) ∧
    (∀ m, m ≠ n → source_of a' m = source_of a m) ∧
    (is_Some (source_of a n) ∨ caps = 0 ∨ Z.of_nat (length (sources a)) < caps)
  | OK _ => False
  | HttpErr code _ =>
    a' = a ∧ (code = 400 ∨ code = 403 ∧ caps ≠ 0 ∧ caps <= Z.of_nat (length (sources a)))
  end.

(** The JSON decoder of the request gives valid UTF-8. *)
Definition decoded (req : option saveRequest) : Prop :=
  ∀ rq, req = Some rq → utf8_params (default ∅ (sq_Params rq)).

Lemma save_wired caps now req a : wired a → decoded req →
  wired (save caps now req a).1 ∧ saved_as caps a (save caps now req a).1 (save caps now req a).2 ∧
  dets_kept a (save caps now req a).1.
Proof.
  intros Ha Hdec. unfold save, handleSave.
  assert (dets_kept a a) as Hrefl by (intros s k _; by left).
  destruct req as [rq|]; [|split_and!; [done|by split; [|left]|done]].
  set (name := strings_TrimSpace (sq_Name rq)).
  destruct (is_empty name) eqn:Hne; [split_and!; [done|by split; [|left]|done]|].
  destruct (validateSource (sq_Type rq) (default ∅ (sq_Params rq))) as [e|] eqn:Hv;
    [split_and!; [done|by split; [|left]|done]|].
  rewrite over_cap_app by apply Ha. destruct (bool_decide _) eqn:Hover; to_prop.
  { split_and!; [done| |done]. split; [done|]. right. naive_solver. }
  set (c := mkSource name (sq_Type rq) (default ∅ (sq_Params rq)) true now).
  destruct (OnSaved_wired a c Ha) as (a1 & a2 & c' & Hput & Hon & Ha2 & Hsame & Hdets & Hsrc);
    [done|apply TrimSpace_idem|done|by apply Hdec|].
  rewrite Hput, Hon. cbn [fst snd]. split; [done|]. split; [|done]. unfold saved_as.
  destruct (validated_builds c true Hv) as (s & Hb & Hid).
  pose proof (BuildSourceWith_same c c' true Hsame) as Hb'.
  assert (source_of a2 name = Some c') as Hc' by (rewrite Hsrc; by rewrite decide_True).
  split; [|split].
  - exists c', s. split_and!; [done|by destruct Hsame|congruence|].
    rewrite (w_running _ Ha2), Hc'. cbn. unfold running_source. by rewrite Hb', Hb.
  - intros m Hm. rewrite Hsrc. by rewrite decide_False.
  - destruct (source_of a name) eqn:Hs; [left; by eexists|]. right.
    destruct (decide (caps = 0)); [by left|]. right.
    apply Z.lt_nge. naive_solver.
Qed.

Lemma OnDelete_wired n a : wired a →
  ∃ a1 a2, OnDelete n a = a1 ∧ DeleteSource n a1 = (a2, Ok tt) ∧ wired a2 ∧ dets_kept a a2 ∧
    ∀ m, source_of a2 m = if decide (m = n) then None else source_of a m.
Proof.
  intros [Hlog Hts Hname (reg & Hreg & Hcol & Htg) [Hnd Hsaved] Hrun].
  destruct (DeleteSource_spec _ n Hlog) as (l' & Hdel & Hlog' & Hsrc & Hdets).
  destruct (DeleteTarget_spec _ ModuleID n Hts) as (t' & Hdt & Hts' & Hsaved').
  eexists _, _. split; [done|]. unfold OnDelete. cbn. rewrite Hdt. cbn.
  split; [unfold on_log; cbn; by rewrite Hdel|].
  split; [|split; [|exact Hsrc]]. 2:{ intros s k Hs. cbn. destruct (Hdets s k Hs); [by left|right; tauto]. }
  unfold source_of in *.
  split; unfold source_of; cbn [ap_Log ap_Sched ap_Ingest ap_Targets]; try done.
  - intros m d. rewrite Hsrc. destruct (decide (m = n)) as [->|Hm]; [done|apply Hname].
  - unfold Sched.RemoveTarget. cbn. rewrite Hreg.
    eexists. split; [cbn; by rewrite lookup_alter_eq, Hreg|]. cbn. split; [done|].
    intros m. rewrite Hsrc. destruct (decide (m = n)) as [->|Hm]; [by rewrite lookup_delete_eq|].
    rewrite lookup_delete_ne by done. apply Htg.
  - rewrite Hsaved', decide_True by done. split; [by apply NoDup_filter|].
    intros x. rewrite list_elem_of_filter, Hsaved. setoid_rewrite Hsrc. split.
    + intros (Hx & m & Hm & ->). cbn in Hx. exists m. by rewrite decide_False.
    + intros (m & Hm & ->). destruct (decide (m = n)) as [->|Hne]; [by destruct Hm|]. eauto.
  - intros m. cbn. rewrite Hsrc. destruct (decide (m = n)) as [->|Hm].
    + by rewrite lookup_delete_eq.
    + rewrite lookup_delete_ne by done. apply Hrun.
Qed.

Lemma remove_wired query a : wired a →
  wired (remove query a).1 ∧ dets_kept a (remove query a).1 ∧
  match (remove query a).2 with
  | OK (PDeleted n) => ∀ m, source_of (remove query a).1 m = if decide (m = n) then None else source_of a m
  | OK _ => False
  | HttpErr code _ => (remove query a).1 = a ∧ code = 400
  end.
Proof.
  intros Ha. unfold remove, handleDelete.
  destruct (is_empty _); [split_and!; try done; intros s k _; by left|].
  destruct (OnDelete_wired (strings_TrimSpace query) a Ha) as (a1 & a2 & <- & Hd & Ha2 & Hk & Hs).
  rewrite Hd. by cbn.
Qed.

(** A request to the console. *)
Inductive console_request :=
| Save (now : Z) (rq : option saveRequest)
| Delete (query : string).

Definition serve (caps : Z) (a : A) (rq : console_request) : A :=
  match rq with
  | Save now rq => (save caps now rq a).1
  | Delete q => (remove q a).1
  end.

Definition decoded_request (rq : console_request) : Prop :=
  match rq with Save _ rq => decoded rq | Delete _ => True end.

Lemma serve_within caps a rq : wired a → decoded_request rq → wired (serve caps a rq) ∧
  (caps ≠ 0 → Z.of_nat (length (sources (serve caps a rq))) <= Z.max caps (Z.of_nat (length (sources a)))).
Proof.
  intros Ha Hdec. destruct rq as [now rq|q]; cbn [serve].
  - destruct (save_wired caps now rq a Ha Hdec) as (Ha' & Hs & _). split; [done|]. intros Hc.
    destruct (save caps now rq a) as [a' r]. cbn [fst snd] in *. unfold saved_as in Hs.
    destruct r as [[]|]; try done; [|destruct Hs as [-> _]; lia].
    destruct Hs as (_ & Hother & Hroom).
    assert (∀ m, is_Some (source_of a' m) → m ∈ [name] ∨ is_Some (source_of a m)) as Hsub.
    { intros m Hm. destruct (decide (m = name)) as [->|Hne]; [left; by left|right].
      by rewrite <-Hother. }
    destruct Hroom as [Hold|[?|Hroom]]; [|done|].
    + pose proof (length_sources a a' [] (w_log _ Ha) (w_log _ Ha')) as Hl.
      cbn in Hl. enough (length (sources a') <= length (sources a))%nat by lia. apply Hl.
      intros m Hm. destruct (Hsub m Hm) as [->%list_elem_of_singleton|?]; by right.
    + pose proof (length_sources a a' [name] (w_log _ Ha) (w_log _ Ha') Hsub). cbn in *. lia.
  - destruct (remove_wired q a Ha) as (Ha' & _ & Hs). split; [done|]. intros _.
    pose proof (length_sources a (remove q a).1 [] (w_log _ Ha) (w_log _ Ha')) as Hl.
    cbn in Hl. enough (length (sources (remove q a).1) <= length (sources a))%nat by lia. apply Hl.
    intros m Hm. right. destruct ((remove q a).2) as [[]|]; try done.
    + rewrite Hs in Hm. destruct (decide _); [by destruct Hm|done].
    + destruct Hs as [Heq _]. by rewrite <-Heq.
Qed.

Lemma serve_all_within caps rqs : Forall decoded_request rqs → ∀ a, wired a → wired (foldl (serve caps) a rqs) ∧
  (caps ≠ 0 → Z.of_nat (length (sources (foldl (serve caps) a rqs)))
              <= Z.max caps (Z.of_nat (length (sources a)))).
Proof.
  induction 1 as [|rq rqs Hrq _ IH]; intros a Ha; cbn [foldl]; [split; [done|lia]|].
  destruct (serve_within caps a rq Ha Hrq) as [Ha1 Hl1]. destruct (IH _ Ha1) as [Ha2 Hl2].
  split; [done|]. intros Hc. specialize (Hl1 Hc). specialize (Hl2 Hc). lia.
Qed.

(** A process that has just started: the module is registered, nothing runs. *)
Definition booted (cfg : Sched.Config) (l : L) (t : T) : A :=
  mkApp l (Sched.Register module_collector (Sched.New cfg)).1 NewIngestEngine t.

(** The sources in [ns] have been restored. *)
Record restored (a : A) (ns : list string) (a' : A) : Prop := {
  rs_log : ap_Log a' = ap_Log a;
  rs_ts : ap_Targets a' = ap_Targets a;
  rs_sched : ∃ reg, Sched.sd_modules (ap_Sched a') !! ModuleID = Some reg ∧
    Sched.rg_collector reg = module_collector ∧
    ∀ n, Sched.rg_targets reg !! n = if decide (n ∈ ns) then Some (mkTarget n n None) else None;
  rs_running : ∀ n, ig_running (ap_Ingest a') !! n =
    if decide (n ∈ ns) then source_of a n ≫= running_source else None;
}.

Lemma booted_restored cfg a : restored a [] (booted cfg (ap_Log a) (ap_Targets a)).
Proof.
  split; [done|done| |done].
  exists (Sched.mkReg module_collector Describe ∅). split_and!; [|done|done].
  reflexivity.
Qed.

Lemma startSource_app n c s a : log_inv (ap_Log a) → source_of a n = Some c →
  BuildSourceWith c true = Ok s →
  startSource n a = set_Ingest (Add Source_ID s (ap_Ingest a)) a.
Proof.
  intros Hl Hs Hb. unfold startSource. rewrite GetSource_app by done. by rewrite Hs, Hb.
Qed.

Lemma restore_one_restored a ns a' n : wired a → restored a ns a' → is_Some (source_of a n) →
  restored a (ns ++ [n]) (restore_one n a').
Proof.
  intros Ha [Hl Ht (reg & Hreg & Hcol & Htg) Hrun] [c Hc].
  destruct (w_name _ Ha n c Hc) as (Hne & Htrim & Hv).
  destruct (validated_builds c true Hv) as (s & Hb & Hid).
  assert (sc_Name c = n) as Hcn by exact (log_source_name _ _ _ (w_log _ Ha) Hc).
  unfold restore_one, Sched.AddTarget. rewrite Hreg, Hcol. cbn [Sched.cl_ValidateTarget module_collector].
  rewrite ValidateTarget_trimmed by done. cbn match beta.
  rewrite (startSource_app n c s); [| |unfold source_of; cbn; by rewrite Hl|done].
  2:{ cbn. rewrite Hl. apply Ha. }
  assert (∀ m, m ∈ ns ++ [n] ↔ m ∈ ns ∨ m = n) as Hin by set_solver.
  split; cbn; try done.
  - eexists. split; [by rewrite lookup_alter_eq, Hreg|]. cbn. split; [done|].
    intros m. destruct (decide (m = n)) as [->|Hmn].
    + rewrite lookup_insert_eq, decide_True by (apply Hin; by right). done.
    + rewrite lookup_insert_ne by done. rewrite Htg. apply decide_ext. rewrite Hin. naive_solver.
  - intros m. rewrite Hid, Hcn. destruct (decide (m = n)) as [->|Hmn].
    + rewrite lookup_insert_eq, decide_True by (apply Hin; by right).
      rewrite Hc. cbn. unfold running_source. by rewrite Hb.
    + rewrite lookup_insert_ne by done. rewrite Hrun. apply decide_ext. rewrite Hin. naive_solver.
Qed.

Lemma restore_all_restored a l : wired a → Forall (λ n, is_Some (source_of a n)) l →
  ∀ ns a', restored a ns a' → restored a (ns ++ l) (foldl (λ a raw, restore_one raw a) a' l).
Proof.
  intros Ha. induction 1 as [|n l Hn _ IH]; intros ns a' Hr; cbn [foldl]; [by rewrite app_nil_r|].
  rewrite cons_middle, app_assoc. apply IH. by apply restore_one_restored.
Qed.

Lemma restore_wired cfg a : wired a →
  let a' := restore (booted cfg (ap_Log a) (ap_Targets a)) in
  wired a' ∧ ap_Log a' = ap_Log a ∧ ap_Targets a' = ap_Targets a ∧
  ig_running (ap_Ingest a') = ig_running (ap_Ingest a).
Proof.
  intros Ha. set (saved := ts_saved (ap_Targets a) ModuleID).
  destruct (w_saved _ Ha) as [_ Hsaved].
  assert (restore (booted cfg (ap_Log a) (ap_Targets a)) =
    foldl (λ a raw, restore_one raw a) (booted cfg (ap_Log a) (ap_Targets a)) (map mt_raw saved)) as ->.
  { unfold restore. cbn [booted ap_Targets]. by rewrite ListSavedTargets_spec by apply Ha. }
  assert (Forall (λ n, is_Some (source_of a n)) (map mt_raw saved)) as Hall.
  { apply Forall_fmap, Forall_forall. intros x (n & Hn & ->)%Hsaved. done. }
  pose proof (restore_all_restored a _ Ha Hall [] _ (booted_restored cfg a)) as Hr. cbn [app] in Hr.
  assert (∀ n, n ∈ map mt_raw saved ↔ is_Some (source_of a n)) as Hin.
  { intros n. rewrite (list_elem_of_fmap mt_raw saved n). split.
    - by intros (x & -> & (m & Hm & ->)%Hsaved).
    - intros Hn. exists (mkMemTarget n n). split; [done|]. apply Hsaved. eauto. }
  set (a' := foldl _ _ _) in *. destruct Hr as [Hl Ht (reg & Hreg & Hcol & Htg) Hrun].
  assert (∀ n, source_of a' n = source_of a n) as Hsrc by (intros n; unfold source_of; by rewrite Hl).
  assert (∀ n, ig_running (ap_Ingest a') !! n = source_of a n ≫= running_source) as Hrun'.
  { intros n. rewrite Hrun. destruct (decide _) as [Hd|Hd]; [done|]. rewrite Hin in Hd.
    destruct (source_of a n); [destruct Hd; by eexists|done]. }
  split_and!; [|done|done|].
  - split; rewrite ?Hl, ?Ht; try apply Ha.
    + intros n c. rewrite Hsrc. apply Ha.
    + exists reg. split_and!; [done|done|]. intros n. rewrite Htg, Hsrc.
      destruct (decide _) as [Hd|Hd]; rewrite Hin in Hd.
      * by destruct Hd as [c ->].
      * destruct (source_of a n); [destruct Hd; by eexists|done].
    + split; [apply Ha|]. intros x. setoid_rewrite Hsrc. apply Hsaved.
    + intros n. rewrite Hsrc. apply Hrun'.
  - apply map_eq. intros n. rewrite Hrun', (w_running _ Ha). done.
Qed.
End wired.

(** * Properties *)

(** C12: Whatever the console is asked, what is stored, scheduled, saved and
    running stays the same set of sources, each running exactly as its stored
    configuration says, and a tier's cap is never exceeded: after any sequence of
    saves and deletions there are at most as many sources as the cap allows, or
    as there were if a downgrade left more. *)
Theorem console_keeps_wired `{LogStoreSpec L} `{TargetStoreSpec T} `{Quoter}
    (a : App L T) (caps : Z) (rqs : list console_request) :
  Forall decoded_request rqs → wired a →
  wired (foldl (serve caps) a rqs) ∧
  (caps ≠ 0 → Z.of_nat (length (sources (foldl (serve caps) a rqs)))
              <= Z.max caps (Z.of_nat (length (sources a)))).
Proof. intros Hr Ha. exact (serve_all_within caps rqs Hr a Ha). Qed.

(** A save is all or nothing. A reply of success means that the source is
    stored under its name with the type asked for and runs as it is stored, that
    every other source is as before, and that there was room for it or it was
    there already. A refusal is a bad request or the cap, and changes nothing. *)
Theorem save_all_or_nothing `{LogStoreSpec L} `{TargetStoreSpec T} `{Quoter}
    (a : App L T) (caps now : Z) (rq : option saveRequest) :
  wired a → decoded rq → saved_as caps a (save caps now rq a).1 (save caps now rq a).2.
Proof. intros Ha Hrq. by apply save_wired. Qed.

(** A restart loses no source. The boot sequence run on the two stores of a
    running system, with a scheduler that only has the module registered and an
    ingest engine that runs nothing, starts exactly the sources that ran, with
    the configuration they ran with, and schedules and saves what it did. *)
Theorem restart_restores `{LogStoreSpec L} `{TargetStoreSpec T} `{Quoter}
    (cfg : Sched.Config) (a : App L T) :
  wired a →
  let a' := restore (booted cfg (ap_Log a) (ap_Targets a)) in
  wired a' ∧ ap_Log a' = ap_Log a ∧ ap_Targets a' = ap_Targets a ∧
  ig_running (ap_Ingest a') = ig_running (ap_Ingest a).
Proof. apply restore_wired. Qed.

(** ** Concrete inputs *)

Definition exSched : Sched.Config := Sched.mkConfig 0 0 f_zero 0 0 0.
Definition exApp : App Loglight.MemStore Store.MemStore :=
  booted exSched Loglight.NewMemStore (Store.mkMemStore ∅ (Some ∅)).
Definition exQuoter : Quoter := λ s, s.

Lemma exApp_wired : let _ := exQuoter in let _ := canonical_range in let _ := canonical_sort in
  wired exApp.
Proof.
  intros Q R S. split; try done.
  - by eexists.
  - exists (Sched.mkReg module_collector Describe ∅). by split_and!.
  - split; [constructor|]. intros x. split; [by intros []%elem_of_nil|].
    by intros (n & [c Hc] & _).
Qed.

Definition exRequest (name path : string) : option saveRequest :=
  Some (mkSave name "file" (Some {["path" := path]})).

Lemma exRequest_decoded name path :
  utf8_ValidString path = true → decoded (exRequest name path).
Proof. intros Hp rq [= <-]. by apply map_Forall_singleton. Qed.

Lemma console_keeps_wired_witness :
  let _ := exQuoter in let _ := canonical_range in let _ := canonical_sort in
  let rqs := [Save 5 (exRequest " auth " "/var/log/auth.log"); Save 6 (exRequest "web" "/w.log");
              Delete "auth"; Save 7 (exRequest "web" "/v.log")] in
  wired exApp ∧ wired (foldl (serve 1) exApp rqs) ∧
  Z.of_nat (length (sources (foldl (serve 1) exApp rqs))) <= 1.
Proof.
  intros Q R S rqs. split; [exact exApp_wired|].
  assert (Forall decoded_request rqs) as Hr.
  { repeat (apply Forall_cons; split); try exact I; try (apply exRequest_decoded; reflexivity); constructor. }
  destruct (console_keeps_wired exApp 1 rqs Hr exApp_wired) as [Hw Hl].
  split; [exact Hw|]. apply Hl. discriminate.
Defined.

Lemma save_all_or_nothing_witness :
  let _ := exQuoter in let _ := canonical_range in let _ := canonical_sort in
  let '(a, r) := save 1 5 (exRequest " auth " "/var/log/auth.log") exApp in
  r = OK (PSaved "auth" "file") ∧
  saved_as 1 exApp a r ∧ (save 1 6 (exRequest "web" "/w.log") a).2
    = HttpErr 403 "source limit reached for your tier — upgrade to add more".
Proof.
  intros Q R S.
  pose proof (save_all_or_nothing exApp 1 5 (exRequest " auth " "/var/log/auth.log") exApp_wired
    (exRequest_decoded " auth " "/var/log/auth.log" eq_refl)) as H.
  split; [vm_compute; reflexivity|]. split; [exact H|vm_compute; reflexivity].
Defined.

Lemma restart_restores_witness :
  let _ := exQuoter in let _ := canonical_range in let _ := canonical_sort in
  let a := serve 1 exApp (Save 5 (exRequest "auth" "/var/log/auth.log")) in
  wired a ∧ ig_running (ap_Ingest (restore (booted exSched (ap_Log a) (ap_Targets a))))
    = {["auth" := FileSource "auth" "/var/log/auth.log" "" ""]}.
Proof.
  intros Q R S a.
  assert (wired a) as Ha.
  { apply (serve_within 1 exApp); [exact exApp_wired|]. apply exRequest_decoded. reflexivity. }
  split; [exact Ha|]. destruct (restart_restores exSched a Ha) as (_ & _ & _ & Hr).
  etransitivity; [exact Hr|]. vm_compute. reflexivity.
Defined.
