(* ===== verification/Tasks.v ===== *)
(** The goroutines of the program: a scan ([src/sched/scheduler.go] with
    [src/store/reconcile.go] and the collector of [src/loglight/collector.go]), the
    writing of a record ([src/loglight/pipeline.go]) and a triage request
    ([src/web/server.go]), as sequences of the calls they make. No lock is held
    from one call to the next. Run alone, each is the definition of its own file;
    in any interleaving each keeps the store well formed and ends. *)
From S2P Require Import Prelude Conc Text Float Core Store Reconcile Ingest.
From S2P Require Import Detect Correlate Notify Loglight Pipeline Shape System.
From S2P Require Import License Verify AiClient Web Api.
From S2P Require Sched.
Local Open Scope Z_scope.

(** * Stored findings stay well formed *)

Section stored.
Context {W : Type} `{StoreSpec W} `{JSONEncoder} `{!StoreJSON W}.

(** Every stored finding would pass the ingest check. *)
Definition store_ok (w : W) : Prop :=
  store_inv w ∧ ∀ m fp r, valid_module m → lookup_rec w m fp = Some r → ingestible (r_Finding r).

(** Nothing is dropped from [w] to [w']. *)
Definition grows (w w' : W) : Prop :=
  ∀ m fp, valid_module m → is_Some (lookup_rec w m fp) → is_Some (lookup_rec w' m fp).

#[export] Instance grows_refl : Reflexive grows.
Proof. by intros w m fp. Qed.
#[export] Instance grows_trans : Transitive grows.
Proof. intros w1 w2 w3 H12 H23 m fp Hm Hs. auto. Qed.

Lemma merge_ingestible o r : (∀ o', o = Some o' → ingestible (r_Finding o')) → ingestible (r_Finding r) →
  ingestible (r_Finding (upsert_merge o r)).
Proof.
  intros Ho Hr. destruct o as [o|]; [|rewrite upsert_merge_new; by destruct r as [[] ?]].
  specialize (Ho o eq_refl). destruct (upsert_merge_mixes o r) as [Hf Ht Hc Hti Hre Hs].
  unfold ingestible, r_Fingerprint, r_Target in *. destruct Ho as (?&?&?&?&?&?), Hr as (?&?&?&?&?&?).
  split_and!.
  - destruct Hf as [-> | ->]; done.
  - destruct Ht as [-> | ->]; done.
  - destruct Hc as [-> | ->]; done.
  - destruct Hti as [-> | ->]; done.
  - destruct Hre as [-> | ->]; done.
  - destruct Hs as [-> | ->]; done.
Qed.

Lemma Upsert_store_ok w r : store_ok w → valid_module (r_Module r) → storable W (r_Evidence r) →
  (lookup_rec w (r_Module r) (r_Fingerprint r) = None →
   ∀ m fp o, lookup_rec w m fp = Some o → f_ID (r_Finding o) ≠ f_ID (r_Finding r)) →
  ingestible (r_Finding r) →
  ∃ w', Upsert r w = (w', Ok tt) ∧ store_ok w' ∧ grows w w'.
Proof.
  intros [Hw Hok] Hm Hev Hid Hr. destruct (Upsert_spec w r Hw Hm Hev Hid) as (w' & Hu & Hw' & Hl).
  exists w'. split_and!; [done|split; [done|]|].
  - intros m fp x Hvm. rewrite Hl by done. case_decide; [|by apply Hok].
    intros [= <-]. apply merge_ingestible; [|done]. intros o Ho. by eapply Hok.
  - intros m fp Hvm Hs. rewrite Hl by done. case_decide; [by eexists|done].
Qed.


(** ** A scan's second half, as its calls *)

Section scan.
Context (now : Z) (newID : Z → M W string string) (mo : ModuleInfo).

(** The id is random and touches no shared state, so it is drawn together with
    the write. *)
Definition insertNew (f : Finding) : M W string Record :=
  id ← newID now;
  let rec := newRecord (m_ID mo) f id now in
  _ ← Upsert rec;
  mret rec.

Fixpoint fresh_prog (byFP : gmap string Record) (fresh : list Finding) (seen : gset string)
    (res : ReconcileResult) : eprog W (ReconcileResult * string) (gset string * ReconcileResult) :=
  match fresh with
  | [] => mret (seen, res)
  | f :: rest =>
    match ValidateForIngest f with
    | Some err => fresh_prog byFP rest seen (addRejected f err res)
    | None =>
      let f := capEvidence f in
      let seen := {[f_Fingerprint f]} ∪ seen in
      match byFP !! f_Fingerprint f with
      | None =>
        rec ← ecall (orReturn res (insertNew f));
        fresh_prog byFP rest seen (addNewlyOpen (r_Finding rec) res)
      | Some prev =>
        let merged := refreshRecord prev f now in
        _ ← ecall (orReturn res (Upsert merged));
        fresh_prog byFP rest seen
          (if reopened prev then addNewlyOpen (r_Finding merged) res else res)
      end
    end
  end.

Fixpoint absent_prog (existing : list Record) (seen : gset string) (res : ReconcileResult) :
    eprog W (ReconcileResult * string) ReconcileResult :=
  match existing with
  | [] => mret res
  | r :: rest =>
    if bool_decide (r_Fingerprint r ∈ seen) then absent_prog rest seen res
    else if settled r then absent_prog rest seen res
    else
      let r := set_AbsentStreak (r_AbsentStreak r + 1) r in
      let expired := ResolveAfterOrDefault mo <=? r_AbsentStreak r in
      let r := if expired then set_Resolved now r else r in
      let res := if expired then addResolved (r_Finding r) res else res in
      _ ← ecall (orReturn res (Upsert r));
      absent_prog rest seen res
  end.

Definition Reconcile_prog (target : string) (fresh : list Finding) :
    eprog W (ReconcileResult * string) ReconcileResult :=
  existing ← ecall (orReturn emptyResult (ListByTarget (m_ID mo) target));
  '(seen, res) ← fresh_prog (byFingerprint existing) fresh ∅ emptyResult;
  absent_prog existing seen res.

(** *** Alone *)

Lemma run_fresh byFP fresh : ∀ seen res w,
  run_alone (fresh_prog byFP fresh seen res) w = Reconcile_fresh now newID mo byFP fresh seen res w.
Proof.
  induction fresh as [|f fresh IH]; intros seen res w; cbn [fresh_prog Reconcile_fresh]; [done|].
  destruct (ValidateForIngest f); [apply IH|].
  destruct (byFP !! _) as [prev|]; rewrite run_bind, bind_at, run_ecall.
  - unfold orReturn. destruct (Upsert _ w) as [w' [[]|e]]; [apply IH|done].
  - unfold orReturn, insertNew, mbind, M_mbind, mret, M_mret.
    destruct (newID now w) as [w' [id|e]]; [|done].
    destruct (Upsert _ w') as [w'' [[]|e]]; [apply IH|done].
Qed.

Lemma run_absent existing : ∀ seen res w,
  run_alone (absent_prog existing seen res) w = Reconcile_absent now mo existing seen res w.
Proof.
  induction existing as [|r existing IH]; intros seen res w; cbn [absent_prog Reconcile_absent]; [done|].
  case_bool_decide; [apply IH|]. destruct (settled r); [apply IH|].
  rewrite run_bind, bind_at, run_ecall. unfold orReturn.
  destruct (Upsert _ w) as [w' [[]|e]]; [apply IH|done].
Qed.

Lemma run_Reconcile target fresh w :
  run_alone (Reconcile_prog target fresh) w = Reconcile now newID mo target fresh w.
Proof.
  unfold Reconcile_prog, Reconcile. rewrite run_bind, bind_at, run_ecall.
  destruct (orReturn _ _ w) as [w1 [ex|[? ?]]]; [|done].
  rewrite run_bind, bind_at, run_fresh.
  destruct (Reconcile_fresh _ _ _ _ _ _ _ w1) as [w2 [[seen res]|[? ?]]]; [apply run_absent|done].
Qed.

(** *** Among others *)

Hypothesis newID_ok : fresh_ids newID.
Hypothesis Hmo : valid_module (m_ID mo).

(** The records a scan works on: its module's, still stored, well formed. *)
Definition known (w : W) (r : Record) : Prop :=
  r_Module r = m_ID mo ∧ storable W (r_Evidence r) ∧ ingestible (r_Finding r) ∧
  is_Some (lookup_rec w (m_ID mo) (r_Fingerprint r)).

Lemma known_grows w w' r : grows w w' → known w r → known w' r.
Proof. intros Hg (? & ? & ? & ?). split_and!; auto. Qed.

Lemma capEvidence_ingestible f : ingestible f → ingestible (capEvidence f).
Proof. by destruct (capEvidence_cases f) as [->|[ev ->]]. Qed.

Definition holds (w : W) (fp : string) : Prop := is_Some (lookup_rec w (m_ID mo) fp).

Lemma holds_grows w w' fp : grows w w' → holds w fp → holds w' fp.
Proof. intros Hg. by apply Hg. Qed.

(** A write of the module's record. *)
Lemma Upsert_known r w : store_ok w → r_Module r = m_ID mo → storable W (r_Evidence r) →
  ingestible (r_Finding r) → holds w (r_Fingerprint r) →
  ∃ w', Upsert r w = (w', Ok tt) ∧ store_ok w' ∧ grows w w'.
Proof.
  intros Hw Hr Hs Hi Hh. apply Upsert_store_ok; [done|by rewrite Hr|done| |done].
  rewrite Hr. intros Hn. unfold holds in Hh. rewrite Hn in Hh. by destruct Hh.
Qed.

Lemma insertNew_ok f w : store_ok w → ingestible (capEvidence f) →
  ∃ w' rec, insertNew (capEvidence f) w = (w', Ok rec) ∧ store_ok w' ∧ grows w w' ∧ holds w' (f_Fingerprint f).
Proof.
  intros [Hw Hok] Hf. destruct (newID_ok now w Hw) as (w0 & id & Hid & Hw0 & Hl0 & Hfree).
  assert (store_ok w0) as Hok0.
  { split; [done|]. intros m fp r Hm. rewrite Hl0. by apply Hok. }
  pose proof (Upsert_spec w0 (newRecord (m_ID mo) (capEvidence f) id now) Hw0 Hmo) as Hup.
  destruct (Upsert_store_ok w0 (newRecord (m_ID mo) (capEvidence f) id now) Hok0)
    as (w1 & Hu & Hw1 & Hg); [done|apply capEvidence_storable; exact _|..].
  - intros _ m fp o. rewrite Hl0. apply Hfree.
  - destruct Hf as (?&?&?&?&?&?). by split_and!.
  - exists w1, (newRecord (m_ID mo) (capEvidence f) id now). unfold insertNew, mbind, M_mbind.
    rewrite Hid, Hu. split_and!; [done|done| |].
    + intros m fp Hm Hs. apply Hg; [done|]. by rewrite Hl0.
    + destruct Hup as (w2 & Hu2 & _ & Hl2).
      * apply capEvidence_storable; exact _.
      * intros _ m fp o. rewrite Hl0. apply Hfree.
      * assert (w2 = w1) as -> by congruence. unfold holds. rewrite Hl2 by done.
        rewrite decide_True; [by eexists|]. split; [done|]. cbn. by rewrite capEvidence_Fingerprint.
Qed.

Lemma fresh_sound byFP fresh : ∀ seen res w, (∀ fp r, byFP !! fp = Some r → known w r ∧ r_Fingerprint r = fp) →
  sound store_ok grows grows
    (λ w' r, ∃ x, r = Ok x ∧ ∀ f, f ∈ fresh → is_valid f = true → holds w' (f_Fingerprint f))
    w (fresh_prog byFP fresh seen res).
Proof.
  induction fresh as [|f fresh IH]; intros seen res w Hby; cbn [fresh_prog].
  { intros w' _ _. exists (seen, res). split; [done|]. by intros f ?%not_elem_of_nil. }
  destruct (ValidateForIngest f) as [err|] eqn:Hv.
  { eapply (sound_weaken store_ok grows grows); [done| |by apply IH]. intros w' r _ _ (x & -> & Hx). exists x. split; [done|].
    intros g [->|Hg]%elem_of_cons; [|by apply Hx]. unfold is_valid. by rewrite Hv. }
  apply ValidateForIngest_None in Hv as Hf. apply capEvidence_ingestible in Hf as Hcap.
  assert (∀ seen res w', grows w w' → holds w' (f_Fingerprint f) →
    sound store_ok grows grows
      (λ w' r, ∃ x, r = Ok x ∧ ∀ g, g ∈ f :: fresh → is_valid g = true → holds w' (f_Fingerprint g))
      w' (fresh_prog byFP fresh seen res)) as Hnext.
  { intros seen' res' w' Hg Hh. eapply (sound_weaken store_ok grows grows); [done| |apply IH].
    - intros w'' r _ Hg' (x & -> & Hx). exists x. split; [done|].
      intros g [->|Hin]%elem_of_cons ?; [by eapply holds_grows|by apply Hx].
    - intros fp r Hr. destruct (Hby fp r Hr). split; [by eapply known_grows|done]. }
  destruct (byFP !! _) as [prev|] eqn:Hp; apply sound_ecall; intros w' Hw' Hg; unfold orReturn.
  - destruct (Hby _ _ Hp) as [(Hpm & _ & Hpi & Hps) Hpf].
    rewrite capEvidence_Fingerprint in Hpf.
    destruct (Upsert_known (refreshRecord prev (capEvidence f) now) w') as (w1 & -> & Hw1 & Hg1).
    + done.
    + exact Hpm.
    + apply capEvidence_storable; exact _.
    + destruct Hpi as (?&?&?&?&?&?), Hcap as (?&?&?&?&?&?). by split_and!.
    + change (holds w' (r_Fingerprint prev)). by eapply holds_grows.
    + exists w1, tt. split_and!; [done..|]. apply Hnext; [by etransitivity|].
      rewrite <- Hpf. eapply holds_grows; [exact Hg1|]. by eapply holds_grows.
  - destruct (insertNew_ok f w' Hw' Hcap) as (w1 & rec & -> & Hw1 & Hg1 & Hh).
    exists w1, rec. split_and!; [done..|]. apply Hnext; [by etransitivity|done].
Qed.

Lemma absent_sound (Q : W → Prop) existing : (∀ w w', grows w w' → Q w → Q w') → ∀ seen res w, Q w →
  Forall (known w) existing →
  sound store_ok grows grows (λ w' r, ∃ x, r = Ok x ∧ Q w') w (absent_prog existing seen res).
Proof.
  intros HQ. induction existing as [|r existing IH]; intros seen res w Hq Hk; cbn [absent_prog].
  { intros w' _ Hg. exists res. split; [done|]. by eapply HQ. }
  apply Forall_cons in Hk as [(Hrm & Hrs & Hri & Hrl) Hk].
  case_bool_decide; [by apply IH|]. destruct (settled r); [by apply IH|].
  apply sound_ecall. intros w' Hw' Hg. unfold orReturn. set (r' := if _ <=? _ then set_Resolved _ _ else _).
  assert (r_Module r' = r_Module r ∧ r_Fingerprint r' = r_Fingerprint r ∧ r_Evidence r' = r_Evidence r ∧
    (ingestible (r_Finding r) → ingestible (r_Finding r'))) as (Hm' & Hf' & He' & Hi').
  { subst r'. case_ifs; by split_and!. }
  destruct (Upsert_known r' w' Hw') as (w1 & -> & Hw1 & Hg1); [by rewrite Hm'|by rewrite He'|auto|..].
  { rewrite Hf'. by eapply holds_grows. }
  assert (grows w w1) as Hg01 by (by etransitivity).
  exists w1, tt. split_and!; [done..|]. apply IH; [by eapply HQ|].
  eapply Forall_impl; [exact Hk|]. intros x Hx. by eapply known_grows.
Qed.

(** Whatever the collector reports and whatever runs at the same time, a scan
    ends without an error, and what it reported is stored from then on. *)
Definition scan_done (fresh : list Finding) (w : W) : Prop :=
  ∀ f, f ∈ fresh → is_valid f = true → holds w (f_Fingerprint f).

Lemma Reconcile_sound target fresh w :
  sound store_ok grows grows (λ w' r, ∃ res, r = Ok res ∧ scan_done fresh w') w (Reconcile_prog target fresh).
Proof.
  apply sound_ecall. intros w0 Hw0 Hg0. unfold orReturn.
  destruct (ListByTarget_spec w0 (m_ID mo) target (proj1 Hw0) Hmo) as (ex & -> & Hnd & Hin).
  exists w0, ex. split_and!; [done..|].
  assert (Forall (known w0) ex) as Hex.
  { apply Forall_forall. intros r [Hl _]%Hin.
    destruct (lookup_rec_key _ _ _ _ (proj1 Hw0) Hmo Hl) as [Hrm _].
    destruct (lookup_rec_evidence _ _ _ _ (proj1 Hw0) Hmo Hl) as [Hst _].
    split_and!; [done|done|by eapply Hw0|by eexists]. }
  eapply (sound_ebind store_ok grows grows (λ _ _ H, H) (λ w' _, scan_done fresh w')); [done| |].
  - eapply (sound_weaken store_ok grows grows); [done| |apply fresh_sound].
    + intros w' r _ _ (x & -> & Hx). by exists x.
    + intros fp r Hr. apply (byFingerprint_spec ex Hnd) in Hr as [Hr Hfp]. split; [|done].
      by eapply Forall_forall in Hex.
  - intros w1 [seen res] _ Hg1 Hd. apply absent_sound; [|done|].
    + intros w' w'' Hg Hd' f Hf Hv. eapply holds_grows; [exact Hg|by apply Hd'].
    + eapply Forall_impl; [exact Hex|]. intros r Hr. by eapply known_grows.
Qed.

(** Alone. *)
Lemma Reconcile_total target fresh w : store_ok w →
  ∃ w' res, Reconcile now newID mo target fresh w = (w', Ok res) ∧ store_ok w' ∧ grows w w'.
Proof.
  intros Hw. destruct (sound_run store_ok grows grows (λ _ _ H, H) _ _ w Hw (Reconcile_sound target fresh w)) as (Hw' & Hg & res & Hr & _).
  rewrite run_Reconcile in *. exists (Reconcile now newID mo target fresh w).1, res.
  split_and!; [|done..]. destruct (Reconcile _ _ _ _ _ w); cbn in *. by subst.
Qed.
End scan.
End stored.

(** * A triage request *)

Section triage.
Context {W : Type} `{StoreSpec W} `{JSONEncoder} `{!StoreJSON W}.
Context (mo : ModuleInfo) (Hmo : valid_module (m_ID mo)).

(** [handleFindingStatus] on the module's store. *)
Definition triage_prog (req : option (string * string)) : prog W response :=
  match req with
  | None => Ret (HttpError StatusBadRequest "invalid JSON")
  | Some (fp, next) =>
    if str_eqb next StatusAcknowledged || str_eqb next StatusSuppressed || str_eqb next StatusOpen then
      Op (Get (m_ID mo) fp) (λ r,
        match r with
        | Ok (Some rec) =>
          Op (Upsert (set_Status next rec)) (λ r,
            Ret (match r with
                 | Err _ => HttpError StatusInternalServerError "store error"
                 | Ok _ => OK (PField "ok" "true")
                 end))
        | _ => Ret (HttpError StatusNotFound "finding not found")
        end)
    else Ret (HttpError StatusBadRequest "status must be acknowledged, suppressed, or open")
  end.

(** Alone it is the handler. *)
Lemma run_triage {T : Type} `{TargetStoreOps T} req (s : Server W T) : sv_Module s = mo →
  handleFindingStatus req s =
    (set_Store (run_alone (triage_prog req) (sv_Store s)).1 s, (run_alone (triage_prog req) (sv_Store s)).2).
Proof.
  intros Hs. unfold handleFindingStatus, triage_prog. rewrite Hs. destruct req as [[fp next]|]; cbn [run_alone fst snd];
    [|by destruct s].
  case_ifs; cbn [run_alone fst snd]; [|by destruct s].
  destruct (Get _ fp (sv_Store s)) as [w [[rec|]|e]]; cbn [run_alone fst snd]; [|done..].
  cbn [set_Store sv_Store]. by destruct (Upsert _ w) as [w' [[]|e]].
Qed.

(** In any interleaving it never fails in the store. *)
Lemma triage_sound req w :
  sound store_ok grows grows (λ _ r, ∀ e, r ≠ HttpError StatusInternalServerError e) w (triage_prog req).
Proof.
  unfold triage_prog. destruct req as [[fp next]|]; [|by intros ? ? ?].
  case_ifs; [|by intros ? ? ?]. intros w0 Hw0 _. rewrite (Get_spec w0 (m_ID mo) fp (proj1 Hw0) Hmo).
  split_and!; [done..|]. cbn [fst snd]. destruct (lookup_rec w0 (m_ID mo) fp) as [rec|] eqn:Hrec; [|by intros ? ? ?].
  destruct (lookup_rec_key _ _ _ _ (proj1 Hw0) Hmo Hrec) as [Hrm Hrf].
  destruct (lookup_rec_evidence _ _ _ _ (proj1 Hw0) Hmo Hrec) as [Hst _].
  intros w1 Hw1 Hg1.
  destruct (Upsert_known mo Hmo (set_Status next rec) w1) as (w2 & -> & Hw2 & Hg2); [done|done|done| | |].
  - exact (proj2 Hw0 _ _ _ Hmo Hrec).
  - change (holds mo w1 (r_Fingerprint rec)). rewrite Hrf. apply Hg1; [done|]. by rewrite Hrec.
  - by split_and!.
Qed.
End triage.

(** * The delivery of an event *)

Section delivery.
Context {L W : Type} `{LogStoreSpec L} `{StoreSpec W} `{TimeFormat} `{JSONEncoder} `{!StoreJSON W} `{MapRange}.
Context (newID : Z → M W string string) (clock : Z).

(** The pipeline, and what it has sent. *)
Abbreviation pstate := (Pipeline L W * list Digest)%type.

Definition put_detect (en : Detect.Engine) (p : Pipeline L W) : Pipeline L W :=
  mkPipeline en (pl_Corr p) (pl_Log p) (pl_Store p) (pl_Disp p).
Definition put_log (l : L) (p : Pipeline L W) : Pipeline L W :=
  mkPipeline (pl_Detect p) (pl_Corr p) l (pl_Store p) (pl_Disp p).
Definition put_store (w : W) (p : Pipeline L W) : Pipeline L W :=
  mkPipeline (pl_Detect p) (pl_Corr p) (pl_Log p) w (pl_Disp p).

(** A call to one component. *)
Definition at_detect {B} (f : Detect.Engine → Detect.Engine * B) : pstate → pstate * B :=
  lift_call (pl_Detect ∘ fst) (λ en s, (put_detect en s.1, s.2)) f.
Definition at_corr {B} (f : Correlator → Correlator * B) : pstate → pstate * B :=
  lift_call (pl_Corr ∘ fst) (λ c s, (set_Corr c s.1, s.2)) f.
Definition at_log {B} (f : L → L * B) : pstate → pstate * B :=
  lift_call (pl_Log ∘ fst) (λ l s, (put_log l s.1, s.2)) f.
Definition at_store {B} (f : W → W * B) : pstate → pstate * B :=
  lift_call (pl_Store ∘ fst) (λ w s, (put_store w s.1, s.2)) f.
Definition at_disp (f : Finding) (s : pstate) : pstate * unit :=
  let '(p, ds) := emit clock f s.1 in ((p, s.2 ++ ds), tt).

(** The record of the detection; then the finding, with its id; then the alert. *)
Definition persist_prog (rec : DetectionRecord) : prog pstate unit :=
  let f := detectionFinding rec in
  Op (at_log (UpsertDetection rec)) (λ _,
  Op (at_store (id ← newID (dr_LastAt rec); Upsert (openRecord f id rec))) (λ r,
    match r with Err _ => Ret tt | Ok _ => call (at_disp f) end)).

Definition incident_prog (id : string) (inc : option Incident) : prog pstate unit :=
  match inc with None => Ret tt | Some inc => persist_prog (incidentRecord id inc) end.

Fixpoint detections_prog (id : string) (dets : list Detection) : prog pstate unit :=
  match dets with
  | [] => Ret tt
  | d :: rest =>
    Op (at_corr (λ c, (ObserveDetection d c, tt))) (λ _,
      pbind (λ _, Op (at_corr (ObserveSentinelFinding d)) (λ inc,
        pbind (λ _, detections_prog id rest) (incident_prog id inc)))
      (persist_prog (detectionRecord id d)))
  end.

(** The detections first; then the login, if it is one. *)
Definition respond_prog (e : Event) (dets : list Detection) : prog pstate unit :=
  pbind (λ _,
    if str_eqb (e_Auth e) AuthSuccess then
      Op (at_corr (ObserveSuccess (Actor e) (e_Host e) (e_User e) (e_Timestamp e) (e_Raw e)))
        (incident_prog (e_SourceID e))
    else Ret tt)
  (detections_prog (e_SourceID e) dets).

Definition Handle_prog (e : Event) : prog pstate unit :=
  Op (at_detect (Engine_Observe e)) (respond_prog e).

(** ** Alone *)

Lemma run_persist rec p sent :
  run_alone (persist_prog rec) (p, sent) =
    (((persistAndEmit newID true clock rec p).1, sent ++ (persistAndEmit newID true clock rec p).2), tt).
Proof.
  unfold persist_prog, persistAndEmit, at_log, at_store, lift_call, mbind, M_mbind. cbn [run_alone fst snd compose].
  destruct (UpsertDetection rec (pl_Log p)) as [l r]. cbn [run_alone fst snd compose put_log pl_Store].
  destruct (newID (dr_LastAt rec) (pl_Store p)) as [w [id|e]]; cbn; [|by rewrite app_nil_r].
  destruct (Upsert _ w) as [w' [[]|e]]; cbn; [|by rewrite app_nil_r].
  unfold at_disp. cbn [fst snd]. unfold put_store, put_log. cbn. by destruct (emit _ _ _).
Qed.

Lemma run_incident id r p sent :
  run_alone (incident_prog id r.2) (set_Corr r.1 p, sent) =
    (((on_incident newID true clock id r p).1, sent ++ (on_incident newID true clock id r p).2), tt).
Proof.
  unfold incident_prog, on_incident. destruct r as [c [inc|]]; cbn [fst snd]; [apply run_persist|].
  cbn. by rewrite app_nil_r.
Qed.

Lemma run_detections id dets : ∀ p sent,
  run_alone (detections_prog id dets) (p, sent) =
    (((handle_detections newID true clock id dets p).1,
      sent ++ (handle_detections newID true clock id dets p).2), tt).
Proof.
  induction dets as [|d dets IH]; intros p sent; cbn [detections_prog handle_detections run_alone].
  { cbn. by rewrite app_nil_r. }
  unfold at_corr at 1, lift_call at 1. cbn [run_alone fst snd compose]. rewrite run_pbind, run_persist.
  unfold handle_detection, recordDetection.
  destruct (persistAndEmit _ _ _ _ _) as [p1 ds1]. cbn [run_alone fst snd].
  unfold at_corr, lift_call. cbn [fst snd compose].
  pose proof (run_incident id (ObserveSentinelFinding d (pl_Corr p1)) p1 (sent ++ ds1)) as Hi.
  destruct (ObserveSentinelFinding d (pl_Corr p1)) as [c inc]. cbn [fst snd] in Hi.
  rewrite run_pbind, Hi. destruct (on_incident _ _ _ _ _ p1) as [p2 ds2]. cbn [fst snd]. rewrite IH.
  destruct (handle_detections _ _ _ _ _ p2) as [p3 ds3]. cbn [fst snd]. by rewrite <- !app_assoc.
Qed.

Lemma run_Handle e p sent :
  run_alone (Handle_prog e) (p, sent) =
    (((Handle newID true clock e p).1, sent ++ (Handle newID true clock e p).2), tt).
Proof.
  unfold Handle_prog, respond_prog, Handle. cbn [run_alone]. unfold at_detect, lift_call. cbn [fst snd compose].
  destruct (Engine_Observe e (pl_Detect p)) as [en dets]. rewrite run_pbind, run_detections.
  unfold put_detect. destruct (handle_detections _ _ _ _ dets _) as [p1 ds1]. cbn [fst snd].
  destruct (str_eqb _ _); [|done]. cbn [run_alone]. unfold at_corr, lift_call. cbn [fst snd compose].
  pose proof (run_incident (e_SourceID e)
    (ObserveSuccess (Actor e) (e_Host e) (e_User e) (e_Timestamp e) (e_Raw e) (pl_Corr p1)) p1 (sent ++ ds1)) as Hi.
  destruct (ObserveSuccess _ _ _ _ _ (pl_Corr p1)) as [c inc]. cbn [fst snd] in *. rewrite Hi.
  destruct (on_incident _ _ _ _ _ p1) as [p2 ds2]. cbn [fst snd]. by rewrite <- app_assoc.
Qed.
End delivery.

(** ** Among others *)

(** The dispatcher, if there is one, and what it has sent. *)
Definition notices : Type := option Dispatcher * list Digest.

Definition tell `{MapRange} (now : Z) (e : NEvent) (n : notices) : notices :=
  match n.1 with
  | Some d => let '(d, ds) := Enqueue now e d in (Some d, n.2 ++ ds)
  | None => n
  end.

(** What a claim about the alerts asks of everyone who uses the dispatcher:
    [watch_ok] holds between calls, every call is a [watch_to], and [noted n e n']
    says that the event [e], told since [n], is not forgotten at [n']. *)
Class Watch `{MapRange} := {
  watch_ok : notices → Prop;
  watch_to : relation notices;
  noted : notices → NEvent → notices → Prop;
  #[global] watch_refl :: Reflexive watch_to;
  #[global] watch_trans :: Transitive watch_to;
  noted_later n0 e n n' : noted n0 e n → watch_to n n' → noted n0 e n';
  tell_watched now e n : regular e → n_Module e = ModuleID → watch_ok n →
    watch_ok (tell now e n) ∧ watch_to n (tell now e n) ∧
    ∀ n0, watch_to n0 n → noted n0 e (tell now e n);
  flush_watched now d ds : watch_ok (Some d, ds) →
    let '(d', ds') := Notify.Flush now d in
    watch_ok (Some d', ds ++ ds') ∧ watch_to (Some d, ds) (Some d', ds ++ ds');
}.

(** Nothing is asked. *)
#[export] Instance no_watch `{MapRange} : Watch.
Proof.
  refine {| watch_ok := λ _, True; watch_to := λ _ _, True; noted := λ _ _ _, True |}; try done.
  intros now d ds _. by destruct (Notify.Flush now d).
Defined.

Section delivery_sound.
Context {L W : Type} `{LogStoreSpec L} `{StoreSpec W} `{TimeFormat} `{JSONEncoder} `{!StoreJSON W} `{MapRange} `{!Watch}.
Context (newID : Z → M W string string) (newID_ok : fresh_ids newID) (clock : Z).

Abbreviation pstate := (Pipeline L W * list Digest)%type.

Definition pipe_notices (s : pstate) : notices := (pl_Disp s.1, s.2).

Record pipe_good (s : pstate) : Prop := {
  pg_log : log_ok s.1;
  pg_store : store_ok (pl_Store s.1);
  pg_watch : watch_ok (pipe_notices s);
}.

Definition pipe_grows (s s' : pstate) : Prop :=
  grows (pl_Store s.1) (pl_Store s'.1) ∧ watch_to (pipe_notices s) (pipe_notices s').

(** A delivery leaves the saved sources alone. *)
Definition pipe_moves (s s' : pstate) : Prop :=
  pipe_grows s s' ∧ ∀ n, log_source (pl_Log s'.1) n = log_source (pl_Log s.1) n.

#[export] Instance pipe_grows_refl : Reflexive pipe_grows.
Proof. intros [p ds]. split; [by intros m fp|reflexivity]. Qed.
#[export] Instance pipe_grows_trans : Transitive pipe_grows.
Proof. intros x y z [Hxy ?] [Hyz ?]. split; [intros m fp Hm Hs; auto|by etransitivity]. Qed.

Abbreviation Sound := (sound pipe_good pipe_grows pipe_moves).

Lemma moves_grow s s' : pipe_moves s s' → pipe_grows s s'.
Proof. by intros [? _]. Qed.

(** The finding of a record is stored, and the alert, told since [n0], is noted. *)
Definition recorded (n0 : notices) (rec : DetectionRecord) (s : pstate) : Prop :=
  is_Some (lookup_rec (pl_Store s.1) ModuleID (f_Fingerprint (detectionFinding rec))) ∧
  noted n0 (mkNEvent KindOpened ModuleID (detectionFinding rec)) (pipe_notices s).

Lemma recorded_later n0 rec s s' : recorded n0 rec s → pipe_grows s s' → recorded n0 rec s'.
Proof.
  intros [Hr Hn] [Hg Hw]. split; [by apply Hg; [apply ModuleID_valid|]|by eapply noted_later].
Qed.

(** Calls that touch neither store nor the dispatcher. *)
Lemma quiet_call {B C} (Q : pstate → C → Prop) (m : pstate → pstate * B) (k : B → prog pstate C) s :
  (∀ s, pl_Log (m s).1.1 = pl_Log s.1 ∧ pl_Store (m s).1.1 = pl_Store s.1 ∧
    pipe_notices (m s).1 = pipe_notices s) →
  (∀ s' b, pipe_good s' → pipe_grows s s' → (∃ s0, b = (m s0).2) → Sound Q s' (k b)) →
  Sound Q s (Op m k).
Proof.
  intros Hm Hk s' [Hl Hs Hw] Hg. destruct (Hm s') as (Hl' & Hs' & Hw').
  assert (pipe_good (m s').1) as Hi by (split; [by apply (log_ok_same s'.1)|by rewrite Hs'|by rewrite Hw']).
  assert (pipe_grows s' (m s').1) as Hg' by (split; [intros x fp Hx; by rewrite Hs'|by rewrite Hw']).
  split_and!; [done|split; [done|by intros n; rewrite Hl']|].
  apply Hk; [done|by etransitivity|by exists s'].
Qed.

(** Telling the dispatcher. *)
Lemma at_disp_notices f (s : pstate) :
  pipe_notices (at_disp clock f s).1 = tell clock (mkNEvent KindOpened ModuleID f) (pipe_notices s).
Proof.
  destruct s as [p ds]. unfold at_disp, emit, pipe_notices, tell. cbn [fst snd].
  destruct (pl_Disp p) as [d|] eqn:Hd; [by destruct (Enqueue _ _ _)|]. cbn. by rewrite Hd, app_nil_r.
Qed.

Lemma disp_call n0 f s : watch_to n0 (pipe_notices s) →
  is_Some (lookup_rec (pl_Store s.1) ModuleID (f_Fingerprint f)) →
  Sound (λ s _, is_Some (lookup_rec (pl_Store s.1) ModuleID (f_Fingerprint f)) ∧
    noted n0 (mkNEvent KindOpened ModuleID f) (pipe_notices s)) s (call (at_disp clock f)).
Proof.
  intros Hn0 Hst s' [Hl Hs Hw] [Hg Hto].
  destruct (tell_watched clock (mkNEvent KindOpened ModuleID f) (pipe_notices s')) as (Hw' & Hto' & Hn);
    [by split; [left|]|done|done|].
  rewrite <- at_disp_notices in Hw', Hto', Hn.
  assert (pl_Log (at_disp clock f s').1.1 = pl_Log s'.1 ∧ pl_Store (at_disp clock f s').1.1 = pl_Store s'.1) as [Hl' Hs'].
  { destruct s' as [p d]. unfold at_disp. cbn [fst snd]. destruct (emit clock f p) as [q ds] eqn:He. cbn [fst].
    pose proof (f_equal fst He) as Hq. cbn in Hq. subst q. split; [apply emit_log|].
    unfold emit. by repeat case_match. }
  split_and!.
  - split; [by apply (log_ok_same s'.1)|by rewrite Hs'|done].
  - split; [split; [intros x fp Hx; by rewrite Hs'|done]|by intros n; rewrite Hl'].
  - intros s2 _ [Hg2 Hto2]. split.
    + apply Hg2; [apply ModuleID_valid|]. rewrite Hs'. by apply Hg; [apply ModuleID_valid|].
    + eapply noted_later; [apply Hn; by etransitivity|exact Hto2].
Qed.

Lemma persist_sound n0 rec s : valid_source (dr_SourceID rec) → dr_SourceID rec ≠ "" → record_ok rec →
  watch_to n0 (pipe_notices s) → Sound (λ s _, recorded n0 rec s) s (persist_prog newID clock rec).
Proof.
  intros Hv Hne Hrec Hn0 [p1 d1] [[Hl1 Hd1] Hs1 Hw1] [_ Hto1]. cbn [fst snd] in *.
  unfold at_log, lift_call, compose; cbn [fst snd].
  destruct (UpsertDetection_spec (pl_Log p1) rec Hl1 Hv) as (l' & d' & Hup & Hl' & Hd & Hsrc & Hdet).
  rewrite Hup. cbn [fst snd]. split_and!.
  { split; [split; [done|]|done|done]. cbn. intros x k d Hx Hk. rewrite Hdet in Hk by done.
    destruct (decide _) as [[-> ->]|]; [|by eapply Hd1]. injection Hk as <-.
    destruct (log_det (pl_Log p1) _ _) as [o|] eqn:Ho; [|rewrite Hd; destruct Hrec; by split].
    eapply recurrence_ok; [exact Hd|by eapply Hd1|done]. }
  { split; [split; [by intros m fp|reflexivity]|exact Hsrc]. }
  intros [p2 d2] [Hl2 Hs2 Hw2] [_ Hto2]. cbn [fst snd] in *. unfold at_store, lift_call, compose; cbn [fst snd].
  destruct (newID_ok (dr_LastAt rec) (pl_Store p2) (proj1 Hs2)) as (w0 & id & Hid & Hi0 & Hl0 & Hfree).
  unfold mbind, M_mbind. rewrite Hid.
  assert (store_ok w0) as Hok0.
  { split; [done|]. intros m fp r Hm. rewrite Hl0. by apply Hs2. }
  assert (lookup_rec w0 ModuleID (f_Fingerprint (detectionFinding rec)) = None →
    ∀ m fp o, lookup_rec w0 m fp = Some o → f_ID (r_Finding o) ≠ id) as Hfree'.
  { intros _ m fp o. rewrite Hl0. apply Hfree. }
  destruct (Upsert_store_ok w0 (openRecord (detectionFinding rec) id rec) Hok0 ModuleID_valid
    (detection_evidence_storable _) Hfree') as (w1 & Hu & Hok1 & Hg1).
  { destruct Hrec as [Hc Ht Hsev]. by apply detectionFinding_ingestible. }
  assert (grows (pl_Store p2) w1) as Hg2.
  { intros m fp Hm Hsm. apply Hg1; [done|]. by rewrite Hl0. }
  assert (is_Some (lookup_rec w1 ModuleID (f_Fingerprint (detectionFinding rec)))) as Hst.
  { destruct (Upsert_spec w0 (openRecord (detectionFinding rec) id rec) Hi0 ModuleID_valid
      (detection_evidence_storable _) Hfree') as (w2 & Hu2 & _ & Hlk).
    assert (w2 = w1) as -> by congruence. rewrite Hlk by done. rewrite decide_True by done. by eexists. }
  rewrite Hu. cbn [fst snd]. split_and!.
  { by split; [apply (log_ok_same p2)|..]. }
  { split; [split; [exact Hg2|reflexivity]|done]. }
  apply disp_call; [|exact Hst]. etransitivity; [exact Hn0|]. by etransitivity.
Qed.

(** The records of one source's events. *)
Context (id : string) (Hid : valid_source id) (Hne : id ≠ "").

Abbreviation ends := (λ (_ : pstate) (_ : ()), True).

Lemma ends_weaken Q s p : Sound Q s p → Sound ends s p.
Proof. by apply (sound_weaken _ _ _ moves_grow). Qed.

Lemma then_sound (Q Q' : pstate → () → Prop) (p q : prog pstate ()) s : pipe_good s → Sound Q s p →
  (∀ s', pipe_good s' → pipe_grows s s' → Q s' tt → Sound Q' s' q) → Sound Q' s (pbind (λ _, q) p).
Proof.
  intros Hs Hp Hq. apply (sound_pbind _ _ _ moves_grow Q); [done| |done]. intros s' []. apply Hq.
Qed.

(** What holds from now on holds at the end. *)
Lemma holds_on (P : pstate → Prop) (p : prog pstate ()) s : (∀ s', pipe_grows s s' → P s') →
  Sound ends s p → Sound (λ s _, P s) s p.
Proof. intros HP. apply (sound_weaken _ _ _ moves_grow). intros s' [] _ Hg _. by apply HP. Qed.

Lemma incident_sound inc s : (∀ i, inc = Some i → incident_formed i) →
  Sound ends s (incident_prog newID clock id inc).
Proof.
  intros Hi. destruct inc as [i|]; [|done]. destruct (Hi i eq_refl) as [Ht Hs].
  apply (ends_weaken (λ s' _, recorded (pipe_notices s) (incidentRecord id i) s')). by apply persist_sound.
Qed.

Lemma detections_sound n0 ds : Forall well_formed ds → ∀ s, pipe_good s → watch_to n0 (pipe_notices s) →
  Sound (λ s _, Forall (λ d, recorded n0 (detectionRecord id d) s) ds) s (detections_prog newID clock id ds).
Proof.
  induction 1 as [|d ds Hd _ IH]; intros s Hs Hn0; cbn [detections_prog]; [by intros s' _ _; constructor|].
  apply quiet_call; [done|]. intros s1 _ Hs1 [_ Hto1] _.
  apply (then_sound (λ s _, recorded n0 (detectionRecord id d) s)); [done| |].
  - apply persist_sound; [done..|by apply detectionRecord_ok|by etransitivity].
  - intros s2 _ [_ Hto2] Hrec. apply quiet_call.
    { intros s'. unfold at_corr, lift_call. by destruct (ObserveSentinelFinding d _). }
    intros s3 inc Hs3 Hg3 [s0 ->]. apply (then_sound ends); [done| |].
    + apply incident_sound. intros i Hi. unfold at_corr, lift_call in Hi.
      destruct (ObserveSentinelFinding d _) as [c o] eqn:Ho. cbn in Hi. subst o.
      by eapply ObserveSentinelFinding_shape.
    + intros s4 Hs4 Hg4 _.
      refine (sound_weaken _ _ _ moves_grow (λ s _, Forall (λ d, recorded n0 (detectionRecord id d) s) ds) _ _ _ _ _).
      * intros s5 [] _ Hg5 Hall. constructor; [|done].
        eapply recorded_later; [exact Hrec|]. etransitivity; [exact Hg3|]. by etransitivity.
      * apply IH; [done|]. destruct Hg3 as [_ Hto3], Hg4 as [_ Hto4].
        do 5 (etransitivity; [eassumption|]). reflexivity.
Qed.

(** Whatever runs at the same time, a delivery ends with what it detected recorded. *)
Lemma respond_sound n0 e dets s : e_SourceID e = id → Forall well_formed dets → pipe_good s →
  watch_to n0 (pipe_notices s) →
  Sound (λ s _, Forall (λ d, recorded n0 (detectionRecord id d) s) dets) s (respond_prog newID clock e dets).
Proof.
  intros He Hd Hs Hn0. unfold respond_prog. rewrite He.
  eapply then_sound; [done|by apply detections_sound|]. intros s2 _ _ Hall.
  apply (holds_on (λ s, Forall (λ d, recorded n0 (detectionRecord id d) s) dets)).
  { intros s3 Hg. eapply Forall_impl; [exact Hall|]. intros d Hr. eapply recorded_later; [exact Hr|exact Hg]. }
  destruct (str_eqb _ _); [|done]. apply quiet_call.
  { intros s'. unfold at_corr, lift_call. by destruct (ObserveSuccess _ _ _ _ _ _). }
  intros s3 inc _ _ [s4 ->]. apply incident_sound. intros i Hi. unfold at_corr, lift_call in Hi.
  destruct (ObserveSuccess _ _ _ _ _ _) as [c o] eqn:Ho. cbn in Hi. subst o.
  by eapply ObserveSuccess_shape.
Qed.

Lemma Handle_sound e s : e_SourceID e = id → Sound ends s (Handle_prog newID clock e).
Proof.
  intros He. apply quiet_call.
  { intros s'. unfold at_detect, lift_call. by destruct (Engine_Observe e _). }
  intros s1 dets Hs1 _ [s0 ->]. eapply ends_weaken, (respond_sound (pipe_notices s1)); [done| |done|reflexivity].
  pose proof (Engine_Observe_shape e (pl_Detect s0.1)) as Hs.
  unfold at_detect, lift_call. cbn in *. by destruct (Engine_Observe e _).
Qed.
End delivery_sound.
