(* ===== verification/Requests.v ===== *)
(** The requests that change which sources are read and scanned, call by call:
    [handleSave] and [handleDelete] of [src/loglight/console.go] with the callbacks
    that [src/cmd/loglight/main.go] gives them, and [handleAddTarget] and
    [handleRemoveTarget] of [src/web/server.go]. None of them holds a lock from one
    call to the next. *)
From S2P Require Import Prelude Conc Text Float Core Store Ingest Loglight License Console Main Wiring.
From S2P Require Sched Web.
Local Open Scope Z_scope.

(** * The calls *)

Section calls.
Context {S L T : Type} `{LogStoreOps L} `{TargetStoreOps T} `{Quoter}.
(** Where the program keeps what the callbacks act on, and what it does with the
    name of a reader that is started or stopped. *)
Context (app : S → App L T) (put_app : App L T → S → S) (renew : string → S → S).

Definition on_app {B} (m : App L T → App L T * B) : S → S * B := lift_call app put_app m.

Definition schedule_call (raw : string) : S → S * result string Target :=
  on_app (λ a, let '(sc, r, _) := Sched.AddTarget ModuleID raw (ap_Sched a) in (set_Sched sc a, r)).

Definition unschedule_call (name : string) : S → S * unit :=
  on_app (λ a, (set_Sched (Sched.RemoveTarget ModuleID name (ap_Sched a)) a, tt)).

Definition save_target_call (raw canonical : string) : S → S * result string unit :=
  on_app (λ a, let '(t, r) := ts_SaveTarget ModuleID raw canonical (ap_Targets a) in (set_Targets t a, r)).

Definition delete_target_call (name : string) : S → S * result string unit :=
  on_app (λ a, let '(t, r) := ts_DeleteTarget ModuleID name (ap_Targets a) in (set_Targets t a, r)).

Definition add_reader (s : Source) : S → S * unit :=
  λ w, let '(w, _) := on_app (λ a, (set_Ingest (Add Source_ID s (ap_Ingest a)) a, tt)) w in
       (renew (Source_ID s) w, tt).

Definition remove_reader (name : string) : S → S * unit :=
  λ w, let '(w, _) := on_app (λ a, (set_Ingest (Remove name (ap_Ingest a)) a, tt)) w in (renew name w, tt).

(** ** The console *)

(** The calls of [handleSave] after its checks: the row, then those of [OnSaved]. *)
Definition store_calls (src : SourceConfig) : prog S Console.response :=
  Op (on_app (PutSource src)) (λ r,
    match r with
    | Err e => Ret (HttpErr 500 e)
    | Ok _ =>
      match BuildSourceWith src true with
      | Err e => Ret (HttpErr 409 e)
      | Ok s =>
        Op (schedule_call (sc_Name src)) (λ r,
          match r with
          | Err e => Ret (HttpErr 409 e)
          | Ok _ =>
            Op (add_reader s) (λ _,
            Op (save_target_call (sc_Name src) (sc_Name src)) (λ r,
            Ret (match r with Err e => HttpErr 409 e | Ok _ => OK (PSaved (sc_Name src) (sc_Type src)) end)))
          end)
      end
    end).

(** The limit is checked with calls of their own; [caps] is the callback that reads
    it. *)
Definition save_calls (caps : S → Z) (now : Z) (rq : saveRequest) : prog S Console.response :=
  let name := strings_TrimSpace (sq_Name rq) in
  if is_empty name then Ret (HttpErr 400 "a source name is required")
  else
    let params := default ∅ (sq_Params rq) in
    match validateSource (sq_Type rq) params with
    | Some e => Ret (HttpErr 400 e)
    | None =>
      let store := store_calls (mkSource name (sq_Type rq) params true now) in
      Op (on_app (GetSource name)) (λ r,
        match r with
        | Ok (Some _) => store
        | _ =>
          Op (λ w, (w, caps w)) (λ max,
          if max =? 0 then store
          else Op (on_app ListSources) (λ r,
            let n := match r with Ok l => length l | Err _ => 0%nat end in
            if max <=? Z.of_nat n
            then Ret (HttpErr 403 "source limit reached for your tier — upgrade to add more")
            else store))
        end)
    end.

Definition remove_row (name : string) : prog S Console.response :=
  Op (on_app (DeleteSource name)) (λ r,
    Ret (match r with Err e => HttpErr 500 e | Ok _ => OK (PDeleted name) end)).

(** The calls of [OnDelete], then the row. *)
Definition remove_calls (query : string) : prog S Console.response :=
  let name := strings_TrimSpace query in
  if is_empty name then Ret (HttpErr 400 "name is required")
  else
    Op (remove_reader name) (λ _,
    Op (unschedule_call name) (λ _,
    Op (delete_target_call name) (λ _,
    remove_row name))).

Definition console_calls (caps : S → Z) (rq : console_request) : prog S Console.response :=
  match rq with
  | Save now (Some rq) => save_calls caps now rq
  | Save _ None => Ret (HttpErr 400 "invalid JSON")
  | Delete q => remove_calls q
  end.

(** ** The dashboard *)

Context `{MapRange}.

Definition count_call : S → S * Z :=
  on_app (λ a, (a, Z.of_nat (length (Sched.ListTargets ModuleID (ap_Sched a))))).

(** [limits] is [effLimits]. *)
Definition add_target_calls (limits : S → Limits) (req : option string) : prog S Web.response :=
  match req with
  | None => Ret (Web.HttpError Web.StatusBadRequest "invalid JSON")
  | Some raw =>
    Op count_call (λ current,
    Op (λ w, (w, limits w)) (λ lim,
    if negb (Web.canAdd lim current)
    then Ret (Web.HttpError Web.StatusPaymentRequired
      "target limit reached for your tier — Pro and Team: https://whop.com/nizar-tuanku/loglight?utm_source=app")
    else
      Op (schedule_call raw) (λ r,
      match r with
      | Err e => Ret (Web.HttpError Web.StatusBadRequest e)
      | Ok t =>
        Op (save_target_call (t_Raw t) (t_Canonical t)) (λ r,
        Ret (match r with
             | Err _ => Web.HttpError Web.StatusInternalServerError "target added but could not be persisted"
             | Ok _ => Web.OK (Web.PField "canonical" (t_Canonical t))
             end))
      end)))
  end.

Definition remove_target_calls (canonical : string) : prog S Web.response :=
  if is_empty canonical then Ret (Web.HttpError Web.StatusBadRequest "canonical query parameter required")
  else
    Op (unschedule_call canonical) (λ _,
    Op (delete_target_call canonical) (λ _,
    Ret (Web.OK (Web.PField "ok" "true")))).
End calls.

(** * Run alone *)

Section alone.
Context {S L T : Type} `{LogStoreSpec L} `{TargetStoreSpec T} `{Quoter}.
Context (app : S → App L T) (put_app : App L T → S → S) (renew : string → S → S).
Hypothesis get_put : ∀ a s, app (put_app a s) = a.
Hypothesis put_put : ∀ a a' s, put_app a (put_app a' s) = put_app a s.
Hypothesis put_get : ∀ s, put_app (app s) s = s.
Hypothesis renew_app : ∀ n s, app (renew n s) = app s.
Hypothesis renew_put : ∀ n a s, put_app a (renew n s) = renew n (put_app a s).

(** What a request that succeeds does to the readers. *)
Definition renewed_by (r : Console.response) (s : S) : S :=
  match r with OK (PSaved n _) | OK (PDeleted n) => renew n s | _ => s end.

Lemma on_log_targets {B} (m : M L string B) (a : App L T) : ap_Targets (on_log m a).1 = ap_Targets a.
Proof. unfold on_log. by destruct (m (ap_Log a)). Qed.

(** The end of [handleSave], as a function. *)
Definition stored_by (src : SourceConfig) (a : App L T) : App L T * Console.response :=
  let '(a1, r) := PutSource src a in
  match r with
  | Err e => (a1, HttpErr 500 e)
  | Ok _ =>
    let '(a2, r) := OnSaved src a1 in
    match r with
    | Err e => (a2, HttpErr 409 e)
    | Ok _ => (a2, OK (PSaved (sc_Name src) (sc_Type src)))
    end
  end.

(** Everything a request does, on the whole state. *)
Definition on_whole (r : App L T * Console.response) (s : S) : S * Console.response :=
  (renewed_by r.2 (put_app r.1 s), r.2).

Lemma run_store_calls src s : ts_inv (ap_Targets (app s)) →
  run_alone (store_calls app put_app renew src) s = on_whole (stored_by src (app s)) s.
Proof using get_put put_put renew_app renew_put.
  intros Hts. unfold store_calls, on_whole, stored_by. cbn [run_alone]. unfold on_app at 1, lift_call.
  destruct (PutSource src (app s)) as [a1 [[]|e]] eqn:Hp; [|done].
  assert (ap_Targets a1 = ap_Targets (app s)) as Ht.
  { pose proof (on_log_targets (PutSource src) (app s)) as Hx. cbn in Hp. by rewrite Hp in Hx. }
  unfold OnSaved. destruct (BuildSourceWith src true) as [sr|e] eqn:Hb; [|done]. cbn [run_alone].
  unfold schedule_call, on_app at 1, lift_call. rewrite get_put.
  destruct (Sched.AddTarget _ _ _) as [[sc [t|e]] sn]; [|by rewrite put_put]. cbn [run_alone].
  unfold add_reader, save_target_call, on_app, lift_call. rewrite !put_put, !get_put. cbn [run_alone].
  rewrite renew_app, !get_put. cbn [set_Ingest set_Sched ap_Targets]. rewrite Ht.
  destruct (SaveTarget_spec _ ModuleID (sc_Name src) (sc_Name src) Hts) as (t' & -> & _). cbn.
  by rewrite renew_put, put_put, (BuildSourceWith_ID src true sr Hb).
Qed.

Lemma run_save_calls caps now rq s : (∀ a, caps (put_app a s) = caps s) → ts_inv (ap_Targets (app s)) →
  run_alone (save_calls app put_app renew caps now rq) s = on_whole (save (caps s) now (Some rq) (app s)) s.
Proof using All.
  intros Hcaps Hts.
  assert (∀ src a, ap_Targets a = ap_Targets (app s) →
    run_alone (store_calls app put_app renew src) (put_app a s) = on_whole (stored_by src a) s) as Hst.
  { intros src a Ha. rewrite run_store_calls, get_put by (by rewrite get_put, Ha). unfold on_whole. by rewrite put_put. }
  unfold save_calls, save, handleSave, over_cap. set (name := strings_TrimSpace (sq_Name rq)).
  destruct (is_empty name); [unfold on_whole; cbn; by rewrite put_get|].
  destruct (validateSource _ _); [unfold on_whole; cbn; by rewrite put_get|]. cbn [run_alone].
  unfold on_app at 1, lift_call.
  pose proof (on_log_targets (GetSource name) (app s)) as Hg. change (on_log (GetSource name) (app s)) with (GetSource name (app s)) in Hg.
  destruct (GetSource name (app s)) as [a1 [[c|]|e]]; cbn [fst] in Hg; [by apply Hst| |];
    (cbn [run_alone]; rewrite Hcaps; destruct (caps s =? 0); [by apply Hst|]; cbn [run_alone];
     unfold on_app, lift_call; rewrite get_put;
     pose proof (on_log_targets ListSources a1) as Hl; change (on_log ListSources a1) with (ListSources a1) in Hl;
     destruct (ListSources a1) as [a2 r]; cbn [fst] in Hl; rewrite put_put;
     destruct (caps s <=? _); [done|apply Hst; by rewrite Hl]).
Qed.

Lemma run_remove_calls query s : log_inv (ap_Log (app s)) →
  run_alone (remove_calls app put_app renew query) s = on_whole (remove query (app s)) s.
Proof using All.
  intros Hl. unfold remove_calls, remove, handleDelete, on_whole. set (n := strings_TrimSpace query).
  destruct (is_empty n); [cbn; by rewrite put_get|].
  cbn [run_alone]. unfold OnDelete, remove_reader, unschedule_call, delete_target_call, remove_row, on_app, lift_call.
  cbn [run_alone]. rewrite renew_app, get_put. cbn [run_alone]. rewrite get_put.
  destruct (ts_DeleteTarget _ _ _) as [t r]. cbn [run_alone].
  rewrite get_put. cbn. unfold on_log. cbn.
  destruct (DeleteSource_spec _ n Hl) as (l' & -> & _). cbn. by rewrite !put_put, renew_put, put_put.
Qed.

Lemma run_console_calls caps rq s : (∀ a, caps (put_app a s) = caps s) →
  log_inv (ap_Log (app s)) → ts_inv (ap_Targets (app s)) →
  run_alone (console_calls app put_app renew caps rq) s =
    on_whole (match rq with
              | Save now rq => save (caps s) now rq (app s)
              | Delete q => remove q (app s)
              end) s.
Proof using All.
  intros Hcaps Hl Hts. destruct rq as [now [rq|]|q]; cbn [console_calls].
  - by apply run_save_calls.
  - unfold on_whole. cbn. by rewrite put_get.
  - by apply run_remove_calls.
Qed.

(** The dashboard's requests are those of the server over the same scheduler and
    saved targets. *)
Context `{MapRange} {W : Type} `{StoreOps W}.

Definition over_app (sv : Web.Server W T) (a : App L T) : Prop :=
  Web.sv_Module sv = Describe ∧ Web.sv_Scheduler sv = ap_Sched a ∧ Web.sv_Targets sv = Some (ap_Targets a).

Definition with_server (sv : Web.Server W T) (t : T) (a : App L T) : App L T :=
  mkApp (ap_Log a) (Web.sv_Scheduler sv) (ap_Ingest a) t.

Lemma with_server_self sv a : over_app sv a → with_server sv (ap_Targets a) a = a.
Proof. intros (_ & Hs & _). unfold with_server. rewrite Hs. by destruct a. Qed.

Lemma run_add_target_calls limits req s sv : over_app sv (app s) →
  (∀ a, limits (put_app a s) = limits s) → limits s = Web.effLimits sv →
  ∃ t, Web.sv_Targets (Web.handleAddTarget req sv).1 = Some t ∧
    run_alone (add_target_calls app put_app limits req) s =
      (put_app (with_server (Web.handleAddTarget req sv).1 t (app s)) s, (Web.handleAddTarget req sv).2).
Proof using get_put put_put put_get.
  intros Ho Hlim Heq. pose proof (with_server_self sv (app s) Ho) as Hself. destruct Ho as (Hm & Hs & Ht).
  unfold Web.handleAddTarget, add_target_calls. rewrite Hm. destruct req as [raw|].
  2:{ eexists. cbn [fst snd run_alone]. by rewrite Hself, put_get. }
  cbn [run_alone]. unfold count_call, on_app at 1, lift_call. rewrite put_get. cbn [run_alone].
  unfold Web.ListTargets. rewrite Heq, Hm, Hs. destruct (negb _).
  { eexists. cbn [fst snd run_alone]. by rewrite Hself, put_get. }
  cbn [run_alone]. unfold schedule_call, on_app at 1, lift_call.
  destruct (Sched.AddTarget _ _ _) as [[sc [tg|e]] sn]; cbn [run_alone fst snd].
  - cbn. rewrite Ht, Hm. unfold save_target_call, on_app, lift_call. rewrite get_put. cbn.
    destruct (ts_SaveTarget _ _ _ _) as [t [[]|e]]; cbn; rewrite put_put; by eexists.
  - cbn. rewrite Ht. by eexists.
Qed.

Lemma run_remove_target_calls canonical s sv : over_app sv (app s) →
  ∃ t, Web.sv_Targets (Web.handleRemoveTarget canonical sv).1 = Some t ∧
    run_alone (remove_target_calls app put_app canonical) s =
      (put_app (with_server (Web.handleRemoveTarget canonical sv).1 t (app s)) s, (Web.handleRemoveTarget canonical sv).2).
Proof using get_put put_put put_get.
  intros Ho. pose proof (with_server_self sv (app s) Ho) as Hself. destruct Ho as (Hm & Hs & Ht).
  unfold Web.handleRemoveTarget, remove_target_calls. destruct (is_empty canonical).
  { eexists. cbn [fst snd run_alone]. by rewrite Hself, put_get. }
  cbn [run_alone]. unfold unschedule_call, delete_target_call, on_app, lift_call. cbn [run_alone]. rewrite get_put.
  cbn. rewrite Ht, Hm, Hs. destruct (ts_DeleteTarget _ _ _) as [t r]. cbn. rewrite put_put. by eexists.
Qed.
End alone.
