(* ===== verification/Live.v ===== *)
(** The program running: one state for the whole of [src/cmd/loglight/main.go],
    the steps its goroutines take, and what holds in every state they reach. A
    step is one call that the code makes under its locks: an event handled, a
    datagram, a scan, a request, a tick, or a restart of the process. *)
From S2P Require Import Prelude Text Float Core Store Reconcile Netip Ingest Netflow Traffic Parse.
From S2P Require Import Detect Correlate Notify Loglight Pipeline Shape System.
From S2P Require Import License Verify AiClient Hfs Web Api Console Main Wiring Tasks.
From S2P Require Sched.
Local Open Scope Z_scope.

(** * The running program *)

Record World (L W T : Type) := mkWorld {
  wd_App : App L T;
  wd_Detect : Detect.Engine;
  wd_Corr : Correlator;
  wd_Disp : option Dispatcher;
  wd_Sent : list Digest;   (* handed to the channels so far *)
  wd_Graph : Graph;
  wd_Templates : gmap string TemplateCache;
  wd_Server : Server W T;
}.
Arguments mkWorld {L W T} _ _ _ _ _ _ _ _.
Arguments wd_App {L W T} _.
Arguments wd_Detect {L W T} _.
Arguments wd_Corr {L W T} _.
Arguments wd_Disp {L W T} _.
Arguments wd_Sent {L W T} _.
Arguments wd_Graph {L W T} _.
Arguments wd_Templates {L W T} _.
Arguments wd_Server {L W T} _.

(** The configuration [main] starts the detectors and the correlator with. *)
Definition bootDetect : Detect.Engine := Detect.NewEngine zeroConfig.
Definition bootCorr : Correlator := Correlate.New (10 * Minute) (15 * Minute).

(** What the reader of a running source may emit at [now]. *)
Definition line_event `{UnicodeTables} `{LogCodec} (now : Z) (s : Loglight.Source) (ev : Event) : Prop :=
  match s with
  | SyslogSource id udp tcp kind =>
    udp ≠ "" ∧ (∃ datagram, ev = udp_event id kind now datagram) ∨
    tcp ≠ "" ∧ (∃ stream, ev ∈ conn_events id kind now stream)
  | FileSource id path host app => ∃ line, ev = ParseLine SourceFile id host app line now
  | CommandSource id kind app name args => ∃ stdout, ev ∈ command_events kind id "" app now stdout
  | UDPSource _ _ _ => False
  end.

Section world.
Context {L W T : Type} `{LogStoreOps L} `{StoreOps W} `{TargetStoreOps T}.
Context `{TimeFormat} `{JSONEncoder} `{Quoter} `{MapRange} `{SortSlice} `{UnicodeTables} `{LogCodec}.
Context `{Ed25519} `{LicenseJSON} `{AiJSON}.
Context (format_date : Z → string) (quote : string → string).
Context (snapshot : string → Hfs.Meta → HfsSource → Z → option string).
Context (newID : Z → M W string string).

Abbreviation world := (World L W T).

Definition set_App (a : App L T) (w : world) : world :=
  mkWorld a (wd_Detect w) (wd_Corr w) (wd_Disp w) (wd_Sent w) (wd_Graph w) (wd_Templates w) (wd_Server w).
(** A call to the dispatcher, with the digests it sends off. *)
Definition set_Disp (r : Dispatcher * list Digest) (w : world) : world :=
  mkWorld (wd_App w) (wd_Detect w) (wd_Corr w) (Some r.1) (wd_Sent w ++ r.2) (wd_Graph w) (wd_Templates w) (wd_Server w).
Definition set_Graph (g : Graph) (w : world) : world :=
  mkWorld (wd_App w) (wd_Detect w) (wd_Corr w) (wd_Disp w) (wd_Sent w) g (wd_Templates w) (wd_Server w).
Definition set_Templates (t : gmap string TemplateCache) (w : world) : world :=
  mkWorld (wd_App w) (wd_Detect w) (wd_Corr w) (wd_Disp w) (wd_Sent w) (wd_Graph w) t (wd_Server w).
Definition set_Server (s : Server W T) (w : world) : world :=
  mkWorld (wd_App w) (wd_Detect w) (wd_Corr w) (wd_Disp w) (wd_Sent w) (wd_Graph w) (wd_Templates w) s.
Definition set_Log (l : L) (a : App L T) : App L T :=
  mkApp l (ap_Sched a) (ap_Ingest a) (ap_Targets a).

(** The pipeline shares the log store with the console and the finding store with
    the scheduler and the dashboard. *)
Definition pipe (w : world) : Pipeline L W :=
  mkPipeline (wd_Detect w) (wd_Corr w) (ap_Log (wd_App w)) (sv_Store (wd_Server w)) (wd_Disp w).

Definition put_pipe (r : Pipeline L W * list Digest) (w : world) : world :=
  let '(p, ds) := r in
  mkWorld (set_Log (pl_Log p) (wd_App w)) (pl_Detect p) (pl_Corr p) (pl_Disp p) (wd_Sent w ++ ds) (wd_Graph w)
    (wd_Templates w) (set_Store (pl_Store p) (wd_Server w)).

(** An event reaches the pipeline through the ingest engine. *)
Definition handle_event (now : Z) (s : Loglight.Source) (ev : Event) (w : world) : world :=
  let '(ig, ev) := emit_event Source_ID s ev (ap_Ingest (wd_App w)) in
  put_pipe (Handle newID true now ev (pipe w)) (set_App (set_Ingest ig (wd_App w)) w).

(** [UDPSource.Run] on one datagram: each flow goes to the tap and then on as an
    event; [db] is the failure of a flush that the tap may start. *)
Definition handle_flow (now : Z) (db : option string) (s : Loglight.Source) (w : world) (f : Flow) : world :=
  handle_event now s (FlowEvent f (Source_ID s) now) (set_Graph (Observe now db f (wd_Graph w)) w).

Definition handle_datagram (now : Z) (db : option string) (s : Loglight.Source) (exporter : string)
    (b : bytes) (w : world) : world :=
  match ParseDatagram (take (Z.to_nat 65535) b) exporter now
          (Some (default NewTemplateCache (wd_Templates w !! Source_ID s))) with
  | Done (flows, tc) =>
    foldl (handle_flow now db s)
      (set_Templates (match tc with
                      | Some tc => <[Source_ID s := tc]> (wd_Templates w)
                      | None => wd_Templates w
                      end) w) flows
  | _ => w
  end.

(** One scan of a scheduled target; the result goes to the dispatcher. *)
Definition parse_rate (w : world) : option (string → float64) :=
  Some (λ n, Engine_ParseRate n (ap_Ingest (wd_App w))).

Definition scan_target (now : Z) (t : Target) (w : world) : (L * W) * result string Sched.Result :=
  Sched.scanOne newID (Collect (parse_rate w) (λ _, None) now) None now now now Describe t
    (ap_Log (wd_App w), sv_Store (wd_Server w)).

Definition poll_target (now : Z) (t : Target) (w : world) : world :=
  let '((l, st), r) := scan_target now t w in
  let w := set_Server (set_Store st (wd_Server w)) (set_App (set_Log l (wd_App w)) w) in
  match r, wd_Disp w with
  | Ok res, Some d => set_Disp (BindScheduler now res d) w
  | _, _ => w
  end.

(** The console's callbacks read the cap of the active tier. *)
Definition caps (w : world) : Z := MaxTargets (effLimits (wd_Server w)).

(** A saved source runs anew, with no templates. *)
Definition renewed (rq : console_request) (w : world) : option string :=
  let r := match rq with
           | Save now rq => (save (caps w) now rq (wd_App w)).2
           | Delete q => (remove q (wd_App w)).2
           end in
  match r with OK (PSaved n _) | OK (PDeleted n) => Some n | _ => None end.

Definition console (rq : console_request) (w : world) : world :=
  set_Templates (match renewed rq w with Some n => delete n (wd_Templates w) | None => wd_Templates w end)
    (set_App (Wiring.serve (caps w) (wd_App w) rq) w).

(** A request to the dashboard sees the scheduler as it is. *)
Definition dashboard (rq : api_request) (w : world) : world :=
  set_Server
    (Handler format_date quote snapshot rq (set_Scheduler (ap_Sched (wd_App w)) (wd_Server w))).1 w.

(** Requests that add or remove a scheduler target without a source. *)
Definition bypasses (rq : api_request) : bool :=
  match rq with PostTarget _ | DeleteTarget _ => true | _ => false end.

(** [scheduler.Start]. *)
Definition started (a : App L T) : App L T := set_Sched (Sched.Start (ap_Sched a)).1 a.

(** A restart keeps the stores and the rows of the graph; [s] is the new server
    over the old store ([boot] of [Boot.v] is such a restart). *)
Definition restart (cfg : Sched.Config) (disp : option Dispatcher) (s : Server W T) (w : world) : world :=
  mkWorld (started (restore (booted cfg (ap_Log (wd_App w)) (ap_Targets (wd_App w))))) bootDetect bootCorr disp (wd_Sent w)
    (NewGraph (gr_rows (wd_Graph w))) ∅ s.

(** The end of [main]: what still waits is sent. *)
Definition shutdown (now : Z) (w : world) : world :=
  match wd_Disp w with Some d => set_Disp (Close now d) w | None => w end.

(** What the program does while it runs. *)
Inductive work (w : world) : world → Prop :=
| step_line now s ev :
    ig_running (ap_Ingest (wd_App w)) !! Source_ID s = Some s → line_event now s ev →
    work w (handle_event now s ev w)
| step_datagram now db s exporter b :
    ig_running (ap_Ingest (wd_App w)) !! Source_ID s = Some s →
    work w (handle_datagram now db s exporter b w)
| step_poll now t :
    t ∈ Sched.ListTargets ModuleID (ap_Sched (wd_App w)) →
    work w (poll_target now t w)
| step_console rq :
    decoded_request rq →
    (∀ now sr, rq = Save now (Some sr) → valid_source (strings_TrimSpace (sq_Name sr))) →
    work w (console rq w)
| step_dashboard rq :
    bypasses rq = false → work w (dashboard rq w)
| step_notify now d :
    wd_Disp w = Some d → work w (set_Disp (Notify.Flush now d) w)
| step_prune now :
    work w (set_App (prune_tick now (wd_App w)) w)
| step_graph_flush db :
    work w (set_Graph (Traffic.Flush db (wd_Graph w)).1 w)
| step_graph_prune now db :
    work w (set_Graph (traffic_prune_tick now (RetentionDays (effLimits (wd_Server w))) db (wd_Graph w)) w).

(** It is also stopped and started. *)
Inductive step (w : world) : world → Prop :=
| step_work w' :
    work w w' → step w w'
| step_shutdown now :
    step w (shutdown now w)
| step_restart cfg disp s :
    sv_Store s = sv_Store (wd_Server w) → sv_Module s = Describe →
    step w (restart cfg disp s w).
End world.

(** * What holds in every state *)

Section safe.
Context {L W T : Type} `{LogStoreSpec L} `{StoreSpec W} `{TargetStoreSpec T}.
Context `{TimeFormat} `{JSONEncoder} `{!StoreJSON W} `{Quoter} `{MapRange} `{SortSlice}.
Context `{UnicodeTables} `{LogCodec} `{Ed25519} `{LicenseJSON} `{AiJSON}.
Context (format_date : Z → string) (quote : string → string).
Context (snapshot : string → Hfs.Meta → HfsSource → Z → option string).
Context (newID : Z → M W string string).
Hypothesis newID_ok : fresh_ids newID.

Abbreviation world := (World L W T).
Abbreviation steps := (step (L := L) (T := T) format_date quote snapshot newID).

(** The parts are in step, every record makes a valid finding, and every stored
    finding is a valid one. *)
Record safe (w : world) : Prop := {
  sf_wired : wired (wd_App w);
  sf_names : ∀ n, is_Some (source_of (wd_App w) n) → valid_source n;
  sf_records : ∀ s k d, valid_source s → log_det (ap_Log (wd_App w)) s k = Some d → record_ok d;
  sf_store : store_ok (sv_Store (wd_Server w));
  sf_module : sv_Module (wd_Server w) = Describe;
}.

(** Only these parts matter. *)
Lemma safe_same (w w' : world) : wd_App w' = wd_App w → sv_Store (wd_Server w') = sv_Store (wd_Server w) →
  sv_Module (wd_Server w') = sv_Module (wd_Server w) → safe w → safe w'.
Proof. intros Ha Hs Hm [H1' H2' H3' H4' H5']. split; by rewrite ?Ha, ?Hs, ?Hm. Qed.

(** A log store with the same sources. *)
Lemma wired_log (a : App L T) l ig : wired a → log_inv l → (∀ n, log_source l n = log_source (ap_Log a) n) →
  ig_running ig = ig_running (ap_Ingest a) → wired (mkApp l (ap_Sched a) ig (ap_Targets a)).
Proof.
  intros [Hl Ht Hn (reg & Hr & Hc & Htg) [Hnd Hs] Hrun] Hl' Hsrc Hig. unfold source_of in *.
  split; unfold source_of; cbn [ap_Log ap_Sched ap_Ingest ap_Targets]; try done.
  - intros n c. rewrite Hsrc. apply Hn.
  - exists reg. split_and!; [done..|]. intros n. by rewrite Htg, Hsrc.
  - split; [done|]. intros x. setoid_rewrite Hsrc. apply Hs.
  - intros n. by rewrite Hig, Hrun, Hsrc.
Qed.

(** ** Events *)

(** What the pipeline keeps of the two stores. *)
Record pipe_ok (l : L) (p : Pipeline L W) : Prop := {
  po_inv : log_inv (pl_Log p);
  po_sources : ∀ n, log_source (pl_Log p) n = log_source l n;
  po_records : ∀ s k d, valid_source s → log_det (pl_Log p) s k = Some d → record_ok d;
  po_store : store_ok (pl_Store p);
}.

Lemma emit_store clock f (p : Pipeline L W) : pl_Store (emit clock f p).1 = pl_Store p.
Proof. unfold emit. by repeat case_match. Qed.

Lemma persistAndEmit_pipe l clock rec (p : Pipeline L W) : valid_source (dr_SourceID rec) →
  dr_SourceID rec ≠ "" → record_ok rec → pipe_ok l p → pipe_ok l (persistAndEmit newID true clock rec p).1.
Proof.
  intros Hv Hne Hrec [Hl Hsrc Hok Hst].
  pose proof (persistAndEmit_log newID true clock rec p Hv Hrec (conj Hl Hok)) as [Hl' Hok'].
  unfold persistAndEmit in *.
  destruct (UpsertDetection_spec (pl_Log p) rec Hl Hv) as (l' & d' & Hup & _ & _ & Hsrc' & _).
  rewrite Hup in *. destruct (newID_ok (dr_LastAt rec) (pl_Store p) (proj1 Hst)) as (w1 & id & Hid & Hw1 & Hsame & Hfree).
  rewrite Hid in *. cbn [pl_Log pl_Store pl_Detect pl_Corr pl_Disp] in *.
  assert (store_ok w1) as Hok1.
  { split; [done|]. intros m fp r Hm. rewrite Hsame. by apply Hst. }
  destruct (Upsert_store_ok w1 (openRecord (detectionFinding rec) id rec) Hok1 ModuleID_valid)
    as (w2 & Hu & Hw2 & _).
  { apply detection_evidence_storable. }
  { intros _ m fp o. rewrite Hsame. apply Hfree. }
  { destruct Hrec as [Hc Ht Hs]. by apply detectionFinding_ingestible. }
  rewrite Hu in *. split; [done| |done|].
  - intros n. rewrite emit_log. cbn. by rewrite Hsrc', Hsrc.
  - by rewrite emit_store.
Qed.

Lemma Handle_pipe l clock e (p : Pipeline L W) : valid_source (e_SourceID e) → e_SourceID e ≠ "" →
  pipe_ok l p → pipe_ok l (Handle newID true clock e p).1.
Proof.
  intros Hv Hne. apply (Handle_inv newID true clock (pipe_ok l)) with (source := e_SourceID e); [..|done].
  - intros p' q Hl Hs [? ? ? ?]. split; by rewrite ?Hl, ?Hs.
  - intros rec p' Hs. apply persistAndEmit_pipe; by rewrite Hs.
Qed.

(** A running source has the name it runs under. *)
Lemma running_named (w : world) s : safe w → ig_running (ap_Ingest (wd_App w)) !! Source_ID s = Some s →
  valid_source (Source_ID s) ∧ Source_ID s ≠ "".
Proof.
  intros [Hw Hn _ _ _] Hr. rewrite (w_running _ Hw) in Hr.
  destruct (source_of (wd_App w) (Source_ID s)) as [c|] eqn:Hs; [|done].
  split; [apply Hn; by rewrite Hs|]. by destruct (w_name _ Hw _ _ Hs).
Qed.

Lemma handle_event_safe now s ev (w : world) : safe w → valid_source (Source_ID s) → Source_ID s ≠ "" →
  e_SourceID ev = Source_ID s → safe (handle_event newID now s ev w).
Proof.
  intros Hs Hv Hne He. unfold handle_event, emit_event.
  rewrite He, is_empty_false by done.
  destruct Hs as [Hw Hn Hrec Hst Hm].
  assert (pipe_ok (ap_Log (wd_App w)) (pipe w)) as Hp by (split; [apply Hw|done..]).
  apply (Handle_pipe _ now ev) in Hp; [|by rewrite He..].
  destruct (Handle newID true now ev (pipe w)) as [p ds]. cbn [fst] in Hp. destruct Hp as [Hl Hsrc Hr Hs].
  split; cbn [wd_App wd_Server put_pipe set_App]; try done.
  - by apply (wired_log (wd_App w)).
  - intros n. unfold source_of. cbn. rewrite Hsrc. apply Hn.
Qed.

Lemma handle_event_running now s ev (w : world) : 
  ig_running (ap_Ingest (wd_App (handle_event newID now s ev w))) = ig_running (ap_Ingest (wd_App w)).
Proof. unfold handle_event, emit_event. by destruct (Handle _ _ _ _ _). Qed.

Lemma tag_id id kind e : e_SourceID (tag id kind e) = id.
Proof. unfold tag. by case_ifs. Qed.

Lemma line_event_id now s ev : line_event now s ev → e_SourceID ev = Source_ID s.
Proof.
  destruct s as [id udp tcp kind|id path host app|id kind app name args|id addr tp]; cbn [line_event Source_ID].
  - intros [[_ [d ->]]|[_ [st Hin]]]; [apply tag_id|].
    unfold conn_events in Hin. apply list_elem_of_fmap in Hin as (l & -> & _). apply tag_id.
  - intros [l ->]. apply ParseLine_time.
  - intros [out Hin]. unfold command_events in Hin. apply list_elem_of_fmap in Hin as (l & -> & _).
    apply ParseLine_time.
  - done.
Qed.

Lemma handle_flows_safe now db s flows : valid_source (Source_ID s) → Source_ID s ≠ "" →
  ∀ w, safe w → safe (foldl (handle_flow newID now db s) w flows).
Proof.
  intros Hv Hne. induction flows as [|f flows IH]; intros w Hw; cbn [foldl]; [done|].
  apply IH. unfold handle_flow. apply handle_event_safe; [|done..]. by apply (safe_same w).
Qed.

(** ** Scans *)

(** A scan of a scheduled source ends without an error. *)
Lemma scan_target_ok now t (w : world) : safe w → t ∈ Sched.ListTargets ModuleID (ap_Sched (wd_App w)) →
  ∃ st res, scan_target newID now t w = ((ap_Log (wd_App w), st), Ok res) ∧ store_ok st.
Proof.
  intros [Hw Hn Hrec Hst Hm] Ht. destruct (w_sched _ Hw) as (reg & Hr & _ & Htg).
  unfold Sched.ListTargets in Ht. rewrite Hr in Ht. unfold Sched.snapshotTargets in Ht.
  apply list_elem_of_fmap in Ht as ([n t'] & -> & Hin). apply elem_of_range_map in Hin. cbn [snd].
  rewrite Htg in Hin. apply fmap_Some in Hin as (c & Hc & ->).
  destruct (w_name _ Hw n c Hc) as (Hne & _ & _).
  destruct (Collect_ok (parse_rate w) now n c (ap_Log (wd_App w)) (w_log _ Hw) (Hn n ltac:(by eexists)) Hne Hc)
    as (ds & Hcol & _ & _).
  destruct (Reconcile_total now newID Describe newID_ok ModuleID_valid n
    (poll_findings (parse_rate w) now n c ds) (sv_Store (wd_Server w)) Hst) as (st & res & Hrun & Hst' & _).
  eexists st, _. split; [|exact Hst']. unfold scan_target, Sched.scanOne. rewrite Hcol.
  cbn [t_Canonical]. by rewrite Hrun.
Qed.

Lemma poll_target_safe now t (w : world) : safe w → t ∈ Sched.ListTargets ModuleID (ap_Sched (wd_App w)) →
  safe (poll_target newID now t w).
Proof.
  intros Hs Ht. unfold poll_target. destruct (scan_target_ok now t w Hs Ht) as (st & res & -> & Hst).
  destruct Hs as [Hw Hn Hrec _ Hm].
  assert (safe (set_Server (set_Store st (wd_Server w))
    (set_App (set_Log (ap_Log (wd_App w)) (wd_App w)) w))) as Hs.
  { split; try done. cbn. apply (wired_log (wd_App w)); try done. apply Hw. }
  destruct (wd_Disp (set_Server _ _)); [|done]. by refine (safe_same _ _ _ _ _ Hs).
Qed.

(** ** Requests *)

Lemma serve_dets (w : world) rq : safe w → decoded_request rq →
  dets_kept (wd_App w) (Wiring.serve (caps w) (wd_App w) rq).
Proof.
  intros Hs Hd. destruct rq as [now rq|q]; cbn [Wiring.serve].
  - apply save_wired; [apply Hs|exact Hd].
  - apply remove_wired, Hs.
Qed.

(** A new name is the trimmed name of the request. *)
Lemma serve_names (w : world) rq n : safe w → decoded_request rq →
  is_Some (source_of (Wiring.serve (caps w) (wd_App w) rq) n) →
  is_Some (source_of (wd_App w) n) ∨
  ∃ now sr, rq = Save now (Some sr) ∧ n = strings_TrimSpace (sq_Name sr).
Proof.
  intros Hs Hd Hn. destruct rq as [now rq|q]; cbn [Wiring.serve] in *.
  - destruct (save_wired (caps w) now rq (wd_App w) (sf_wired _ Hs) Hd) as (_ & Hsv & _).
    unfold save, handleSave in *. destruct rq as [sr|]; [|by left].
    set (name := strings_TrimSpace (sq_Name sr)) in *.
    destruct (decide (n = name)) as [->|Hne]; [right; by exists now, sr|].
    destruct (is_empty name); [by left|]. destruct (validateSource _ _); [by left|].
    destruct (over_cap _ name (wd_App w)) as [a over] eqn:Hov. rewrite over_cap_app in Hov by apply Hs.
    injection Hov as <- <-. destruct (bool_decide _); [by left|].
    destruct (PutSource _ _) as [a1 [[]|e]]; [|cbn [fst snd saved_as] in *; left; by destruct Hsv as [<- _]].
    destruct (OnSaved _ a1) as [a2 [[]|e]]; cbn [fst snd saved_as] in *.
    + destruct Hsv as (_ & Ho & _). left. by rewrite Ho in Hn.
    + left; by destruct Hsv as [<- _].
  - destruct (remove_wired q (wd_App w) (sf_wired _ Hs)) as (_ & _ & Hr). left.
    destruct ((remove q (wd_App w)).2) as [[]|]; try done.
    + rewrite Hr in Hn. case_decide; [by destruct Hn|done].
    + destruct Hr as [Hr _]. by rewrite Hr in Hn.
Qed.

Lemma console_safe rq (w : world) : safe w → decoded_request rq →
  (∀ now sr, rq = Save now (Some sr) → valid_source (strings_TrimSpace (sq_Name sr))) →
  safe (console rq w).
Proof.
  intros Hs Hd Hv. destruct (Hs) as [Hw Hn Hrec Hst Hm].
  split; cbn [wd_App wd_Server console set_App set_Templates]; [| | |done..].
  - by apply serve_within.
  - intros n Hx. destruct (serve_names w rq n Hs Hd Hx) as [?|(now & sr & -> & ->)]; [auto|by eapply Hv].
  - intros s k d Hvs Hk. destruct (serve_dets w rq Hs Hd s k Hvs) as [He|He]; rewrite He in Hk; [|done].
    by eapply Hrec.
Qed.

Lemma dashboard_safe rq (w : world) : safe w → bypasses rq = false →
  safe (dashboard format_date quote snapshot rq w).
Proof.
  intros [Hw Hn Hrec [Hst Hok] Hm] _.
  set (s := set_Scheduler (ap_Sched (wd_App w)) (wd_Server w)).
  assert (Api.good s) as Hg by (split; [done|]; cbn; by rewrite Hm).
  destruct (serve_frame format_date quote snapshot rq s Hg) as [Hg' Hm' _ Ht _ _].
  split; cbn [wd_App wd_Server dashboard set_Server]; [done..| |]; fold s.
  - split; [apply Hg'|]. intros m fp r Hvm Hr.
    specialize (Ht m fp Hvm). unfold Api.serve in Ht. rewrite Hr in Ht. inversion Ht as [o r' Htr Ho Hr'|]. subst.
    symmetry in Ho. apply Hok in Ho; [|done]. destruct Htr as [->|(st & _ & ->)]; [done|exact Ho].
  - unfold Api.serve in Hm'. by rewrite Hm'.
Qed.

Lemma prune_safe now (w : world) : safe w → safe (set_App (prune_tick now (wd_App w)) w).
Proof.
  intros [Hw Hn Hrec Hst Hm]. unfold prune_tick. cbn [PruneDetections App_log_ops]. unfold on_log.
  destruct (PruneDetections_spec (ap_Log (wd_App w)) (time_Add now (- (2 * ActiveWindow))) (w_log _ Hw))
    as (l' & -> & Hl' & Hsrc & Hdet).
  split; cbn [wd_App wd_Server set_App fst]; [| | |done..].
  - by apply (wired_log (wd_App w)).
  - intros n. unfold source_of. cbn. rewrite Hsrc. apply Hn.
  - cbn [ap_Log]. intros s k d Hs. rewrite Hdet by done.
    destruct (log_det (ap_Log (wd_App w)) s k) as [o|] eqn:Ho; [|done].
    destruct (time_Before _ _); [done|]. intros [= <-]. by eapply Hrec.
Qed.

Lemma started_wired (a : App L T) : wired a → wired (started a).
Proof.
  intros [Hl Ht Hn (reg & Hr & Hc & Htg) Hs Hrun]. split; try done. exists reg. split_and!; [|done..].
  unfold started, Sched.Start. cbn. by destruct (Sched.sd_state (ap_Sched a)).
Qed.

Lemma restart_safe cfg disp s (w : world) : sv_Store s = sv_Store (wd_Server w) → sv_Module s = Describe →
  safe w → safe (restart cfg disp s w).
Proof.
  intros Hs Hmo [Hw Hn Hrec Hst Hm].
  destruct (restore_wired cfg (wd_App w) Hw) as (Hw' & Hl & _ & _).
  split; cbn [wd_App wd_Server restart]; [by apply started_wired| | |by rewrite Hs|done].
  - intros n. unfold source_of, started. cbn. rewrite Hl. apply Hn.
  - unfold started. cbn. rewrite Hl. exact Hrec.
Qed.

Lemma work_safe w w' : work (L := L) (T := T) format_date quote snapshot newID w w' → safe w → safe w'.
Proof.
  intros Hstep Hs. destruct Hstep.
  - destruct (running_named _ _ Hs ltac:(eassumption)). apply handle_event_safe; [done..|by eapply line_event_id].
  - destruct (running_named _ _ Hs ltac:(eassumption)). unfold handle_datagram.
    destruct (ParseDatagram _ _ _ _) as [[flows tc]| |]; [|done..].
    apply handle_flows_safe; [done..|]. by apply (safe_same w).
  - by apply poll_target_safe.
  - by apply console_safe.
  - by apply dashboard_safe.
  - by apply (safe_same w).
  - by apply prune_safe.
  - by apply (safe_same w).
  - by apply (safe_same w).
Qed.

Lemma step_safe w w' : steps w w' → safe w → safe w'.
Proof.
  intros Hstep Hs. destruct Hstep.
  - by eapply work_safe.
  - unfold shutdown. destruct (wd_Disp w); [by apply (safe_same w)|done].
  - by apply restart_safe.
Qed.

Lemma reachable_safe w w' : rtc steps w w' → safe w → safe w'.
Proof. induction 1 as [|w w1 w2 Hs _ IH]; [done|]. intros Hw. by apply IH, (step_safe w). Qed.
End safe.

(** * Properties *)

(** However long the program runs, whatever it is sent and however often it
    is restarted, it never reaches a broken state. After any sequence of lines,
    datagrams, scans, console and dashboard requests, ticks and restarts, the
    stored sources, the schedule, the saved targets and the running readers name
    the same sources; every detection record makes a valid finding and every
    stored finding is a valid one; and a scan of any scheduled source ends
    without an error. *)
Theorem live_safe `{LogStoreSpec L} `{StoreSpec W} `{TargetStoreSpec T}
    `{TimeFormat} `{JSONEncoder} `{!StoreJSON W} `{Quoter} `{MapRange} `{SortSlice}
    `{UnicodeTables} `{LogCodec} `{Ed25519} `{LicenseJSON} `{AiJSON}
    (format_date : Z → string) (quote : string → string)
    (snapshot : string → Hfs.Meta → HfsSource → Z → option string)
    (newID : Z → M W string string) (newID_ok : fresh_ids newID) (w w' : World L W T) :
  safe w → rtc (step format_date quote snapshot newID) w w' →
  safe w' ∧
  ∀ now t, t ∈ Sched.ListTargets ModuleID (ap_Sched (wd_App w')) →
    ∃ st res, scan_target newID now t w' = ((ap_Log (wd_App w'), st), Ok res) ∧ store_ok st.
Proof.
  intros Hw Hs. assert (safe w') as Hw' by (by eapply reachable_safe).
  split; [done|]. intros now t Ht. by apply scan_target_ok.
Qed.

(** ** Concrete inputs *)

Definition exWorld `{Ed25519} `{LicenseJSON} :
    World Loglight.MemStore Store.MemStore Store.MemStore :=
  mkWorld exApp bootDetect bootCorr None [] (NewGraph ∅) ∅
    (NewServer (λ _, "") Describe (Store.mkMemStore ∅ (Some ∅)) (ap_Sched exApp) [] "" None 0).

Section examples.
#[local] Instance exQ : Quoter := exQuoter.
#[local] Instance exR : MapRange := canonical_range.
#[local] Instance exS : SortSlice := canonical_sort.
#[local] Instance exE : Ed25519 := exEd.
#[local] Instance exJ : LicenseJSON := exLicenseJSON.
#[local] Instance exA : AiJSON := exJSON.
#[local] Instance exT : TimeFormat := exFormat.
#[local] Instance exU : UnicodeTables := Parse.exTables.
#[local] Instance exC : LogCodec := exCodec.
#[local] Instance exM : JSONEncoder := noMarshal.

Lemma exWorld_safe : safe exWorld.
Proof.
  split; [apply exApp_wired|by intros n [c Hc]|done| |done].
  split; [apply map_Forall_empty|]. intros m fp r _ Hr. discriminate Hr.
Qed.

Abbreviation ex_source := (FileSource "auth" "/var/log/auth.log" "" "").
Abbreviation ex_saved := (console (Save 5 (exRequest "auth" "/var/log/auth.log")) exWorld).

Lemma live_safe_witness :
  let w := handle_event freshID exNow ex_source (ParseLine SourceFile "auth" "" "" exLine exNow) ex_saved in
  safe w ∧ ∃ st res, scan_target freshID exNow (mkTarget "auth" "auth" None) w
    = ((ap_Log (wd_App w), st), Ok res) ∧ store_ok st.
Proof.
  intros w.
  destruct (live_safe (λ _, "") (λ s, s) (λ _ _ _ _, None) freshID freshID_fresh exWorld w exWorld_safe)
    as [Hw Hscan].
  - eapply rtc_l; [|eapply rtc_l; [|apply rtc_refl]].
    + apply step_work, (step_console _ _ _ _ _ (Save 5 (exRequest "auth" "/var/log/auth.log"))).
      * apply exRequest_decoded. reflexivity.
      * intros now sr [= <- <-]. vm_compute. reflexivity.
    + apply step_work, (step_line _ _ _ _ _ exNow ex_source).
      * vm_compute. reflexivity.
      * exists exLine. reflexivity.
  - split; [exact Hw|]. apply Hscan. vm_compute. constructor.
Defined.
End examples.
