(* ===== verification/Boot.v ===== *)
(** The start of the program, [main] of [src/cmd/loglight/main.go] down to the
    launch of its loops: the flags, the stores, the dispatcher, the detectors, the
    saved sources, the licence, AI Assist and the scheduler. What the databases and
    the files give is an argument; what fails ends the process with its code. *)
From S2P Require Import Prelude Text Float Core Store Reconcile Netip Ingest Netflow Traffic Parse.
From S2P Require Import Detect Correlate Notify Loglight Pipeline.
From S2P Require Import License Verify AiClient Hfs Web Console Main Wiring Tasks Live.
From S2P Require Sched.
Local Open Scope Z_scope.

(** * The issuer's key *)

(** A digit of [base64.StdEncoding] as one of [RawURLEncoding]; what is neither a
    digit of the former stays invalid. *)
Definition std_digit (c : Z) : Z :=
  if c =? 43 then 45 else if c =? 47 then 95 else if (c =? 45) || (c =? 95) then 0 else c.

(** Two or one padding characters at the end. *)
Definition cut_padding (b : list Z) : list Z :=
  match reverse b with
  | 61 :: 61 :: r => reverse r
  | 61 :: r => reverse r
  | _ => b
  end.

(** [base64.StdEncoding.DecodeString]. *)
Definition StdDecodeString (s : string) : option bytes :=
  let l := filter (λ c, c ≠ 10 ∧ c ≠ 13) (bytes_of_string s) in
  if (length l mod 4 =? 0)%nat then b64_decode (map std_digit (cut_padding l)) else None.

(** No key, or one that is not base64, is no key. *)
Definition issuer_key (issuerPublicKeyB64 : string) : bytes :=
  if is_empty issuerPublicKeyB64 then []
  else default [] (StdDecodeString issuerPublicKeyB64).

(** * The flags *)

Record flags := mkFlagSet {
  fg_listen : string;
  fg_db : string;
  fg_license : string;
  fg_channels : channelFlags;
  fg_ai : AIConfig;
}.

(** The defaults; [getenv] is the environment. *)
Definition default_flags (getenv : string → string) : flags :=
  mkFlagSet "127.0.0.1:8427" "loglight.db" "loglight-license.key" registerChannelFlags
    (mkAIConfig (getenv "LOGLIGHT_AI_ASSIST_URL") (getenv "LOGLIGHT_AI_ASSIST_KEY_FILE")
       (getenv "LOGLIGHT_AI_ASSIST_LANG")
       (str_eqb (getenv "LOGLIGHT_AI_ASSIST_NO_THINKING") "1")).

(** [os.Exit], with what was written to standard error. *)
Record exit := mkExit { ex_code : Z; ex_stderr : string }.

Definition fatal {A} (msg : string) : result exit A := Err (mkExit 1 ("loglight: " +:+ msg)).

Definition or_fatal {E A} (show : E → string) (r : result E A) : result exit A :=
  match r with Ok a => Ok a | Err e => fatal (show e) end.

(** A flag that makes no sense. *)
Definition or_usage {A} (r : result string A) : result exit A :=
  match r with Ok a => Ok a | Err e => Err (mkExit 2 ("loglight: " +:+ e)) end.

(** * The sequence *)

Section boot.
Context {L W T : Type} `{LogStoreOps L} `{StoreOps W} `{TargetStoreOps T}.
Context `{Quoter} `{MapRange} `{SinkLibrary} `{URLParser} `{UnicodeTables}.
Context `{Ed25519} `{LicenseJSON}.
Context (format_date : Z → string).

(** What the process finds: the databases it opens, and the files it reads. *)
Record environment := mkEnvironment {
  en_open : result string unit;                     (* [sql.Open] *)
  en_store : result string (W * T);                 (* [store.NewSQLiteStore] *)
  en_log : result string L;                         (* [loglight.NewSQLiteStore] *)
  en_graph : result string (gmap edgeKey agg);      (* [traffic.NewGraph] *)
  en_host : string;
  en_license : option string;
  en_aikey : result string string;
  en_now : Z;
  en_issuer : string;                               (* [issuerPublicKeyB64] *)
}.

(** The fields of the server that [main] sets. *)
Definition configure (fl : flags) (env : environment) (t : T) (ai : option AIAssist) (s : Server W T) :
    Server W T :=
  mkServer (sv_Module s) (sv_Store s) (sv_Scheduler s) (Some t) (Some loglightTierLimits) (sv_Verify s)
    (sv_IssuerPub s) (sv_LicenseFile s) (sv_activation s) ai (mkMeta "loglight" Version (en_host env))
    (default "" (ParseEvidenceMode (fl_evidence (fg_channels fl)))).

(** [sent] is what earlier processes have sent. *)
Definition boot (fl : flags) (env : environment) (sent : list Digest) : result exit (World L W T) :=
  _ ← or_fatal (λ e, "open database: " +:+ e) (en_open env);
  '(st, ts) ← or_fatal id (en_store env);
  logStore ← or_fatal id (en_log env);
  rows ← or_fatal id (en_graph env);
  channels ← or_usage (build (fg_channels fl));
  let disp := match channels with
              | [] => None
              | _ => Some (NewDispatcher (Notify.mkConfig 0 0 "" 0 0))
              end in
  let '(scheduler, dup) := Sched.Register module_collector (Sched.New (Sched.mkConfig 0 0 (f_const 0 1) 0 0 0)) in
  match dup with
  | Some e => fatal e
  | None =>
    let app := restore (mkApp logStore scheduler NewIngestEngine ts) in
    let server := NewServer format_date Describe st (ap_Sched app) (issuer_key (en_issuer env))
                    (fg_license fl) (en_license env) (en_now env) in
    aiAssist ← or_usage (NewAIAssist strconv_Quote (en_aikey env) (fg_ai fl));
    let server := configure fl env (ap_Targets app) aiAssist server in
    let '(scheduler, r) := Sched.Start (ap_Sched app) in
    _ ← or_fatal id r;
    Ok (mkWorld (set_Sched scheduler app) bootDetect bootCorr disp sent (NewGraph rows) ∅
          (set_Scheduler scheduler server))
  end.
(** ** The end *)

Definition ErrServerClosed : string := "http: Server closed".

(** [ListenAndServe] has returned. The goroutine that shuts the server down may have
    come to [scheduler.Stop] by then, or not. [fatal] leaves without the deferred
    [disp.Close]. *)
Definition served (err : option string) (stopped : bool) (now : Z) (w : World L W T) :
    World L W T * option exit :=
  let failed := match err with Some e => negb (str_eqb e ErrServerClosed) | None => false end in
  if failed then (w, Some (mkExit 1 ("loglight: " +:+ default "" err)))
  else
    let a := wd_App w in
    (shutdown now (if stopped then set_App (set_Sched (Sched.Stop (ap_Sched a)) a) w else w), None).
End boot.
Arguments mkEnvironment {L W T} _ _ _ _ _ _ _ _ _.
Arguments environment : clear implicits.

(** * Lemmas *)

Section boot.
Context {L W T : Type} `{LogStoreSpec L} `{StoreSpec W} `{TargetStoreSpec T}.
Context `{TimeFormat} `{JSONEncoder} `{!StoreJSON W} `{SortSlice} `{LogCodec} `{AiJSON}.
Context `{Quoter} `{MapRange} `{SinkLibrary} `{URLParser} `{UnicodeTables}.
Context `{Ed25519} `{LicenseJSON}.
Context (format_date : Z → string).

(** A scheduler that was never started starts. *)
Lemma restore_not_started (a : App L T) : Sched.sd_state (ap_Sched a) = Sched.NotStarted →
  Sched.sd_state (ap_Sched (restore a)) = Sched.NotStarted.
Proof.
  intros Ha. unfold restore. destruct (ts_ListSavedTargets _ _) as [t [saved|e]]; [|done].
  assert (Sched.sd_state (ap_Sched (set_Targets t a)) = Sched.NotStarted) as Hs by done.
  revert Hs. generalize (set_Targets t a). clear Ha.
  induction saved as [|raw saved IH]; intros b Hb; cbn [foldl]; [done|]. apply IH.
  assert (∀ b' : App L T, ap_Sched (startSource raw b') = ap_Sched b') as Hst.
  { intros b'. unfold startSource. cbn. unfold on_log.
    destruct (GetSource raw (ap_Log b')) as [l [[src|]|e]]; cbn; [|done..].
    by destruct (BuildSourceWith src true). }
  unfold restore_one. assert (∀ sc r sn, Sched.AddTarget ModuleID raw (ap_Sched b) = (sc, r, sn) →
    Sched.sd_state sc = Sched.NotStarted) as Hadd.
  { unfold Sched.AddTarget. intros sc r sn Hx. by repeat case_match; simplify_eq/=. }
  destruct (Sched.AddTarget _ _ _) as [[sc [tg|e]] sn] eqn:Hx; [rewrite Hst|]; by eapply Hadd.
Qed.

(** With the stores of [w], what the program becomes. *)
Definition opens (w : World L W T) (env : environment L W T) : Prop :=
  en_open env = Ok tt ∧ en_store env = Ok (sv_Store (wd_Server w), ap_Targets (wd_App w)) ∧
  en_log env = Ok (ap_Log (wd_App w)) ∧ en_graph env = Ok (gr_rows (wd_Graph w)).

Lemma boot_restarts fl env (w : World L W T) : opens w env →
  match boot format_date fl env (wd_Sent w) with
  | Err e =>
    ex_code e = 2 ∧ ((∃ m, build (fg_channels fl) = Err m) ∨ ∃ m, NewAIAssist strconv_Quote (en_aikey env) (fg_ai fl) = Err m)
  | Ok w' => ∃ cfg disp s, w' = restart cfg disp s w ∧
      sv_Store s = sv_Store (wd_Server w) ∧ sv_Module s = Describe ∧
      sv_TierLimits s = Some loglightTierLimits ∧
      ∃ key now, sv_activation s = Activate format_date (issuer_key (en_issuer env)) ModuleID key now
  end.
Proof.
  intros (Ho & Hst & Hl & Hg). unfold boot. rewrite Ho, Hst, Hl, Hg. cbn [or_fatal mbind result_mbind].
  destruct (build (fg_channels fl)) as [chs|m]; cbn [or_usage]; [|split; [done|left; by eexists]].
  set (cfg := Sched.mkConfig _ _ _ _ _ _). cbn [mbind result_mbind].
  change (Sched.Register module_collector (Sched.New cfg))
    with ((Sched.Register module_collector (Sched.New cfg)).1, @None string).
  cbn match beta. change (mkApp (ap_Log (wd_App w)) (Sched.Register module_collector (Sched.New cfg)).1 NewIngestEngine (ap_Targets (wd_App w)))
    with (booted cfg (ap_Log (wd_App w)) (ap_Targets (wd_App w))).
  set (app := restore (booted cfg (ap_Log (wd_App w)) (ap_Targets (wd_App w)))).
  destruct (NewAIAssist _ _ _) as [ai|m]; cbn [or_usage mbind result_mbind]; [|split; [done|right; by eexists]].
  assert (Sched.sd_state (ap_Sched app) = Sched.NotStarted) as Hns by (by apply restore_not_started).
  unfold Sched.Start. rewrite Hns. cbn match beta. cbn [or_fatal mbind result_mbind].
  match goal with |- ∃ _ _ _, mkWorld ?a _ _ ?d _ _ _ ?s = _ ∧ _ => exists cfg, d, s end.
  split; [|split_and!; [done..|]].
  - unfold restart, started, Sched.Start. fold app. by rewrite Hns.
  - by eexists _, _.
Qed.
End boot.

(** Without an issuer's key nothing is more than the free edition. *)
Lemma free_edition `{Ed25519} `{LicenseJSON} format_date product key now :
  ac_Tier (Activate format_date (issuer_key "") product key now) = TierFree.
Proof. reflexivity. Qed.

(** * Properties *)


(** ** Concrete inputs *)

Definition exSinks : SinkLibrary := {|
  ParseEvidenceMode s := if str_eqb s "redacted" || str_eqb s "none" then Some s else None;
  ReadSecretFile _ := Ok "secret";
  TLSConfig_error _ _ := None;
  Syslog_Validate _ := None;
  HEC_Endpoint_error _ := None;
  net_SplitHost s := s;
|}.

Section examples.
#[local] Instance exQ : Quoter := exQuoter.
#[local] Instance exR : MapRange := canonical_range.
#[local] Instance exS : SortSlice := canonical_sort.
#[local] Instance exE : Ed25519 := exEd.
#[local] Instance exJ : LicenseJSON := exLicenseJSON.
#[local] Instance exU : UnicodeTables := Parse.exTables.
#[local] Instance exM : JSONEncoder := noMarshal.
#[local] Instance exK : SinkLibrary := exSinks.
#[local] Instance exP : URLParser := λ _, None.

Definition saved_world : World Loglight.MemStore Store.MemStore Store.MemStore :=
  console (Save 5 (exRequest "auth" "/var/log/auth.log")) exWorld.

Lemma saved_world_safe : safe saved_world.
Proof.
  apply console_safe; [apply exWorld_safe|by apply exRequest_decoded|].
  intros now sr [= <- <-]. vm_compute. reflexivity.
Qed.

(** The databases of that world, and a licence file. *)
Definition exEnvironment : environment Loglight.MemStore Store.MemStore Store.MemStore :=
  mkEnvironment (Ok tt) (Ok (sv_Store (wd_Server saved_world), ap_Targets (wd_App saved_world)))
    (Ok (ap_Log (wd_App saved_world))) (Ok ∅) "host" (Some "SNTL1-x.y") (Err "no such file") 7 "".

End examples.

(** The padded alphabet. *)
Example StdDecodeString_padding :
  map StdDecodeString ["AQID"; "AQI="; "AQ=="; "+/8="; "-_8="; "AQ="; "A==="] =
    [Some [1; 2; 3]; Some [1; 2]; Some [1]; Some [251; 255]; None; None; None].
Proof. vm_compute. reflexivity. Qed.
