(* ===== verification/Readers.v ===== *)
(** The [Run] methods of the sources: [src/logingest/syslog_source.go],
    [src/logingest/command_source.go], [src/logingest/source.go] and
    [src/netflow/source.go]. What the operating system does (a socket is bound, a
    datagram arrives, a connection ends) is a sequence of events; a method is what it
    does at each. The tail of a file is that of [Ingest.v]. *)
From S2P Require Import Prelude Text Float Core Netip Ingest Netflow Parse Loglight Live.
Local Open Scope Z_scope.

(** * Syslog over UDP and TCP *)

(** A listener: not asked for, being bound, bound, or returned with its error. *)
Inductive listener := Off | Binding | Bound | Returned (err : string).

(** [sr_conns] holds the lines each open connection has not delivered yet;
    [sr_result] is what [Run] returned, if it did. *)
Record syslogRun := mkSyslogRun {
  sr_cancelled : bool;
  sr_udp : listener;
  sr_tcp : listener;
  sr_conns : gmap nat (list bytes);
  sr_result : option string;
}.

(** What happens at the sockets. A connection is accepted with the stream its peer
    will have sent. *)
Inductive os_event :=
| ListenUDP (r : option string)
| ReadFrom (r : result string bytes)
| ListenTCP (r : option string)
| Accept (r : result string (nat * bytes))
| Scan (conn : nat)
| Cancel.

Definition ctx_Err : string := "context canceled".

(** The error a listener returns with. *)
Definition listener_error (cancelled : bool) (e : string) : listener :=
  Returned (if cancelled then ctx_Err else e).

(** [errc] and the [select]: the first end is the one that counts. *)
Definition first_end (s : syslogRun) : option string :=
  match sr_result s with
  | Some r => Some r
  | None =>
    if sr_cancelled s then Some ctx_Err
    else match sr_udp s, sr_tcp s with
         | Returned e, _ => Some e
         | _, Returned e => Some e
         | _, _ => None
         end
  end.

Section syslog.
Context `{UnicodeTables} `{LogCodec}.
Context (id udp tcp kind : string) (now : Z).

(** Both goroutines start at once. *)
Definition syslog_start : syslogRun :=
  mkSyslogRun false (if is_empty udp then Off else Binding) (if is_empty tcp then Off else Binding) ∅ None.

Definition runUDP (o : os_event) (s : syslogRun) : listener * list Event :=
  match sr_udp s, o with
  | Binding, ListenUDP None => (Bound, [])
  | Binding, ListenUDP (Some e) => (Returned e, [])
  | Bound, ReadFrom (Ok b) => (Bound, [udp_event id kind now b])
  | Bound, ReadFrom (Err e) => (listener_error (sr_cancelled s) e, [])
  | l, _ => (l, [])
  end.

Definition runTCP (o : os_event) (s : syslogRun) : listener * gmap nat (list bytes) :=
  match sr_tcp s, o with
  | Binding, ListenTCP None => (Bound, sr_conns s)
  | Binding, ListenTCP (Some e) => (Returned e, sr_conns s)
  | Bound, Accept (Ok (c, stream)) => (Bound, <[c := scan_lines maxLine [] stream]> (sr_conns s))
  | Bound, Accept (Err e) => (listener_error (sr_cancelled s) e, sr_conns s)
  | l, _ => (l, sr_conns s)
  end.

(** One turn of the loop of [handleConn]: a line that was scanned when the context
    has ended is dropped, and so is the connection. *)
Definition handleConn (o : os_event) (cancelled : bool) (conns : gmap nat (list bytes)) :
    gmap nat (list bytes) * list Event :=
  match o with
  | Scan c =>
    match conns !! c with
    | Some (l :: ls) =>
      if cancelled then (delete c conns, [])
      else (<[c := ls]> conns, [tag id kind (ParseSyslog (string_of_bytes l) now)])
    | _ => (delete c conns, [])
    end
  | _ => (conns, [])
  end.

Definition syslog_step (s : syslogRun) (o : os_event) : syslogRun * list Event :=
  let '(u, ev) := runUDP o s in
  let '(t, conns) := runTCP o s in
  let '(conns, ev') := handleConn o (sr_cancelled s) conns in
  let cancelled := match o with Cancel => true | _ => sr_cancelled s end in
  let s := mkSyslogRun cancelled u t conns (sr_result s) in
  (mkSyslogRun cancelled u t conns (first_end s), ev ++ ev').

Fixpoint syslog_run (os : list os_event) (s : syslogRun) : syslogRun * list Event :=
  match os with
  | [] => (s, [])
  | o :: os =>
    let '(s, ev) := syslog_step s o in
    let '(s, evs) := syslog_run os s in
    (s, ev ++ evs)
  end.

(** ** Lemmas *)

(** What connections still hold are lines of their streams. *)
Definition syslog_inv (s : syslogRun) : Prop :=
  (udp = "" → sr_udp s = Off) ∧ (tcp = "" → sr_tcp s = Off ∧ sr_conns s = ∅) ∧
  map_Forall (λ _ ls, ∃ stream, ∀ l, l ∈ ls → l ∈ scan_lines maxLine [] stream) (sr_conns s).

Lemma syslog_start_inv : syslog_inv syslog_start.
Proof.
  unfold syslog_inv, syslog_start. split_and!; cbn; [by intros ->|by intros ->|apply map_Forall_empty].
Qed.

Lemma runTCP_conns o s : syslog_inv s → 
  (tcp = "" → (runTCP o s).1 = Off ∧ (runTCP o s).2 = ∅) ∧
  map_Forall (λ _ ls, ∃ stream, ∀ l, l ∈ ls → l ∈ scan_lines maxLine [] stream) (runTCP o s).2.
Proof.
  intros (_ & Ht & Hc). unfold runTCP. split.
  - intros Hn. destruct (Ht Hn) as [-> ->]. by destruct o.
  - destruct (sr_tcp s), o as [[]| |[]|[[c st]|]| |]; cbn; try done.
    apply map_Forall_insert_2; [by exists st|done].
Qed.

Lemma syslog_step_ok s o : syslog_inv s →
  syslog_inv (syslog_step s o).1 ∧
  Forall (line_event now (SyslogSource id udp tcp kind)) (syslog_step s o).2.
Proof.
  intros Hs. pose proof (runTCP_conns o s Hs) as [Ht Hc]. destruct Hs as (Hu & Ht0 & _).
  unfold syslog_step. destruct (runUDP o s) as [u ev] eqn:Hru. destruct (runTCP o s) as [t conns]. cbn [fst snd] in *.
  destruct (handleConn o (sr_cancelled s) conns) as [conns' ev'] eqn:Hh. cbn [fst snd].
  assert ((udp = "" → u = Off) ∧ Forall (line_event now (SyslogSource id udp tcp kind)) ev) as [Hu' Hev].
  { unfold runUDP in Hru. split.
    - intros Hn. rewrite (Hu Hn) in Hru. by destruct o; injection Hru as <- _.
    - assert (sr_udp s = Bound → udp ≠ "") as Hne by (intros Hb Hn; by rewrite (Hu Hn) in Hb).
      destruct (sr_udp s), o as [[]|[]| | | |]; injection Hru as _ <-; try done.
      apply Forall_singleton. left. split; [by apply Hne|]. by eexists. }
  assert ((tcp = "" → conns' = ∅) ∧
    map_Forall (λ _ ls, ∃ stream, ∀ l, l ∈ ls → l ∈ scan_lines maxLine [] stream) conns' ∧
    Forall (line_event now (SyslogSource id udp tcp kind)) ev') as (Hn' & Hc' & Hev').
  { unfold handleConn in Hh. destruct o as [| | | |c|]; [by injection Hh as <- <-; split_and!; [apply Ht|..]..| |
      by injection Hh as <- <-; split_and!; [apply Ht|..]].
    assert (tcp = "" → delete c conns = ∅) as Hd.
    { intros Hn. destruct (Ht Hn) as [_ ->]. apply delete_empty. }
    destruct (conns !! c) as [[|l ls]|] eqn:Hl;
      [injection Hh as <- <-; split_and!; [done|by apply map_Forall_delete|done]| |
       injection Hh as <- <-; split_and!; [done|by apply map_Forall_delete|done]].
    destruct (sr_cancelled s); injection Hh as <- <-; (split_and!; [| |]).
    - done.
    - by apply map_Forall_delete.
    - done.
    - intros Hn. destruct (Ht Hn) as [_ ->]. by rewrite lookup_empty in Hl.
    - destruct (Hc _ _ Hl) as [st Hst]. apply map_Forall_insert_2; [|done]. exists st. intros l' Hl'.
      apply Hst. by right.
    - apply Forall_singleton. right. split.
      + intros Hn. destruct (Ht Hn) as [_ ->]. by rewrite lookup_empty in Hl.
      + destruct (Hc _ _ Hl) as [st Hst]. exists st. unfold conn_events.
        apply list_elem_of_fmap. exists l. split; [done|]. apply Hst. by left. }
  split; [|by apply Forall_app]. unfold syslog_inv. cbn [sr_udp sr_tcp sr_conns]. split_and!; [done| |done].
  intros Hn. split; [by apply Ht|by apply Hn'].
Qed.

Lemma syslog_run_ok os : ∀ s, syslog_inv s →
  syslog_inv (syslog_run os s).1 ∧
  Forall (line_event now (SyslogSource id udp tcp kind)) (syslog_run os s).2.
Proof.
  induction os as [|o os IH]; intros s Hs; cbn [syslog_run]; [done|].
  destruct (syslog_step_ok s o Hs) as [Hs' Hev]. destruct (syslog_step s o) as [s1 ev].
  destruct (IH s1 Hs') as [Hs2 Hevs]. destruct (syslog_run os s1) as [s2 evs]. split; [done|by apply Forall_app].
Qed.

(** A listener that is not bound stays so, unless it is still to be. *)
Definition ended (l : listener) : bool := match l with Off | Returned _ => true | _ => false end.

Lemma syslog_quiet os : ∀ s, sr_cancelled s = true → ended (sr_udp s) = true →
  (syslog_run os s).2 = [].
Proof.
  induction os as [|o os IH]; intros s Hc Hu; cbn [syslog_run]; [done|].
  unfold syslog_step. assert (runUDP o s = (sr_udp s, [])) as ->.
  { unfold runUDP. by destruct (sr_udp s). }
  destruct (runTCP o s) as [t conns]. rewrite Hc.
  assert ((handleConn o true conns).2 = []) as Hh by (unfold handleConn; by repeat case_match).
  destruct (handleConn o true conns) as [conns' ev']. cbn [snd] in Hh. subst ev'.
  match goal with |- context [syslog_run os ?s'] => pose proof (IH s') as Hi end.
  destruct (syslog_run os _) as [s2 evs]. cbn [fst snd app] in *. apply Hi; [|exact Hu]. cbn. by destruct o.
Qed.

(** [Run] returns for a reason, and only once. *)
Definition result_inv (s : syslogRun) : Prop :=
  match sr_result s with
  | None => sr_cancelled s = false ∧ (∀ e, sr_udp s ≠ Returned e) ∧ ∀ e, sr_tcp s ≠ Returned e
  | Some r => sr_cancelled s = true ∨ sr_udp s = Returned r ∨ sr_tcp s = Returned r
  end.

Lemma returned_stays s o e :
  (sr_udp s = Returned e → sr_udp (syslog_step s o).1 = Returned e) ∧
  (sr_tcp s = Returned e → sr_tcp (syslog_step s o).1 = Returned e).
Proof.
  unfold syslog_step. split; intros Hr.
  - unfold runUDP. rewrite Hr. destruct (runTCP o s) as [t conns]. by destruct (handleConn _ _ _).
  - unfold runTCP. rewrite Hr. destruct (runUDP o s) as [u ev]. by destruct (handleConn _ _ _).
Qed.

Lemma result_step s o : result_inv s → result_inv (syslog_step s o).1.
Proof.
  intros Hs. pose proof (returned_stays s o) as Hst. unfold result_inv in *.
  assert (sr_cancelled s = true → sr_cancelled (syslog_step s o).1 = true) as Hc.
  { intros Hc. unfold syslog_step. destruct (runUDP o s) as [u ev], (runTCP o s) as [t conns].
    destruct (handleConn _ _ _). cbn. by destruct o. }
  assert (sr_result (syslog_step s o).1 =
    match sr_result s with
    | Some r => Some r
    | None => first_end (mkSyslogRun (sr_cancelled (syslog_step s o).1) (sr_udp (syslog_step s o).1)
                           (sr_tcp (syslog_step s o).1) (sr_conns (syslog_step s o).1) None)
    end) as Hr.
  { unfold syslog_step. destruct (runUDP o s) as [u ev], (runTCP o s) as [t conns].
    destruct (handleConn _ _ _). cbn. unfold first_end. cbn. by destruct (sr_result s). }
  rewrite Hr. destruct (sr_result s) as [r|].
  - destruct Hs as [Hs|[Hs|Hs]]; [left; auto|right; left; by apply Hst|right; right; by apply Hst].
  - set (s' := (syslog_step s o).1). unfold first_end. cbn. destruct (sr_cancelled s'); [by left|].
    destruct (sr_udp s'), (sr_tcp s'); auto.
Qed.
End syslog.

(** * NetFlow over UDP *)

Inductive udpRun :=
| Starting
| Listening (templates : TemplateCache)
| Stopped (err : option string).

Inductive udp_input :=
| Listen (r : option string)
| Packet (r : result string (bytes * string))   (* a datagram and its sender *)
| Close.                                        (* the context has ended: the socket is closed *)

(** [UDPSource.Run]; [host_of] is [net.SplitHostPort] on the sender's address. A
    read that fails while the context lives is tried again. The flows of a datagram
    are what the tap and [emit] are called with, in turn. *)
Definition netflow_step `{MapRange} (addr : string) (host_of : string → option string) (now : Z)
    (i : udp_input) (s : udpRun) : udpRun * list Flow :=
  match s, i with
  | Starting, Listen (Some e) => (Stopped (Some (sprint ["netflow listen "; addr; ": "; e])), [])
  | Starting, Listen None => (Listening NewTemplateCache, [])
  | Listening tc, Packet (Ok (b, from)) =>
    match ParseDatagram (take (Z.to_nat 65535) b) (default from (host_of from)) now (Some tc) with
    | Done (flows, Some tc) => (Listening tc, flows)
    | Done (flows, None) => (Listening tc, flows)
    | _ => (Listening tc, [])
    end
  | Listening tc, Packet (Err _) => (Listening tc, [])
  | Listening _, Close => (Stopped None, [])
  | s, _ => (s, [])
  end.

Fixpoint netflow_run `{MapRange} (addr : string) (host_of : string → option string) (now : Z)
    (ins : list udp_input) (s : udpRun) : udpRun * list Flow :=
  match ins with
  | [] => (s, [])
  | i :: ins =>
    let '(s, fs) := netflow_step addr host_of now i s in
    let '(s, fs') := netflow_run addr host_of now ins s in
    (s, fs ++ fs')
  end.

(** * Commands *)

(** [CommandSource.Run]: [pipe] and [start] are the errors of [StdoutPipe] and
    [Start], [cut] the number of lines read before the context ends, if it does,
    and [wait] what [Wait] returns. *)
Definition command_run `{UnicodeTables} `{LogCodec} (kind id host app : string) (now : Z)
    (pipe start : option string) (stdout : bytes) (cut : option nat) (wait : option string) :
    list Event * option string :=
  match pipe, start with
  | Some e, _ => ([], Some e)
  | None, Some e => ([], Some e)
  | None, None =>
    let evs := command_events kind id host app now stdout in
    (match cut with Some n => take n evs | None => evs end, wait)
  end.

Lemma command_run_ok `{UnicodeTables} `{LogCodec} id kind app name args now pipe start stdout cut wait :
  Forall (line_event now (CommandSource id kind app name args))
    (command_run kind id "" app now pipe start stdout cut wait).1.
Proof.
  unfold command_run. destruct pipe, start; try apply Forall_nil_2. cbn [fst].
  assert (Forall (line_event now (CommandSource id kind app name args)) (command_events kind id "" app now stdout)) as Hf.
  { apply Forall_forall. intros e He. by exists stdout. }
  destruct cut; [by apply Forall_take|done].
Qed.

(** * Files *)

(** [FileSource.Run] from its first [open] on [fs]: each tick finds the files as they
    are then; [stopped] tells whether the context ends after the last. *)
Definition file_run `{UnicodeTables} `{LogCodec} (FromStart : bool) (kind id host app : string) (now : Z)
    (fs : fileSystem) (ticks : list fileSystem) (stopped : bool) : list Event * outcome (option string) :=
  let '(r, lines) := tail_run FromStart ticks (tail_start FromStart fs) in
  (map (λ l, ParseLine kind id host app (string_of_bytes l) now) lines,
   match r with
   | Done _ => Done (if stopped then Some ctx_Err else None)
   | Panic => Panic
   | OutOfFuel => OutOfFuel
   end).

(** What it emits is what [Live.v] lets a running file source emit. *)
Lemma file_run_ok `{UnicodeTables} `{LogCodec} FromStart id path host app now fs ticks stopped :
  Forall (line_event now (FileSource id path host app))
    (file_run FromStart SourceFile id host app now fs ticks stopped).1.
Proof.
  unfold file_run. destruct (tail_run _ _ _) as [r ls]. cbn [fst]. apply Forall_fmap, Forall_forall.
  intros l _. by eexists.
Qed.

Definition listening_ok (s : udpRun) : Prop := ∃ tc, s = Listening tc ∧ cache_ok tc.

(** Whatever arrives, a listening source goes on listening until it is stopped. *)
Lemma netflow_step_ok `{MapRange} addr host_of now i s : i ≠ Close → listening_ok s →
  (∀ b from, i = Packet (Ok (b, from)) → wf_bytes b) →
  listening_ok (netflow_step addr host_of now i s).1.
Proof.
  intros Hi (tc & -> & Htc) Hb. destruct i as [r|[[b from]|e]|]; cbn [netflow_step]; [by exists tc| |by exists tc|done].
  destruct (ParseDatagram_ok (take (Z.to_nat 65535) b) (default from (host_of from)) now (Some tc))
    as ([out tc'] & -> & _ & Htc').
  - apply Forall_take. by apply (Hb b from).
  - intros c [= <-]. done.
  - cbn [snd] in Htc'. destruct tc' as [tc'|]; cbn; [exists tc'|exists tc]; (split; [done|]); auto.
Qed.

Lemma netflow_run_ok `{MapRange} addr host_of now ins : ∀ s, Close ∉ ins → listening_ok s →
  (∀ b from, Packet (Ok (b, from)) ∈ ins → wf_bytes b) →
  listening_ok (netflow_run addr host_of now ins s).1.
Proof.
  induction ins as [|i ins IH]; intros s Hc Hs Hb; cbn [netflow_run]; [done|].
  apply not_elem_of_cons in Hc as [Hi Hc].
  pose proof (netflow_step_ok addr host_of now i s (not_eq_sym Hi) Hs) as Hst.
  destruct (netflow_step addr host_of now i s) as [s1 fs]. specialize (IH s1 Hc).
  destruct (netflow_run addr host_of now ins s1) as [s2 fs']. apply IH.
  - apply Hst. intros b from ->. apply (Hb b from). by left.
  - intros b from Hin. apply (Hb b from). by right.
Qed.

(** * Properties *)


(** The bytes before the first line end are one line. *)
Lemma scan_lines_last max s : ∀ cur, Forall (λ c, c ≠ 10) s → cur ++ s ≠ [] → (length (cur ++ s) < max)%nat →
  ∃ l, scan_lines max cur s = [l].
Proof.
  induction s as [|c s IH]; intros cur Hs Hne Hlt; cbn [scan_lines].
  - rewrite app_nil_r in *. destruct cur as [|x cur]; [done|].
    destruct (Nat.leb_spec max (length (x :: cur))); [lia|by eexists].
  - apply Forall_cons in Hs as [Hc Hs]. apply Z.eqb_neq in Hc as ->.
    rewrite (app_assoc cur [c] s : cur ++ c :: s = (cur ++ [c]) ++ s) in Hne, Hlt. by apply IH.
Qed.

(** A source whose UDP port is taken has returned its error, and its other half
    goes on delivering. *)
Lemma half_a_source_lives `{UnicodeTables} `{LogCodec} id udp tcp kind now e line :
  udp ≠ "" → tcp ≠ "" → line ≠ [] → (length line < maxLine)%nat → Forall (λ c, c ≠ 10) line →
  let '(s, evs) := syslog_run id kind now
    [ListenUDP (Some e); ListenTCP None; Accept (Ok (1%nat, line)); Scan 1] (syslog_start udp tcp) in
  sr_result s = Some e ∧ sr_cancelled s = false ∧ length evs = 1%nat.
Proof.
  intros Hu Ht Hne Hlen Hl. destruct (scan_lines_last maxLine line [] Hl Hne Hlen) as [l Hs].
  unfold syslog_start.
  rewrite !is_empty_false by done. cbn [syslog_run syslog_step runUDP runTCP handleConn sr_udp sr_tcp sr_conns sr_cancelled].
  unfold syslog_step. cbn -[scan_lines maxLine insert lookup]. rewrite Hs, lookup_insert_eq. cbn. done.
Qed.

Section examples.
#[local] Instance exU : UnicodeTables := Parse.exTables.
#[local] Instance exC : LogCodec := exCodec.

End examples.
