(* ===== verification/Goroutines.v ===== *)
(** The program with its goroutines at work at the same time. [Live.v] takes a
    scan, the delivery of an event and a triage request as single steps; here they
    go call by call ([Tasks.v]), and between two calls anything else may happen:
    other scans, even of the same source, deliveries, requests, ticks, restarts. *)
From S2P Require Import Prelude Conc Text Float Core Store Reconcile Netip Ingest Netflow Traffic Parse.
From S2P Require Import Detect Correlate Notify Loglight Pipeline Shape System.
From S2P Require Import License Verify AiClient Hfs Web Api Console Main Wiring Tasks Live.
From S2P Require Sched.
Local Open Scope Z_scope.

(** The context of a scan: what it says when the scan waits for a worker, and before
    each detection that is read. Once it is cancelled, or its time is up, it says so. *)
Record scan_ctx := mkScanCtx {
  cx_slot : option string;
  cx_err : nat → option string;
}.

Definition context_errors : list string := ["context canceled"; "context deadline exceeded"].

Definition proper_ctx (c : scan_ctx) : Prop :=
  (∀ e, cx_slot c = Some e → e ∈ context_errors) ∧ ∀ i e, cx_err c i = Some e → e ∈ context_errors.

Definition living : scan_ctx := mkScanCtx None (λ _, None).

Section goroutines.
Context {L W T : Type} `{LogStoreOps L} `{StoreOps W} `{TargetStoreOps T}.
Context `{TimeFormat} `{JSONEncoder} `{Quoter} `{MapRange} `{SortSlice} `{UnicodeTables} `{LogCodec}.
Context `{Ed25519} `{LicenseJSON} `{AiJSON}.
Context (newID : Z → M W string string).

Abbreviation world := (World L W T).

(** ** The components that the goroutines share *)

Definition the_log (w : world) : L := ap_Log (wd_App w).
Definition put_the_log (l : L) (w : world) : world := set_App (set_Log l (wd_App w)) w.
Definition the_store (w : world) : W := sv_Store (wd_Server w).
Definition put_the_store (st : W) (w : world) : world := set_Server (set_Store st (wd_Server w)) w.
Definition the_pipe (w : world) : Pipeline L W * list Digest := (pipe w, wd_Sent w).
Definition put_the_pipe (s : Pipeline L W * list Digest) (w : world) : world :=
  mkWorld (set_Log (pl_Log s.1) (wd_App w)) (pl_Detect s.1) (pl_Corr s.1) (pl_Disp s.1) s.2
    (wd_Graph w) (wd_Templates w) (set_Store (pl_Store s.1) (wd_Server w)).

(** [Enqueue], on the dispatcher if there is one. *)
Definition announce (now : Z) (kind module : string) (f : Finding) (w : world) : world * unit :=
  (match wd_Disp w with
   | Some d => set_Disp (Enqueue now (mkNEvent kind module f) d) w
   | None => w
   end, tt).

Fixpoint announce_prog (now : Z) (kind module : string) (fs : list Finding) : prog world unit :=
  match fs with
  | [] => Ret tt
  | f :: rest => Op (announce now kind module f) (λ _, announce_prog now kind module rest)
  end.

(** The calls of the collector. *)
Definition collect_prog (ctxErr : nat → option string) (now : Z) (t : Target) : eprog world string (list Finding) :=
  src ← (lift the_log put_the_log (ecall (GetSource (t_Canonical t))) : eprog world string _);
  match src with
  | None => mret []
  | Some src =>
    dets ← (lift the_log put_the_log (ecall (ListDetections (t_Canonical t))) : eprog world string _);
    out ← (Ret (collect_loop ctxErr (time_Add now (- ActiveWindow)) 0 dets []) : eprog world string _);
    (call (λ w, (w, Ok (out ++ rate_finding (parse_rate w) (t_Canonical t) src))) : eprog world string _)
  end.

(** [scanOne] with a worker: collect, reconcile, then tell the dispatcher. *)
Definition scan_prog (c : scan_ctx) (now : Z) (t : Target) : eprog world string unit :=
  match cx_slot c with
  | Some e => Ret (Err e)
  | None =>
    findings ← collect_prog (cx_err c) now t;
    pbind (λ r : result (ReconcileResult * string) ReconcileResult,
      match r with
      | Err (_, e) => Ret (Err e)
      | Ok res =>
        pbind (λ _, pbind (λ _, Ret (Ok tt))
          (announce_prog now KindResolved (m_ID Describe) (Resolved res)))
          (announce_prog now KindOpened (m_ID Describe) (NewlyOpen res))
      end)
      (lift the_store put_the_store (Reconcile_prog now newID Describe (t_Canonical t) findings))
  end.

(** The three kinds of goroutine; each ends with its error, if it has one. *)
Definition scan_goroutine (c : scan_ctx) (now : Z) (t : Target) : prog world (option string) :=
  pbind (λ r, Ret (match r with Ok _ => None | Err e => Some e end)) (scan_prog c now t).

Definition event_goroutine (now : Z) (ev : Event) : prog world (option string) :=
  pbind (λ _, Ret None) (lift the_pipe put_the_pipe (Handle_prog newID now ev)).

Definition triage_goroutine (req : option (string * string)) : prog world (option string) :=
  pbind (λ r, Ret (match r with HttpError 500 e => Some e | _ => None end))
    (lift the_store put_the_store (triage_prog Describe req)).

(** ** Run alone, they are the steps of [Live.v] *)

Lemma log_get_put l (w : world) : the_log (put_the_log l w) = l.
Proof. done. Qed.
Lemma log_put_put l l' (w : world) : put_the_log l (put_the_log l' w) = put_the_log l w.
Proof. done. Qed.
Lemma log_put_get (w : world) : put_the_log (the_log w) w = w.
Proof. by destruct w as [[] ? ? ? ? ? ? ?]. Qed.
Lemma store_get_put st (w : world) : the_store (put_the_store st w) = st.
Proof. done. Qed.
Lemma store_put_put st st' (w : world) : put_the_store st (put_the_store st' w) = put_the_store st w.
Proof. done. Qed.
Lemma store_put_get (w : world) : put_the_store (the_store w) w = w.
Proof. by destruct w as [? ? ? ? ? ? ? []]. Qed.
Lemma pipe_get_put s (w : world) : the_pipe (put_the_pipe s w) = s.
Proof. by destruct s as [[] ?]. Qed.
Lemma pipe_put_put s s' (w : world) : put_the_pipe s (put_the_pipe s' w) = put_the_pipe s w.
Proof. done. Qed.
Lemma pipe_put_get (w : world) : put_the_pipe (the_pipe w) w = w.
Proof. by destruct w as [[] ? ? ? ? ? ? []]. Qed.

Lemma run_log {A} (m : M L string A) w :
  run_alone (lift the_log put_the_log (ecall m)) w = (put_the_log (m (the_log w)).1 w, (m (the_log w)).2).
Proof. rewrite (run_lift _ _ log_get_put log_put_put log_put_get). by rewrite run_ecall. Qed.

Lemma run_announce now kind module fs : ∀ w,
  run_alone (announce_prog now kind module fs) w =
    (match wd_Disp w with Some d => set_Disp (enqueue_all now kind module fs d) w | None => w end, tt).
Proof.
  induction fs as [|f fs IH]; intros w; cbn [announce_prog run_alone enqueue_all].
  - destruct w as [? ? ? [d|] ? ? ? ?]; [|done]. unfold set_Disp. cbn. by rewrite app_nil_r.
  - unfold announce. cbn. rewrite IH. destruct (wd_Disp w) as [d|] eqn:Hd; [|by rewrite Hd].
    destruct (Enqueue now _ d) as [d1 ds1]. unfold set_Disp. cbn.
    destruct (enqueue_all now kind module fs d1) as [d2 ds2]. cbn. by rewrite <- app_assoc.
Qed.

Lemma run_collect now t w :
  run_alone (collect_prog (λ _, None) now t) w =
    (put_the_log (Collect (parse_rate w) (λ _, None) now t (the_log w)).1 w,
     (Collect (parse_rate w) (λ _, None) now t (the_log w)).2).
Proof.
  unfold collect_prog, Collect. rewrite run_bind, run_log, bind_at.
  destruct (GetSource _ (the_log w)) as [l1 [[src|]|e]]; cbn [fst snd]; [|done..].
  rewrite run_bind, run_log, bind_at. cbn [the_log put_the_log wd_App set_App ap_Log set_Log].
  destruct (ListDetections _ l1) as [l2 [dets|e]]; cbn [fst snd]; [|done].
  rewrite run_bind, bind_at. cbn [run_alone]. unfold mlift.
  by destruct (collect_loop _ _ _ _ _).
Qed.

Lemma run_scan now t w :
  run_alone (scan_prog living now t) w =
    (poll_target newID now t w,
     match (scan_target newID now t w).2 with Ok _ => Ok tt | Err e => Err e end).
Proof.
  unfold scan_prog, poll_target, scan_target, Sched.scanOne. cbn [living cx_slot cx_err]. rewrite run_bind, run_collect.
  change (ap_Log (wd_App w)) with (the_log w).
  destruct (Collect _ _ now t (the_log w)) as [l [fs|e]]; cbn [fst snd].
  - rewrite run_pbind, (run_lift _ _ store_get_put store_put_put store_put_get), run_Reconcile.
    change (the_store (put_the_log l w)) with (sv_Store (wd_Server w)).
    destruct (Reconcile _ _ _ _ _ (sv_Store (wd_Server w))) as [st [res|[? e]]]; cbn [fst snd]; [|done].
    rewrite run_pbind, run_announce. unfold put_the_store, put_the_log, set_Server, set_App at 1. cbn [wd_Disp].
    destruct w as [app det cor [d|] sent g tp srv]; unfold BindScheduler; cbn.
    + rewrite run_pbind. destruct (enqueue_all _ _ _ _ d) as [d1 ds1]. rewrite run_announce.
      unfold set_Disp. cbn. destruct (enqueue_all _ _ _ _ d1) as [d2 ds2]. cbn. by rewrite <- app_assoc.
    + by rewrite run_pbind, run_announce.
  - by destruct w as [? ? ? [d|] ? ? ? []].
Qed.

Lemma run_event now s ev w :
  let e := emit_event Source_ID s ev (ap_Ingest (wd_App w)) in
  handle_event newID now s ev w =
    (run_alone (event_goroutine now e.2) (set_App (set_Ingest e.1 (wd_App w)) w)).1.
Proof.
  unfold handle_event, event_goroutine. destruct (emit_event _ _ _ _) as [ig e]. cbn [fst snd].
  rewrite run_pbind, (run_lift _ _ pipe_get_put pipe_put_put pipe_put_get).
  unfold the_pipe. rewrite run_Handle. change (pipe (set_App _ w)) with (pipe w).
  by destruct (Handle _ _ _ _ _) as [p ds].
Qed.
End goroutines.

(** ** In any interleaving *)

(** A name that a source can have, and the records that make findings. *)
Definition named (n : string) : Prop := valid_source n ∧ n ≠ "".

Definition dets_ok `{LogStoreSpec L} (l : L) : Prop :=
  log_inv l ∧ ∀ s k d, valid_source s → log_det l s k = Some d → record_ok d.

(** What the goroutines need of an invariant of the whole state, whatever else it
    says about the sources, the scheduler and the readers. *)
Class WorldInv (L W T : Type) `{LogStoreSpec L} `{StoreSpec W} `{TargetStoreOps T} `{JSONEncoder} `{Quoter} `{MapRange} := {
  inv : World L W T → Prop;
  inv_log w : inv w → dets_ok (the_log w);
  inv_server w : inv w → store_ok (the_store w) ∧ sv_Module (wd_Server w) = Describe;
  inv_target w t : inv w → t ∈ Sched.ListTargets ModuleID (ap_Sched (wd_App w)) → named (t_Canonical t);
  inv_reader w s : inv w → ig_running (ap_Ingest (wd_App w)) !! Source_ID s = Some s → named (Source_ID s);
  inv_same w w' : wd_App w' = wd_App w → wd_Server w' = wd_Server w → inv w → inv w';
  inv_set_log l ig w : dets_ok l → (∀ n, log_source l n = log_source (the_log w) n) →
    ig_running ig = ig_running (ap_Ingest (wd_App w)) → inv w →
    inv (set_App (mkApp l (ap_Sched (wd_App w)) ig (ap_Targets (wd_App w))) w);
  inv_set_server s w : store_ok (sv_Store s) → sv_Module s = Describe → inv w → inv (set_Server s w);
  inv_console rq w : decoded_request rq →
    (∀ now sr, rq = Save now (Some sr) → valid_source (strings_TrimSpace (sq_Name sr))) →
    inv w → inv (console rq w);
}.

Section interleaved.
Context {L W T : Type} `{LogStoreSpec L} `{StoreSpec W} `{TargetStoreSpec T}.
Context `{TimeFormat} `{JSONEncoder} `{!StoreJSON W} `{Quoter} `{MapRange} `{SortSlice}.
Context `{UnicodeTables} `{LogCodec} `{Ed25519} `{LicenseJSON} `{AiJSON} `{!Watch} `{!WorldInv L W T}.
Context (format_date : Z → string) (quote : string → string).
Context (snapshot : string → Hfs.Meta → HfsSource → Z → option string).
Context (newID : Z → M W string string).
Hypothesis newID_ok : fresh_ids newID.

Abbreviation world := (World L W T).
Abbreviation works := (work (L := L) (T := T) format_date quote snapshot newID).
Abbreviation steps := (step (L := L) (T := T) format_date quote snapshot newID).

Definition world_notices (w : world) : notices := (wd_Disp w, wd_Sent w).

Record fit (w : world) : Prop := {
  ft_inv : inv w;
  ft_watch : watch_ok (world_notices w);
}.

(** Findings are never lost. *)
Definition keeps (w w' : world) : Prop :=
  grows (the_store w) (the_store w') ∧ watch_to (world_notices w) (world_notices w').

#[export] Instance keeps_refl : Reflexive keeps.
Proof. intros w. split; [by intros m fp|reflexivity]. Qed.
#[export] Instance keeps_trans : Transitive keeps.
Proof. intros x y z [Hxy ?] [Hyz ?]. split; [intros m fp Hm Hs; auto|by etransitivity]. Qed.

(** Steps that touch neither the findings nor the dispatcher. *)
Lemma quiet_fit (w w' : world) : the_store w' = the_store w → world_notices w' = world_notices w →
  fit w → inv w' → fit w' ∧ keeps w w'.
Proof.
  intros Hst Hn [Hs Hw] Hs'. split; [split; [done|by rewrite Hn]|].
  split; [intros m fp; by rewrite Hst|by rewrite Hn].
Qed.

Abbreviation Sound := (sound fit keeps keeps).

Lemma inv_put_store (w : world) st : inv w → store_ok st → inv (put_the_store st w).
Proof. intros Hw Hst. apply inv_set_server; [done|by apply inv_server|done]. Qed.

Lemma store_lift {A} (Q : W → A → Prop) p (w : world) : sound store_ok grows grows Q (the_store w) p →
  Sound (λ w, Q (the_store w)) w (lift the_store put_the_store p).
Proof.
  apply sound_lift; [done|by intros s [Hs _]; apply inv_server|by intros s s' [Hg _]|].
  intros s t [Hs Hw] Ht Hg. split; [split; [by apply inv_put_store|done]|]. split; [done|reflexivity].
Qed.

(** A read of the log store. *)
Lemma log_read {A B} (m : M L string A) (f : A → eprog world string B) Q (w : world) :
  (∀ l, log_inv l → ∃ a, m l = (l, Ok a)) → (∀ w' a, fit w' → keeps w w' → Sound Q w' (f a)) →
  Sound Q w ((lift the_log put_the_log (ecall m) : eprog world string A) ≫= f).
Proof.
  intros Hm Hf w' Hs Hg. unfold lift_call.
  destruct (Hm (the_log w') (proj1 (inv_log _ (ft_inv _ Hs)))) as [a ->]. cbn [fst snd]. rewrite log_put_get.
  split_and!; [done..|]. by apply Hf.
Qed.

(** [announce] tells the dispatcher. *)
Lemma announce_notices now kind f (w : world) :
  world_notices (announce now kind ModuleID f w).1 = tell now (mkNEvent kind ModuleID f) (world_notices w).
Proof.
  unfold announce, tell, world_notices. cbn [fst snd]. destruct (wd_Disp w) as [d|] eqn:Hd; [|by rewrite Hd].
  unfold set_Disp. by destruct (Enqueue _ _ d).
Qed.

Lemma announce_fit now kind f (w : world) : kind = KindOpened ∨ kind = KindResolved → fit w →
  fit (announce now kind ModuleID f w).1 ∧ keeps w (announce now kind ModuleID f w).1.
Proof.
  intros Hk [Hs Hw].
  destruct (tell_watched now (mkNEvent kind ModuleID f) (world_notices w)) as (Hw' & Hto & _);
    [by split|done|done|].
  rewrite <- announce_notices in Hw', Hto. unfold announce in *. cbn [fst] in *.
  split; split; [|done| |done]; destruct (wd_Disp w); (by apply (inv_same w)) || by intros m fp.
Qed.

Lemma announce_sound {A} (Q : world → A → Prop) now kind fs (p : prog world A) :
  kind = KindOpened ∨ kind = KindResolved → ∀ w,
  (∀ w', fit w' → keeps w w' → Sound Q w' p) → fit w →
  Sound Q w (pbind (λ _, p) (announce_prog now kind ModuleID fs)).
Proof.
  intros Hk. induction fs as [|f fs IH]; intros w Hp Hs; cbn [announce_prog pbind]; [by apply Hp|].
  intros w' Hs' Hg. destruct (announce_fit now kind f w' Hk Hs') as [Hs'' Hg']. split_and!; [done..|].
  apply IH; [|done]. intros w2 Hs2 Hg2. apply Hp; [done|].
  etransitivity; [exact Hg|]. by etransitivity.
Qed.

(** A collection fails with its context only. *)
Lemma collect_loop_ctx ctxErr cutoff dets : ∀ i out e,
  collect_loop ctxErr cutoff i dets out = Err e → ∃ j, ctxErr j = Some e.
Proof.
  induction dets as [|d dets IH]; intros i out e; cbn [collect_loop]; [done|].
  destruct (ctxErr i) as [e'|] eqn:Hc; [|apply IH]. intros [= ->]. by exists i.
Qed.

(** A scan ends without an error while its context lives, and what it reported is
    stored. *)
Definition in_time {A} (r : result string A) : Prop := ∀ e, r = Err e → e ∈ context_errors.

Lemma collect_sound c now t (w : world) : proper_ctx c → valid_source (t_Canonical t) → t_Canonical t ≠ "" →
  Sound (λ _ r, in_time r) w (collect_prog (cx_err c) now t).
Proof.
  intros [_ Hc] Hv Hne. unfold collect_prog. apply log_read.
  { intros l Hl. eexists. by apply GetSource_spec. }
  intros w1 [src|] Hs1 _; [|by intros ? ? _ ?]. apply log_read.
  { intros l Hl. destruct (ListDetections_spec l _ Hl Hv Hne) as (ds & Hds & _). by eexists. }
  intros w2 dets Hs2 _. destruct (collect_loop _ _ _ _ _) as [out|e] eqn:Hl.
  - intros w3 Hs3 _. split_and!; [done..|]. by intros w4 _ _.
  - apply collect_loop_ctx in Hl as [i Hi]. intros w3 _ _ e' [= <-]. by eapply Hc.
Qed.

Lemma scan_sound c now t (w : world) : proper_ctx c → valid_source (t_Canonical t) → t_Canonical t ≠ "" → fit w →
  Sound (λ _ r, in_time r) w (scan_prog newID c now t).
Proof.
  intros Hc Hv Hne Hs. unfold scan_prog. destruct (cx_slot c) as [e|] eqn:Hslot.
  { intros w' _ _ e' [= <-]. by apply (proj1 Hc). }
  refine (sound_pbind fit keeps keeps (λ _ _ H, H) (λ _ r, in_time r) _ _ _ _ Hs _ _); [|by apply collect_sound].
  intros w1 [fs|e] Hs1 _ Hr; [|intros w2 _ _ e' [= <-]; by apply Hr].
  refine (sound_pbind fit keeps keeps (λ _ _ H, H)
    (λ w r, ∃ res, r = Ok res ∧ scan_done Describe fs (the_store w)) _ _ _ _ Hs1 _ _).
  - intros w2 r Hs2 _ (res & -> & _). apply announce_sound; [by left| |done]. intros w3 Hs3 _.
    apply announce_sound; [by right| |done]. by intros w4 _ _ e.
  - apply (store_lift (λ st r, ∃ res, r = Ok res ∧ scan_done Describe fs st)).
    by apply Reconcile_sound; [|apply ModuleID_valid].
Qed.

(** The stores as a delivery leaves them. *)
Lemma inv_put_pipe (w : world) (s : Pipeline L W * list Digest) : inv w → pipe_good s →
  (∀ n, log_source (pl_Log s.1) n = log_source (the_log w) n) → inv (put_the_pipe s w).
Proof.
  intros Hw [Hl Hs _] Hsrc.
  apply (inv_same (set_Server (set_Store (pl_Store s.1) (wd_Server w))
    (set_App (mkApp (pl_Log s.1) (ap_Sched (wd_App w)) (ap_Ingest (wd_App w)) (ap_Targets (wd_App w))) w))); [done..|].
  apply inv_set_server; [done|by apply (inv_server w)|]. by apply inv_set_log.
Qed.

Lemma pipe_lift {A} (Q : Pipeline L W * list Digest → A → Prop) p (w : world) :
  sound pipe_good pipe_grows pipe_moves Q (the_pipe w) p →
  Sound (λ w, Q (the_pipe w)) w (lift the_pipe put_the_pipe p).
Proof.
  apply (sound_lift the_pipe put_the_pipe pipe_get_put).
  - intros s [Hs Hw]. split; [by apply (inv_log s)|by apply inv_server|done].
  - by intros s s' Hg.
  - intros s t [Hs _] Ht [[Hg Hto] Hsrc]. split; [split; [by apply inv_put_pipe|apply Ht]|by split].
Qed.

Lemma event_sound now ev (w : world) : valid_source (e_SourceID ev) → e_SourceID ev ≠ "" → fit w →
  Sound (λ _ r, r = None) w (event_goroutine newID now ev).
Proof.
  intros Hv Hne Hs. unfold event_goroutine.
  refine (sound_pbind fit keeps keeps (λ _ _ H, H) (λ w r, True) _ _ _ _ Hs _ _); [by intros ? ? ? ? ? ? ? |].
  apply (pipe_lift (λ _ _, True)). by apply (Handle_sound newID newID_ok now (e_SourceID ev)).
Qed.

Lemma triage_goroutine_sound req (w : world) : fit w →
  Sound (λ _ r, r = None) w (triage_goroutine req).
Proof.
  intros Hs. unfold triage_goroutine.
  refine (sound_pbind fit keeps keeps (λ _ _ H, H)
    (λ _ r, ∀ e, r ≠ HttpError StatusInternalServerError e) _ _ _ _ Hs _ _).
  - intros w1 r Hs1 _ Hr w2 _ _. destruct r as [p|code e]; [done|].
    destruct (decide (code = StatusInternalServerError)) as [->|Hc]; [by destruct (Hr e)|].
    unfold StatusInternalServerError in Hc. by repeat case_match; try congruence.
  - apply (store_lift (λ _ r, ∀ e, r ≠ HttpError StatusInternalServerError e)).
    by apply triage_sound; [apply ModuleID_valid|..].
Qed.

(** ** The program *)

(** Its state, and the goroutines in flight, the finished ones with their error. *)
Abbreviation config := (world * list (prog world (option string)))%type.

(** A source whose reader was started at some time; it may still have a line to
    deliver when it has been removed since. *)
Definition reader (s : Loglight.Source) : Prop := named (Source_ID s).

Definition emitted (s : Loglight.Source) (ev : Event) (w : world) : world :=
  set_App (set_Ingest (emit_event Source_ID s ev (ap_Ingest (wd_App w))).1 (wd_App w)) w.

(** A goroutine is started in the state it finds. [next] is what else happens. *)
Inductive go (next : world → world → Prop) : config → config → Prop :=
| c_step w w' ps :
    next w w' → go next (w, ps) (w', ps)
| c_event w ps now s ev :
    reader s → e_SourceID ev = Source_ID s →
    go next (w, ps) (emitted s ev w, ps ++ [event_goroutine newID now ev])
| c_scan w ps c now t :
    proper_ctx c → t ∈ Sched.ListTargets ModuleID (ap_Sched (wd_App w)) →
    go next (w, ps) (w, ps ++ [scan_goroutine newID c now t])
| c_triage w ps req :
    go next (w, ps) (w, ps ++ [triage_goroutine req])
| c_run w ps i :
    go next (w, ps) (advance_nth (w, ps) i).

(** [c_crash] is the end of the process, with whatever was in flight. *)
Inductive cstep : config → config → Prop :=
| c_go c c' :
    go steps c c' → cstep c c'
| c_crash w ps cfg disp s :
    sv_Store s = sv_Store (wd_Server w) → sv_Module s = Describe →
    cstep (w, ps) (restart cfg disp s w, []).

(** A goroutine that has ended has no error, but that its time was up. *)
Definition ended (r : option string) : Prop := ∀ e, r = Some e → e ∈ context_errors.

(** Every goroutine in flight is on its way to such an end. *)
Definition good_config (c : config) : Prop := all_sound fit keeps keeps (λ _ _ r, ended r) c.

Lemma no_error p (w : world) : Sound (λ _ r, r = None) w p → Sound (λ _ r, ended r) w p.
Proof. apply (sound_weaken fit keeps keeps (λ _ _ H, H)). by intros w' r _ _ -> e. Qed.

Lemma spawn_good w w' ps p : fit w' → keeps w w' → Sound (λ _ r, ended r) w' p →
  good_config (w, ps) → good_config (w', ps ++ [p]).
Proof.
  intros Hs Hg Hp [_ Hps]. split; [done|]. intros i q. cbn [fst snd] in *.
  rewrite lookup_app_Some. intros [Hq|[_ Hq]].
  - eapply sound_later; [exact _|exact Hg|by eapply Hps].
  - by apply list_lookup_singleton_Some in Hq as [_ <-].
Qed.

Lemma scan_goroutine_sound c now t (w : world) : proper_ctx c → fit w → valid_source (t_Canonical t) → t_Canonical t ≠ "" →
  Sound (λ _ r, ended r) w (scan_goroutine newID c now t).
Proof.
  intros Hc Hs Hv Hne. unfold scan_goroutine.
  refine (sound_pbind fit keeps keeps (λ _ _ H, H) (λ _ r, in_time r) _ _ _ _ Hs _ _); [|by apply scan_sound].
  intros w' [[]|e'] _ _ Hr w'' _ _ e; [done|]. intros [= <-]. by apply Hr.
Qed.

(** *** Single steps lose nothing either *)

Lemma emitted_fit s ev (w : world) : fit w → fit (emitted s ev w) ∧ keeps w (emitted s ev w).
Proof.
  intros Hf. apply quiet_fit; [done..|]. destruct Hf as [Hw _]. by apply inv_set_log; [apply inv_log| |..].
Qed.

(** A goroutine that runs alone. *)
Lemma alone_fit {A} Q (p : prog world A) (w : world) : fit w → Sound Q w p →
  fit (run_alone p w).1 ∧ keeps w (run_alone p w).1.
Proof. intros Hw Hp. by destruct (sound_run fit keeps keeps (λ _ _ H, H) Q p w Hw Hp) as (? & ? & _). Qed.

Lemma handle_event_fit now s ev (w : world) : fit w → reader s → e_SourceID ev = Source_ID s →
  fit (handle_event newID now s ev w) ∧ keeps w (handle_event newID now s ev w).
Proof.
  intros Hf [Hv Hne] He. rewrite run_event. cbn zeta.
  destruct (emitted_fit s ev w Hf) as [Hf' Hk]. unfold emitted in Hf', Hk.
  destruct (emit_event Source_ID s ev (ap_Ingest (wd_App w))) as [ig e] eqn:Hem. cbn [fst snd] in *.
  assert (e_SourceID e = Source_ID s) as He'.
  { unfold emit_event in Hem. injection Hem as _ <-. by case_ifs. }
  destruct (alone_fit _ _ _ Hf' (event_sound now e _ ltac:(by rewrite He') ltac:(by rewrite He') Hf')) as [Hf2 Hk2].
  split; [done|]. by etransitivity.
Qed.

Lemma handle_flows_fit now db s flows : reader s → ∀ w : world, fit w →
  fit (foldl (handle_flow newID now db s) w flows) ∧ keeps w (foldl (handle_flow newID now db s) w flows).
Proof.
  intros Hr. induction flows as [|f flows IH]; intros w Hf; cbn [foldl]; [done|].
  destruct (quiet_fit w (set_Graph (Observe now db f (wd_Graph w)) w)) as [Hg Hkg];
    [done..|by apply (inv_same w), Hf|].
  destruct (handle_event_fit now s (FlowEvent f (Source_ID s) now) _ Hg Hr) as [He Hke]; [done|].
  destruct (IH _ He) as [Hi Hki]. split; [done|]. etransitivity; [exact Hkg|]. by etransitivity.
Qed.

Lemma poll_fit now t (w : world) : fit w → t ∈ Sched.ListTargets ModuleID (ap_Sched (wd_App w)) →
  fit (poll_target newID now t w) ∧ keeps w (poll_target newID now t w).
Proof.
  intros Hf Ht. destruct (inv_target w t (ft_inv _ Hf) Ht) as [Hv Hne].
  pose proof (alone_fit _ _ _ Hf (scan_sound living now t w ltac:(done) Hv Hne Hf)) as Ha. by rewrite run_scan in Ha.
Qed.

(** The dashboard changes the status of findings only. *)
Lemma dashboard_fit rq (w : world) : fit w →
  fit (dashboard format_date quote snapshot rq w) ∧ keeps w (dashboard format_date quote snapshot rq w).
Proof.
  intros [Hs Hw]. destruct (inv_server w Hs) as [[Hst Hok] Hm].
  set (s := set_Scheduler (ap_Sched (wd_App w)) (wd_Server w)).
  assert (Api.good s) as Hg by (split; [done|]; cbn; by rewrite Hm).
  destruct (serve_frame format_date quote snapshot rq s Hg) as [Hg' Hm' _ Ht _ _].
  unfold Api.serve in Hg', Hm', Ht. split; [split; [apply inv_set_server; [split| |]|]|split]; fold s; try done.
  - apply Hg'.
  - intros m fp r Hvm Hr. specialize (Ht m fp Hvm). rewrite Hr in Ht.
    inversion Ht as [o r' Htr Ho Hr'|]. subst. symmetry in Ho. apply Hok in Ho; [|done].
    destruct Htr as [->|(st & _ & ->)]; [done|exact Ho].
  - by rewrite Hm'.
  - intros m fp Hm2 [r Hr]. specialize (Ht m fp Hm2). unfold the_store in *. cbn in Ht |- *.
    rewrite Hr in Ht. inversion Ht; subst. by eexists.
Qed.

Lemma prune_fit now (w : world) : fit w →
  fit (set_App (prune_tick now (wd_App w)) w) ∧ keeps w (set_App (prune_tick now (wd_App w)) w).
Proof.
  intros Hf. apply quiet_fit; [done..|]. destruct Hf as [Hw _]. destruct (inv_log w Hw) as [Hl Hrec].
  unfold prune_tick. cbn [PruneDetections App_log_ops]. unfold on_log.
  destruct (PruneDetections_spec (ap_Log (wd_App w)) (time_Add now (- (2 * ActiveWindow))) Hl)
    as (l' & -> & Hl' & Hsrc & Hdet). cbn [fst].
  apply inv_set_log; [split; [done|]|done|done|done].
  intros s k d Hs. rewrite Hdet by done. change (ap_Log (wd_App w)) with (the_log w).
  destruct (log_det (the_log w) s k) as [o|] eqn:Ho; [|done].
  destruct (time_Before _ _); [done|]. intros [= <-]. by eapply Hrec.
Qed.

Lemma flush_fit now d (w : world) : wd_Disp w = Some d → fit w →
  fit (set_Disp (Notify.Flush now d) w) ∧ keeps w (set_Disp (Notify.Flush now d) w).
Proof.
  intros Hd [Hs Hw]. pose proof (flush_watched now d (wd_Sent w)) as Hf.
  unfold world_notices in Hw. rewrite Hd in Hw. specialize (Hf Hw).
  destruct (Notify.Flush now d) as [d' ds']. destruct Hf as [Hw' Hto].
  split; [split; [by apply (inv_same w)|done]|]. split; [by intros m fp|]. unfold world_notices. by rewrite Hd.
Qed.

Lemma work_fit w w' : works w w' → fit w → fit w' ∧ keeps w w'.
Proof.
  intros Hstep Hf. destruct Hstep as [now s ev Hr Hev|now db s exporter b Hr|now t Ht|rq Hd Hv|rq _|now d Hd|now| |].
  - apply handle_event_fit; [done|by apply (inv_reader w), Hr; apply Hf|by eapply line_event_id].
  - unfold handle_datagram. destruct (ParseDatagram _ _ _ _) as [[flows tc]| |]; [|done..].
    match goal with |- context [foldl _ ?w0 flows] => set (w1 := w0) end.
    destruct (quiet_fit w w1) as [Hf1 Hk1]; [done..|by apply (inv_same w), Hf|].
    destruct (handle_flows_fit now db s flows (inv_reader w s (ft_inv _ Hf) Hr) w1 Hf1) as [Hf2 Hk2].
    split; [done|]. by etransitivity.
  - by apply poll_fit.
  - apply quiet_fit; [done..|]. by apply inv_console, Hf.
  - by apply dashboard_fit.
  - by apply flush_fit.
  - by apply prune_fit.
  - apply quiet_fit; [done..|by apply (inv_same w), Hf].
  - apply quiet_fit; [done..|by apply (inv_same w), Hf].
Qed.

Lemma go_good (next : world → world → Prop) c c' :
  (∀ w w', next w w' → fit w → fit w' ∧ keeps w w') →
  go next c c' → good_config c → good_config c' ∧ keeps c.1 c'.1.
Proof.
  intros Hnext Hstep Hc. destruct Hstep as [w w' ps Hst|w ps now s ev [Hv Hne] He|w ps cx now t Hcx Ht|w ps req|w ps i].
  - destruct (Hc) as [Hs Hps]. cbn [fst] in *. destruct (Hnext _ _ Hst Hs) as [Hs' Hk]. split; [|done].
    split; [done|]. intros i p Hp. eapply sound_later; [exact _|exact Hk|by apply (Hps i)].
  - destruct (Hc) as [Hs _]. destruct (emitted_fit s ev w Hs) as [Hs' Hk]. split; [|done].
    eapply spawn_good; [done|exact Hk| |done]. apply no_error, event_sound; by rewrite ?He.
  - destruct (Hc) as [Hs _]. destruct (inv_target w t (ft_inv _ Hs) Ht). split; [|reflexivity].
    eapply spawn_good; [done|reflexivity| |done]. by apply scan_goroutine_sound.
  - destruct (Hc) as [Hs _]. split; [|reflexivity].
    eapply spawn_good; [done|reflexivity| |done]. by apply no_error, triage_goroutine_sound.
  - apply (advance_all_sound fit keeps keeps (λ _ _ H, H) _ (w, ps) i Hc).
Qed.

(** What is in flight has not failed and can be brought to its end. *)
Lemma good_completes (w : world) ps : good_config (w, ps) →
  (∀ i e, ps !! i = Some (Ret (Some e)) → e ∈ context_errors) ∧
  Acc (flip active) (w, ps) ∧
  ∃ sch w' ps', run_schedule sch (w, ps) = (w', ps') ∧ inv w' ∧ Forall (λ p, ∃ r, p = Ret r ∧ ended r) ps'.
Proof.
  intros Hc. split_and!.
  - intros i e He. by apply (all_sound_result _ _ _ _ _ i (Some e) Hc He).
  - apply active_wf.
  - destruct (completes (w, ps)) as [sch Hf].
    destruct (schedule_sound fit keeps keeps (λ _ _ H, H) _ sch _ Hc) as [Hc' _].
    destruct (run_schedule sch (w, ps)) as [w' ps'] eqn:Hrun. exists sch, w', ps'.
    split_and!; [done|exact (ft_inv _ (proj1 Hc'))|].
    apply Forall_lookup. intros i p Hp. eapply Forall_lookup in Hf; [|exact Hp].
    destruct p as [o|]; [|done]. exists o. split; [done|]. by apply (all_sound_result _ _ _ _ _ i o Hc').
Qed.
End interleaved.

(** ** Until the process ends, and after *)

Section restarts.
Context {L W T : Type} `{LogStoreSpec L} `{StoreSpec W} `{TargetStoreSpec T}.
Context `{TimeFormat} `{JSONEncoder} `{!StoreJSON W} `{Quoter} `{MapRange} `{SortSlice}.
Context `{UnicodeTables} `{LogCodec} `{Ed25519} `{LicenseJSON} `{AiJSON}.
Context (format_date : Z → string) (quote : string → string).
Context (snapshot : string → Hfs.Meta → HfsSource → Z → option string).
Context (newID : Z → M W string string).
Hypothesis newID_ok : fresh_ids newID.

Abbreviation world := (World L W T).
Abbreviation steps := (step (L := L) (T := T) format_date quote snapshot newID).
Abbreviation csteps := (cstep (L := L) (T := T) format_date quote snapshot newID).

(** Here the parts of the program stay in step. *)
#[local] Program Instance safe_inv : WorldInv L W T := {| inv := safe |}.
Next Obligation. intros w [Hw _ Hr _ _]. split; [apply Hw|done]. Qed.
Next Obligation. by intros w []. Qed.
Next Obligation.
  intros w t Hs Ht. destruct (w_sched _ (sf_wired _ Hs)) as (reg & Hr & _ & Htg).
  unfold Sched.ListTargets in Ht. rewrite Hr in Ht. unfold Sched.snapshotTargets in Ht.
  apply list_elem_of_fmap in Ht as ([n t'] & -> & Hin). apply elem_of_range_map in Hin. cbn [snd].
  rewrite Htg in Hin. apply fmap_Some in Hin as (c & Hc & ->). cbn [t_Canonical].
  split; [apply (sf_names _ Hs); by eexists|]. by destruct (w_name _ (sf_wired _ Hs) n c Hc).
Qed.
Next Obligation. intros w s. apply running_named. Qed.
Next Obligation. intros w w' Ha Hs. by apply safe_same; [..|rewrite Hs|rewrite Hs]. Qed.
Next Obligation.
  intros l ig w [Hl Hd] Hsrc Hig [Hw Hn Hrec Hst Hm]. split; try done.
  - by apply wired_log.
  - intros n. unfold source_of. cbn. rewrite Hsrc. apply Hn.
Qed.
Next Obligation. by intros s w Hst Hm [? ? ? ? ?]. Qed.
Next Obligation. intros rq w Hd Hv Hs. by apply console_safe. Qed.

(** When nothing is asked of the dispatcher. *)
Lemma safe_fit (w w' : world) : safe w' → grows (the_store w) (the_store w') → fit w' ∧ keeps w w'.
Proof. by split; [split|split]. Qed.

Lemma restart_fit cfg disp s (w : world) : sv_Store s = sv_Store (wd_Server w) → sv_Module s = Describe →
  fit w → fit (restart cfg disp s w) ∧ keeps w (restart cfg disp s w).
Proof.
  intros Hst Hm [Hs _]. apply safe_fit; [by apply restart_safe|]. intros m fp. unfold the_store. cbn. by rewrite Hst.
Qed.

Lemma step_fit w w' : steps w w' → fit w → fit w' ∧ keeps w w'.
Proof using All.
  intros Hstep Hf. destruct Hstep as [w' Hw|now|cfg disp s Hs Hm]; [by eapply work_fit| |by apply restart_fit].
  apply safe_fit; [|intros m fp]; unfold shutdown; destruct (wd_Disp w); try done; try apply (safe_same w), Hf; try done.
Qed.

Lemma cstep_good c c' : csteps c c' → good_config c → good_config c' ∧ keeps c.1 c'.1.
Proof using All.
  intros Hstep Hc. destruct Hstep as [c c' Hgo|w ps cfg disp s Hst Hm].
  - eapply go_good; [done|apply step_fit|exact Hgo|done].
  - destruct (restart_fit cfg disp s w Hst Hm (proj1 Hc)) as [Hf Hk]. split; [|done].
    split; [done|by intros i p].
Qed.

Lemma csteps_good c c' : rtc csteps c c' → good_config c → good_config c' ∧ keeps c.1 c'.1.
Proof using All.
  induction 1 as [|c c1 c2 Hs _ IH]; [done|]. intros Hc.
  destruct (cstep_good _ _ Hs Hc) as [Hc1 Hk1]. destruct (IH Hc1) as [? Hk2]. split; [done|by etransitivity].
Qed.

Lemma schedule_csteps sch : ∀ c, rtc csteps c (run_schedule sch c).
Proof.
  induction sch as [|i sch IH]; intros [w ps]; cbn [run_schedule foldl]; [apply rtc_refl|].
  eapply rtc_l; [apply c_go, c_run|apply IH].
Qed.
End restarts.
#[local] Existing Instance safe_inv.

(** * Properties *)


(** ** Concrete inputs *)

Section examples.
#[local] Instance exQ : Quoter := exQuoter.
#[local] Instance exR : MapRange := canonical_range.
#[local] Instance exS : SortSlice := canonical_sort.
#[local] Instance exE : Ed25519 := exEd.
#[local] Instance exJ : LicenseJSON := exLicenseJSON.
#[local] Instance exA : AiJSON := exJSON.
#[local] Instance exT : TimeFormat := exFormat.
#[local] Instance exU : UnicodeTables := Parse.exTables.
#[local] Instance exC : LogCodec := exCodec.
#[local] Instance exM : JSONEncoder := noMarshal.

Abbreviation saved_world := (console (Save 5 (exRequest "auth" "/var/log/auth.log")) exWorld).
Abbreviation the_source := (FileSource "auth" "/var/log/auth.log" "" "").
Abbreviation the_event := (ParseLine SourceFile "auth" "" "" exLine exNow).

Lemma late_proper : proper_ctx (mkScanCtx None (λ _, Some "context deadline exceeded")).
Proof. split; [done|]. intros i e [= <-]. right. left. Qed.

(** A delivery, two scans of its source, one of them too slow, and a request,
    interleaved. *)
Definition late : scan_ctx := mkScanCtx None (λ _, Some "context deadline exceeded").

Definition exConfig :=
  run_schedule [1; 0; 2; 1; 3; 2; 0; 1]%nat
    (emitted the_source the_event saved_world,
     [event_goroutine freshID exNow the_event;
      scan_goroutine freshID living exNow (mkTarget "auth" "auth" None);
      scan_goroutine freshID late exNow (mkTarget "auth" "auth" None);
      triage_goroutine (Some ("fp", StatusSuppressed))]).

End examples.
