(* ===== verification/Health.v ===== *)
(** Everything at the same time. In [Goroutines.v] a request to the console is one
    step; here it goes call by call like the scans and the deliveries, and so do the
    dashboard's requests that add and remove a target. The parts of the program do
    not stay in step then ([Races.v]). What the goroutines need of them does, and
    the program survives every interleaving of everything. *)
From S2P Require Import Prelude Conc Text Float Core Store Reconcile Netip Ingest Netflow Traffic Parse.
From S2P Require Import Detect Correlate Notify Loglight Pipeline Shape System.
From S2P Require Import License Verify AiClient Hfs Web Api Console Main Wiring Tasks Requests Live Boot Goroutines.
From S2P Require Sched.
Local Open Scope Z_scope.

(** * The requests as goroutines *)

Section requests.
Context {L W T : Type} `{LogStoreOps L} `{StoreOps W} `{TargetStoreOps T} `{Quoter} `{MapRange}.

Abbreviation world := (World L W T).

(** A reader has its templates to itself. *)
Definition renew_templates (n : string) (w : world) : world := set_Templates (delete n (wd_Templates w)) w.

Definition limits (w : world) : Limits := effLimits (wd_Server w).

Definition console_failure (r : Console.response) : option string :=
  match r with
  | HttpErr code e => if (code =? 409) || (code =? 500) then Some e else None
  | Console.OK _ => None
  end.

Definition api_failure (r : Web.response) : option string :=
  match r with
  | HttpError code e => if code =? StatusInternalServerError then Some e else None
  | _ => None
  end.

Definition console_goroutine (rq : console_request) : prog world (option string) :=
  pbind (λ r, Ret (console_failure r)) (console_calls wd_App set_App renew_templates caps rq).

Definition add_target_goroutine (req : option string) : prog world (option string) :=
  pbind (λ r, Ret (api_failure r)) (add_target_calls wd_App set_App limits req).

Definition remove_target_goroutine (canonical : string) : prog world (option string) :=
  pbind (λ r, Ret (api_failure r)) (remove_target_calls wd_App set_App canonical).
End requests.

(** * Health *)

Section healthy.
Context {L W T : Type} `{LogStoreSpec L} `{StoreSpec W} `{TargetStoreSpec T} `{JSONEncoder} `{Quoter} `{MapRange}.

Abbreviation A := (App L T).
Abbreviation world := (World L W T).

(** Each part is in order by itself: nothing says that a scheduled target, a saved
    one or a reader has a stored source. *)
Record healthy_app (a : A) : Prop := {
  h_log : dets_ok (ap_Log a);
  h_names : ∀ n, is_Some (source_of a n) → named n;
  h_ts : ts_inv (ap_Targets a);
  h_saved : ∀ x, x ∈ ts_saved (ap_Targets a) ModuleID → valid_source (strings_TrimSpace (mt_raw x));
  h_sched : ∃ reg, Sched.sd_modules (ap_Sched a) !! ModuleID = Some reg ∧
    Sched.rg_collector reg = module_collector ∧
    ∀ n t, Sched.rg_targets reg !! n = Some t → named (t_Canonical t);
  h_running : ∀ n s, ig_running (ap_Ingest a) !! n = Some s → Source_ID s = n ∧ named n;
}.

Record healthy (w : world) : Prop := {
  h_app : healthy_app (wd_App w);
  h_store : store_ok (the_store w);
  h_module : sv_Module (wd_Server w) = Describe;
}.

(** Parts that are in step are in order. *)
Lemma safe_healthy w : safe w → healthy w.
Proof.
  intros [Hw Hn Hrec Hst Hm]. split; [|done|done]. pose proof Hw as [Hl Ht Hname (reg & Hr & Hc & Htg) [_ Hs] Hrun].
  assert (∀ n c, source_of (wd_App w) n = Some c → named n) as Hnamed.
  { intros n c Hc'. split; [apply Hn; by eexists|by destruct (Hname n c Hc')]. }
  split; [by split|by intros n [c Hc']; eapply Hnamed|done| | |].
  - intros x (n & [c Hc'] & ->)%Hs. cbn [mt_raw]. destruct (Hname n c Hc') as (_ & -> & _). by eapply Hnamed.
  - exists reg. split_and!; [done..|]. intros n t. rewrite Htg. intros (c & Hc' & ->)%fmap_Some. by eapply Hnamed.
  - intros n s. rewrite Hrun. intros (c & Hc' & Hs')%bind_Some. split; [|by eapply Hnamed].
    rewrite (running_source_ID c s); [by eapply log_source_name|done|by destruct (Hname n c Hc') as (_ & _ & ?)].
Qed.

(** ** The calls *)

Lemma get_healthy n a : healthy_app a → GetSource n a = (a, Ok (source_of a n)).
Proof. intros Ha. apply GetSource_app, Ha. Qed.

Lemma list_healthy a : healthy_app a → ListSources a = (a, Ok (sources a)).
Proof. intros Ha. apply sources_spec, Ha. Qed.

Lemma set_log_healthy l (a : A) : dets_ok l → (∀ n, is_Some (log_source l n) → named n) → healthy_app a →
  healthy_app (mkApp l (ap_Sched a) (ap_Ingest a) (ap_Targets a)).
Proof. intros Hl Hn [_ _ ? ? ? ?]. by split. Qed.

Lemma put_healthy c (a : A) : utf8_params (sc_Params c) → named (sc_Name c) → healthy_app a →
  healthy_app (PutSource c a).1 ∧ (PutSource c a).2 = Ok tt.
Proof.
  intros Hu Hn Ha. destruct (h_log _ Ha) as [Hl Hrec].
  destruct (PutSource_spec _ c Hl Hu) as (l' & c' & Hput & Hl' & _ & Hsrc & Hdets).
  cbn. unfold on_log. rewrite Hput. split; [|done]. apply set_log_healthy; [split; [done|]| |done].
  - intros s k d Hs. rewrite Hdets by done. by apply Hrec.
  - intros n. rewrite Hsrc. case_decide; [by subst|apply (h_names _ Ha)].
Qed.

Lemma delete_healthy n (a : A) : healthy_app a → healthy_app (DeleteSource n a).1 ∧ (DeleteSource n a).2 = Ok tt.
Proof.
  intros Ha. destruct (h_log _ Ha) as [Hl Hrec].
  destruct (DeleteSource_spec _ n Hl) as (l' & Hdel & Hl' & Hsrc & Hdets).
  cbn. unfold on_log. rewrite Hdel. split; [|done]. apply set_log_healthy; [split; [done|]| |done].
  - intros s k d Hs. destruct (Hdets s k Hs) as [->|[_ ->]]; [by apply Hrec|done].
  - intros m. rewrite Hsrc. case_decide; [by intros []|apply (h_names _ Ha)].
Qed.

Lemma AddTarget_healthy raw (a : A) : valid_source (strings_TrimSpace raw) → healthy_app a →
  let '(sc, r, _) := Sched.AddTarget ModuleID raw (ap_Sched a) in
  healthy_app (set_Sched sc a) ∧
  match r with
  | Ok t => t_Raw t = raw ∧ strings_TrimSpace raw ≠ ""
  | Err _ => strings_TrimSpace raw = ""
  end.
Proof.
  intros Hv [Hl Hn Ht Hs (reg & Hreg & Hcol & Htg) Hr]. unfold Sched.AddTarget. rewrite Hreg, Hcol. cbn.
  unfold ValidateTarget. destruct (decide (strings_TrimSpace raw = "")) as [He|He].
  { rewrite He. cbn. split; [|done]. split; try done. by exists reg. }
  rewrite is_empty_false by done. cbn. split; [|done]. split; try done. eexists. cbn.
  rewrite lookup_alter_eq, Hreg. split_and!; [done|done|]. cbn. intros n t.
  rewrite lookup_insert_Some. intros [[_ <-]|[_ Hx]]; [done|by eapply Htg].
Qed.

Lemma RemoveTarget_healthy n (a : A) : healthy_app a → healthy_app (set_Sched (Sched.RemoveTarget ModuleID n (ap_Sched a)) a).
Proof.
  intros [Hl Hn Ht Hs (reg & Hreg & Hcol & Htg) Hr]. unfold Sched.RemoveTarget. rewrite Hreg. split; try done.
  eexists. cbn. rewrite lookup_alter_eq, Hreg. split_and!; [done|done|]. cbn. intros m t.
  rewrite lookup_delete_Some. intros [_ Hx]. by eapply Htg.
Qed.

Lemma SaveTarget_healthy raw c (a : A) : valid_source (strings_TrimSpace raw) → healthy_app a →
  let '(t, r) := ts_SaveTarget ModuleID raw c (ap_Targets a) in healthy_app (set_Targets t a) ∧ r = Ok tt.
Proof.
  intros Hv [Hl Hn Ht Hs Hsch Hr]. destruct (SaveTarget_spec _ ModuleID raw c Ht) as (t' & -> & Ht' & Hsaved).
  split; [|done]. split; try done. intros x. cbn. rewrite Hsaved, elem_of_app. intros [Hx|Hx]; [by apply Hs|].
  case_decide; [|by apply elem_of_nil in Hx]. by apply list_elem_of_singleton in Hx as ->.
Qed.

Lemma DeleteTarget_healthy c (a : A) : healthy_app a →
  healthy_app (set_Targets (ts_DeleteTarget ModuleID c (ap_Targets a)).1 a).
Proof.
  intros [Hl Hn Ht Hs Hsch Hr]. destruct (DeleteTarget_spec _ ModuleID c Ht) as (t' & -> & Ht' & Hsaved).
  split; try done. intros x. cbn. rewrite Hsaved, decide_True by done. intros [_ Hx]%list_elem_of_filter. by apply Hs.
Qed.

Lemma Add_healthy s (a : A) : named (Source_ID s) → healthy_app a →
  healthy_app (set_Ingest (Add Source_ID s (ap_Ingest a)) a).
Proof.
  intros Hs [? ? ? ? ? Hr]. split; try done. intros n s'. cbn. rewrite lookup_insert_Some.
  intros [[<- <-]|[_ Hx]]; [done|by apply Hr].
Qed.

Lemma Remove_healthy n (a : A) : healthy_app a → healthy_app (set_Ingest (Remove n (ap_Ingest a)) a).
Proof.
  intros [? ? ? ? ? Hr]. split; try done. intros m s. cbn. rewrite lookup_delete_Some. intros [_ Hx]. by apply Hr.
Qed.
End healthy.

(** * No call harms it *)

Section calm.
Context {L W T : Type} `{LogStoreSpec L} `{StoreSpec W} `{TargetStoreSpec T} `{JSONEncoder} `{Quoter} `{MapRange}.

Abbreviation A := (App L T).
Abbreviation world := (World L W T).

(** Neither the findings nor the dispatcher are touched. *)
Definition quiet (w w' : world) : Prop := the_store w' = the_store w ∧ world_notices w' = world_notices w.

(** The others may do anything that is healthy. *)
Definition anyhow (w w' : world) : Prop := True.

#[export] Instance anyhow_refl : Reflexive anyhow.
Proof. done. Qed.
#[export] Instance anyhow_trans : Transitive anyhow.
Proof. done. Qed.

Abbreviation Calm := (sound healthy anyhow quiet).

Lemma set_App_healthy a (w : world) : healthy_app a → healthy w → healthy (set_App a w).
Proof. by intros Ha [_ Hs Hm]. Qed.

Lemma healthy_same (w w' : world) : wd_App w' = wd_App w → wd_Server w' = wd_Server w → healthy w → healthy w'.
Proof. intros Ha Hs [? ? ?]. unfold the_store in *. split; unfold the_store; by rewrite ?Ha, ?Hs. Qed.

Lemma app_call {B C} (P : B → Prop) (m : A → A * B) (k : B → prog world C) Q (w : world) :
  (∀ a, healthy_app a → healthy_app (m a).1 ∧ P (m a).2) → (∀ b w', P b → Calm Q w' (k b)) →
  Calm Q w (Op (on_app wd_App set_App m) k).
Proof.
  intros Hm Hk w' Hw _. destruct (Hm _ (h_app _ Hw)) as [Ha Hp]. unfold on_app, lift_call.
  destruct (m (wd_App w')) as [a b]. cbn [fst snd] in *. split_and!; [by apply set_App_healthy|done|by apply Hk].
Qed.

Lemma ret_calm {C} (Q : world → C → Prop) (w : world) c : (∀ w', Q w' c) → Calm Q w (Ret c).
Proof. by intros HQ w' _ _. Qed.

(** A limit is read. *)
Lemma read_calm {B C} (f : world → B) (k : B → prog world C) Q (w : world) :
  (∀ b w', Calm Q w' (k b)) → Calm Q w (Op (λ w, (w, f w)) k).
Proof. intros Hk w' Hw _. by split_and!; [| |apply Hk]. Qed.

Lemma reader_calm {C} n (m : A → A * unit) (k : unit → prog world C) Q (w : world) :
  (∀ a, healthy_app a → healthy_app (m a).1) → (∀ w', Calm Q w' (k tt)) →
  Calm Q w (Op (λ w, let '(w, _) := on_app wd_App set_App m w in (renew_templates n w, tt)) k).
Proof.
  intros Hm Hk w' Hw _. pose proof (Hm _ (h_app _ Hw)) as Ha. unfold on_app, lift_call.
  destruct (m (wd_App w')) as [a []]. cbn [fst snd] in *. split_and!; [|done|by apply Hk].
  by apply (healthy_same (set_App a w')), set_App_healthy.
Qed.

Lemma schedule_calm {C} raw (k : result string Target → prog world C) Q (w : world) :
  valid_source (strings_TrimSpace raw) →
  (∀ t w', t_Raw t = raw → strings_TrimSpace raw ≠ "" → Calm Q w' (k (Ok t))) →
  (∀ e w', strings_TrimSpace raw = "" → Calm Q w' (k (Err e))) →
  Calm Q w (Op (schedule_call wd_App set_App raw) k).
Proof.
  intros Hv Hok Herr. apply (app_call (λ r, match r with
    | Ok t => t_Raw t = raw ∧ strings_TrimSpace raw ≠ "" | Err _ => strings_TrimSpace raw = "" end)).
  - intros a Ha. pose proof (AddTarget_healthy raw a Hv Ha) as Hx. by destruct (Sched.AddTarget _ _ _) as [[sc r] sn].
  - intros [t|e] w' Hr; [apply Hok; apply Hr|by apply Herr].
Qed.

Lemma save_target_calm {C} raw c (k : result string unit → prog world C) Q (w : world) :
  valid_source (strings_TrimSpace raw) → (∀ w', Calm Q w' (k (Ok tt))) →
  Calm Q w (Op (save_target_call wd_App set_App raw c) k).
Proof.
  intros Hv Hk. apply (app_call (λ r, r = Ok tt)); [|by intros ? w' ->].
  intros a Ha. pose proof (SaveTarget_healthy raw c a Hv Ha) as Hx. by destruct (ts_SaveTarget _ _ _ _).
Qed.

Lemma unschedule_calm {C} n (k : unit → prog world C) Q (w : world) : (∀ w', Calm Q w' (k tt)) →
  Calm Q w (Op (unschedule_call wd_App set_App n) k).
Proof.
  intros Hk. apply (app_call (λ _, True)); [|by intros [] w' _].
  intros a Ha. by split; [apply RemoveTarget_healthy|].
Qed.

Lemma delete_target_calm {C} n (k : result string unit → prog world C) Q (w : world) : (∀ r w', Calm Q w' (k r)) →
  Calm Q w (Op (delete_target_call wd_App set_App n) k).
Proof.
  intros Hk. apply (app_call (λ _, True)); [|by intros r w' _].
  intros a Ha. split; [|done]. pose proof (DeleteTarget_healthy n a Ha). by destruct (ts_DeleteTarget _ _ _).
Qed.

(** ** The requests *)

Abbreviation harmless := (λ (_ : world) r, console_failure r = None).

Lemma store_calm src (w : world) : utf8_params (sc_Params src) → named (sc_Name src) →
  strings_TrimSpace (sc_Name src) = sc_Name src → validateSource (sc_Type src) (sc_Params src) = None →
  Calm harmless w (store_calls wd_App set_App renew_templates src).
Proof.
  intros Hu Hn Ht Hv. destruct (validated_builds src true Hv) as (s & Hb & Hid).
  assert (valid_source (strings_TrimSpace (sc_Name src))) as Hvs by (rewrite Ht; apply Hn).
  apply (app_call (λ r, r = Ok tt)); [intros a Ha; by apply put_healthy|]. intros ? w1 ->. rewrite Hb.
  apply schedule_calm; [done| |by intros e w2 He; rewrite Ht in He; destruct Hn].
  intros t w2 _ _. apply reader_calm; [intros a Ha; by apply Add_healthy; rewrite ?Hid|]. intros w3.
  apply save_target_calm; [done|]. intros w4. by apply ret_calm.
Qed.

Lemma console_calm rq (w : world) : decoded_request rq →
  (∀ now sr, rq = Save now (Some sr) → valid_source (strings_TrimSpace (sq_Name sr))) →
  Calm harmless w (console_calls wd_App set_App renew_templates caps rq).
Proof.
  intros Hd Hv. destruct rq as [now [sr|]|q]; cbn [console_calls]; [|by apply ret_calm|].
  - unfold save_calls. set (n := strings_TrimSpace (sq_Name sr)).
    destruct (decide (n = "")) as [->|Hne]; [by apply ret_calm|]. rewrite is_empty_false by done.
    destruct (validateSource _ _) eqn:Hval; [by apply ret_calm|].
    set (src := mkSource n _ _ _ _).
    assert (∀ w' : world, Calm harmless w' (store_calls wd_App set_App renew_templates src)) as Hst.
    { intros w'. apply store_calm; [by apply Hd|by split; [by eapply Hv|]|apply TrimSpace_idem|done]. }
    apply (app_call (λ r, ∃ o, r = Ok o)); [intros a Ha; rewrite get_healthy by done; by eauto|].
    intros r w1 [[c|] ->]; [apply Hst|]. apply read_calm. intros max w2. destruct (max =? 0); [apply Hst|].
    apply (app_call (λ _, True)); [intros a Ha; by rewrite list_healthy|]. intros r w3 _.
    destruct (max <=? _); [by apply ret_calm|apply Hst].
  - unfold remove_calls. destruct (is_empty _); [by apply ret_calm|].
    apply reader_calm; [intros a Ha; by apply Remove_healthy|]. intros w1.
    apply unschedule_calm. intros w2. apply delete_target_calm. intros r w3.
    apply (app_call (λ r, r = Ok tt)); [intros a Ha; by apply delete_healthy|]. intros ? w4 ->. by apply ret_calm.
Qed.

Lemma add_target_calm req (w : world) : (∀ raw, req = Some raw → valid_source (strings_TrimSpace raw)) →
  Calm (λ _ r, api_failure r = None) w (add_target_calls wd_App set_App limits req).
Proof.
  intros Hv. destruct req as [raw|]; cbn [add_target_calls]; [|by apply ret_calm]. specialize (Hv raw eq_refl).
  apply (app_call (λ _, True)); [done|]. intros n w1 _. apply read_calm. intros lim w2.
  destruct (negb _); [by apply ret_calm|]. apply schedule_calm; [done| |by intros e w3 _; apply ret_calm].
  intros t w3 Hr _. apply save_target_calm; [by rewrite Hr|]. intros w4. by apply ret_calm.
Qed.

Lemma remove_target_calm c (w : world) : Calm (λ _ r, api_failure r = None) w (remove_target_calls wd_App set_App c).
Proof.
  unfold remove_target_calls. destruct (is_empty c); [by apply ret_calm|].
  apply unschedule_calm. intros w1. apply delete_target_calm. intros r w2. by apply ret_calm.
Qed.

(** Run alone they are the steps of [Live.v]. *)
Lemma run_console_goroutine rq (w : world) : healthy w →
  run_alone (console_goroutine rq) w =
    (console rq w, console_failure (match rq with
                                    | Save now rq => save (caps w) now rq (wd_App w)
                                    | Delete q => remove q (wd_App w)
                                    end).2).
Proof.
  intros Hw. unfold console_goroutine. rewrite run_pbind.
  rewrite run_console_calls; try done; [|by intros []|apply (h_app _ Hw)..].
  unfold on_whole, console, renewed_by, renewed. cbn [run_alone].
  destruct rq as [now rq|q]; cbn [Wiring.serve].
  - destruct (save (caps w) now rq (wd_App w)) as [a [[]|]]; by destruct w.
  - destruct (remove q (wd_App w)) as [a [[]|]]; by destruct w.
Qed.
End calm.

(** * The program, all of it at once *)

Section program.
Context {L W T : Type} `{LogStoreSpec L} `{StoreSpec W} `{TargetStoreSpec T}.
Context `{TimeFormat} `{JSONEncoder} `{!StoreJSON W} `{Quoter} `{MapRange} `{SortSlice}.
Context `{UnicodeTables} `{LogCodec} `{Ed25519} `{LicenseJSON} `{AiJSON}.
Context (format_date : Z → string) (quote : string → string).
Context (snapshot : string → Hfs.Meta → HfsSource → Z → option string).
Context (newID : Z → M W string string).
Hypothesis newID_ok : fresh_ids newID.

Abbreviation world := (World L W T).
Abbreviation config := (world * list (prog world (option string)))%type.
Abbreviation works := (work (L := L) (T := T) format_date quote snapshot newID).

(** What a source may be called: the decoder of a request gives no NUL byte. *)
Definition sane_request (rq : console_request) : Prop :=
  decoded_request rq ∧
  ∀ now sr, rq = Save now (Some sr) → valid_source (strings_TrimSpace (sq_Name sr)).

(** What goes on in [Goroutines.v], and the requests as goroutines of their own. *)
Inductive busy : config → config → Prop :=
| b_go c c' :
    go newID works c c' → busy c c'
| b_console w ps rq :
    sane_request rq → busy (w, ps) (w, ps ++ [console_goroutine rq])
| b_add w ps req :
    (∀ raw, req = Some raw → valid_source (strings_TrimSpace raw)) →
    busy (w, ps) (w, ps ++ [add_target_goroutine req])
| b_remove w ps canonical :
    busy (w, ps) (w, ps ++ [remove_target_goroutine canonical]).

(** The process may also be told to stop, or end with whatever is in flight. *)
Inductive bstep : config → config → Prop :=
| b_busy c c' :
    busy c c' → bstep c c'
| b_shutdown w ps now :
    bstep (w, ps) (shutdown now w, ps)
| b_crash w ps cfg disp s :
    sv_Store s = sv_Store (wd_Server w) → sv_Module s = Describe →
    bstep (w, ps) (restart cfg disp s w, []).

(** ** Health as an invariant of the goroutines *)

Lemma targets_healthy (a : App L T) t : healthy_app a →
  t ∈ Sched.ListTargets ModuleID (ap_Sched a) → named (t_Canonical t).
Proof.
  intros [_ _ _ _ (reg & Hr & _ & Htg) _] Ht. unfold Sched.ListTargets, Sched.snapshotTargets in Ht. rewrite Hr in Ht.
  apply list_elem_of_fmap in Ht as ([n t'] & -> & Hin). apply elem_of_range_map in Hin. by eapply Htg.
Qed.

#[export] Program Instance healthy_inv : WorldInv L W T := {| inv := healthy |}.
Next Obligation. intros w [Ha _ _]. apply Ha. Qed.
Next Obligation. by intros w []. Qed.
Next Obligation. intros w t [Ha _ _] Ht. by eapply targets_healthy. Qed.
Next Obligation. intros w s [Ha _ _] Hr. by destruct (h_running _ Ha _ _ Hr). Qed.
Next Obligation. intros w w' Ha Hs. by apply healthy_same. Qed.
Next Obligation.
  intros l ig w Hl Hsrc Hig [[_ Hn Ht Hs Hsch Hr] Hst Hm]. split; [split| |]; try done.
  - intros n. unfold source_of. cbn. rewrite Hsrc. apply Hn.
  - intros n s. cbn. rewrite Hig. apply Hr.
Qed.
Next Obligation. by intros s w Hst Hm [Ha _ _]. Qed.
Next Obligation.
  intros rq w Hd Hv Hw. pose proof (console_calm rq w Hd Hv) as Hc.
  assert (sound healthy anyhow quiet (λ _ _, True) w (console_goroutine rq)) as Hs.
  { refine (sound_pbind healthy anyhow quiet (λ _ _ _, I) _ _ _ _ _ Hw _ Hc). intros w1 r _ _ _.
    by apply ret_calm. }
  destruct (sound_run healthy anyhow quiet (λ _ _ _, I) _ _ _ Hw Hs) as (Hx & _).
  by rewrite run_console_goroutine in Hx.
Qed.

(** ** A restart *)

Lemma restore_one_healthy raw (a : App L T) : valid_source (strings_TrimSpace raw) → healthy_app a →
  healthy_app (restore_one raw a) ∧ ap_Log (restore_one raw a) = ap_Log a ∧ ap_Targets (restore_one raw a) = ap_Targets a.
Proof.
  intros Hv Ha. unfold restore_one. pose proof (AddTarget_healthy raw a Hv Ha) as Hx.
  destruct (Sched.AddTarget _ _ _) as [[sc [t|e]] sn]; destruct Hx as [Hx _]; [|done].
  unfold startSource. rewrite get_healthy by done. destruct (source_of _ raw) as [c|] eqn:Hs; [|done].
  destruct (BuildSourceWith c true) as [sr|e] eqn:Hb; [|done]. split; [|done]. apply Add_healthy; [|done].
  rewrite (BuildSourceWith_ID c true sr Hb), (log_source_name _ _ _ (proj1 (h_log _ Hx)) Hs).
  apply (h_names _ Hx). by eexists.
Qed.

Lemma restore_all_healthy l : Forall (λ raw, valid_source (strings_TrimSpace raw)) l → ∀ a : App L T, healthy_app a →
  healthy_app (foldl (λ a raw, restore_one raw a) a l).
Proof.
  induction 1 as [|raw l Hraw _ IH]; intros a Ha; cbn [foldl]; [done|]. apply IH. by apply restore_one_healthy.
Qed.

Lemma restart_healthy cfg disp s (w : world) : sv_Store s = sv_Store (wd_Server w) → sv_Module s = Describe →
  healthy w → healthy (restart cfg disp s w).
Proof.
  intros Hst Hm [Ha Hs _]. unfold the_store in *. split; unfold the_store; cbn [wd_App wd_Server restart]; [|by rewrite Hst|done].
  assert (healthy_app (restore (booted cfg (ap_Log (wd_App w)) (ap_Targets (wd_App w))))) as Hr.
  { unfold restore. cbn [booted ap_Targets]. rewrite ListSavedTargets_spec by apply Ha.
    apply restore_all_healthy.
    - apply Forall_fmap, Forall_forall. intros x Hx. by apply (h_saved _ Ha).
    - destruct Ha as [Hl Hn Ht Hsv _ _]. split; try done.
      exists (Sched.mkReg module_collector Describe ∅). split_and!; [reflexivity|done|by intros]. }
  destruct Hr as [? ? ? ? (reg & Hreg & Hc & Htg) ?]. split; try done. exists reg. split_and!; [|done..].
  unfold started, Sched.Start. cbn. by destruct (Sched.sd_state _).
Qed.

(** ** The goroutines among each other *)

Section watched.
Context `{!Watch}.

Lemma calm_fit {B} (Q : world → B → Prop) p (w : world) : sound healthy anyhow quiet Q w p →
  sound fit keeps keeps Q w p.
Proof. apply sound_mono; [by intros s []|done|]. intros s s' Hf Hs' [Hst Hn]. by apply quiet_fit. Qed.

Lemma ends_well {B} (f : B → option string) p (w : world) : fit w →
  sound healthy anyhow quiet (λ _ r, f r = None) w p →
  sound fit keeps keeps (λ _ r, r = None) w (pbind (λ r, Ret (f r)) p).
Proof.
  intros Hw Hp%calm_fit. refine (sound_pbind fit keeps keeps (λ _ _ H, H) _ _ _ _ _ Hw _ Hp).
  intros w1 r _ _ Hr w2 _ _. exact Hr.
Qed.

Lemma busy_good c c' : busy c c' → good_config c → good_config c' ∧ keeps c.1 c'.1.
Proof using All.
  intros Hstep Hc. destruct Hstep as [c c' Hgo|w ps rq [Hd Hv]|w ps req Hv|w ps canonical].
  1: { eapply go_good; [done|apply (work_fit format_date quote snapshot newID newID_ok)|exact Hgo|done]. }
  all: pose proof (proj1 Hc) as Hf; cbn [fst] in Hf; (split; [|reflexivity]); eapply spawn_good; [exact Hf|reflexivity| |exact Hc].
  all: apply no_error, ends_well; [exact Hf|].
  - by apply console_calm.
  - by apply add_target_calm.
  - apply remove_target_calm.
Qed.
End watched.

Lemma bstep_good c c' : bstep c c' → good_config c → good_config c' ∧ keeps c.1 c'.1.
Proof using All.
  intros Hstep Hc. destruct Hstep as [c c' Hb|w ps now|w ps cfg disp s Hst Hm]; [by apply busy_good|..].
  - destruct Hc as [[Hw _] Hps]. cbn [fst snd] in *.
    assert (fit (shutdown now w) ∧ keeps w (shutdown now w)) as [Hf Hk].
    { unfold shutdown. destruct (wd_Disp w); (split; [split; [by apply (healthy_same w)|done]|split; [by intros m fp|done]]). }
    split; [|done]. split; [done|]. intros i p Hp. eapply sound_later; [exact _|exact Hk|by apply (Hps i)].
  - destruct Hc as [[Hw _] _]. cbn [fst snd] in *. split; [split; [split; [by apply restart_healthy|done]|by intros i p]|].
    split; [|done]. intros m fp. unfold the_store. cbn. by rewrite Hst.
Qed.

Lemma bsteps_good c c' : rtc bstep c c' → good_config c → good_config c' ∧ keeps c.1 c'.1.
Proof using All.
  induction 1 as [|c c1 c2 Hs _ IH]; [done|]. intros Hc.
  destruct (bstep_good _ _ Hs Hc) as [Hc1 Hk1]. destruct (IH Hc1) as [? Hk2]. split; [done|by etransitivity].
Qed.

Lemma schedule_bsteps sch : ∀ c, rtc bstep c (run_schedule sch c).
Proof.
  induction sch as [|i sch IH]; intros [w ps]; cbn [run_schedule foldl]; [apply rtc_refl|].
  eapply rtc_l; [apply b_busy, b_go, c_run|apply IH].
Qed.
End program.

(** * Properties *)


(** ** Concrete inputs *)

Section examples.
#[local] Instance exQ : Quoter := exQuoter.
#[local] Instance exR : MapRange := canonical_range.
#[local] Instance exS : SortSlice := canonical_sort.
#[local] Instance exE : Ed25519 := exEd.
#[local] Instance exJ : LicenseJSON := exLicenseJSON.
#[local] Instance exA : AiJSON := exJSON.
#[local] Instance exT : TimeFormat := exFormat.
#[local] Instance exU : UnicodeTables := Parse.exTables.
#[local] Instance exC : LogCodec := exCodec.
#[local] Instance exM : JSONEncoder := noMarshal.

Abbreviation the_source := (FileSource "auth" "/var/log/auth.log" "" "").
Abbreviation the_event := (ParseLine SourceFile "auth" "" "" exLine exNow).

(** A source is saved, removed, added as a target, scanned and delivers an event, all
    at once. The removal overtakes the save. *)
Definition exBusy :=
  run_schedule [1; 0; 0; 0; 4; 1; 1; 0; 3; 0; 4; 1; 0; 2; 2; 0; 2; 2; 2; 4]%nat
    (emitted the_source the_event exWorld,
     [console_goroutine (Save 5 (exRequest "auth" "/var/log/auth.log"));
      console_goroutine (Delete " auth ");
      add_target_goroutine (Some " auth");
      remove_target_goroutine "web";
      event_goroutine freshID exNow the_event]).

End examples.
