(* ===== verification/Races.v ===== *)
(** What goes wrong when goroutines overlap. [Goroutines.v] shows that the program
    survives every interleaving; here are the ones whose outcome no order of the
    same operations gives: a triage that a scan undoes, two saves that pass the
    limit together, a save and a removal that leave a reader nobody lists, two
    flows of which the graph keeps one, two failed logins of which the detector
    counts one. Next to them is the removal through the dashboard, which leaves a
    reader that nobody scans without any overlap. *)
From S2P Require Import Prelude Conc Text Float Core Store Reconcile Ingest Netip Window Netflow Traffic.
From S2P Require Import Detect Correlate Notify Loglight Pipeline Shape System.
From S2P Require Import License Verify AiClient Web Api Console Main Wiring Tasks Requests.
From S2P Require Sched.
Local Open Scope Z_scope.

(** * A scan and a triage request *)

Section triage.
Context {W : Type} `{StoreSpec W} `{JSONEncoder} `{!StoreJSON W}.
Context (now : Z) (newID : Z → M W string string) (newID_ok : fresh_ids newID).
Context (mo : ModuleInfo) (Hmo : valid_module (m_ID mo)).

Abbreviation outcome := (result (ReconcileResult * string) ReconcileResult + Web.response)%type.

Definition scan_side (target : string) (fresh : list Finding) : prog W outcome :=
  pbind (λ r, Ret (inl r)) (Reconcile_prog now newID mo target fresh).
Definition triage_side (req : string * string) : prog W outcome :=
  pbind (λ r, Ret (inr r)) (triage_prog mo (Some req)).

(** The request alone. *)
Lemma triage_alone fp st w r : store_inv w → triage_status st → lookup_rec w (m_ID mo) fp = Some r →
  ∃ w', run_alone (triage_side (fp, st)) w = (w', inr (Web.OK (PField "ok" "true"))) ∧ store_inv w' ∧
    lookup_rec w' (m_ID mo) fp = Some (set_Status st r) ∧
    ∀ m fp', valid_module m → m ≠ m_ID mo ∨ fp' ≠ fp → lookup_rec w' m fp' = lookup_rec w m fp'.
Proof.
  intros Hw Hst Hr. unfold triage_side. rewrite run_pbind. unfold triage_prog.
  assert (str_eqb st StatusAcknowledged || str_eqb st StatusSuppressed || str_eqb st StatusOpen = true) as ->.
  { unfold str_eqb. rewrite !orb_true_iff, !bool_decide_eq_true. unfold triage_status in Hst. set_solver. }
  cbn [run_alone]. rewrite (Get_spec w (m_ID mo) fp Hw Hmo), Hr. cbn [run_alone].
  destruct (lookup_rec_key _ _ _ _ Hw Hmo Hr) as [Hrm Hrf].
  destruct (stored_same _ _ _ r (set_Status st r) Hw Hmo Hr eq_refl) as [Hsto Hsame].
  destruct (Upsert_exact w (set_Status st r) (set_Status st r)) as (w' & -> & Hw' & Hl & Hframe).
  - done.
  - change (valid_module (r_Module r)). by rewrite Hrm.
  - done.
  - change (r_Module (set_Status st r)) with (r_Module r).
    change (r_Fingerprint (set_Status st r)) with (r_Fingerprint r). by rewrite Hrm, Hrf, Hr.
  - change (r_Module (set_Status st r)) with (r_Module r).
    change (r_Fingerprint (set_Status st r)) with (r_Fingerprint r). rewrite Hrm, Hrf, Hr.
    etrans; [apply upsert_merge_same, set_Status_identity|exact Hsame].
  - change (r_Module (set_Status st r)) with (r_Module r) in *.
    change (r_Fingerprint (set_Status st r)) with (r_Fingerprint r) in *. rewrite Hrm, Hrf in *.
    exists w'. by split_and!.
Qed.

(** What a scan still does, after it has read [ex]. *)
Definition scan_rest (ex : list Record) (fresh : list Finding) : prog W outcome :=
  pbind (λ r, Ret (inl r))
    ('(seen, res) ← fresh_prog now newID mo (byFingerprint ex) fresh ∅ emptyResult;
     absent_prog now mo ex seen res).

Lemma scan_reads target fresh w ex (q : prog W outcome) :
  ListByTarget (m_ID mo) target w = (w, Ok ex) →
  run_schedule [0%nat] (w, [scan_side target fresh; q]) = (w, [scan_rest ex fresh; q]).
Proof.
  intros Hl. unfold run_schedule, advance_nth. cbn. unfold orReturn. by rewrite Hl.
Qed.

(** The rest of a scan that reports [f], over the record it read. *)
Lemma scan_rest_ok target f w ex r : store_inv w → is_valid f = true →
  NoDup (map r_Fingerprint ex) → r ∈ ex → r_Fingerprint r = f_Fingerprint f →
  (∀ r', r' ∈ ex → r_Module r' = m_ID mo ∧ r_Target r' = target) →
  (∀ r', r' ∈ ex → r_Fingerprint r' ≠ f_Fingerprint f → lookup_rec w (m_ID mo) (r_Fingerprint r') = Some r') →
  (∃ o, lookup_rec w (m_ID mo) (f_Fingerprint f) = Some o ∧ same_identity o r) →
  ∃ w' res, run_alone (scan_rest ex [f]) w = (w', inl (Ok res)) ∧
    lookup_rec w' (m_ID mo) (f_Fingerprint f) = Some (stored W (refreshRecord r (capEvidence f) now)).
Proof.
  intros Hw Hv Hnd Hin Hfp Hex Hcur (o & Ho & Hid).
  unfold scan_rest. rewrite run_pbind, run_bind, run_fresh. cbn [Reconcile_fresh].
  unfold is_valid in Hv. destruct (ValidateForIngest f); [done|].
  rewrite capEvidence_Fingerprint.
  assert (byFingerprint ex !! f_Fingerprint f = Some r) as ->.
  { apply byFingerprint_spec; done. }
  destruct (Hex r Hin) as [Hrm Hrt].
  destruct (Upsert_exact w (refreshRecord r (capEvidence f) now) (stored W (refreshRecord r (capEvidence f) now)))
    as (w1 & Hu & Hw1 & Hl1 & Hframe).
  - done.
  - change (valid_module (r_Module r)). by rewrite Hrm.
  - apply capEvidence_storable; exact _.
  - change (r_Module (refreshRecord _ _ _)) with (r_Module r).
    change (r_Fingerprint (refreshRecord _ _ _)) with (r_Fingerprint r). by rewrite Hrm, Hfp, Ho.
  - change (r_Module (refreshRecord _ _ _)) with (r_Module r).
    change (r_Fingerprint (refreshRecord _ _ _)) with (r_Fingerprint r). rewrite Hrm, Hfp, Ho.
    by apply upsert_merge_same.
  - change (r_Module (refreshRecord _ _ _)) with (r_Module r) in *.
    change (r_Fingerprint (refreshRecord _ _ _)) with (r_Fingerprint r) in *. rewrite Hrm, Hfp in *.
    unfold mbind, M_mbind, orReturn, mret, M_mret. rewrite Hu, run_absent.
    match goal with |- context [Reconcile_absent now mo ex ?seen ?res w1] =>
      destruct (Reconcile_absent_ok now newID newID_ok mo ex seen res w1 Hw1 Hmo Hnd) as (w' & res' & -> & _ & _ & Hf & _) end.
    + intros r' Hr'. by apply Hex.
    + intros r' Hr' Hns. assert (r_Fingerprint r' ≠ f_Fingerprint f) as Hne by set_solver.
      rewrite Hframe by auto. by apply Hcur.
    + exists w', res'. split; [done|]. rewrite Hf by (auto; right; left; set_solver). done.
Qed.
End triage.

(** * The requests of the console *)

Section console.
Context {L T : Type} `{LogStoreSpec L} `{TargetStoreSpec T} `{Quoter}.

Abbreviation A := (App L T).
Abbreviation reply := Console.response.

(** The calls of [Requests.v], on nothing but what the callbacks act on. *)
Definition store_prog : SourceConfig → prog A reply := store_calls id (λ a _, a) (λ _ a, a).
Definition save_prog (caps : Z) : Z → saveRequest → prog A reply := save_calls id (λ a _, a) (λ _ a, a) (λ _, caps).
Definition remove_prog : string → prog A reply := remove_calls id (λ a _, a) (λ _ a, a).
Definition remove_row_prog : string → prog A reply := remove_row id (λ a _, a).

(** ** Alone *)

Lemma on_app_id {B} (m : A → A * B) a : on_app id (λ a _, a) m a = m a.
Proof. unfold on_app, lift_call, id. by destruct (m a). Qed.

Lemma run_store src a : ts_inv (ap_Targets a) → run_alone (store_prog src) a = stored_by src a.
Proof.
  intros Ha. unfold store_prog. rewrite run_store_calls by done.
  unfold on_whole, renewed_by, id. by destruct (stored_by src a) as [a1 [[]|]].
Qed.

Lemma run_save caps now rq a : wired a → run_alone (save_prog caps now rq) a = save caps now (Some rq) a.
Proof.
  intros Ha. unfold save_prog. rewrite run_save_calls; try done; [|apply Ha].
  unfold on_whole, renewed_by, id. by destruct (save _ _ _ a) as [a1 [[]|]].
Qed.

(** The calls that store a valid source. *)
Definition config_of (now : Z) (rq : saveRequest) : SourceConfig :=
  mkSource (strings_TrimSpace (sq_Name rq)) (sq_Type rq) (default ∅ (sq_Params rq)) true now.

Lemma store_wired now rq a : wired a → decoded (Some rq) → strings_TrimSpace (sq_Name rq) ≠ "" →
  validateSource (sq_Type rq) (default ∅ (sq_Params rq)) = None →
  ∃ a' c', run_alone (store_prog (config_of now rq)) a =
      (a', OK (PSaved (strings_TrimSpace (sq_Name rq)) (sq_Type rq))) ∧ wired a' ∧
    same_source (config_of now rq) c' ∧
    ∀ n, source_of a' n = if decide (n = strings_TrimSpace (sq_Name rq)) then Some c' else source_of a n.
Proof.
  intros Ha Hd Hne Hv.
  destruct (OnSaved_wired a (config_of now rq) Ha) as (a1 & a2 & c' & Hput & Hon & Ha2 & Hsame & _ & Hsrc);
    [done|apply TrimSpace_idem|done|by apply Hd|].
  exists a2, c'. rewrite run_store by apply Ha. unfold stored_by. rewrite Hput, Hon. by split_and!.
Qed.

(** The checks of a new name below the limit. *)
Lemma checks_pass caps now rq a i ps : wired a → caps ≠ 0 →
  strings_TrimSpace (sq_Name rq) ≠ "" → validateSource (sq_Type rq) (default ∅ (sq_Params rq)) = None →
  source_of a (strings_TrimSpace (sq_Name rq)) = None → Z.of_nat (length (sources a)) < caps →
  ps !! i = Some (save_prog caps now rq) →
  run_schedule [i; i; i] (a, ps) = (a, <[i := store_prog (config_of now rq)]> ps).
Proof.
  intros Ha Hc Hne Hv Hnew Hlt Hi. assert (i < length ps)%nat as Hil by (by eapply lookup_lt_Some).
  destruct (sources_spec a (w_log _ Ha)) as (Hl & _ & _).
  unfold run_schedule. cbn [foldl]. unfold advance_nth at 3. cbn [fst snd]. rewrite Hi.
  unfold save_prog, save_calls. rewrite is_empty_false by done. rewrite Hv. cbn [advance].
  rewrite on_app_id, (GetSource_app a _ (w_log _ Ha)), Hnew.
  unfold advance_nth at 2. cbn [fst snd]. rewrite list_lookup_insert_eq by done. cbn [advance].
  destruct (Z.eqb_spec caps 0); [done|].
  unfold advance_nth. cbn [fst snd]. rewrite list_lookup_insert_eq by by rewrite length_insert. cbn [advance].
  rewrite on_app_id, Hl, !list_insert_insert_eq. destruct (Z.leb_spec caps (Z.of_nat (length (sources a)))); [lia|done].
Qed.

Lemma save_below caps now rq a : wired a → strings_TrimSpace (sq_Name rq) ≠ "" →
  validateSource (sq_Type rq) (default ∅ (sq_Params rq)) = None → Z.of_nat (length (sources a)) < caps →
  run_alone (save_prog caps now rq) a = run_alone (store_prog (config_of now rq)) a.
Proof.
  intros Ha Hne Hv Hlt. destruct (sources_spec a (w_log _ Ha)) as (Hl & _ & _). unfold save_prog, save_calls.
  rewrite is_empty_false by done. rewrite Hv. cbn [run_alone]. rewrite on_app_id, (GetSource_app a _ (w_log _ Ha)).
  destruct (source_of a _); [done|]. cbn [run_alone]. destruct (caps =? 0); [done|]. cbn [run_alone].
  rewrite on_app_id, Hl. destruct (Z.leb_spec caps (Z.of_nat (length (sources a)))); [lia|done].
Qed.

Lemma save_above caps now rq a : wired a → strings_TrimSpace (sq_Name rq) ≠ "" → caps ≠ 0 →
  validateSource (sq_Type rq) (default ∅ (sq_Params rq)) = None →
  source_of a (strings_TrimSpace (sq_Name rq)) = None → caps <= Z.of_nat (length (sources a)) →
  (run_alone (save_prog caps now rq) a).2 = HttpErr 403 "source limit reached for your tier — upgrade to add more".
Proof.
  intros Ha Hne Hc Hv Hnew Hle. rewrite run_save by done. unfold save, handleSave.
  rewrite is_empty_false by done. rewrite Hv, over_cap_app by apply Ha. by rewrite bool_decide_true.
Qed.

Lemma length_sources_more (a a' : A) (extra : list string) : wired a → wired a' → NoDup extra →
  (∀ n, n ∈ extra → source_of a n = None ∧ is_Some (source_of a' n)) →
  (∀ n, is_Some (source_of a n) → is_Some (source_of a' n)) →
  (length extra + length (sources a) <= length (sources a'))%nat.
Proof.
  intros Ha Ha' Hnd Hex Hkeep. destruct (sources_spec a (w_log _ Ha)) as (_ & Hnda & Hin).
  destruct (sources_spec a' (w_log _ Ha')) as (_ & _ & Hin').
  rewrite <-(length_map sc_Name (sources a')), <-(length_map sc_Name (sources a)), <-length_app.
  apply submseteq_length, NoDup_submseteq.
  - apply NoDup_app. split_and!; [done| |done]. intros n Hn Hs%Hin.
    destruct (Hex n Hn) as [Hnone _]. rewrite Hnone in Hs. by destruct Hs.
  - intros n [Hn|Hn]%elem_of_app; apply Hin'; [by apply Hex|by apply Hkeep, Hin].
Qed.

(** What a save needs of the parts, in step or not. *)
Record ready (a : A) : Prop := {
  rd_log : log_inv (ap_Log a);
  rd_ts : ts_inv (ap_Targets a);
  rd_module : ∃ reg, Sched.sd_modules (ap_Sched a) !! ModuleID = Some reg ∧
    Sched.rg_collector reg = module_collector;
}.

Lemma wired_ready a : wired a → ready a.
Proof. intros [Hl Ht _ (reg & Hr & Hc & _) _ _]. split; [done..|by exists reg]. Qed.


(** A save stores the source, runs it and schedules it. *)
Lemma store_runs now rq a : ready a → decoded (Some rq) → strings_TrimSpace (sq_Name rq) ≠ "" →
  validateSource (sq_Type rq) (default ∅ (sq_Params rq)) = None →
  ∃ a' s, run_alone (store_prog (config_of now rq)) a =
      (a', OK (PSaved (strings_TrimSpace (sq_Name rq)) (sq_Type rq))) ∧ ready a' ∧
    ig_running (ap_Ingest a') !! strings_TrimSpace (sq_Name rq) = Some s ∧
    (∃ reg t, Sched.sd_modules (ap_Sched a') !! ModuleID = Some reg ∧
       Sched.rg_targets reg !! strings_TrimSpace (sq_Name rq) = Some t).
Proof.
  intros [Hl Ht (reg & Hreg & Hcol)] Hd Hne Hv. set (c := config_of now rq).
  destruct (PutSource_spec _ c Hl (Hd rq eq_refl)) as (l' & c' & Hput & Hl' & _ & _ & _).
  destruct (validated_builds c true Hv) as (s & Hb & Hid).
  destruct (SaveTarget_spec _ ModuleID (sc_Name c) (sc_Name c) Ht) as (t' & Hsv & Ht' & _).
  eexists _, s. split.
  { rewrite run_store by done. unfold stored_by. cbn. unfold on_log. rewrite Hput. unfold OnSaved. rewrite Hb.
    unfold Sched.AddTarget. cbn. rewrite Hreg, Hcol. cbn.
    rewrite ValidateTarget_trimmed by (done || apply TrimSpace_idem). cbn. cbn in Hsv. rewrite Hsv. reflexivity. }
  cbn [ap_Log ap_Sched ap_Ingest ap_Targets set_Targets set_Ingest set_Sched]. split; [split|split].
  - done.
  - done.
  - eexists. split; [cbn; by rewrite lookup_alter_eq, Hreg|]. by cbn.
  - cbn. rewrite Hid. apply lookup_insert_eq.
  - eexists _, _. split; [cbn; by rewrite lookup_alter_eq, Hreg|]. cbn. apply lookup_insert_eq.
Qed.

(** The removal up to the deletion of the row. *)
Lemma remove_stops query n a (q : prog A reply) : wired a → strings_TrimSpace query = n → n ≠ "" →
  ∃ a1, run_schedule [0; 0; 0]%nat (a, [remove_prog query; q]) = (a1, [remove_row_prog n; q]) ∧ ready a1.
Proof.
  intros [Hl Ht _ (reg & Hreg & Hcol & _) _ _] <- Hne. unfold remove_prog, remove_calls.
  rewrite is_empty_false by done.
  destruct (DeleteTarget_spec _ ModuleID (strings_TrimSpace query) Ht) as (t' & Hdt & Ht' & _).
  eexists. unfold run_schedule, advance_nth. cbn.
  unfold delete_target_call, on_app, lift_call. cbn. rewrite Hdt. split; [reflexivity|].
  split; [done|done|]. unfold Sched.RemoveTarget. rewrite Hreg.
  eexists. split; [cbn; by rewrite lookup_alter_eq, Hreg|done].
Qed.
End console.

(** * The dashboard's removal of a target *)

Section targets.
Context {L T : Type} `{LogStoreSpec L} `{TargetStoreSpec T} `{Quoter} `{MapRange}.

Abbreviation A := (App L T).

Definition remove_target_prog : string → prog A Web.response := remove_target_calls id (λ a _, a).

(** A start runs the sources that are saved as targets, and no others. *)
Lemma restore_one_other n raw (a : A) : log_inv (ap_Log a) → raw ≠ n →
  ap_Log (restore_one raw a) = ap_Log a ∧
  ig_running (ap_Ingest (restore_one raw a)) !! n = ig_running (ap_Ingest a) !! n.
Proof.
  intros Hl Hne. unfold restore_one. destruct (Sched.AddTarget _ _ _) as [[sc [t|e]] sn]; [|done].
  unfold startSource. rewrite GetSource_app by done. destruct (source_of _ raw) as [c|] eqn:Hs; [|done].
  destruct (BuildSourceWith c true) as [s|e] eqn:Hb; [|done]. split; [done|]. cbn.
  rewrite lookup_insert_ne; [done|]. unfold source_of in Hs. cbn in Hs.
  rewrite (BuildSourceWith_ID c true s Hb), (log_source_name _ _ _ Hl Hs). done.
Qed.

Lemma restore_others n l : n ∉ l → ∀ a : A, log_inv (ap_Log a) →
  ap_Log (foldl (λ a raw, restore_one raw a) a l) = ap_Log a ∧
  ig_running (ap_Ingest (foldl (λ a raw, restore_one raw a) a l)) !! n = ig_running (ap_Ingest a) !! n.
Proof.
  induction l as [|raw l IH]; intros Hn a Hl; cbn [foldl]; [done|]. rewrite not_elem_of_cons in Hn.
  destruct (restore_one_other n raw a Hl) as [Hlog Hrun]; [naive_solver|].
  destruct (IH (proj2 Hn) (restore_one raw a)) as [-> ->]; [by rewrite Hlog|done].
Qed.
End targets.

(** * The buffer of the traffic graph *)

Section traffic.
Context (now : Z).

Definition put_pending (k : edgeKey) (a : agg) (g : Graph) : Graph := mkGraph (<[k := a]> (gr_pend g)) (gr_rows g).

(** [Flush]: the buffer is swapped out under the lock, and written without it. *)
Definition Flush_prog (db : option string) : prog Graph (option string) :=
  Op (λ g, (mkGraph ∅ (gr_rows g), gr_pend g)) (λ pend,
    if decide (pend = ∅) then Ret None
    else Op (λ g,
      match db with
      | Some e => (g, Some e)
      | None => (mkGraph (gr_pend g)
                   (map_fold (λ k a rows, <[k := upsert_row (rows !! k) a]> rows) (gr_rows g) pend), None)
      end) Ret).

(** [Observe] keeps the lock unless the buffer is full. *)
Definition Observe_prog (db : option string) (f : Flow) : prog Graph unit :=
  if is_empty (fl_SrcIP f) || is_empty (fl_DstIP f) then Ret tt
  else
    let end_ := if time_IsZero (fl_End f) then now else fl_End f in
    let k := flow_key f in
    let fresh := add_flow f end_ (mkAgg 0 0 0 end_ 0) in
    Op (λ g,
      match gr_pend g !! k with
      | Some a => (put_pending k (add_flow f end_ a) g, true)
      | None =>
        if maxPending <? Z.of_nat (size (gr_pend g)) then (g, false) else (put_pending k fresh g, true)
      end) (λ done,
      if done then Ret tt
      else pbind (λ _, Op (λ g, (put_pending k fresh g, tt)) Ret) (Flush_prog db)).

Lemma run_Flush db g : run_alone (Flush_prog db) g = Traffic.Flush db g.
Proof.
  unfold Flush_prog, Traffic.Flush. cbn [run_alone]. destruct (decide (gr_pend g = ∅)); [done|].
  cbn [run_alone]. by destruct db.
Qed.

Lemma run_Observe db f g : run_alone (Observe_prog db f) g = (Observe now db f g, tt).
Proof.
  unfold Observe_prog, Observe. destruct (is_empty _ || is_empty _); [done|]. cbn [run_alone].
  destruct (gr_pend g !! flow_key f); [done|]. destruct (maxPending <? _); [|done].
  rewrite run_pbind, run_Flush. by destruct (Traffic.Flush db g).
Qed.
End traffic.

(** * The detectors, which no lock guards *)

(** Every source calls the handler from its own goroutine and the detector holds no
    lock, so the accesses to its maps are the calls here. One access is one step:
    that the Go runtime may stop the program when two of them meet in the same
    instant is left out, and [append] makes a new slice, for the length of a list
    does not depend on what another appends to the same array. *)
Section detectors.

Definition put_times (k : string) (buf : list Z) (b : bruteForce) : bruteForce :=
  mkBrute (bf_cfg b) (mkCounter (sc_window (bf_count b)) (<[k := buf]> (sc_times (bf_count b)))) (bf_cool b)
    (bf_first b) (bf_evid b).
Definition put_evid (k : string) (ev : list string) (b : bruteForce) : bruteForce :=
  mkBrute (bf_cfg b) (bf_count b) (bf_cool b) (bf_first b) (<[k := ev]> (bf_evid b)).
Definition put_first (k : string) (t : Z) (b : bruteForce) : bruteForce :=
  mkBrute (bf_cfg b) (bf_count b) (bf_cool b) (<[k := t]> (bf_first b)) (bf_evid b).
Definition put_cool (c : cooldown) (b : bruteForce) : bruteForce :=
  mkBrute (bf_cfg b) (bf_count b) c (bf_first b) (bf_evid b).

(** [slidingCounter.add]. *)
Definition add_prog {A} (k : string) (t : Z) (next : Z → prog bruteForce A) : prog bruteForce A :=
  Op (λ b, (b, (sc_window (bf_count b), map_get [] (sc_times (bf_count b)) k))) (λ '(w, old),
    let buf := prune id (time_Add t (- w)) (old ++ [t]) in
    Op (λ b, (put_times k buf b, tt)) (λ _, next (Z.of_nat (length buf)))).

(** [observe] of the brute-force detector, from the count on. The call that lets it
    fire reads and writes the cool-down at once. *)
Definition fire_prog (cfg : Detect.Config) (e : Event) (n : Z) : prog bruteForce (option Detection) :=
  let actor := Actor e in
  if n <? BruteFailures cfg then Ret None
  else
    Op (λ b, let '(cool, ok) := firable ("bf:" +:+ actor) (e_Timestamp e) (bf_cool b) in (put_cool cool b, ok)) (λ ok,
    if negb ok then Ret None
    else
      Op (λ b, (b, (map_get 0 (bf_first b) actor, map_get [] (bf_evid b) actor))) (λ '(first, evid),
      let d := {|
        d_Kind := KindBruteForce; d_Severity := SevHigh; d_Actor := actor;
        d_Target := e_Host e; d_User := e_User e;
        d_Title := sprint ["Brute force: "; dec n; " failed logins from "; actor];
        d_Detail := sprint [dec n; " authentication failures within ";
          duration_String (BruteWindow cfg); " (target "; orAny (e_Host e); ")."];
        d_Count := n; d_FirstAt := first; d_LastAt := e_Timestamp e; d_Evidence := evid;
        d_Key := "brute|" +:+ actor |} in
      Op (λ b, (mkBrute (bf_cfg b) (slidingCounter_reset actor (bf_count b)) (bf_cool b) (bf_first b) (bf_evid b), tt)) (λ _,
      Op (λ b, (mkBrute (bf_cfg b) (bf_count b) (bf_cool b) (delete actor (bf_first b)) (bf_evid b), tt)) (λ _,
      Op (λ b, (mkBrute (bf_cfg b) (bf_count b) (bf_cool b) (bf_first b) (delete actor (bf_evid b)), tt)) (λ _,
      Ret (Some d)))))).

Definition count_prog (e : Event) : prog bruteForce (option Detection) :=
  let actor := Actor e in
  Op (λ b, (b, (bf_cfg b, map_get [] (bf_evid b) actor))) (λ '(cfg, ev),
  Op (λ b, (put_evid actor (evidenceKeep ev (e_Raw e) (EvidenceMax cfg)) b, tt)) (λ _,
  add_prog actor (e_Timestamp e) (fire_prog cfg e))).

Definition brute_prog (e : Event) : prog bruteForce (option Detection) :=
  if negb (str_eqb (e_Auth e) AuthFailure) then Ret None
  else
    let actor := Actor e in
    if is_empty actor then Ret None
    else
      Op (λ b, (b, bf_first b !! actor)) (λ first,
      match first with
      | Some _ => count_prog e
      | None => Op (λ b, (put_first actor (e_Timestamp e) b, tt)) (λ _, count_prog e)
      end).

Lemma run_brute_prog e b : run_alone (brute_prog e) b = bruteForce_observe e b.
Proof.
  unfold brute_prog, count_prog, fire_prog, bruteForce_observe, add_prog. destruct (negb _); [done|].
  destruct (is_empty _); [done|]. cbn [run_alone]. unfold set_first, keep_evid, slidingCounter_add.
  destruct b as [cfg [w times] cool first evid]. cbn [bf_first bf_count bf_cfg bf_cool bf_evid sc_window sc_times].
  destruct (first !! Actor e) as [t|]; cbn; (destruct (_ <? _); [done|]; cbn; destruct (firable _ _ _) as [cool' []]; done).
Qed.

Lemma fire_below cfg e n : n < BruteFailures cfg → fire_prog cfg e n = Ret None.
Proof. intros Hn. unfold fire_prog. by rewrite (proj2 (Z.ltb_lt _ _) Hn). Qed.

(** Four accesses take a known actor's failure to the count that it will write. *)
Lemma brute_reads a e b t0 : fails_as a e → a ≠ "" → bf_first b !! a = Some t0 →
  ∃ ev, advance_n 4 (brute_prog e) b =
    (put_evid a ev b,
     let buf := prune id (time_Add (e_Timestamp e) (- sc_window (bf_count b)))
       (map_get [] (sc_times (bf_count b)) a ++ [e_Timestamp e]) in
     Op (λ b, (put_times a buf b, tt)) (λ _, fire_prog (bf_cfg b) e (Z.of_nat (length buf)))).
Proof.
  intros [Ha Hact] Hne Hf. eexists. unfold brute_prog, count_prog, add_prog. rewrite Ha, Hact, is_empty_false by done.
  cbn [advance_n advance negb]. unfold str_eqb. rewrite bool_decide_true by done. cbn [advance_n advance negb].
  rewrite Hf. reflexivity.
Qed.
End detectors.

(** * Properties *)

(** C5: A triage that lands while its source is being scanned is lost. The scan
    writes back the records it read at its start, so when the request comes in
    between the user is told it worked, and the finding keeps the status it had: a
    suppressed finding stays open and goes on alerting. Either operation after the
    other keeps the triage. *)
Theorem triage_lost {W} `{StoreSpec W} `{JSONEncoder} `{!StoreJSON W} now
    (newID : Z → M W string string) (newID_ok : fresh_ids newID) mo target f w r st :
  store_inv w → valid_module (m_ID mo) → is_valid f = true →
  lookup_rec w (m_ID mo) (f_Fingerprint f) = Some r → r_Target r = target →
  r_Status r = StatusOpen → triage_status st → 
  let scan := scan_side now newID mo target [f] in
  let triage := triage_side mo (f_Fingerprint f, st) in
  let status w := r_Status <$> lookup_rec w (m_ID mo) (f_Fingerprint f) in
  (∃ sch w' res, run_schedule sch (w, [scan; triage]) =
      (w', [Ret (inl (Ok res)); Ret (inr (Web.OK (PField "ok" "true")))]) ∧
    status w' = Some StatusOpen) ∧
  status (run_alone triage (run_alone scan w).1).1 = Some st ∧
  status (run_alone scan (run_alone triage w).1).1 = Some st.
Proof.
  intros Hw Hm Hv Hr Ht Hop Hst scan triage status.
  destruct (lookup_rec_key _ _ _ _ Hw Hm Hr) as [Hrm Hrf].
  destruct (ListByTarget_spec w (m_ID mo) target Hw Hm) as (ex & Hex & Hnd & Hin).
  assert (scan_ok mo target [f] w) as Hok.
  { unfold scan_ok. rewrite valid_fps_cons, Hv. split; [apply NoDup_singleton|].
    intros fp r' ->%list_elem_of_singleton. congruence. }
  assert (reported [f] (f_Fingerprint f) = Some f) as Hrep.
  { rewrite reported_cons, Hv, bool_decide_true by done. done. }
  assert (∀ w, (run_alone scan w).1 = (Reconcile now newID mo target [f] w).1) as Hscan.
  { intros w0. subst scan. unfold scan_side. rewrite run_pbind, run_Reconcile. by destruct (Reconcile _ _ _ _ _ w0). }
  destruct (triage_alone newID newID_ok mo Hm (f_Fingerprint f) st w r Hw Hst Hr) as (w1 & Ht1 & Hw1 & Hl1 & Hf1).
  split_and!.
  - destruct (overtake [0%nat] scan triage (scan_rest now newID mo ex [f]) w w) as [sch Hs].
    { by apply scan_reads. }
    fold triage in Ht1. rewrite Ht1 in Hs.
    destruct (scan_rest_ok now newID newID_ok mo Hm target f w1 ex r) as (w2 & res & Hr2 & Hl2).
    + done. + done. + done.
    + by apply Hin; rewrite Hrf.
    + done.
    + intros r' Hr'. apply Hin in Hr' as [Hl' ?]. by destruct (lookup_rec_key _ _ _ _ Hw Hm Hl').
    + intros r' Hr' Hne. apply Hin in Hr' as [Hl' _]. by rewrite Hf1 by auto.
    + by exists (set_Status st r).
    + rewrite Hr2 in Hs. exists sch, w2, res. split; [done|]. subst status. cbn beta. rewrite Hl2. cbn.
      unfold r_Status. cbn. fold (r_Status r). by rewrite Hop.
  - destruct (Reconcile_ok now newID newID_ok mo target [f] w Hw Hm Hok) as (w2 & res & Hrun & Hs).
    rewrite Hscan, Hrun. cbn [fst].
    pose proof (scan_reported _ _ _ _ _ _ _ Hs _ _ Hrep) as Ha. rewrite Hr in Ha. cbn in Ha.
    destruct (triage_alone newID newID_ok mo Hm (f_Fingerprint f) st w2 _ (scan_inv _ _ _ _ _ _ _ Hs) Hst Ha)
      as (w3 & Ht3 & _ & Hl3 & _).
    fold triage in Ht3. subst status. cbn beta. rewrite Ht3. cbn [fst]. by rewrite Hl3.
  - fold triage in Ht1. rewrite Ht1. cbn [fst]. rewrite Hscan.
    destruct (Reconcile_ok now newID newID_ok mo target [f] w1 Hw1 Hm) as (w2 & res & Hrun & Hs).
    { unfold scan_ok. rewrite valid_fps_cons, Hv. split; [apply NoDup_singleton|].
      intros fp r' ->%list_elem_of_singleton. rewrite Hl1. by intros [= <-]. }
    rewrite Hrun. cbn [fst]. subst status. cbn beta.
    pose proof (scan_reported _ _ _ _ _ _ _ Hs _ _ Hrep) as Ha. rewrite Hl1 in Ha. cbn in Ha.
    rewrite Ha. cbn. unfold r_Status. cbn.
    unfold triage_status in Hst. rewrite !elem_of_cons, elem_of_nil in Hst.
    by destruct Hst as [-> | [-> | [-> | []]]].
Qed.

Lemma triage_lost_witness :
  let _ := canonical_range in let _ := noMarshal in
  let scan := scan_side 200 freshID Reconcile.exMod "auth" [Reconcile.exFinding] in
  let triage := triage_side Reconcile.exMod ("fp1", StatusSuppressed) in
  let status (w : Store.MemStore) := r_Status <$> lookup_rec w "loglight" "fp1" in
  (∃ sch w' res, run_schedule sch (Reconcile.exStore, [scan; triage]) =
      (w', [Ret (inl (Ok res)); Ret (inr (Web.OK (PField "ok" "true")))]) ∧
    status w' = Some StatusOpen) ∧
  status (run_alone triage (run_alone scan Reconcile.exStore).1).1 = Some StatusSuppressed ∧
  status (run_alone scan (run_alone triage Reconcile.exStore).1).1 = Some StatusSuppressed.
Proof.
  intros R J. apply (triage_lost 200 freshID freshID_fresh Reconcile.exMod "auth" Reconcile.exFinding Reconcile.exStore Reconcile.exRecord StatusSuppressed).
  - exact exStore_inv.
  - reflexivity.
  - reflexivity.
  - reflexivity.
  - reflexivity.
  - reflexivity.
  - right. left.
Defined.

(** C6: Two saves that arrive together pass a limit that each of them alone would
    respect. The limit is checked before the row is written and nothing is held in
    between, so with one place left two new sources, saved at the same time, are
    both accepted and both run; one after the other, the second is refused. *)
Theorem saves_pass_the_limit {L T} `{LogStoreSpec L} `{TargetStoreSpec T} `{Quoter}
    (caps t1 t2 : Z) (rq1 rq2 : saveRequest) (a : App L T) :
  let n1 := strings_TrimSpace (sq_Name rq1) in
  let n2 := strings_TrimSpace (sq_Name rq2) in
  wired a → decoded (Some rq1) → decoded (Some rq2) → n1 ≠ "" → n2 ≠ "" → n1 ≠ n2 →
  validateSource (sq_Type rq1) (default ∅ (sq_Params rq1)) = None →
  validateSource (sq_Type rq2) (default ∅ (sq_Params rq2)) = None →
  source_of a n1 = None → source_of a n2 = None → caps = Z.of_nat (length (sources a)) + 1 →
  (∃ sch a', run_schedule sch (a, [save_prog caps t1 rq1; save_prog caps t2 rq2]) =
      (a', [Ret (OK (PSaved n1 (sq_Type rq1))); Ret (OK (PSaved n2 (sq_Type rq2)))]) ∧
    wired a' ∧ caps < Z.of_nat (length (sources a'))) ∧
  (run_alone (save_prog caps t2 rq2) (run_alone (save_prog caps t1 rq1) a).1).2 =
    HttpErr 403 "source limit reached for your tier — upgrade to add more".
Proof.
  intros n1 n2 Ha Hd1 Hd2 Hn1 Hn2 Hne Hv1 Hv2 Hs1 Hs2 Hcaps.
  destruct (store_wired t1 rq1 a Ha Hd1 Hn1 Hv1) as (a1 & c1 & Hr1 & Ha1 & _ & Hsrc1). fold n1 in Hr1, Hsrc1.
  destruct (store_wired t2 rq2 a1 Ha1 Hd2 Hn2 Hv2) as (a2 & c2 & Hr2 & Ha2 & _ & Hsrc2). fold n2 in Hr2, Hsrc2.
  assert (source_of a1 n2 = None) as Hs12 by (rewrite Hsrc1, decide_False; done).
  split.
  - destruct (in_turn (store_prog (config_of t1 rq1)) (store_prog (config_of t2 rq2)) a) as [sch Hsch].
    rewrite Hr1, Hr2 in Hsch. exists ([0; 0; 0] ++ [1; 1; 1] ++ sch)%nat, a2. split_and!; [|done|].
    + rewrite schedule_app, (checks_pass caps t1 rq1) by (done || lia). cbn [list_insert insert].
      rewrite schedule_app, (checks_pass caps t2 rq2) by (done || lia). exact Hsch.
    + pose proof (length_sources_more a a2 [n1; n2] Ha Ha2) as Hlen. cbn [length] in Hlen.
      enough (2 + length (sources a) <= length (sources a2))%nat by lia. apply Hlen.
      * apply NoDup_cons. split; [set_solver|apply NoDup_singleton].
      * intros n. rewrite elem_of_cons, list_elem_of_singleton. rewrite Hsrc2, Hsrc1.
        intros [-> | ->]; (split; [done|]); repeat case_decide; first [done|by eexists].
      * intros n Hn. rewrite Hsrc2, Hsrc1. repeat case_decide; by eauto.
  - rewrite (save_below caps t1 rq1), Hr1 by (done || lia). cbn [fst]. apply save_above; try done; [lia|].
    pose proof (length_sources_more a a1 [n1] Ha Ha1 (NoDup_singleton _)) as Hlen. cbn [length] in Hlen.
    enough (1 + length (sources a) <= length (sources a1))%nat by lia. apply Hlen.
    + intros n ->%list_elem_of_singleton. rewrite Hsrc1. split; [done|]. rewrite decide_True by done. by eexists.
    + intros n Hn. rewrite Hsrc1. case_decide; by eauto.
Qed.

(** C7: A removal that overlaps a save of the same source leaves it running and
    scheduled although it is stored no more. The removal stops the reader before it
    deletes the row, the save stores the row before it starts the reader; when the
    save falls in between, both requests succeed, and the source is read and
    scanned from then on while the console no longer lists it. *)
Theorem removal_leaves_reader {L T} `{LogStoreSpec L} `{TargetStoreSpec T} `{Quoter}
    (now : Z) (rq : saveRequest) (query : string) (a : App L T) :
  let n := strings_TrimSpace (sq_Name rq) in
  wired a → decoded (Some rq) → n ≠ "" → strings_TrimSpace query = n →
  validateSource (sq_Type rq) (default ∅ (sq_Params rq)) = None →
  ∃ sch a' s reg t, run_schedule sch (a, [remove_prog query; save_prog 0 now rq]) =
      (a', [Ret (OK (PDeleted n)); Ret (OK (PSaved n (sq_Type rq)))]) ∧
    source_of a' n = None ∧ n ∉ map sc_Name (sources a') ∧
    ig_running (ap_Ingest a') !! n = Some s ∧
    Sched.sd_modules (ap_Sched a') !! ModuleID = Some reg ∧ Sched.rg_targets reg !! n = Some t ∧
    ¬ wired a'.
Proof.
  intros n Ha Hd Hne Hq Hv. set (save := save_prog 0 now rq).
  destruct (remove_stops query n a save Ha Hq Hne) as (a1 & Hs1 & Hr1).
  destruct (store_runs now rq a1 Hr1 Hd Hne Hv) as (a2 & s & Hs2 & Hr2 & Hrun & reg & t & Hreg & Htg).
  assert (run_alone save a1 = run_alone (store_prog (config_of now rq)) a1) as Hsave.
  { subst save. unfold save_prog, save_calls. fold n. rewrite is_empty_false by done.
    rewrite Hv. cbn [run_alone]. rewrite on_app_id, (GetSource_app a1 _ (rd_log _ Hr1)). by destruct (source_of a1 n). }
  destruct (overtake [0; 0; 0]%nat _ save _ a a1 Hs1) as [sch Hsch]. rewrite Hsave, Hs2 in Hsch. cbn in Hsch.
  destruct (DeleteSource_spec _ n (rd_log _ Hr2)) as (l' & Hdel & Hl' & Hsrc & _).
  rewrite on_app_id in Hsch. unfold on_log in Hsch. rewrite Hdel in Hsch. fold n in Hrun, Htg.
  match type of Hsch with _ = (?a', _) => set (a3 := a') in Hsch end.
  assert (source_of a3 n = None) as Hnone by (unfold source_of; cbn; by rewrite Hsrc, decide_True).
  exists sch, a3, s, reg, t. split_and!; [done|done| |done|done|done|].
  - intros Hn. destruct (sources_spec a3 Hl') as (_ & _ & Hin). apply Hin in Hn. rewrite Hnone in Hn. by destruct Hn.
  - intros Hw. pose proof (w_running _ Hw n) as Hx. rewrite Hnone in Hx. cbn in Hx. congruence.
Qed.

(** The dashboard's button that removes a target leaves the source half alive. The
    request unschedules it and deletes it from the saved targets, and nothing else:
    its row and its reader stay, so it is read on without ever being scanned, and
    after the next start it is not read any more although the console still lists it. *)
Theorem target_removal_orphans_source {L T} `{LogStoreSpec L} `{TargetStoreSpec T} `{Quoter} `{MapRange}
    (cfg : Sched.Config) (n : string) (a : App L T) :
  wired a → is_Some (source_of a n) →
  let a' := (run_alone (remove_target_prog n) a).1 in
  (∀ m, source_of a' m = source_of a m) ∧ ig_running (ap_Ingest a') = ig_running (ap_Ingest a) ∧
  (∀ t, t ∈ Sched.ListTargets ModuleID (ap_Sched a') → t_Canonical t ≠ n) ∧
  let b := restore (booted cfg (ap_Log a') (ap_Targets a')) in
  source_of b n = source_of a n ∧ ig_running (ap_Ingest b) !! n = None.
Proof.
  intros Hw [c Hc]. destruct (w_name _ Hw n c Hc) as [Hne _].
  pose proof Hw as [Hl Ht _ (reg & Hreg & Hcol & Htg) [_ Hs] _].
  destruct (DeleteTarget_spec _ ModuleID n Ht) as (t' & Hdt & Ht' & Hsaved).
  unfold remove_target_prog, remove_target_calls. rewrite is_empty_false by done.
  unfold unschedule_call, delete_target_call, on_app, lift_call. cbn. rewrite Hdt. cbn. split; [done|]. split; [done|]. split.
  - intros t. unfold Sched.ListTargets, Sched.RemoveTarget. rewrite Hreg. cbn. rewrite lookup_alter_eq, Hreg. cbn.
    unfold Sched.snapshotTargets. intros ([m t0] & -> & Hin)%list_elem_of_fmap.
    apply elem_of_range_map in Hin. cbn in Hin. apply lookup_delete_Some in Hin as [Hm Hx]. cbn in Hx |- *. rewrite Htg in Hx.
    apply fmap_Some in Hx as (d & _ & ->). cbn. congruence.
  - unfold restore. cbn [booted ap_Targets]. rewrite ListSavedTargets_spec, Hsaved, decide_True by done.
    set (l := map mt_raw _). assert (n ∉ l) as Hn.
    { intros (x & -> & [Hx Hin]%list_elem_of_filter)%list_elem_of_fmap. apply Hs in Hin as (m & _ & ->). done. }
    destruct (restore_others n l Hn (set_Targets t' (booted cfg (ap_Log a) t')) Hl) as [Hlog Hrun].
    unfold source_of. by rewrite Hlog, Hrun.
Qed.

(** C9: Two readers whose failed logins meet make a brute force go unnoticed. The
    pipeline relies on one goroutine to deliver events, but each source has its own;
    when two deliveries read the counter of an actor before either has written it,
    one of the two failures is forgotten. With exactly as many failures as the
    threshold asks for nothing is reported, while one after the other the second
    reports the actor with all of them. *)
Theorem unlocked_detector_misses c a (b : bruteForce) pre e1 e2 :
  brute_of c b → fails_as a e1 → fails_as a e2 → a ≠ "" → pre ≠ [] →
  brute_view a b = (map e_Timestamp pre, e_Timestamp <$> head pre, None) →
  Forall (λ x, e_Timestamp e1 - BruteWindow c <= e_Timestamp x) (pre ++ [e1]) →
  Forall (λ x, e_Timestamp e2 - BruteWindow c <= e_Timestamp x) (pre ++ [e1; e2]) →
  Z.of_nat (length pre) + 2 = BruteFailures c →
  (∃ sch b', run_schedule sch (b, [brute_prog e1; brute_prog e2]) = (b', [Ret None; Ret None])) ∧
  ∃ d, (run_alone (brute_prog e2) (run_alone (brute_prog e1) b).1).2 = Some d ∧ d_Actor d = a ∧
    d_Count d = BruteFailures c.
Proof.
  intros Hb Hf1 Hf2 Hne Hpre Hv Hw1 Hw2 Hlen. split.
  - destruct Hb as [Hc Hw]. injection Hv as Htimes Hfirst _.
    assert (is_Some (bf_first b !! a)) as [t0 Ht0] by (rewrite Hfirst; destruct pre; [done|by eexists]).
    assert (∀ e, Forall (λ x, e_Timestamp e - BruteWindow c <= e_Timestamp x) pre →
      prune id (time_Add (e_Timestamp e) (- BruteWindow c)) (map e_Timestamp pre ++ [e_Timestamp e])
        = map e_Timestamp pre ++ [e_Timestamp e]) as Hprune.
    { intros e Hin. destruct pre as [|x l]; [done|]. apply Forall_cons in Hin as [Hx _]. cbn [map app prune].
      unfold time_Before, time_Add, id. by rewrite (proj2 (Z.ltb_ge _ _)) by lia. }
    apply Forall_app in Hw1 as [Hw1 _]. apply Forall_app in Hw2 as [Hw2 _].
    destruct (brute_reads a e1 b t0 Hf1 Hne Ht0) as [ev1 Hr1].
    destruct (brute_reads a e2 (put_evid a ev1 b) t0 Hf2 Hne Ht0) as [ev2 Hr2].
    change (bf_count (put_evid a ev1 b)) with (bf_count b) in Hr2. rewrite Htimes, Hw, Hprune in Hr1, Hr2 by done.
    set (p1 := Op _ _) in Hr1. set (p2 := Op _ _) in Hr2.
    exists (replicate 4 0 ++ replicate 4 1 ++ [0; 1])%nat. eexists.
    rewrite schedule_app, (schedule_turn 0 4 (brute_prog e1)), Hr1 by done. cbn [fst snd list_insert insert].
    rewrite schedule_app, (schedule_turn 1 4 (brute_prog e2)), Hr2 by done. cbn [fst snd list_insert insert].
    unfold run_schedule, advance_nth, p1, p2. cbn -[fire_prog put_times put_evid].
    rewrite !fire_below; [reflexivity|..]; cbn [put_evid bf_cfg]; rewrite Hc, length_app, length_map; cbn [length]; lia.
  - rewrite !run_brute_prog.
    destruct (brute_step c a e1 b pre Hb Hf1 Hne Hv Hw1) as (b1 & r1 & Hr1 & Hb1 & H1). rewrite Hr1. cbn [fst].
    rewrite (proj2 (Z.ltb_lt _ _)) in H1 by (rewrite length_app; cbn [length]; lia). destruct H1 as [_ Hv1].
    destruct (brute_step c a e2 b1 (pre ++ [e1]) Hb1 Hf2 Hne Hv1) as (b2 & r2 & Hr2 & _ & H2).
    { by rewrite <- app_assoc. }
    rewrite (proj2 (Z.ltb_ge _ _)) in H2 by (rewrite !length_app; cbn [length]; lia).
    destruct H2 as (d & -> & Hd & Hn & _). rewrite Hr2. exists d. split_and!; [done|done|].
    rewrite Hn, !length_app. cbn [length]. lia.
Qed.

(** The default configuration, six failures in. *)
Definition exFailures : list Event := map (λ t, failure (t * Second) "203.0.113.9") (seqZ 1 6).
Definition exDetector : bruteForce :=
  foldl (λ b e, (bruteForce_observe e b).1) (newBruteForce (Detect.withDefaults zeroConfig)) exFailures.

Lemma unlocked_detector_misses_witness :
  let e1 := failure (7 * Second) "203.0.113.9" in
  let e2 := failure (8 * Second) "203.0.113.9" in
  (∃ sch b', run_schedule sch (exDetector, [brute_prog e1; brute_prog e2]) = (b', [Ret None; Ret None])) ∧
  ∃ d, (run_alone (brute_prog e2) (run_alone (brute_prog e1) exDetector).1).2 = Some d ∧
    d_Actor d = "203.0.113.9" ∧ d_Count d = 8.
Proof.
  intros e1 e2. apply (unlocked_detector_misses (Detect.withDefaults zeroConfig) "203.0.113.9" exDetector exFailures e1 e2).
  - split; vm_compute; reflexivity.
  - split; vm_compute; reflexivity.
  - split; vm_compute; reflexivity.
  - discriminate.
  - discriminate.
  - vm_compute. reflexivity.
  - repeat (apply Forall_cons_2 || apply Forall_nil_2); vm_compute; discriminate.
  - repeat (apply Forall_cons_2 || apply Forall_nil_2); vm_compute; discriminate.
  - vm_compute. reflexivity.
Defined.

(** C8: Two readers that find the buffer of the traffic graph full at the same time
    lose a flow. Each lets go of the lock to flush and then stores a new aggregate
    for the edge without looking again, so the second replaces the first: of two
    flows of an edge one is counted. One after the other, both are. *)
Theorem overflow_loses_flow (now : Z) (g : Graph) (f1 f2 : Flow) :
  fl_SrcIP f1 ≠ "" → fl_DstIP f1 ≠ "" → flow_key f1 = flow_key f2 →
  gr_pend g !! flow_key f1 = None → maxPending < Z.of_nat (size (gr_pend g)) →
  let k := flow_key f1 in
  (∃ sch g', run_schedule sch (g, [Observe_prog now None f1; Observe_prog now None f2]) = (g', [Ret tt; Ret tt]) ∧
    total ag_Flows g' k = total ag_Flows g k + 1) ∧
  total ag_Flows (Observe now None f2 (Observe now None f1 g)) k = total ag_Flows g k + 2.
Proof.
  intros Hs Hd Hk Hnew Hfull k. fold k in Hnew, Hk.
  assert (gr_pend g ≠ ∅) as Hne.
  { intros He. rewrite He, map_size_empty in Hfull. by vm_compute in Hfull. }
  assert ((is_empty (fl_SrcIP f1) || is_empty (fl_DstIP f1)) = false) as H1 by (by rewrite !is_empty_false).
  assert ((is_empty (fl_SrcIP f2) || is_empty (fl_DstIP f2)) = false) as H2.
  { unfold k, flow_key in Hk. injection Hk as Hs' Hd' _ _. by rewrite <- Hs', <- Hd'. }
  apply Z.ltb_lt in Hfull. split.
  - exists [0; 1; 0; 0; 1; 0; 1]%nat. eexists. split.
    + unfold Observe_prog. rewrite H1, H2, <- Hk. fold k. cbn [run_schedule foldl].
      unfold advance_nth at 7. cbn [fst snd lookup list_lookup advance]. rewrite Hnew, Hfull.
      cbn [list_insert insert]. 
      unfold advance_nth at 6. cbn [fst snd lookup list_lookup advance]. rewrite Hnew, Hfull.
      cbn [list_insert insert pbind Flush_prog].
      unfold advance_nth at 5. cbn [fst snd lookup list_lookup advance]. rewrite (decide_False _ _ Hne).
      unfold advance_nth. cbn -[add_flow map_fold upsert_row]. rewrite decide_True by done.
      cbn -[add_flow map_fold upsert_row]. reflexivity.
    + unfold total, pending. cbn -[add_flow map_fold upsert_row]. rewrite lookup_insert_eq, Hnew, flushed_lookup, Hnew.
      cbn. change (int64 (0 + 1)) with 1. lia.
  - destruct (Flush_total ag_Flows (λ o a, eq_refl) g k) as [_ Hft].
    unfold Observe. rewrite H1, H2, <- Hk. fold k. cbn zeta. rewrite Hnew, Hfull.
    cbn -[add_flow Traffic.Flush total]. rewrite lookup_insert_eq. cbn -[add_flow Traffic.Flush total].
    unfold total, pending in *. cbn -[add_flow Traffic.Flush]. rewrite lookup_insert_eq.
    rewrite Hnew in Hft |- *. cbn -[Traffic.Flush] in Hft |- *.
    rewrite (Flush_cases None g), lookup_empty in Hft. cbn -[Traffic.Flush] in Hft |- *.
    change (int64 (int64 (0 + 1) + 1)) with 2. lia.
Qed.

(** A full buffer: one edge for each port below 50001. *)
Definition fullGraph : Graph :=
  mkGraph (list_to_map (map (λ p, (mkEdge "10.0.0.1" "8.8.8.8" p 6, mkAgg 1 100 1 5 5)) (seqZ 0 50001))) ∅.

Lemma fullGraph_full : gr_pend fullGraph !! mkEdge "10.0.0.1" "8.8.8.8" 60000 6 = None ∧
  maxPending < Z.of_nat (size (gr_pend fullGraph)).
Proof.
  cbn [fullGraph gr_pend]. split.
  - apply not_elem_of_list_to_map_1. rewrite <- list_fmap_compose.
    intros (p & Hp & Hin%elem_of_seqZ)%list_elem_of_fmap. injection Hp as <-. lia.
  - rewrite map_size_list_to_map.
    + rewrite length_map, length_seqZ. unfold maxPending. lia.
    + rewrite <- list_fmap_compose. apply NoDup_fmap_2; [|apply NoDup_seqZ]. by intros p q [= ->].
Qed.

Lemma overflow_loses_flow_witness :
  let f := exFlow "10.0.0.1" "8.8.8.8" 60000 100 in
  (∃ sch g', run_schedule sch (fullGraph, [Observe_prog 7 None f; Observe_prog 7 None f]) = (g', [Ret tt; Ret tt]) ∧
    total ag_Flows g' (flow_key f) = total ag_Flows fullGraph (flow_key f) + 1) ∧
  total ag_Flows (Observe 7 None f (Observe 7 None f fullGraph)) (flow_key f) =
    total ag_Flows fullGraph (flow_key f) + 2.
Proof.
  intros f. apply (overflow_loses_flow 7 fullGraph f f).
  - discriminate.
  - discriminate.
  - reflexivity.
  - exact (proj1 fullGraph_full).
  - exact (proj2 fullGraph_full).
Defined.

(** ** Concrete inputs *)

Definition request_of (name path : string) : saveRequest :=
  mkSave name "file" (Some {["path" := path]}).

Lemma request_of_decoded name path : utf8_ValidString path = true → decoded (Some (request_of name path)).
Proof. intros Hp rq [= <-]. by apply map_Forall_singleton. Qed.

Section examples.
#[local] Instance exQ : Quoter := exQuoter.
#[local] Instance exR : MapRange := canonical_range.
#[local] Instance exS : SortSlice := canonical_sort.

(** With the limit of the free tier. *)
Lemma saves_pass_the_limit_witness :
  ∃ sch a', run_schedule sch
      (exApp, [save_prog 1 5 (request_of "auth" "/var/log/auth.log"); save_prog 1 5 (request_of "web" "/var/log/web.log")]) =
      (a', [Ret (OK (PSaved "auth" "file")); Ret (OK (PSaved "web" "file"))]) ∧
    wired a' ∧ 1 < Z.of_nat (length (sources a')).
Proof.
  refine (proj1 (saves_pass_the_limit 1 5 5 (request_of "auth" "/var/log/auth.log")
    (request_of "web" "/var/log/web.log") exApp _ _ _ _ _ _ _ _ _ _ _)).
  - exact exApp_wired.
  - apply request_of_decoded. reflexivity.
  - apply request_of_decoded. reflexivity.
  - vm_compute. discriminate.
  - vm_compute. discriminate.
  - vm_compute. discriminate.
  - vm_compute. reflexivity.
  - vm_compute. reflexivity.
  - vm_compute. reflexivity.
  - vm_compute. reflexivity.
  - vm_compute. reflexivity.
Defined.

Lemma removal_leaves_reader_witness :
  ∃ sch a' s reg t, run_schedule sch (exApp, [remove_prog " auth"; save_prog 0 5 (request_of "auth" "/var/log/auth.log")]) =
      (a', [Ret (OK (PDeleted "auth")); Ret (OK (PSaved "auth" "file"))]) ∧
    source_of a' "auth" = None ∧ "auth" ∉ map sc_Name (sources a') ∧
    ig_running (ap_Ingest a') !! "auth" = Some s ∧
    Sched.sd_modules (ap_Sched a') !! ModuleID = Some reg ∧ Sched.rg_targets reg !! "auth" = Some t ∧
    ¬ wired a'.
Proof.
  refine (removal_leaves_reader 5 (request_of "auth" "/var/log/auth.log") " auth" exApp _ _ _ _ _).
  - exact exApp_wired.
  - apply request_of_decoded. reflexivity.
  - vm_compute. discriminate.
  - vm_compute. reflexivity.
  - vm_compute. reflexivity.
Defined.

Lemma target_removal_orphans_source_witness :
  let a := serve 1 exApp (Save 5 (exRequest "auth" "/var/log/auth.log")) in
  let a' := (run_alone (remove_target_prog "auth") a).1 in
  let b := restore (booted exSched (ap_Log a') (ap_Targets a')) in
  is_Some (ig_running (ap_Ingest a') !! "auth") ∧
  ig_running (ap_Ingest b) !! "auth" = None ∧ map sc_Name (sources b) = ["auth"].
Proof.
  intros a a' b. assert (wired a) as Ha.
  { apply (serve_within 1 exApp); [exact exApp_wired|]. apply exRequest_decoded. reflexivity. }
  destruct (target_removal_orphans_source exSched "auth" a Ha) as (_ & Hrun & _ & _ & Hb).
  - vm_compute. by eexists.
  - split; [|split; [exact Hb|vm_compute; reflexivity]].
    fold a' in Hrun. rewrite Hrun. vm_compute. by eexists.
Defined.
End examples.
