(* ===== verification/Attack.v ===== *)
(** From the first failed login to the alert: what the running program of [Live.v]
    does with an attack, end to end. The pipeline ([src/loglight/pipeline.go]) is
    first shown to be a translation of events into records, whatever the stores
    do, followed by the writing of those records. *)
From S2P Require Import Prelude Text Float Core Store Reconcile Ingest Window.
From S2P Require Import Detect Correlate Notify Loglight Pipeline Shape System.
From S2P Require Import License Verify AiClient Web Main Wiring Live.
From S2P Require Sched Parse.
Local Open Scope Z_scope.

(** * The records of an event *)

Section trace.
Context `{TimeFormat}.

(** The detections of one event, from the source [id]. *)
Fixpoint detections_trace (id : string) (dets : list Detection) (c : Correlator) :
    Correlator * list DetectionRecord :=
  match dets with
  | [] => (c, [])
  | d :: rest =>
    let '(c, inc) := ObserveSentinelFinding d (ObserveDetection d c) in
    let '(c, rs) := detections_trace id rest c in
    (c, detectionRecord id d :: map (incidentRecord id) (option_list inc) ++ rs)
  end.

Definition event_trace (e : Event) (en : Detect.Engine) (c : Correlator) :
    Detect.Engine * Correlator * list DetectionRecord :=
  let '(en, dets) := Engine_Observe e en in
  let '(c, rs) := detections_trace (e_SourceID e) dets c in
  if str_eqb (e_Auth e) AuthSuccess then
    let '(c, inc) := ObserveSuccess (Actor e) (e_Host e) (e_User e) (e_Timestamp e) (e_Raw e) c in
    (en, c, rs ++ map (incidentRecord (e_SourceID e)) (option_list inc))
  else (en, c, rs).
End trace.

Section writes.
Context {L W : Type} `{LogStoreOps L} `{StoreOps W} `{TimeFormat} `{MapRange}.
Context (newID : Z → M W string string) (hasStore : bool) (clock : Z).

Abbreviation P := (Pipeline L W).
Abbreviation persist := (persistAndEmit newID hasStore clock).

Fixpoint persist_all (rs : list DetectionRecord) (p : P) : P * list Digest :=
  match rs with
  | [] => (p, [])
  | r :: rs =>
    let '(p, ds) := persist r p in
    let '(p, ds') := persist_all rs p in
    (p, ds ++ ds')
  end.

Definition set_engines (en : Detect.Engine) (c : Correlator) (p : P) : P :=
  mkPipeline en c (pl_Log p) (pl_Store p) (pl_Disp p).

(** Writing neither reads nor changes the detectors and the correlator. *)
Lemma persist_engines rec en c p :
  persist rec (set_engines en c p) = (set_engines en c (persist rec p).1, (persist rec p).2).
Proof.
  unfold persistAndEmit, emit, set_engines. destruct p as [e0 c0 l w d]. cbn.
  destruct (UpsertDetection rec l) as [l' r]. destruct (newID (dr_LastAt rec) w) as [w' [id|e]]; [|done].
  cbn. destruct hasStore.
  - destruct (Upsert _ w') as [w'' [[]|e]]; [|done]. cbn. destruct d as [d|]; [|done]. by destruct (Enqueue _ _ _).
  - destruct d as [d|]; [|done]. by destruct (Enqueue _ _ _).
Qed.

Lemma persist_keeps rec p : pl_Detect (persist rec p).1 = pl_Detect p ∧ pl_Corr (persist rec p).1 = pl_Corr p.
Proof.
  assert (set_engines (pl_Detect p) (pl_Corr p) p = p) as Hp by (by destruct p).
  pose proof (persist_engines rec (pl_Detect p) (pl_Corr p) p) as He. rewrite Hp in He.
  destruct (persist rec p) as [q ds]. by injection He as ->.
Qed.

Lemma persist_all_engines rs en c : ∀ p,
  persist_all rs (set_engines en c p) = (set_engines en c (persist_all rs p).1, (persist_all rs p).2).
Proof.
  induction rs as [|r rs IH]; intros p; [done|]. cbn [persist_all]. rewrite persist_engines.
  destruct (persist r p) as [p1 ds1]. cbn [fst snd]. rewrite IH. by destruct (persist_all rs p1).
Qed.

Lemma persist_all_app rs1 rs2 : ∀ p,
  persist_all (rs1 ++ rs2) p =
    let '(p, ds) := persist_all rs1 p in let '(p, ds') := persist_all rs2 p in (p, ds ++ ds').
Proof.
  induction rs1 as [|r rs1 IH]; intros p; cbn [persist_all app].
  - by destruct (persist_all rs2 p).
  - destruct (persist r p) as [p1 ds1]. rewrite IH. destruct (persist_all rs1 p1) as [p2 ds2].
    destruct (persist_all rs2 p2) as [p3 ds3]. by rewrite app_assoc.
Qed.

(** An incident is one more record. *)
Lemma on_incident_writes id r p :
  on_incident newID hasStore clock id r p =
    persist_all (map (incidentRecord id) (option_list r.2)) (set_engines (pl_Detect p) r.1 p).
Proof.
  unfold on_incident, recordIncident. destruct r as [c [i|]]; cbn; [|done].
  change (set_Corr c p) with (set_engines (pl_Detect p) c p).
  destruct (persist _ _) as [q ds]. by rewrite app_nil_r.
Qed.

Lemma handle_detections_writes id dets : ∀ p,
  handle_detections newID hasStore clock id dets p =
    let '(c, rs) := detections_trace id dets (pl_Corr p) in
    persist_all rs (set_engines (pl_Detect p) c p).
Proof.
  induction dets as [|d dets IH]; intros p; cbn [handle_detections detections_trace]; [by destruct p|].
  unfold handle_detection, recordDetection. set (c1 := ObserveDetection d (pl_Corr p)).
  change (set_Corr c1 p) with (set_engines (pl_Detect p) c1 p). rewrite persist_engines.
  destruct (persist (detectionRecord id d) p) as [p1 ds1] eqn:Hp. cbn [fst snd pl_Corr set_engines].
  rewrite on_incident_writes. destruct (ObserveSentinelFinding d c1) as [c2 inc]. cbn [fst snd].
  set (p2 := set_engines _ c2 _). destruct (persist_all _ p2) as [p3 ds3] eqn:Hp3.
  rewrite IH. pose proof (persist_all_engines (map (incidentRecord id) (option_list inc)) (pl_Detect p) c2 p1) as He.
  change (set_engines (pl_Detect p) c2 p1) with p2 in He. rewrite Hp3 in He.
  destruct (persist_all _ p1) as [q1 qs1] eqn:Hq. injection He as -> ->.
  destruct (detections_trace id dets _) as [c3 rs] eqn:Ht. cbn [set_engines pl_Corr pl_Detect] in *.
  change (set_engines (pl_Detect p) c3 (set_engines (pl_Detect p) c2 q1)) with (set_engines (pl_Detect p) c3 q1).
  cbn [persist_all]. rewrite persist_engines, Hp. cbn [fst snd].
  rewrite persist_all_app, (persist_all_engines _ _ _ p1), Hq. cbn [fst snd].
  rewrite persist_all_engines. destruct (persist_all rs q1) as [q2 ds4]. by rewrite app_assoc.
Qed.

(** The pipeline is the detectors and the correlator, which only see events,
    followed by the writing of their records in order. *)
Lemma Handle_writes e p :
  Handle newID hasStore clock e p =
    let '(en, c, rs) := event_trace e (pl_Detect p) (pl_Corr p) in
    persist_all rs (set_engines en c p).
Proof.
  unfold Handle, event_trace. destruct (Engine_Observe e (pl_Detect p)) as [en dets].
  rewrite handle_detections_writes. cbn [pl_Corr pl_Detect].
  destruct (detections_trace (e_SourceID e) dets (pl_Corr p)) as [c rs].
  change (set_engines en c (mkPipeline _ _ _ _ _)) with (set_engines en c p).
  rewrite persist_all_engines. destruct (str_eqb _ _); [|by rewrite persist_all_engines].
  rewrite on_incident_writes. cbn [pl_Corr pl_Detect set_engines].
  destruct (ObserveSuccess _ _ _ _ _ c) as [c' inc]. cbn [fst snd].
  rewrite persist_all_app, !persist_all_engines.
  reflexivity.
Qed.
End writes.

Section trace_ok.
Context `{TimeFormat}.

(** What is written under [id] makes a finding. *)
Definition writable (id : string) (r : DetectionRecord) : Prop := dr_SourceID r = id ∧ record_ok r.

Lemma incident_writable id inc : (∀ i, inc = Some i → incident_formed i) →
  Forall (writable id) (map (incidentRecord id) (option_list inc)).
Proof.
  destruct inc as [i|]; intros Hi; cbn; [|constructor].
  destruct (Hi i eq_refl). by repeat constructor.
Qed.

Lemma detections_trace_ok id dets c : Forall well_formed dets →
  Forall (writable id) (detections_trace id dets c).2.
Proof.
  intros Hd. revert c. induction Hd as [|d dets Hd _ IH]; intros c; cbn [detections_trace]; [constructor|].
  destruct (ObserveSentinelFinding d _) as [c1 inc] eqn:Ho. specialize (IH c1).
  destruct (detections_trace id dets c1) as [c2 rs]. constructor; [by split; [|apply detectionRecord_ok]|].
  apply Forall_app. split; [|done]. apply incident_writable. intros i ->. by eapply ObserveSentinelFinding_shape.
Qed.

Lemma event_trace_ok e en c : Forall (writable (e_SourceID e)) (event_trace e en c).2.
Proof.
  unfold event_trace. pose proof (Engine_Observe_shape e en) as Hs.
  destruct (Engine_Observe e en) as [en' dets]. cbn [snd] in Hs.
  apply (detections_trace_ok (e_SourceID e) dets c) in Hs.
  destruct (detections_trace (e_SourceID e) dets c) as [c1 rs]. cbn [snd] in Hs.
  destruct (str_eqb _ _); [|done]. destruct (ObserveSuccess _ _ _ _ _ c1) as [c2 inc] eqn:Ho. cbn [snd].
  apply Forall_app. split; [done|]. apply incident_writable. intros i ->. by eapply ObserveSuccess_shape.
Qed.
End trace_ok.

(** * Every record becomes an open finding and an alert *)

(** The alert of a record, and the dispatcher's part of a sequence of calls. *)
Definition alert `{TimeFormat} (r : DetectionRecord) : NEvent := mkNEvent KindOpened ModuleID (detectionFinding r).
Definition told `{TimeFormat} (now : Z) (rs : list DetectionRecord) : list di_op := map (λ r, OpEnqueue now (alert r)) rs.

Definition run_disp `{MapRange} (ops : list di_op) (od : option Dispatcher) : option Dispatcher * list Digest :=
  match od with
  | None => (None, [])
  | Some d => let '(d, dss) := di_run ops d in (Some d, concat dss)
  end.

Lemma run_disp_app `{MapRange} ops1 ops2 od :
  run_disp (ops1 ++ ops2) od =
    let '(od, ds) := run_disp ops1 od in let '(od, ds') := run_disp ops2 od in (od, ds ++ ds').
Proof.
  destruct od as [d|]; [|done]. cbn [run_disp]. revert d. induction ops1 as [|o ops1 IH]; intros d.
  - cbn. by destruct (di_run ops2 d).
  - cbn [di_run app]. destruct (di_step o d) as [d1 ds1]. specialize (IH d1).
    destruct (di_run (ops1 ++ ops2) d1) as [d2 dss2]. destruct (di_run ops1 d1) as [d3 dss3].
    cbn [run_disp] in IH |- *. destruct (di_run ops2 d3) as [d4 dss4]. injection IH as -> Hc.
    cbn [concat]. by rewrite Hc, app_assoc.
Qed.

Lemma run_disp_one `{MapRange} o od :
  run_disp [o] od = match od with
                    | None => (None, [])
                    | Some d => let '(d, ds) := di_step o d in (Some d, ds)
                    end.
Proof.
  destruct od as [d|]; [|done]. cbn. destruct (di_step o d) as [d' ds]. cbn. by rewrite app_nil_r.
Qed.

Section effects.
Context {L W : Type} `{LogStoreSpec L} `{StoreSpec W}.
Context `{TimeFormat} `{JSONEncoder} `{!StoreJSON W} `{MapRange}.
Context (newID : Z → M W string string).
Hypothesis newID_ok : fresh_ids newID.

Abbreviation P := (Pipeline L W).

Definition opened (w : W) (fp : string) : Prop :=
  ∃ r, lookup_rec w ModuleID fp = Some r ∧ r_Status r = StatusOpen.

Definition opens (w w' : W) : Prop := ∀ fp, opened w fp → opened w' fp.

(** A write that succeeds opens its finding, closes none, and tells the dispatcher. *)
Lemma persist_effect l clock rec (p : P) : valid_source (dr_SourceID rec) → dr_SourceID rec ≠ "" →
  record_ok rec → pipe_ok l p →
  let '(p', ds) := persistAndEmit newID true clock rec p in
  pipe_ok l p' ∧ opened (pl_Store p') (f_Fingerprint (detectionFinding rec)) ∧
  opens (pl_Store p) (pl_Store p') ∧ (pl_Disp p', ds) = run_disp (told clock [rec]) (pl_Disp p).
Proof.
  intros Hv Hne Hrec Hp. pose proof (persistAndEmit_pipe newID newID_ok l clock rec p Hv Hne Hrec Hp) as Hp'.
  destruct Hp as [Hl _ _ [Hw _]].
  destruct (persistAndEmit_ok newID newID_ok clock rec p Hl Hw Hv)
    as (l' & w' & id & Hrun & _ & _ & _ & _ & Hr & Hother).
  destruct (emit_state clock (detectionFinding rec) (mkPipeline (pl_Detect p) (pl_Corr p) l' w' (pl_Disp p)))
    as [_ Hst].
  rewrite Hrun in *. unfold emit in *. cbn [pl_Disp pl_Store] in *. unfold told. cbn [map].
  rewrite run_disp_one. cbn [di_step].
  assert (opened w' (f_Fingerprint (detectionFinding rec))) as Ho.
  { eexists. split; [exact Hr|]. destruct (lookup_rec (pl_Store p) _ _); [apply upsert_merge_updates|].
    by rewrite upsert_merge_new. }
  assert (opens (pl_Store p) w') as Hos.
  { intros fp Hfp. destruct (decide (fp = f_Fingerprint (detectionFinding rec))) as [->|Hd]; [done|].
    destruct Hfp as (r & Hf & Hs). exists r. by rewrite Hother. }
  destruct (pl_Disp p) as [d|]; [|by split_and!].
  unfold alert. destruct (Enqueue _ _ d) as [d' ds]. by split_and!.
Qed.

Lemma persist_all_effect l clock id rs : valid_source id → id ≠ "" → Forall (writable id) rs → ∀ p : P,
  pipe_ok l p →
  let '(p', ds) := persist_all newID true clock rs p in
  pipe_ok l p' ∧ Forall (λ r, opened (pl_Store p') (f_Fingerprint (detectionFinding r))) rs ∧
  opens (pl_Store p) (pl_Store p') ∧ (pl_Disp p', ds) = run_disp (told clock rs) (pl_Disp p).
Proof.
  intros Hv Hne. induction 1 as [|r rs [<- Hr] _ IH]; intros p Hp; cbn [persist_all].
  { split_and!; [done|by apply Forall_nil|by intros fp|]. by destruct (pl_Disp p). }
  pose proof (persist_effect l clock r p Hv Hne Hr Hp) as Hone.
  destruct (persistAndEmit _ _ _ _ _) as [p1 ds1]. destruct Hone as (Hp1 & Ho & Hos & Hd).
  specialize (IH p1 Hp1). destruct (persist_all _ _ _ rs p1) as [p2 ds2].
  destruct IH as (Hp2 & Hall & Hos2 & Hd2). split_and!; [done|constructor; [by apply Hos2|done]| |].
  - intros fp Hfp. by apply Hos2, Hos.
  - change (told clock (r :: rs)) with (told clock [r] ++ told clock rs).
    by rewrite run_disp_app, <-Hd, <-Hd2.
Qed.
End effects.

(** * Runs of the program *)

(** An event from a reader, or the dispatcher's timer. *)
Inductive move :=
| Deliver (now : Z) (s : Loglight.Source) (ev : Event)
| Tick (now : Z).

Definition move_event (m : move) : option Event :=
  match m with Deliver _ _ ev => Some ev | Tick _ => None end.

(** What the moves do to the detectors and the correlator, and the calls to the
    dispatcher they make. *)
Fixpoint moves_trace `{TimeFormat} (ms : list move) (en : Detect.Engine) (c : Correlator) :
    Detect.Engine * Correlator * list di_op :=
  match ms with
  | [] => (en, c, [])
  | m :: ms =>
    let '(en, c, ops) :=
      match m with
      | Deliver now _ ev => let '(en, c, rs) := event_trace ev en c in (en, c, told now rs)
      | Tick now => (en, c, [OpFlush now])
      end in
    let '(en, c, ops') := moves_trace ms en c in
    (en, c, ops ++ ops')
  end.

Section moves.
Context {L W T : Type} `{LogStoreSpec L} `{StoreSpec W} `{TargetStoreSpec T}.
Context `{TimeFormat} `{JSONEncoder} `{!StoreJSON W} `{Quoter} `{MapRange} `{SortSlice}.
Context (newID : Z → M W string string).
Hypothesis newID_ok : fresh_ids newID.

Abbreviation world := (World L W T).

Definition move_world (w : world) (m : move) : world :=
  match m with
  | Deliver now s ev => handle_event newID now s ev w
  | Tick now => match wd_Disp w with Some d => set_Disp (Notify.Flush now d) w | None => w end
  end.

(** A move of a running reader, that tags its events with its own name. *)
Definition from_reader (w : world) (m : move) : Prop :=
  match m with
  | Deliver _ s ev => ig_running (ap_Ingest (wd_App w)) !! Source_ID s = Some s ∧ e_SourceID ev = Source_ID s
  | Tick _ => True
  end.

(** What a trace says of a run. *)
Record follows (w w' : world) (t : Detect.Engine * Correlator * list di_op) : Prop := {
  fo_detect : wd_Detect w' = t.1.1;
  fo_corr : wd_Corr w' = t.1.2;
  fo_disp : (wd_Disp w', wd_Sent w') =
    let '(d, ds) := run_disp t.2 (wd_Disp w) in (d, wd_Sent w ++ ds);
  fo_opens : opens (sv_Store (wd_Server w)) (sv_Store (wd_Server w'));
  fo_opened : ∀ now e, OpEnqueue now e ∈ t.2 →
    opened (sv_Store (wd_Server w')) (f_Fingerprint (n_Finding e));
  fo_running : ig_running (ap_Ingest (wd_App w')) = ig_running (ap_Ingest (wd_App w));
}.

Lemma told_opened now n e rs (w : W) :
  Forall (λ r, opened w (f_Fingerprint (detectionFinding r))) rs →
  OpEnqueue n e ∈ told now rs → opened w (f_Fingerprint (n_Finding e)).
Proof.
  intros Hall (r & [= -> ->] & Hr)%list_elem_of_fmap. by apply (proj1 (Forall_forall _ _) Hall).
Qed.

Lemma deliver_follows now s ev (w : world) : safe w → from_reader w (Deliver now s ev) →
  safe (handle_event newID now s ev w) ∧
  follows w (handle_event newID now s ev w)
    (let '(en, c, rs) := event_trace ev (wd_Detect w) (wd_Corr w) in (en, c, told now rs)).
Proof.
  intros Hs [Hr He]. destruct (running_named w s Hs Hr) as [Hv Hne].
  split; [by apply handle_event_safe|].
  unfold handle_event, emit_event. rewrite He.
  assert (is_empty (Source_ID s) = false) as -> by (by apply bool_decide_eq_false).
  rewrite Handle_writes. cbn [pl_Detect pl_Corr pipe].
  pose proof (event_trace_ok ev (wd_Detect w) (wd_Corr w)) as Hok. rewrite He in Hok.
  destruct (event_trace ev (wd_Detect w) (wd_Corr w)) as [[en c] rs]. cbn [snd] in Hok.
  assert (pipe_ok (ap_Log (wd_App w)) (pipe w)) as Hp by (destruct Hs as [Hw _ Hrec Hst _]; split; [apply Hw|done..]).
  pose proof (persist_all_effect newID newID_ok _ now _ rs Hv Hne Hok (pipe w) Hp) as Heff.
  rewrite persist_all_engines. destruct (persist_all newID true now rs (pipe w)) as [p ds].
  destruct Heff as (_ & Hall & Hop & Hd).
  split; cbn [wd_Detect wd_Corr wd_Disp wd_Sent wd_Server wd_App put_pipe set_engines fst snd set_App sv_Store set_Store]; try done.
  - cbn [pl_Disp pipe] in Hd. by rewrite <- Hd.
  - intros n e. by apply told_opened.
Qed.

Lemma moves_follow ms : ∀ w : world, safe w → Forall (from_reader w) ms →
  safe (foldl move_world w ms) ∧
  follows w (foldl move_world w ms) (moves_trace ms (wd_Detect w) (wd_Corr w)).
Proof.
  induction ms as [|m ms IH]; intros w Hs Hf; cbn [foldl moves_trace].
  { split; [done|]. split; try done.
    - destruct (wd_Disp w); cbn; by rewrite app_nil_r.
    - by intros fp.
    - by intros now e ?%elem_of_nil. }
  apply Forall_cons in Hf as [Hm Hf].
  set (t := match m with Deliver now _ ev => _ | Tick now => _ end).
  assert (safe (move_world w m) ∧ follows w (move_world w m) t) as [Hs1 [Hd1 Hc1 Hp1 Ho1 Hn1 Hr1]].
  { subst t. destruct m as [now s ev|now]; cbn [move_world]; [by apply deliver_follows|].
    destruct (wd_Disp w) as [d|] eqn:Hd; [split; [by apply (safe_same w)|]|split; [done|]].
    - split; try done; cbn [snd wd_Disp wd_Sent set_Disp]; [|by intros fp|].
      + rewrite Hd, run_disp_one. cbn [di_step]. by destruct (Notify.Flush now d).
      + by intros n e ?%list_elem_of_singleton.
    - split; try done; cbn [snd]; [|by intros fp|].
      + rewrite Hd. cbn. by rewrite app_nil_r.
      + by intros n e ?%list_elem_of_singleton. }
  destruct t as [[en c] ops]. cbn [fst snd] in *.
  destruct (IH (move_world w m) Hs1) as [Hs2 [Hd2 Hc2 Hp2 Ho2 Hn2 Hr2]].
  { eapply Forall_impl; [exact Hf|]. intros m'. unfold from_reader. by rewrite Hr1. }
  split; [done|]. rewrite Hd1, Hc1 in *.
  destruct (moves_trace ms en c) as [[en2 c2] ops2]. cbn [fst snd] in *.
  split; cbn [fst snd]; [done|done| | | |by rewrite Hr2].
  - rewrite Hp2, run_disp_app. destruct (run_disp ops (wd_Disp w)) as [d1 ds1].
    injection Hp1 as -> ->. destruct (run_disp ops2 d1) as [d2 ds2]. by rewrite app_assoc.
  - intros fp Hfp. by apply Ho2, Ho1.
  - intros n e [He|He]%elem_of_app; [apply Ho2; by eapply Hn1|by eapply Hn2].
Qed.
End moves.

(** * The detectors and the correlator of a run *)

(** The correlator's operations for one event with its detections, and for events
    in a row. *)
Definition event_ops (e : Event) (dets : list Detection) : list op :=
  concat (map (λ d, [OpDetection d; OpSentinel d]) dets) ++
  (if str_eqb (e_Auth e) AuthSuccess
   then [OpSuccess (Actor e) (e_Host e) (e_User e) (e_Timestamp e) (e_Raw e)] else []).

Fixpoint corr_ops (evs : list Event) (en : Detect.Engine) : list op :=
  match evs with
  | [] => []
  | e :: evs => let '(en, dets) := Engine_Observe e en in event_ops e dets ++ corr_ops evs en
  end.

Lemma after_app ops1 ops2 c : after (ops1 ++ ops2) c = after ops2 (after ops1 c).
Proof. apply foldl_app. Qed.

Lemma run_app ops1 : ∀ ops2 c, run (ops1 ++ ops2) c = run ops1 c ++ run ops2 (after ops1 c).
Proof.
  induction ops1 as [|o ops1 IH]; intros ops2 c; [done|]. cbn [run app after foldl].
  destruct (Correlate.step o c) as [c' r]. by rewrite IH, app_assoc.
Qed.

Lemma detections_of_ops e dets : concat (map op_detections (event_ops e dets)) = dets.
Proof.
  unfold event_ops. rewrite map_app, concat_app.
  assert (concat (map op_detections (if str_eqb (e_Auth e) AuthSuccess
    then [OpSuccess (Actor e) (e_Host e) (e_User e) (e_Timestamp e) (e_Raw e)] else [])) = []) as ->
    by (by destruct (str_eqb _ _)).
  rewrite app_nil_r. induction dets as [|d dets IH]; [done|]. cbn. by rewrite IH.
Qed.

Lemma corr_ops_detections evs : ∀ en,
  concat (map op_detections (corr_ops evs en)) = (Engine_run evs en).2.
Proof.
  induction evs as [|e evs IH]; intros en; [done|]. cbn [corr_ops Engine_run].
  destruct (Engine_Observe e en) as [en1 dets]. rewrite map_app, concat_app, detections_of_ops, IH.
  by destruct (Engine_run evs en1).
Qed.

Section run_trace.
Context `{TimeFormat}.

Lemma detections_trace_spec id dets : ∀ c,
  let ops := concat (map (λ d, [OpDetection d; OpSentinel d]) dets) in
  let '(c', rs) := detections_trace id dets c in
  c' = after ops c ∧ (∀ d, d ∈ dets → detectionRecord id d ∈ rs) ∧
  ∀ i, i ∈ run ops c → incidentRecord id i ∈ rs.
Proof.
  induction dets as [|d dets IH]; intros c; cbn [map concat app detections_trace].
  { split_and!; [done|by intros d ?%elem_of_nil|by intros i ?%elem_of_nil]. }
  cbn [run Correlate.step after foldl fst option_list app].
  destruct (ObserveSentinelFinding d (ObserveDetection d c)) as [c1 inc]. specialize (IH c1). cbn in IH.
  destruct (detections_trace id dets c1) as [c2 rs]. destruct IH as (-> & Hd & Hi).
  split_and!; [done| |].
  - intros d' [->|Hin]%elem_of_cons; [by left|]. right. apply elem_of_app. right. by apply Hd.
  - intros i. change (option_list None ++ ?l) with l.
    intros [Hin|Hin]%elem_of_app; right; apply elem_of_app; [left|right; by apply Hi].
    by apply list_elem_of_fmap_2.
Qed.

Lemma event_trace_spec e en c :
  let '(en', dets) := Engine_Observe e en in
  let '(en2, c', rs) := event_trace e en c in
  en2 = en' ∧ c' = after (event_ops e dets) c ∧
  (∀ d, d ∈ dets → detectionRecord (e_SourceID e) d ∈ rs) ∧
  ∀ i, i ∈ run (event_ops e dets) c → incidentRecord (e_SourceID e) i ∈ rs.
Proof.
  unfold event_trace, event_ops. destruct (Engine_Observe e en) as [en' dets].
  pose proof (detections_trace_spec (e_SourceID e) dets c) as Hs. cbn zeta in Hs.
  destruct (detections_trace (e_SourceID e) dets c) as [c1 rs]. destruct Hs as (-> & Hd & Hi).
  set (ops := concat _) in *. rewrite after_app, run_app.
  destruct (str_eqb _ _); cbn [after foldl run Correlate.step].
  - fold (after ops c). destruct (ObserveSuccess _ _ _ _ _ _) as [c2 inc]. cbn [fst].
    split_and!; [done|done| |].
    + intros d Hin. apply elem_of_app. left. by apply Hd.
    + rewrite app_nil_r. intros i [Hin|Hin]%elem_of_app; apply elem_of_app; [left; by apply Hi|right].
      by apply list_elem_of_fmap_2.
  - rewrite app_nil_r. by split_and!.
Qed.

Lemma elem_of_told now r rs : r ∈ rs → OpEnqueue now (alert r) ∈ told now rs.
Proof. apply (list_elem_of_fmap_2 (λ r, OpEnqueue now (alert r))). Qed.

(** The trace of a run by its events: the detectors' run, the correlator's run,
    and an alert for every detection and every incident. *)
Lemma moves_trace_spec ms : ∀ en c,
  let evs := omap move_event ms in
  let '(en', c', ops) := moves_trace ms en c in
  en' = (Engine_run evs en).1 ∧ c' = after (corr_ops evs en) c ∧
  (∀ d, d ∈ (Engine_run evs en).2 → ∃ ev now, ev ∈ evs ∧
     OpEnqueue now (alert (detectionRecord (e_SourceID ev) d)) ∈ ops) ∧
  ∀ i, i ∈ run (corr_ops evs en) c → ∃ ev now, ev ∈ evs ∧
     OpEnqueue now (alert (incidentRecord (e_SourceID ev) i)) ∈ ops.
Proof.
  induction ms as [|m ms IH]; intros en c; cbn [moves_trace omap list_omap].
  { cbn. split_and!; [done|done|by intros d ?%elem_of_nil|by intros i ?%elem_of_nil]. }
  destruct m as [now s ev|now]; cbn [move_event].
  - pose proof (event_trace_spec ev en c) as He. cbn [Engine_run corr_ops].
    destruct (Engine_Observe ev en) as [en1 dets]. destruct (event_trace ev en c) as [[en2 c1] rs].
    destruct He as (-> & -> & Hd & Hi). specialize (IH en1 (after (event_ops ev dets) c)).
    rewrite after_app, run_app. cbn zeta in IH. fold (omap move_event ms) in *.
    destruct (Engine_run (omap move_event ms) en1) as [en3 ds].
    destruct (moves_trace ms en1 _) as [[en4 c4] ops]. destruct IH as (-> & -> & Hd2 & Hi2).
    cbn [snd] in *. split_and!; [done|done| |].
    + intros d [Hin|Hin]%elem_of_app.
      * exists ev, now. split; [by left|]. apply elem_of_app. left. by apply elem_of_told, Hd.
      * destruct (Hd2 d Hin) as (e & n & He & Ho). exists e, n. split; [by right|]. apply elem_of_app. by right.
    + intros i [Hin|Hin]%elem_of_app.
      * exists ev, now. split; [by left|]. apply elem_of_app. left. by apply elem_of_told, Hi.
      * destruct (Hi2 i Hin) as (e & n & He & Ho). exists e, n. split; [by right|]. apply elem_of_app. by right.
  - specialize (IH en c). cbn zeta in IH. fold (omap move_event ms) in *.
    destruct (moves_trace ms en c) as [[en4 c4] ops]. destruct IH as (-> & -> & Hd2 & Hi2).
    split_and!; [done|done| |].
    + intros d Hin. destruct (Hd2 d Hin) as (e & n & He & Ho). exists e, n. split; [done|]. by right.
    + intros i Hin. destruct (Hi2 i Hin) as (e & n & He & Ho). exists e, n. split; [done|]. by right.
Qed.
End run_trace.

(** ** A brute force that is followed by a login *)

(** The chain of [a] waits for a login, with its brute force at [t]. *)
Definition primed (a : string) (t : Z) (c : Correlator) : Prop :=
  ∃ s b, co_states c !! a = Some s ∧ ac_brute s = Some b ∧ ac_bruteAt s = t ∧ co_fired c !! a = None.

Definition brute_by (a : string) (d : Detection) : Prop := d_Kind d = KindBruteForce ∧ d_Actor d = a.

#[local] Instance brute_by_dec a d : Decision (brute_by a d).
Proof. unfold brute_by. apply _. Defined.

(** The brute-force detections of [a] among the operations. *)
Definition brutes (a : string) (ops : list op) : list Detection :=
  filter (brute_by a) (concat (map op_detections ops)).

Lemma brutes_cons a o ops : brutes a (o :: ops) = filter (brute_by a) (op_detections o) ++ brutes a ops.
Proof. unfold brutes. cbn. apply filter_app. Qed.

Lemma primed_view a t c c' : view a c' = view a c → primed a t c → primed a t c'.
Proof.
  unfold view. intros [= _ _ Hs Hf] (s & b & ? & ? & ? & ?). exists s, b. by rewrite Hs, Hf.
Qed.

(** Without a further brute force the chain waits on, unless it is closed. *)
Lemma step_primed a t o c c' : brutes a [o] = [] →
  Correlate.step o c = (c', None) → primed a t c → primed a t c'.
Proof.
  intros Hb Hs Hp. destruct (decide (op_actor o = a)) as [Ha|Hne];
    [|by eapply primed_view; [apply (step_other a o c c' None Hs Hne)|]].
  destruct o as [d|d|actor host user at_ raw]; cbn [op_actor] in Ha.
  - cbn in Hs. injection Hs as <-. subst a. destruct Hp as (s & b & H1 & H2 & H3 & H4).
    unfold ObserveDetection. destruct (str_eqb (d_Kind d) KindScan) eqn:Hk; [|destruct (str_eqb (d_Kind d) KindBruteForce) eqn:Hk'].
    + unfold primed, update_actor. cbn. rewrite lookup_insert_eq, H1. cbn. by eexists _, b.
    + to_prop. unfold brutes in Hb. cbn in Hb. by rewrite decide_True in Hb.
    + by exists s, b.
  - revert Hs. cbn. unfold ObserveSentinelFinding. repeat (case_match; try (intros [= <-]; done)); done.
  - revert Hs. cbn. unfold ObserveSuccess. repeat (case_match; try (intros [= <-]; done)); done.
Qed.

Lemma step_about a o c c' i : Correlate.step o c = (c', Some i) → in_Actor i ≠ a → view a c' = view a c.
Proof.
  intros Hs Hne. destruct (step_fires _ _ _ _ Hs) as (Ha & _).
  apply (step_other a o c c' (Some i) Hs). by rewrite <- Ha.
Qed.

Lemma about_cons a r ops c : about a (option_list r ++ run ops c) = about a (option_list r) ++ about a (run ops c).
Proof. apply filter_app. Qed.

Lemma run_primed a t ops : ∀ c, brutes a ops = [] → primed a t c →
  about a (run ops c) ≠ [] ∨ primed a t (after ops c).
Proof.
  induction ops as [|o ops IH]; intros c Hb Hp; [by right|].
  rewrite brutes_cons in Hb. apply app_eq_nil in Hb as [Hb1 Hb2]. cbn [run after foldl].
  destruct (Correlate.step o c) as [c' r] eqn:Hs. cbn [fst]. rewrite about_cons. destruct r as [i|].
  - destruct (decide (in_Actor i = a)) as [He|Hne]; [left; cbn; by rewrite decide_True|].
    destruct (IH c' Hb2 (primed_view _ _ _ _ (step_about _ _ _ _ _ Hs Hne) Hp)) as [Hr|Hr]; [left|by right].
    by destruct (about a (option_list (Some i))).
  - apply IH; [done|]. eapply step_primed; [|exact Hs|done]. by rewrite brutes_cons, Hb1.
Qed.

Lemma run_brute a db ops : ∀ c, brutes a ops = [db] → co_fired c !! a = None →
  about a (run ops c) ≠ [] ∨ primed a (d_LastAt db) (after ops c).
Proof.
  induction ops as [|o ops IH]; intros c Hb Hf; [done|]. rewrite brutes_cons in Hb. cbn [run after foldl].
  destruct (Correlate.step o c) as [c' r] eqn:Hs. cbn [fst]. rewrite about_cons.
  destruct (filter (brute_by a) (op_detections o)) as [|d ds] eqn:Ho.
  - assert (about a (option_list r) ≠ [] ∨ co_fired c' !! a = None) as [Hr|Hf'].
    { destruct r as [i|]; [|right; by rewrite (step_quiet _ _ _ Hs)].
      destruct (decide (in_Actor i = a)) as [He|Hne]; [left; cbn; by rewrite decide_True|right].
      pose proof (step_about _ _ _ _ _ Hs Hne) as Hv. unfold view in Hv. injection Hv as _ _ _ ->. done. }
    + left. by destruct (about a (option_list r)).
    + destruct (IH c' Hb Hf') as [Hr|Hr]; [left|by right]. by destruct (about a (option_list r)).
  - injection Hb as -> Hds. apply app_eq_nil in Hds as [-> Hb].
    destruct o as [d| |]; [|done..]. cbn in Ho. destruct (decide (brute_by a d)) as [[Hk Ha]|]; [|done].
    injection Ho as ->. cbn in Hs. injection Hs as <- <-. cbn [option_list].
    change (about a (option_list None)) with (@nil Incident). apply run_primed; [done|].
    rewrite ObserveDetection_brute by done. unfold primed, update_actor. cbn. rewrite Ha, lookup_insert_eq.
    by eexists _, db.
Qed.

Lemma primed_login a t c host user at_ raw : primed a t c → 0 <= co_window c < MaxInt64 →
  0 <= at_ - t <= co_window c →
  ∃ c' i, ObserveSuccess a host user at_ raw c = (c', Some i) ∧ in_Actor i = a.
Proof.
  intros (s & b & Hs & Hb & <- & Hf) Hw Ht. unfold ObserveSuccess, cooling. rewrite Hs, Hb, Hf.
  assert (in_int64 (co_window c)) as Hi by int_lia.
  rewrite Z.ltb_antisym, time_Sub_leb by (done || lia).
  rewrite (proj2 (Z.leb_le _ _)) by lia. unfold time_Before. rewrite (proj2 (Z.ltb_ge _ _)) by lia.
  cbn [negb orb]. eexists _, _. split; reflexivity.
Qed.

Lemma run_key i ops : ∀ c, i ∈ run ops c → in_Key i = "killchain|" +:+ in_Actor i.
Proof.
  induction ops as [|o ops IH]; intros c; cbn [run]; [by intros ?%elem_of_nil|].
  destruct (Correlate.step o c) as [c' r] eqn:Hs. intros [Hi|Hi]%elem_of_app; [|by eapply IH].
  destruct r as [j|]; [|by apply elem_of_nil in Hi]. apply list_elem_of_singleton in Hi as ->.
  destruct (step_fires _ _ _ _ Hs) as (-> & _ & _ & Hk). done.
Qed.

(** A login by [a] soon after its only brute force, whatever else happened: an
    incident about [a] has been raised by then. *)
Lemma login_closes a db ops c host user at_ raw :
  brutes a ops = [db] → co_fired c !! a = None → 0 <= co_window c < MaxInt64 →
  0 <= at_ - d_LastAt db <= co_window c →
  ∃ i, i ∈ run (ops ++ [OpSuccess a host user at_ raw]) c ∧ in_Actor i = a.
Proof.
  intros Hb Hf Hw Ht. rewrite run_app. destruct (run_brute a db ops c Hb Hf) as [Hr|Hp].
  - destruct (about a (run ops c)) as [|i l] eqn:Ha; [done|].
    assert (i ∈ about a (run ops c)) as [? ?]%list_elem_of_filter by (rewrite Ha; by left).
    exists i. split; [|done]. apply elem_of_app. by left.
  - assert (co_window (after ops c) = co_window c) as Hwin.
    { clear -ops. revert c. induction ops as [|o ops IH]; intros c; [done|].
      change (after (o :: ops) c) with (after ops (Correlate.step o c).1). rewrite IH.
      destruct (Correlate.step o c) as [c' r] eqn:Hs. apply (step_config _ _ _ _ Hs). }
    rewrite <- Hwin in Hw, Ht.
    destruct (primed_login a (d_LastAt db) (after ops c) host user at_ raw Hp Hw Ht) as (c' & i & Ho & Hi).
    exists i. split; [|done]. apply elem_of_app. right. cbn [run Correlate.step]. rewrite Ho. by left.
Qed.

(** ** The detector's part *)

Lemma brute_key evs : ∀ b : bruteForce, Forall (λ d, d_Key d = "brute|" +:+ d_Actor d) (det_run evs b).
Proof.
  induction evs as [|e evs IH]; intros b; cbn [det_run]; [constructor|].
  destruct (det_observe e b) as [b' r] eqn:Ho. apply Forall_app. split; [|apply IH].
  cbn in Ho. unfold bruteForce_observe in Ho.
  repeat case_match; simplify_eq; cbn; repeat constructor.
Qed.

(** Eight failed logins in a minute: one brute force of that actor in the run of a
    fresh engine, at the last of them. *)
Lemma fresh_burst a evs l : let fs := filter (fails_as a) evs in
  a ≠ "" → length fs = 8%nat → span_ok (60 * Second) fs → last fs = Some l →
  ∃ d, brutes a (corr_ops evs bootDetect) = [d] ∧ d ∈ (Engine_run evs bootDetect).2 ∧
    d_Kind d = KindBruteForce ∧ d_Key d = "brute|" +:+ a ∧ d_LastAt d = e_Timestamp l.
Proof.
  intros fs Hne Hn Hs Hl. unfold brutes. rewrite corr_ops_detections.
  assert (of_kind KindBruteForce (Engine_run evs bootDetect).2 = det_run evs (en_brute bootDetect)) as Hk.
  { refine (Engine_run_share en_brute 0%nat eq_refl _ evs bootDetect). intros ev e.
    destruct (Observe_results ev e) as (rs & Hr & Hok & -> & Hb & _).
    eexists. split; [exact Hr|]. by split_and!. }
  destruct (brute_burst_aux (Detect.withDefaults zeroConfig) a evs (en_brute bootDetect) []) as [_ Hb];
    [done|done|done|done|done|]. cbn [app] in Hb. fold fs in Hb.
  destruct Hb as (d & Hd & _ & _ & Hlast); [by rewrite Hn|].
  assert (filter (brute_by a) (Engine_run evs bootDetect).2 = [d]) as Hf.
  { rewrite <- Hd, <- Hk. unfold of_kind. rewrite list_filter_filter. apply list_filter_iff.
    intros x. unfold brute_by. tauto. }
  assert (d ∈ filter (brute_by a) (Engine_run evs bootDetect).2) as [[Hdk Hda] Hin]%list_elem_of_filter
    by (rewrite Hf; by left).
  exists d. split_and!; [done|done|done| |].
  - rewrite <- Hda. apply (proj1 (Forall_forall _ _) (brute_key evs (en_brute bootDetect))). rewrite <- Hk.
    by apply list_elem_of_filter.
  - rewrite Hl in Hlast. by injection Hlast.
Qed.

(** ** The dispatcher's part *)

Lemma told_regular `{TimeFormat} now rs :
  Forall (λ o, match o with OpEnqueue _ e => regular e | OpClose _ => False | _ => True end) (told now rs).
Proof. apply Forall_fmap, Forall_true. intros r. split; [by left|reflexivity]. Qed.

Lemma moves_regular `{TimeFormat} ms : ∀ en c,
  Forall (λ o, match o with OpEnqueue _ e => regular e | OpClose _ => False | _ => True end)
    (moves_trace ms en c).2.
Proof.
  induction ms as [|m ms IH]; intros en c; cbn [moves_trace]; [constructor|].
  destruct m as [now s ev|now].
  - destruct (event_trace ev en c) as [[en1 c1] rs]. specialize (IH en1 c1).
    destruct (moves_trace ms en1 c1) as [[en2 c2] ops]. apply Forall_app. split; [apply told_regular|done].
  - specialize (IH en c). destruct (moves_trace ms en c) as [[en2 c2] ops]. by constructor.
Qed.

Section report.
Context {L W T : Type} `{LogStoreSpec L} `{StoreSpec W} `{TargetStoreSpec T}.
Context `{TimeFormat} `{JSONEncoder} `{!StoreJSON W} `{Quoter} `{MapRange} `{SortSlice}.
Context (newID : Z → M W string string).
Hypothesis newID_ok : fresh_ids newID.

(** A finding that is stored open and announced by the end. *)
Definition reported (w : World L W T) (fp : string) : Prop :=
  opened (sv_Store (wd_Server w)) fp ∧
  ∀ now, ∃ dg f, dg ∈ wd_Sent (shutdown now w) ∧ f ∈ dg_Opened dg ∧ f_Fingerprint f = fp.

Lemma alert_reported cfg (w w' : World L W T) t now r :
  follows w w' t → wd_Disp w = Some (NewDispatcher cfg) → MinSeverity cfg = "" →
  Forall (λ o, match o with OpEnqueue _ e => regular e | OpClose _ => False | _ => True end) t.2 →
  OpEnqueue now (alert r) ∈ t.2 → reported w' (f_Fingerprint (detectionFinding r)).
Proof.
  intros [_ _ Hd _ Ho _] Hdisp Hcfg Hreg Hin. split; [exact (Ho now (alert r) Hin)|]. intros now'.
  apply list_elem_of_split in Hin as (before & rest & Hops). rewrite Hops in Hreg, Hd.
  destruct (opened_is_delivered cfg now now' (alert r) before rest Hreg eq_refl (or_introl Hcfg))
    as (ds & dg & f & Hds & Hdg & _ & Hf & Hfp).
  exists dg, f. split_and!; [|done|done].
  rewrite Hdisp in Hd. unfold shutdown. destruct (wd_Disp w') as [d'|] eqn:Hw'.
  - pose proof (run_disp_app (before ++ OpEnqueue now (alert r) :: rest) [OpClose now'] (Some (NewDispatcher cfg))) as Happ.
    destruct (run_disp (before ++ _) _) as [d1 ds1]. injection Hd as <- Hsent.
    rewrite run_disp_one in Happ. cbn [di_step] in Happ. unfold set_Disp. cbn [wd_Sent].
    destruct (Close now' d') as [d2 ds2]. rewrite Hsent. cbn [snd].
    cbn [run_disp] in Happ. rewrite <- app_assoc, <- app_comm_cons in Happ. 
    destruct (di_run _ _) as [d3 dss]. injection Happ as -> Hc. rewrite <- app_assoc, <- Hc.
    apply elem_of_app. right. apply list_elem_of_In, in_concat. exists ds. by rewrite <- !list_elem_of_In.
  - exfalso. cbn [run_disp] in Hd. by destruct (di_run _ _).
Qed.
End report.

Lemma corr_ops_login evs ev : e_Auth ev = AuthSuccess → ∀ en, ∃ ops,
  corr_ops (evs ++ [ev]) en =
    ops ++ [OpSuccess (Actor ev) (e_Host ev) (e_User ev) (e_Timestamp ev) (e_Raw ev)].
Proof.
  intros Hau. induction evs as [|e evs IH]; intros en; cbn [corr_ops app].
  - destruct (Engine_Observe ev en) as [en1 dets]. unfold event_ops. rewrite Hau, app_nil_r. by eexists.
  - destruct (Engine_Observe e en) as [en1 dets]. destruct (IH en1) as [ops ->].
    exists (event_ops e dets ++ ops). by rewrite app_assoc.
Qed.

(** * Properties *)


(** ** Concrete inputs *)

Section examples.
#[local] Instance exQ : Quoter := exQuoter.
#[local] Instance exR : MapRange := canonical_range.
#[local] Instance exS : SortSlice := canonical_sort.
#[local] Instance exE : Ed25519 := exEd.
#[local] Instance exJ : LicenseJSON := exLicenseJSON.
#[local] Instance exT : TimeFormat := exFormat.
#[local] Instance exM : JSONEncoder := noMarshal.

(** The program with one file source and a dispatcher. *)
Definition exReady : World Loglight.MemStore Store.MemStore Store.MemStore :=
  console (Save 5 (exRequest "auth" "/var/log/auth.log"))
    (set_Disp (NewDispatcher (Notify.mkConfig 0 0 "" 0 0), []) exWorld).

Lemma exReady_safe : safe exReady.
Proof.
  apply console_safe.
  - apply (safe_same exWorld); [done..|apply exWorld_safe].
  - apply exRequest_decoded. reflexivity.
  - intros now sr [= <- <-]. reflexivity.
Qed.

Definition exDeliver (auth : string) (t : Z) : move :=
  Deliver t (FileSource "auth" "/var/log/auth.log" "" "")
    (set_SourceID "auth" (Parse.set_Auth auth (failure (t * Second) "203.0.113.9"))).

Definition exAttack : list move :=
  map (exDeliver AuthFailure) [1; 2; 3; 4] ++ [Tick 5] ++ map (exDeliver AuthFailure) [5; 6; 7; 8].

Lemma exDeliver_from auth t : from_reader exReady (exDeliver auth t).
Proof. split; [vm_compute; reflexivity|reflexivity]. Qed.

Lemma exAttack_from : Forall (from_reader exReady) (exAttack ++ [exDeliver AuthSuccess 20]).
Proof.
  repeat (apply Forall_app; split); [|by repeat constructor| |constructor; [|constructor]; apply exDeliver_from];
    apply Forall_fmap, Forall_true; intros t; apply exDeliver_from.
Qed.

End examples.
