(* ===== verification/Delivery.v ===== *)
(** Alerts under concurrency: what the dispatcher ([src/notify/notify.go]) owes to
    the goroutines of [Goroutines.v], and that a detection is stored and announced
    whatever else is called while it is delivered. *)
From S2P Require Import Prelude Conc Text Float Core Store Reconcile Netip Ingest Netflow Traffic Parse.
From S2P Require Import Detect Correlate Notify Loglight Pipeline Shape System.
From S2P Require Import License Verify AiClient Hfs Web Api Console Main Wiring Tasks Requests Live Boot Goroutines Health.
From S2P Require Sched Attack.
Local Open Scope Z_scope.

(** * The dispatcher among others *)

(** An opened event of the module waits in the window; a digest tells of it. *)
Definition waits (d : Dispatcher) (fp : string) : Prop :=
  ∃ e, e ∈ map_get [] (di_pending d) ModuleID ∧ n_Kind e = KindOpened ∧ f_Fingerprint (n_Finding e) = fp.

Definition tells (ds : list Digest) (fp : string) : Prop :=
  ∃ dg f, dg ∈ ds ∧ f ∈ dg_Opened dg ∧ f_Fingerprint f = fp.

Lemma tells_app ds ds' fp : tells (ds ++ ds') fp ↔ tells ds fp ∨ tells ds' fp.
Proof. unfold tells. setoid_rewrite elem_of_app. naive_solver. Qed.

(** What the [MinSeverity] of a configuration lets through. *)
Definition severe (cfg : Notify.Config) (f : Finding) : Prop :=
  MinSeverity cfg = "" ∨ severityRank (MinSeverity cfg) <= severityRank (f_Severity f).

(** A dispatcher that is in use: what it has seen in this window is in it. *)
Record in_use (cfg : Notify.Config) (d : Dispatcher) : Prop := {
  iu_cfg : di_cfg d = Notify.withDefaults cfg;
  iu_open : di_closed d = false;
  iu_seen : ∀ k, k ∈ di_seen d → ∃ e, regular e ∧ dedup_key e = k ∧ e ∈ map_get [] (di_pending d) (n_Module e);
}.

Lemma NewDispatcher_in_use cfg : in_use cfg (NewDispatcher cfg).
Proof. split; [done..|]. intros k Hk. by apply elem_of_empty in Hk. Qed.

Section dispatcher.
Context `{MapRange} (cfg : Notify.Config).

Lemma flush_tells now d fp : waits d fp → tells (flushLocked now d).2 fp.
Proof.
  intros (e & He & Hk & Hfp). unfold flushLocked. unfold map_get in He.
  destruct (di_pending d !! ModuleID) as [es|] eqn:Hp; [|by apply elem_of_nil in He]. cbn in He.
  destruct (Nat.eqb_spec (size (di_pending d)) 0) as [Hz|_].
  { apply map_size_empty_inv in Hz. by rewrite Hz, lookup_empty in Hp. }
  assert (n_Finding e ∈ dg_Opened (digest_of now ModuleID es)) as Hf.
  { cbn. rewrite sortBySeverity_perm. apply list_elem_of_fmap. exists e. split; [done|].
    by apply list_elem_of_filter. }
  exists (digest_of now ModuleID es), (n_Finding e). split_and!; [|done|done].
  cbn [snd]. apply list_elem_of_filter. split.
  - unfold Empty. destruct (dg_Opened _); [by apply elem_of_nil in Hf|done].
  - apply list_elem_of_fmap. exists (ModuleID, es). split; [done|]. by apply elem_of_range_map.
Qed.

Lemma flush_in_use now d : in_use cfg d → in_use cfg (flushLocked now d).1.
Proof.
  intros [Hc Ho Hs]. unfold flushLocked. case_match; split; cbn; try done; by intros k Hk%elem_of_empty.
Qed.

(** An event taken in. *)
Definition taken (e : NEvent) (t : bool) (d : Dispatcher) : Dispatcher :=
  mkDispatcher (di_cfg d) (<[n_Module e := map_get [] (di_pending d) (n_Module e) ++ [e]]> (di_pending d))
    ({[dedup_key e]} ∪ di_seen d) t (di_closed d).

Lemma taken_grows e t d m x : x ∈ map_get [] (di_pending d) m → x ∈ map_get [] (di_pending (taken e t d)) m.
Proof.
  intros Hx. cbn. destruct (decide (n_Module e = m)) as [<-|Hne].
  - rewrite map_get_insert_eq. apply elem_of_app. by left.
  - by rewrite map_get_insert_ne.
Qed.

Lemma taken_has e t d : e ∈ map_get [] (di_pending (taken e t d)) (n_Module e).
Proof. cbn. rewrite map_get_insert_eq. apply elem_of_app. right. by left. Qed.

Lemma taken_in_use e t d : regular e → in_use cfg d → in_use cfg (taken e t d).
Proof.
  intros Hr [Hc Ho Hs]. split; [done..|]. cbn [di_seen taken].
  intros k [->%elem_of_singleton|Hk]%elem_of_union.
  - exists e. split_and!; [done|done|apply taken_has].
  - destruct (Hs k Hk) as (e' & ? & ? & ?). exists e'. split_and!; [done|done|by apply taken_grows].
Qed.

(** [Enqueue] loses nothing that waits, and takes in what is severe enough, unless
    the window has it already. *)
Lemma Enqueue_in_use now e d : regular e → n_Module e = ModuleID → in_use cfg d →
  let '(d', ds) := Enqueue now e d in
  in_use cfg d' ∧ (∀ fp, waits d fp → waits d' fp ∨ tells ds fp) ∧
  (n_Kind e = KindOpened → severe cfg (n_Finding e) →
    waits d' (f_Fingerprint (n_Finding e)) ∨ tells ds (f_Fingerprint (n_Finding e))).
Proof.
  intros Hr Hm Hu. pose proof Hu as [Hc Ho Hs]. unfold Enqueue.
  destruct (str_eqb (n_Kind e) KindOpened && negb (passesSeverity (f_Severity (n_Finding e)) d)) eqn:Hsev.
  { split_and!; [done|by left|]. intros Hk Hsv. exfalso. apply andb_prop in Hsev as [_ Hp].
    unfold passesSeverity in Hp. rewrite Hc in Hp. cbn [MinSeverity Notify.withDefaults] in Hp.
    destruct Hsv as [Hz|Hz]; [by rewrite Hz in Hp|]. apply Z.leb_le in Hz. rewrite Hz, orb_true_r in Hp. done. }
  rewrite Ho. case_bool_decide as Hk.
  { split_and!; [done|by left|]. intros Hop _. left.
    destruct (Hs _ Hk) as (e' & Hr' & Hkey & Hin).
    destruct (dedup_key_regular e e' Hr Hr' Hkey) as (Hk' & Hm' & Hf').
    exists e'. split_and!; [by rewrite <- Hm, <- Hm'|congruence|done]. }
  cbn zeta.
  assert (∀ t, waits (taken e t d) (f_Fingerprint (n_Finding e)) ∨ n_Kind e ≠ KindOpened) as Hw.
  { intros t. destruct (decide (n_Kind e = KindOpened)) as [Hop|]; [left|by right].
    exists e. split_and!; [rewrite <- Hm; apply taken_has|done|done]. }
  assert (∀ t fp, waits d fp → waits (taken e t d) fp) as Hg.
  { intros t fp (x & Hx & ? & ?). exists x. split_and!; [by apply taken_grows|done|done]. }
  pose proof (taken_in_use e (di_timer d) d Hr Hu) as Hu1.
  pose proof (taken_in_use e true d Hr Hu) as Hu2.
  unfold taken in Hu1, Hu2, Hw, Hg. rewrite Ho in Hu1, Hu2, Hw, Hg. cbn [di_cfg].
  destruct (MaxBatch _ <=? _).
  - match goal with |- context [flushLocked now ?d1] => set (d2 := d1) in * end.
    pose proof (flush_in_use now d2 Hu1) as Hf. pose proof (flush_tells now d2) as Ht.
    destruct (flushLocked now d2) as [d' ds]. cbn [fst snd] in *. split_and!; [done| |].
    + intros fp Hfp. right. apply Ht. by apply Hg.
    + intros Hop _. right. apply Ht. by destruct (Hw (di_timer d)).
  - split_and!; [done| |].
    + intros fp Hfp. left. by apply Hg.
    + intros Hop _. left. by destruct (Hw true).
Qed.
End dispatcher.

(** * What the goroutines owe *)

(** Calls keep the dispatcher in use, send or keep what waits, and do not forget
    what they are told. *)
Definition alert_watch `{MapRange} (cfg : Notify.Config) : Watch.
Proof.
  refine {|
    watch_ok n := ∃ d, n.1 = Some d ∧ in_use cfg d;
    watch_to n n' := ∃ ds, n'.2 = n.2 ++ ds ∧
      ∀ d fp, n.1 = Some d → waits d fp → (∃ d', n'.1 = Some d' ∧ waits d' fp) ∨ tells ds fp;
    noted n0 e n := n_Kind e = KindOpened → severe cfg (n_Finding e) → ∃ ds, n.2 = n0.2 ++ ds ∧
      ((∃ d, n.1 = Some d ∧ waits d (f_Fingerprint (n_Finding e))) ∨ tells ds (f_Fingerprint (n_Finding e)));
  |}.
  - intros [od ds]. exists []. cbn. rewrite app_nil_r. split; [done|]. intros d fp -> Hw. left. by exists d.
  - intros [o1 s1] [o2 s2] [o3 s3] (da & Ha & Hwa) (db & Hb & Hwb). cbn in *. subst s2 s3.
    exists (da ++ db). rewrite app_assoc. split; [done|]. intros d fp Hd Hw.
    rewrite tells_app. destruct (Hwa d fp Hd Hw) as [(d' & Hd' & Hw')|]; [|tauto].
    destruct (Hwb d' fp Hd' Hw'); tauto.
  - intros [o0 s0] e [o1 s1] [o2 s2] Hn (db & Hb & Hwb) Hk Hs. cbn in *.
    destruct (Hn Hk Hs) as (da & Ha & Hw). subst s1 s2. exists (da ++ db). rewrite app_assoc. split; [done|].
    rewrite tells_app. destruct Hw as [(d & Hd & Hw)|]; [|tauto]. destruct (Hwb d _ Hd Hw); tauto.
  - intros now e [od s] Hr Hm (d & Hd & Hu). cbn in Hd. subst od. unfold tell. cbn [fst snd].
    pose proof (Enqueue_in_use cfg now e d Hr Hm Hu) as He. destruct (Enqueue now e d) as [d' ds].
    destruct He as (Hu' & Hg & Ht). cbn [fst snd]. split_and!; [by exists d'| |].
    + exists ds. split; [done|]. intros d0 fp [= <-] Hw. destruct (Hg fp Hw); [left; by exists d'|by right].
    + intros [o0 s0] (da & Ha & _) Hk Hs. cbn in *. subst s. exists (da ++ ds). rewrite app_assoc. split; [done|].
      rewrite tells_app. destruct (Ht Hk Hs); [left; by exists d'|tauto].
  - intros now d ds (d0 & Hd & Hu). injection Hd as <-. unfold Notify.Flush.
    pose proof (flush_in_use cfg now d Hu) as Hu'. pose proof (flush_tells now d) as Ht.
    destruct (flushLocked now d) as [d' ds']. cbn [fst snd] in *. split; [by exists d'|].
    exists ds'. split; [done|]. intros d1 fp [= <-] Hw. right. by apply Ht.
Defined.

(** * A goroutine among others *)

Section following.
Context {L W T : Type} `{LogStoreSpec L} `{StoreSpec W} `{TargetStoreSpec T}.
Context `{TimeFormat} `{JSONEncoder} `{!StoreJSON W} `{Quoter} `{MapRange} `{SortSlice}.
Context `{UnicodeTables} `{LogCodec} `{Ed25519} `{LicenseJSON} `{AiJSON} `{!Watch}.
Context (format_date : Z → string) (quote : string → string).
Context (snapshot : string → Hfs.Meta → HfsSource → Z → option string).
Context (newID : Z → M W string string).
Hypothesis newID_ok : fresh_ids newID.

Abbreviation world := (World L W T).
Abbreviation working := (busy (L := L) (T := T) format_date quote snapshot newID).

Lemma working_good c c' : rtc working c c' → good_config c → good_config c'.
Proof using All.
  induction 1 as [|c c1 c2 Hs _ IH]; [done|]. intros Hc. apply IH.
  by eapply (busy_good format_date quote snapshot newID newID_ok).
Qed.

(** A new goroutine leaves the others in their places. *)
Lemma busy_follow Q i c c' : working c c' → good_config c → keeps c.1 c'.1 →
  (∃ p, c.2 !! i = Some p ∧ sound fit keeps keeps Q c.1 p) →
  ∃ p, c'.2 !! i = Some p ∧ sound fit keeps keeps Q c'.1 p.
Proof using All.
  intros Hs Hc Hk (p & Hp & Hq). cbn [fst snd] in *.
  assert (∀ w ps q, ps !! i = Some p → sound fit keeps keeps Q w p →
    ∃ p, (w, ps ++ [q]).2 !! i = Some p ∧ sound fit keeps keeps Q (w, ps ++ [q]).1 p) as Hnew.
  { intros w ps q Hp' Hq'. exists p. split; [by apply lookup_app_l_Some|done]. }
  destruct Hs as [c c' Hgo|w ps rq _|w ps req _|w ps canonical]; [|by apply Hnew..].
  destruct Hgo as [w w' ps Hst|w ps now s ev _ _|w ps cx now t _ Ht|w ps req|w ps j]; cbn [fst snd] in *.
  - exists p. split; [done|]. by eapply sound_later; [exact _|exact Hk|].
  - apply Hnew; [done|]. by eapply sound_later; [exact _|exact Hk|].
  - by apply Hnew.
  - by apply Hnew.
  - destruct (decide (i = j)) as [<-|Hne].
    + destruct (advance_sound fit keeps keeps (λ _ _ H, H) Q p w (proj1 Hc) Hq) as (_ & _ & Hq').
      unfold advance_nth in *. cbn [fst snd] in *. rewrite Hp in *. destruct (advance p w) as [w' p'].
      exists p'. split; [|done]. apply list_lookup_insert_eq. by eapply lookup_lt_Some.
    + exists p. split; [|by eapply sound_later; [exact _|exact Hk|]].
      unfold advance_nth. cbn [fst snd]. destruct (ps !! j) as [q|]; [|done]. destruct (advance q w). cbn.
      by rewrite list_lookup_insert_ne.
Qed.

(** While the program works, a goroutine stays in its place and on its way to [Q]. *)
Lemma follow Q i c c' : rtc working c c' → good_config c →
  (∃ p, c.2 !! i = Some p ∧ sound fit keeps keeps Q c.1 p) →
  ∃ p, c'.2 !! i = Some p ∧ sound fit keeps keeps Q c'.1 p.
Proof using All.
  induction 1 as [|c c1 c2 Hs _ IH]; [done|]. intros Hc Hp.
  destruct (busy_good format_date quote snapshot newID newID_ok c c1 Hs Hc) as [Hc1 Hk].
  apply IH; [done|]. by apply (busy_follow _ _ c).
Qed.

(** The finding of a record is stored, and its alert is noted. *)
Definition recorded_in (n0 : notices) (rec : DetectionRecord) (w : world) : Prop := recorded n0 rec (the_pipe w).

(** A delivery after its first call, that to the detectors. *)
Lemma delivery_starts now ev (w : world) : valid_source (e_SourceID ev) → e_SourceID ev ≠ "" → fit w →
  let '(w', p) := advance (event_goroutine newID now ev) w in
  world_notices w' = world_notices w ∧ fit w' ∧
  sound fit keeps keeps
    (λ w'' _, Forall (λ d, recorded_in (world_notices w) (detectionRecord (e_SourceID ev) d) w'')
      (Engine_Observe ev (wd_Detect w)).2) w' p.
Proof using newID_ok.
  intros Hv Hne Hf. unfold event_goroutine, Handle_prog. cbn [lift pbind advance]. unfold lift_call at 1.
  assert (at_detect (Engine_Observe ev) (the_pipe w) =
    ((put_detect (Engine_Observe ev (wd_Detect w)).1 (pipe w), wd_Sent w), (Engine_Observe ev (wd_Detect w)).2)) as ->.
  { unfold at_detect, lift_call, the_pipe, compose. cbn [fst snd]. by destruct (Engine_Observe _ _). }
  pose proof (Engine_Observe_shape ev (wd_Detect w)) as Hd.
  set (dets := (Engine_Observe ev (wd_Detect w)).2) in *. set (w' := put_the_pipe _ w).
  assert (world_notices w' = world_notices w) as Hn by done.
  assert (fit w') as Hf'.
  { destruct Hf as [Hs Hw]. split; [|by rewrite Hn]. apply inv_put_pipe; [done| |done].
    split; [by apply inv_log|by apply inv_server|done]. }
  split_and!; [done|done|].
  apply (sound_pbind fit keeps keeps (λ _ _ H, H)
    (λ w'' (_ : ()), Forall (λ d, recorded_in (world_notices w) (detectionRecord (e_SourceID ev) d) w'') dets)); [done| |].
  { intros w1 [] _ _ Hall w2 _ Hg. eapply Forall_impl; [exact Hall|]. intros d Hr.
    by apply (recorded_later _ _ (the_pipe w1)). }
  apply (pipe_lift (λ s _, Forall (λ d, recorded (world_notices w) (detectionRecord (e_SourceID ev) d) s) dets)).
  apply (respond_sound newID newID_ok now (e_SourceID ev)); [done..| |reflexivity].
  destruct Hf' as [Hs Hw]. split; [by apply (inv_log w')|by apply (inv_server w')|done].
Qed.
End following.

Lemma schedule_busy {L W T} `{LogStoreOps L} `{StoreOps W} `{TargetStoreOps T} `{TimeFormat} `{JSONEncoder} `{Quoter}
    `{MapRange} `{SortSlice} `{UnicodeTables} `{LogCodec} `{Ed25519} `{LicenseJSON} `{AiJSON}
    format_date quote snapshot newID sch :
  ∀ c, rtc (busy (L := L) (W := W) (T := T) format_date quote snapshot newID) c (run_schedule sch c).
Proof.
  induction sch as [|i sch IH]; intros [w ps]; cbn [run_schedule foldl]; [apply rtc_refl|].
  eapply rtc_l; [apply b_go, c_run|apply IH].
Qed.

(** * Properties *)

(** C3: No alert is lost to a race. Let a delivery make its first call, to the
    detectors, and let any scans, deliveries, requests and ticks run between its
    other calls, as many of them and in whatever order, the removal of its own source
    too. The delivery can always be
    brought to its end; and when it has ended, every detection it made is a stored
    finding, and one that is severe enough has been told anew since that first call,
    or is told by the time the program shuts down. *)
Theorem race_loses_no_alert `{LogStoreSpec L} `{StoreSpec W} `{TargetStoreSpec T}
    `{TimeFormat} `{JSONEncoder} `{!StoreJSON W} `{Quoter} `{MapRange} `{SortSlice}
    `{UnicodeTables} `{LogCodec} `{Ed25519} `{LicenseJSON} `{AiJSON}
    (format_date : Z → string) (quote : string → string)
    (snapshot : string → Hfs.Meta → HfsSource → Z → option string)
    (newID : Z → M W string string) (newID_ok : fresh_ids newID)
    (cfg : Notify.Config) (w w1 w2 : World L W T) ps1 ps2 i now ev :
  let working := busy format_date quote snapshot newID in
  let dets := (Engine_Observe ev (wd_Detect w1)).2 in
  healthy w → wd_Disp w = Some (NewDispatcher cfg) → rtc working (w, []) (w1, ps1) →
  ps1 !! i = Some (event_goroutine newID now ev) → valid_source (e_SourceID ev) → e_SourceID ev ≠ "" →
  rtc working (advance_nth (w1, ps1) i) (w2, ps2) →
  (∃ sch r, (run_schedule sch (w2, ps2)).2 !! i = Some (Ret r)) ∧
  ∀ r, ps2 !! i = Some (Ret r) → ∀ d, d ∈ dets →
    let f := detectionFinding (detectionRecord (e_SourceID ev) d) in
    is_Some (lookup_rec (the_store w2) ModuleID (f_Fingerprint f)) ∧
    (severe cfg f → ∀ now', ∃ new, wd_Sent (shutdown now' w2) = wd_Sent w1 ++ new ∧ tells new (f_Fingerprint f)).
Proof.
  intros working dets Hw Hd Hs1 Hi Hv Hne Hs2. pose (watch := alert_watch cfg).
  assert (good_config (w, [])) as Hc0.
  { split; [split; [done|]|by intros j p]. exists (NewDispatcher cfg). split; [exact Hd|apply NewDispatcher_in_use]. }
  pose proof (working_good format_date quote snapshot newID newID_ok _ _ Hs1 Hc0) as Hc1.
  pose proof (delivery_starts newID newID_ok now ev w1 Hv Hne (proj1 Hc1)) as Hst.
  pose proof (schedule_busy format_date quote snapshot newID [i] (w1, ps1)) as Hgo.
  pose proof (working_good format_date quote snapshot newID newID_ok _ _ Hgo Hc1) as Hc1'.
  destruct (follow format_date quote snapshot newID newID_ok
    (λ w' _, Forall (λ d, recorded_in (world_notices w1) (detectionRecord (e_SourceID ev) d) w') dets) i
    _ _ Hs2 Hc1') as (p & Hp & Hsp).
  { unfold advance_nth. cbn [fst snd]. rewrite Hi. destruct (advance _ w1) as [w' p'].
    exists p'. split; [|exact (proj2 (proj2 Hst))]. apply list_lookup_insert_eq. by eapply lookup_lt_Some. }
  pose proof (working_good format_date quote snapshot newID newID_ok _ _ Hs2 Hc1') as [Hf2 _].
  cbn [fst snd] in Hp, Hsp, Hf2. split.
  - destruct (completes (w2, ps2)) as [sch Hall]. exists sch.
    destruct ((run_schedule sch (w2, ps2)).2 !! i) as [q|] eqn:Hq.
    + eapply Forall_lookup in Hall; [|exact Hq]. destruct q as [r|]; [by exists r|done].
    + apply lookup_ge_None in Hq. rewrite schedule_length in Hq. cbn in Hq.
      apply lookup_lt_Some in Hp. lia.
  - intros r Hr d Hin f. rewrite Hp in Hr. injection Hr as ->.
    pose proof (Hsp w2 Hf2 ltac:(reflexivity)) as Hall. eapply Forall_forall in Hall; [|exact Hin].
    destruct Hall as [Hrec Hn]. split; [exact Hrec|]. intros Hsev now'.
    destruct (Hn eq_refl Hsev) as (ds & Hds & Ht). destruct Hf2 as [_ (d2 & Hd2 & _)]. cbn in Hd2, Hds, Ht.
    unfold shutdown. rewrite Hd2. unfold Close. pose proof (flush_tells now' d2) as Hfl.
    destruct (flushLocked now' d2) as [d3 ds3]. unfold set_Disp. cbn [wd_Sent snd].
    exists (ds ++ ds3). rewrite Hds, app_assoc. split; [done|]. apply tells_app.
    destruct Ht as [(d4 & Hd4 & Hw4)|Ht]; [right|by left]. rewrite Hd2 in Hd4. injection Hd4 as <-. by apply Hfl.
Qed.

(** When the server is closed what waits is told; when its listener fails the process
    ends at once and what waits is lost, although it is stored. *)
Lemma listener_failure_drops_alerts `{MapRange} {L W T} err stopped now (w : World L W T) d fp :
  wd_Disp w = Some d → waits d fp →
  let r := served err stopped now w in
  match r.2 with
  | None => tells (wd_Sent r.1) fp
  | Some e => ex_code e = 1 ∧ wd_Sent r.1 = wd_Sent w ∧ the_store r.1 = the_store w
  end.
Proof.
  intros Hd Hw. unfold served. destruct (match err with Some e => _ | None => _ end); [done|]. cbn [snd fst].
  assert (∀ w' : World L W T, wd_Disp w' = Some d → tells (wd_Sent (shutdown now w')) fp) as Hs.
  { intros w' Hd'. unfold shutdown, Close. rewrite Hd'. pose proof (flush_tells now d fp Hw) as Ht.
    destruct (flushLocked now d). apply tells_app. by right. }
  apply Hs. by destruct stopped.
Qed.

(** ** Concrete inputs *)

Section examples.
#[local] Instance exQ : Quoter := exQuoter.
#[local] Instance exR : MapRange := canonical_range.
#[local] Instance exS : SortSlice := canonical_sort.
#[local] Instance exE : Ed25519 := exEd.
#[local] Instance exJ : LicenseJSON := exLicenseJSON.
#[local] Instance exA : AiJSON := exJSON.
#[local] Instance exT : TimeFormat := exFormat.
#[local] Instance exU : UnicodeTables := Parse.exTables.
#[local] Instance exC : LogCodec := exCodec.
#[local] Instance exM : JSONEncoder := noMarshal.

(** An account is given privileges while its source is scanned and then removed and a
    request is served; the dispatcher's timer fires in between. *)
Definition exAdmin : Event :=
  set_SourceID "auth" (Parse.set_Action "new_admin" (failure (60 * Second) "203.0.113.9")).

Abbreviation the_source := (FileSource "auth" "/var/log/auth.log" "" "").
Abbreviation exTarget := (mkTarget "auth" "auth" None).
Abbreviation ex_works := (busy (λ _, "") (λ s, s) (λ _ _ _ _, None) freshID).

Definition exBefore :=
  run_schedule [0; 2; 3; 0]%nat
    (emitted the_source exAdmin Attack.exReady,
     [scan_goroutine freshID living 70 exTarget; event_goroutine freshID 70 exAdmin; triage_goroutine (Some ("fp", StatusSuppressed));
      console_goroutine (Delete "auth")]).

Definition exDuring := run_schedule [0; 1; 3; 2; 1; 3; 0; 1; 3; 1]%nat (advance_nth exBefore 1).

Definition ex_flushed (w : World Loglight.MemStore Store.MemStore Store.MemStore) :=
  set_Disp (Notify.Flush 80 (default (NewDispatcher (Notify.mkConfig 0 0 "" 0 0)) (wd_Disp w))) w.

Definition exAfter := run_schedule [0; 1; 1; 2; 0; 0; 0; 1; 1]%nat (ex_flushed exDuring.1, exDuring.2).

Lemma exBefore_reached : rtc ex_works (Attack.exReady, []) exBefore.
Proof.
  etransitivity; [|apply schedule_busy].
  eapply rtc_l; [apply b_go, (c_scan _ _ _ _ living 70 exTarget); [done|vm_compute; constructor]|].
  eapply rtc_l; [apply b_go, (c_event _ _ _ _ 70 the_source exAdmin); [by split|reflexivity]|].
  eapply rtc_l; [apply b_go, (c_triage _ _ _ _ (Some ("fp", StatusSuppressed)))|].
  eapply rtc_l; [apply (b_console _ _ _ _ _ _ (Delete "auth")); by split|].
  apply rtc_refl.
Qed.

Lemma flush_reached c : is_Some (wd_Disp c.1) → ex_works c (ex_flushed c.1, c.2).
Proof.
  destruct c as [w ps]. cbn [fst snd]. intros [d Hd]. unfold ex_flushed. rewrite Hd. cbn [default].
  by apply b_go, c_step, step_notify.
Qed.

Lemma exAfter_reached : rtc ex_works (advance_nth exBefore 1) exAfter.
Proof.
  transitivity exDuring; [apply schedule_busy|].
  refine (rtc_l _ _ _ _ (flush_reached exDuring _) (schedule_busy _ _ _ _ _ _)). vm_compute. by eexists.
Qed.

Lemma race_loses_no_alert_witness :
  let dets := (Engine_Observe exAdmin (wd_Detect exBefore.1)).2 in
  exAfter.2 !! 1%nat = Some (Ret None) ∧ map d_Kind dets = [KindNewAdmin] ∧
  ∀ d, d ∈ dets →
    let fp := f_Fingerprint (detectionFinding (detectionRecord "auth" d)) in
    is_Some (lookup_rec (the_store exAfter.1) ModuleID fp) ∧
    ∀ now', ∃ new, wd_Sent (shutdown now' exAfter.1) = wd_Sent exBefore.1 ++ new ∧ tells new fp.
Proof.
  intros dets.
  assert (exAfter.2 !! 1%nat = Some (Ret None)) as Hend by (vm_compute; reflexivity).
  split; [exact Hend|]. split; [vm_compute; reflexivity|]. intros d Hd fp.
  destruct (race_loses_no_alert (λ _, "") (λ s, s) (λ _ _ _ _, None) freshID freshID_fresh
    (Notify.mkConfig 0 0 "" 0 0) Attack.exReady exBefore.1 exAfter.1 exBefore.2 exAfter.2 1 70 exAdmin) as [_ Hall].
  - exact (safe_healthy _ Attack.exReady_safe).
  - reflexivity.
  - rewrite <- surjective_pairing. exact exBefore_reached.
  - reflexivity.
  - reflexivity.
  - discriminate.
  - rewrite <- !surjective_pairing. exact exAfter_reached.
  - destruct (Hall None Hend d Hd) as [Hst Ht]. split; [exact Hst|]. intros now'. apply Ht. left. reflexivity.
Defined.
End examples.
